(* ===== verification/_CoqProject ===== *)
-Q . S2P
Prelude.v
GoStd.v
GoNet.v
MathUtil.v
HexUtil.v
HexJson.v
CommonBytes.v
RpcTypes.v
Utf8.v
Hash.v
GoMime.v
Json.v
JsonText.v
Codec.v
Notifier.v
Register.v
Server.v
Session.v
Effects.v
Multi.v
Demo.v
DemoMulti.v
SingleShot.v
Serving.v
Recover.v
Transport.v
DemoHttp.v
Wire.v
EndToEnd.v
DemoServing.v
DemoWire.v
DemoRecover.v
Feed.v
FeedLive.v
Scope.v
Entity.v
Etcd.v
Consul.v
LevelDB.v
GoPath.v
Files.v
Zoo.v
Version.v
Tool.v
Cmd.v
NetRand.v
