(* ===== verification/Prelude.v ===== *)
(** * airfk: a verified model of the RPC framework

    airfk serves Go methods over JSON-RPC.  This library models the whole
    program and proves it correct.  The parts and how they interact:

    - a transport (pkg/server/http.go, websocket.go, endpoint.go) checks a
      request and hands its bytes to a codec (pkg/codec/jsonc.go), which turns a
      message into requests and positional arguments, and responses back into
      messages;
    - the server (pkg/server/server.go) registers the methods of receivers as
      callbacks and subscriptions (utils.go), reads requests from a codec,
      resolves them in the registry, runs the methods and writes the responses;
      one goroutine per request, with [Stop] at any time;
    - subscriptions live in the notifier of a connection
      (pkg/server/subscription.go): user code creates them and sends
      notifications, the server activates and cancels them;
    - values travel as hex strings (pkg/common/hexutil, bytes.go) of integers
      with a width (pkg/common/math);
    - pkg/event has the feeds that deliver a value to every subscribed channel,
      and the scopes that cancel subscriptions together;
    - pkg/registry announces services to etcd or consul and finds them again;
      pkg/leveldb wraps a key-value store; pkg/common has helpers for files,
      commands, addresses and random numbers;
    - pkg/zoo and cmd/tool generate the files of a new project.

    ** Files

    - [Prelude]: results and panics with their notations, bytes and strings,
      lemmas on lists and maps, tactics and hint databases.
    - [GoStd], [GoNet], [GoMime], [GoPath], [Utf8], [Json]: the parts of Go's
      standard library the sources call: encoding/hex, strconv, math/big on
      text and bits; durations, net.SplitHostPort and strings; media types;
      path/filepath; runes and case; encoding/json with the raw text of every
      value, and in [JsonText] the texts it writes.  Library code, from its
      documentation; nothing of them is claimed as the repository's.
    - [MathUtil]: pkg/common/math/integer.go and big.go, every function.  A big
      integer is a value; the functions that overwrite their receiver return
      its new value ([Exp] returns what it leaves in its base as well).
    - [HexUtil]: pkg/common/hexutil/hexutil.go, every function.
    - [HexJson]: pkg/common/hexutil/json.go (the types [Bytes], [Big], [Uint64],
      [Uint] and the fixed-size decoders) and the hashes of pkg/types/types.go;
      [Hash]: their formatting and generation.
    - [CommonBytes]: pkg/common/bytes.go, every function.
    - [RpcTypes]: pkg/types/error.go, the request record of types.go, the part
      of [reflect] the server inspects (types and typed values), and the
      interface of pkg/codec/interfaces.go: the class [ServerCodec] with the
      laws [ServerCodecLaws], against which the server is verified.
    - [Codec]: pkg/codec/jsonc.go.  [JsonServerCodec] is the instance of the
      interface, and [JsonServerCodec_laws] discharges its laws.
    - [Notifier]: pkg/server/subscription.go.  A connection [conn] holds the
      codec, the store of [*Subscription] objects (the maps hold addresses, as
      the Go maps hold pointers), the notifier's two maps, and a ghost log of
      the messages handed to [Write], with the error each call returned.
    - [Register]: pkg/server/utils.go and the registration in server.go.
    - [Server]: [readRequest], [handle], [createSubscription], [exec] and
      [execBatch] of server.go, as functions on a connection that may panic.
    - [Session]: [serveRequest], [ServeCodec], [ServeSingleRequest] and [Stop]
      as the step relation [server_step]; a goroutine is a [task], split at its
      effects on the connection; [session_step] adds the steps of user code.
      A session is one connection; [Multi] has the server with all of them: the
      run flag, the set of codecs with its mutex, and [Stop] walking over it.
      [Effects] takes the steps of a session apart into what they do to the
      codec and the log, so that what these operations keep, a session keeps.
      [SingleShot] follows one request from reading to closing; [Serving] keeps
      the accounts of a connection: its [history] is a run of the program with
      the messages it read, [sent], [pending] and [answers] say what was
      handed to [Write], is in the works and is due.
    - [Recover]: the deferred [recover] of [serveRequest], for methods that panic.
    - [Transport]: pkg/server/http.go, websocket.go and endpoint.go: the checks,
      the bounded body, the origin validator, the handlers, the start of
      endpoints.  A served request is a session on the codec of its body.
    - [Wire]: messages as bytes: [NewJSONCodec] of jsonc.go and
      [websocketJSONCodec] of websocket.go as instances of [JsonEnv], the texts
      of the response types by their JSON tags, and what a client reads.
    - [EndToEnd]: transport, codec, registry, dispatch and session composed:
      one call over HTTP from the bytes of its body to the bytes of the answer.
    - [Demo], [DemoMulti], [DemoHttp], [DemoServing], [DemoWire], [DemoRecover]:
      a concrete server on the JSON codec, one with two connections, one behind
      HTTP, one with two requests at a time, one on bytes, and one with a
      method that panics, where the hypotheses of the theorems on codec,
      registry, dispatch, session and transport are discharged.
    - [Feed]: pkg/event/feed.go as the step relation [feed_step], with a step
      wherever a goroutine takes a lock, waits or sends; [FeedLive]: which
      of its operations return in a fair execution, and which wait for ever.
    - [Scope]: [SubscriptionScope] of pkg/event/subscription.go.
    - [Entity]: pkg/registry/entity.go and the grouping both registries share;
      [Etcd], [Consul]: etcd.go and consul.go over an abstract client.
    - [LevelDB]: pkg/leveldb/database.go over an abstract goleveldb.
    - [Files]: pkg/common/files.go over an abstract operating system.
    - [Zoo]: pkg/zoo, with the folders of a tree in a store as the Go code
      points to them; [Tool]: cmd/tool; [Version]: pkg/types/version.go.
    - [Cmd]: pkg/common/cmd, [ExecWithWait] as a step relation; [NetRand]:
      net.go and rand.go of pkg/common, and pkg/service.

    A component over foreign code is a Section on a class of its operations
    ([EtcdClient], [ConsulClient], [GoLevelDB], [OS], [Host], [Exec], ...); a
    second class ([EtcdLaws] and so on) states what that code is documented to
    do, and a Module at the end of the file gives an instance of both and the
    witnesses.

    ** What the theorems show

    - Serving ([Session], [Multi], [Server], [SingleShot], [Serving], [Wire],
      [EndToEnd]): every
      request read is answered exactly once under its identifier, whatever the
      interleaving ([every_request_answered]); a connection of
      [NewJSONCodec] is served to the end, and any whose input ends
      ([stream_served], [finite_connection_served]); the bytes of a call over
      HTTP are answered by the bytes of its method's result, where that can be
      encoded ([http_bytes_answered]); what a connection has written is one line
      for each message that [Write] took, in order, those being the ones that
      can be encoded up to the first write the connection refused
      ([bytes_are_the_log]), and a client reads in it the answers the server
      gave ([message_reads_back]); the answer with the identifier of a
      subscription is handed to [Write] before any notification of it, and where
      that write failed the codec is closed ([notification_follows_answer]); no
      goroutine panics over methods that keep the contract
      ([goroutines_never_panic]), because [handle] calls a resolved method on
      arguments that fit its parameters or not at all ([resolved_call_fits]); each
      request gets exactly one response, and a batch one response per request in
      order ([exec_answers_once], [execBatch_answers_each]); the response is
      that of the registered method ([call_reaches_method]); with any number of
      connections each of them is a session ([connections_refine_sessions]);
      [Stop] ends the server ([stop_ends_server], [stop_terminates] for one
      connection) and closes a single codec ([stop_closes_one_codec]); where a
      codec is registered ([codec_lifecycle]); the goroutines taken step by step refine the sequential functions
      ([goroutine_refines_exec]); a request served on its own is answered once
      and then everything is closed ([single_request_one_response]), and a panic
      in its method is contained ([panic_is_contained]), while on a connection
      it ends the process ([request_ends_process]).
    - Transports: what is refused and what reaches the server
      ([ServeHTTP_gate]), which services an endpoint exposes
      ([endpoint_exposes]), which origins a handshake accepts
      ([handshake_accepts]).
    - Codec: reading back what a client writes, batches against single
      requests, and the argument parser against a reference definition, with
      every error ([parseRequest_encoded], [batch_agrees_with_single],
      [parsePositionalArguments_spec], [checkReqId_accepts]).
    - Registration: which methods are registered, that the registry stays well
      formed and how registrations merge ([suitableCallbacks_exact],
      [RegisterAll_wf], [RegisterName_lookup]).
    - Subscriptions: no panic and the life cycle; the identifiers
      ([notifier_never_panics], [subscription_lifecycle], [NewID_injective]).
    - Feeds and scopes: exactly-once delivery; that a [Send] terminates and an
      [Unsubscribe] completes unless the mutex was left locked; safe removal; and
      that a closed scope has cancelled everything
      ([send_delivers_once], [send_terminates],
      [sends_and_unsubscribes_complete], [removal_finds_case],
      [removed_channel_is_silent], [closed_scope_unsubscribed_all]).
    - Registries: etcd's registration and discovery refine a catalogue of
      announced nodes ([registry_refines_catalogue]), consul's discovery
      returns the healthy nodes in their groups or panics, exactly when
      ([GetService_groups_healthy]), and what a registration files and until
      when ([registered_until_deregistered]); when etcd's discovery panics
      ([GetService_panics]).
    - Stores and files: a batch does what its operations do one by one
      ([batch_equals_operations]), and a reader of a file never sees it half
      written ([WriteFile_atomic]).
    - The generator: a project is written in full and nothing else is touched
      ([project_generated], from [render_builds], which relates rendering to
      the reference [builds]), and two kinds of names for which it never is
      ([taken_name_fails], [go_in_path_fails]).
    - Commands and randomness: the retry loops ([ExecCmd_first_success]), the
      goroutine of [ExecWithWait] ([ExecWithWait_returns]), the values of the
      random source ([source_values]).
    - Integers: exponentiation by squaring is the power modulo 2^256, the word
      loops write the big-endian bytes, checked arithmetic is exact, numbers
      survive their text ([Exp_power], [PaddedBigBytes_bytes],
      [safe_arithmetic_exact], [HexOrDecimal_texts]).
    - Hex: the accepted texts, outcomes, bounds and round trips, and that the
      string functions and the JSON types agree.
    - Some theorems pin down behaviour that is not what the code means to do:
      [stop_closes_one_codec], [type_panic_blocks_feed] and
      [GetService_panics], and the lemmas [empty_frame_is_EOF],
      [pointer_context_panics], [value_subscription_panics],
      [error_type_panics], [untold_notification], [RegisterWithTTL_no_lease],
      [request_ends_process], [taken_name_fails],
      [go_in_path_fails], [null_argument_accepted] and [HexToHash_Hex].

    ** Assumptions, bounds and fuel

    - User methods are the functions [m_Func] of the registry.  Where a theorem
      needs it the registry is a [good_registry]: every method keeps the
      contract [well_behaved] (it returns, does not panic, and acts on the
      connection through the notifier), and its types are those the server can
      handle ([plain_results], and a context by value), which the registration
      does not check.  [Demo] has methods that do, and some that do not.
    - The class [JsonEnv] holds the transport's encode and decode functions,
      the decoding into user types and the texts of encoding/json's errors, with
      [JsonEnvLaws]; [Wire] has instances for [NewJSONCodec] and for websockets,
      over [UserJson] (the texts of user values) and [WebsocketConn] (the frames
      of x/net/websocket).  The writer of a [stream] has a list of outcomes of
      its coming calls, so that any of them may fail after any number of bytes.  [GolangSet] is the walk of golang-set over the
      codecs, as documented.  Reading is a function, so a read returns; a
      goroutine waiting for input is one that takes no step from [PReading].
      [DataTypes] gives user data its Go type;
      [UnicodeTables] holds the case tables beyond Latin-1.
    - Paths name files in one way: there are no links between them.  The name of
      a temporary file follows its pattern as ioutil.TempFile documents it, with
      the last asterisk replaced ([matches_pattern]).  An agent of consul files a
      service without an identifier under its name ([filed]).
    - The iteration order of a Go map is an argument, or left open by a
      permutation ([MapRange] in the registries, the tables in [Tool]).
    - Integers are [Z] with their widths written out; the platform's word is a
      parameter ([strconv.IntSize], 32 or 64) where the code depends on it.
    - Fuel: the recursive descent in [Json] takes twice the length of the input
      and one ([parse_fuel]), and [parse_value_fuel] shows that more changes no
      result; the text loops of the library take the length of their text, and
      the conversions of numbers to digits their number of bits; the
      copy loop of [NewID] runs over at most seven bytes; rendering takes the
      height of the tree, three for a project, and [project_generated] holds
      for any fuel from there; one round of crypto/rand's rejection loop is
      enough for the two bounds used ([source_values]).
    - How much input a connection has left is a measure [remaining] of its codec
      that every read lowers: for [NewJSONCodec] [unread], since a message has
      at most a request per byte ([read_requests_count]).
    - In [Session] every method call is one step: user code that runs beside the
      goroutines is the separate step [ss_user].  In [Feed] which channel is
      ready is nondeterministic: a [TrySend] may fail or succeed, a [Select]
      takes any active case, so the theorems hold for every scheduling.  The
      liveness of [FeedLive] assumes weak fairness of the senders
      ([weakly_fair]: one that can make a step makes one at last, a channel in a
      select being read included) and that an unsubscription offered again and
      again is taken ([removal_chosen]); that a sender can move is proved.

    ** Not modelled

    Logging and the printing of pkg/zoo and pkg/registry; the contents of
    contexts other than the notifier; the verbs of fmt beyond text, hexadecimal
    and element lists (an argument of [Hash_Format]); the inside of net/http,
    x/net/websocket, rs/cors, text/template, go/format and the clients of etcd,
    consul and goleveldb; the two file tables of pkg/zoo/project.go, which
    nothing uses. *)

From Stdlib Require Import ZArith Lia.
From Stdlib Require Strings.Byte.
From Stdlib Require Export Strings.Ascii.
From Stdlib Require Import Init.Byte.
From stdpp Require Import gmap strings list relations.

(** ** Results and panics

    [result E A] is Go's pair [(A, error)] where exactly one side is
    meaningful.  [run A] is a computation that may panic. *)

Inductive result (E A : Type) : Type :=
| Ok (a : A)
| Err (e : E).
Arguments Ok {E A} a.
Arguments Err {E A} e.

Inductive run (A : Type) : Type :=
| Ret (a : A)
| Panic.
Arguments Ret {A} a.
Arguments Panic {A}.

Declare Scope go_scope.
Delimit Scope go_scope with go.
Open Scope go_scope.

Notation "'let?' x ':=' e 'in' k" :=
  (match e with Ok x => k | Err er => Err er end)
  (at level 10, x pattern, e at level 200, k at level 200) : go_scope.

Notation "'let!' x ':=' e 'in' k" :=
  (match e with Ret x => k | Panic => Panic end)
  (at level 10, x pattern, e at level 200, k at level 200) : go_scope.

(** ** Bytes, byte slices and strings

    A Go [byte] is a Rocq [byte]; a [[]byte] is a [list byte]; a Go
    [string] is a Rocq [string], whose characters are 8-bit too. *)

Definition byte_val (b : byte) : Z := Z.of_N (Byte.to_N b).

(** The conversion [byte(z)], which truncates to eight bits. *)
Definition byte_of (z : Z) : byte :=
  match Byte.of_N (Z.to_N (z mod 256)) with
  | Some b => b
  | None => x00
  end.

(** The conversions [[]byte(s)] and [string(b)]. *)
Definition go_bytes (s : string) : list byte := String.list_byte_of_string s.
Definition go_string (b : list byte) : string := String.string_of_list_byte b.

(** The character literals of the sources. *)
Definition chr (a : Ascii.ascii) : byte := Ascii.byte_of_ascii a.
Arguments chr a%_char : simpl never.

(** Go's [in >= lo && in <= hi] on bytes. *)
Definition in_range (lo hi : Ascii.ascii) (b : byte) : bool :=
  (byte_val (chr lo) <=? byte_val b)%Z && (byte_val b <=? byte_val (chr hi))%Z.
Arguments in_range (lo hi)%_char b.

(** Machine integers: Go's [uint64] is a [Z] in [0, 2^64), and every
    operation on it is followed by [u64]. *)
Definition u64 (z : Z) : Z := (z mod 2 ^ 64)%Z.
Definition is_u64 (z : Z) : Prop := (0 <= z < 2 ^ 64)%Z.
Definition maxUint64 : Z := (2 ^ 64 - 1)%Z.

(** Two's-complement reading of the low 64 bits: Go's [int64] conversions. *)
Definition i64 (z : Z) : Z := ((z + 2 ^ 63) mod 2 ^ 64 - 2 ^ 63)%Z.

#[export] Instance byte_eq_dec : EqDecision byte := Byte.byte_eq_dec.

(** [strings.HasPrefix], [strings.HasSuffix], [strings.TrimSuffix] on the
    bytes of a string. *)
Definition bytes_HasPrefix (s p : list byte) : bool :=
  bool_decide (take (length p) s = p).
Definition bytes_HasSuffix (s p : list byte) : bool :=
  (length p <=? length s)%nat && bool_decide (drop (length s - length p) s = p).
Definition HasPrefix (s p : string) : bool := bytes_HasPrefix (go_bytes s) (go_bytes p).
Definition HasSuffix (s p : string) : bool := bytes_HasSuffix (go_bytes s) (go_bytes p).
Definition TrimSuffix (s p : string) : string :=
  if HasSuffix s p
  then go_string (take (length (go_bytes s) - length (go_bytes p)) (go_bytes s))
  else s.

(** [strings.Split(s, sep)] for a one-byte separator: the fields between the
    separators, always at least one. *)
Fixpoint bytes_Split (sep : byte) (s : list byte) : list (list byte) :=
  match s with
  | [] => [[]]
  | c :: s' =>
      let r := bytes_Split sep s' in
      if bool_decide (c = sep) then [] :: r
      else match r with
           | [] => [[c]]
           | f :: r' => (c :: f) :: r'
           end
  end.
Definition Split (s : string) (sep : Ascii.ascii) : list string :=
  go_string <$> bytes_Split (chr sep) (go_bytes s).
Arguments Split s sep%_char.

(** [strings.Join] for a separator of any length. *)
Fixpoint Join (l : list string) (sep : string) : string :=
  match l with
  | [] => ""
  | [s] => s
  | s :: l' => String.append s (String.append sep (Join l' sep))
  end.

(** ** Tactics *)

(** Case analysis on every [match] and [if] of the goal, then the closing
    tactic of stdpp; [go_cases] is the version that leaves the goals open. *)
Ltac go_cases :=
  repeat (case_match || case_decide || case_bool_decide); simplify_eq/=.
Ltac go_cases_in :=
  repeat match goal with
  | H : context [match ?x with _ => _ end] |- _ =>
      lazymatch type of H with
      | _ = _ => destruct x eqn:?; simplify_eq/=
      end
  end.

(** Decide a property of all 256 bytes by computation. *)
Ltac all_bytes b := destruct b; vm_compute; try done; try congruence.

(** Turn Boolean comparisons of the code into propositions. *)
Ltac bool_prop :=
  repeat match goal with
  | H : (_ && _)%bool = true |- _ => apply andb_true_iff in H; destruct H
  | H : (_ || _)%bool = false |- _ => apply orb_false_iff in H; destruct H
  | H : negb _ = true |- _ => apply negb_true_iff in H
  | H : negb _ = false |- _ => apply negb_false_iff in H
  | H : (_ <=? _)%Z = true |- _ => apply Z.leb_le in H
  | H : (_ <=? _)%Z = false |- _ => apply Z.leb_gt in H
  | H : (_ <? _)%Z = true |- _ => apply Z.ltb_lt in H
  | H : (_ <? _)%Z = false |- _ => apply Z.ltb_ge in H
  | H : (_ =? _)%Z = true |- _ => apply Z.eqb_eq in H
  | H : (_ =? _)%Z = false |- _ => apply Z.eqb_neq in H
  | H : (_ <=? _)%nat = true |- _ => apply Nat.leb_le in H
  | H : (_ <=? _)%nat = false |- _ => apply Nat.leb_gt in H
  | H : (_ <? _)%nat = true |- _ => apply Nat.ltb_lt in H
  | H : (_ <? _)%nat = false |- _ => apply Nat.ltb_ge in H
  | H : (_ =? _)%nat = true |- _ => apply Nat.eqb_eq in H
  | H : (_ =? _)%nat = false |- _ => apply Nat.eqb_neq in H
  | H : bool_decide _ = true |- _ => apply bool_decide_eq_true in H
  | H : bool_decide _ = false |- _ => apply bool_decide_eq_false in H
  end.

Create HintDb go.
Create Rewrite HintDb go.

(** ** Lemmas on bytes *)

Lemma byte_val_range b : (0 <= byte_val b < 256)%Z.
Proof. unfold byte_val. pose proof (Byte.to_N_bounded b). lia. Qed.

Lemma byte_val_inj b1 b2 : byte_val b1 = byte_val b2 -> b1 = b2.
Proof.
  intros H%N2Z.inj. pose proof (Byte.of_to_N b1) as E1.
  pose proof (Byte.of_to_N b2) as E2. rewrite H in E1. congruence.
Qed.

#[export] Instance byte_val_Inj : Inj (=) (=) byte_val.
Proof. exact byte_val_inj. Qed.

Lemma byte_val_of z : byte_val (byte_of z) = (z mod 256)%Z.
Proof.
  unfold byte_val, byte_of.
  pose proof (Z.mod_pos_bound z 256 ltac:(lia)).
  destruct (Byte.of_N (Z.to_N (z mod 256))) as [b|] eqn:E.
  - apply Byte.to_of_N in E. rewrite E. lia.
  - apply Byte.of_N_None_iff in E. lia.
Qed.

Lemma byte_of_val b : byte_of (byte_val b) = b.
Proof.
  apply byte_val_inj. rewrite byte_val_of. apply Z.mod_small, byte_val_range.
Qed.

Lemma byte_of_mod z : byte_of (z mod 256) = byte_of z.
Proof. apply byte_val_inj. rewrite !byte_val_of. apply Z.mod_mod. lia. Qed.

Lemma go_string_bytes s : go_string (go_bytes s) = s.
Proof. apply String.string_of_list_byte_of_string. Qed.

Lemma go_bytes_string b : go_bytes (go_string b) = b.
Proof. apply String.list_byte_of_string_of_list_byte. Qed.

Lemma go_bytes_inj s1 s2 : go_bytes s1 = go_bytes s2 -> s1 = s2.
Proof. intros H. rewrite <-(go_string_bytes s1), H. apply go_string_bytes. Qed.

Lemma go_string_inj b1 b2 : go_string b1 = go_string b2 -> b1 = b2.
Proof. intros H. rewrite <-(go_bytes_string b1), H. apply go_bytes_string. Qed.

Lemma go_bytes_app s1 s2 : go_bytes (s1 +:+ s2) = go_bytes s1 ++ go_bytes s2.
Proof.
  induction s1 as [|c s1 IH]; [done|].
  change (Ascii.byte_of_ascii c :: go_bytes (s1 +:+ s2) =
          Ascii.byte_of_ascii c :: (go_bytes s1 ++ go_bytes s2)). by rewrite IH.
Qed.

#[export] Hint Rewrite go_string_bytes go_bytes_string go_bytes_app byte_of_val
  byte_val_of : go.
#[export] Hint Resolve byte_val_range : go.

(** ** Lemmas on prefixes, suffixes and splitting *)

Lemma bytes_HasPrefix_spec s p : bytes_HasPrefix s p = true <-> exists r, s = p ++ r.
Proof.
  unfold bytes_HasPrefix. rewrite bool_decide_eq_true. split.
  - intros H. exists (drop (length p) s). rewrite <-H at 1. by rewrite take_drop.
  - intros [r ->]. apply take_app_length.
Qed.

Lemma bytes_HasSuffix_spec s p : bytes_HasSuffix s p = true <-> exists r, s = r ++ p.
Proof.
  unfold bytes_HasSuffix. rewrite andb_true_iff, bool_decide_eq_true, Nat.leb_le. split.
  - intros [Hl H]. exists (take (length s - length p) s). rewrite <-H at 2.
    by rewrite take_drop.
  - intros [r ->]. rewrite length_app. split; [lia|].
    replace (length r + length p - length p) with (length r) by lia.
    apply drop_app_length.
Qed.

Lemma HasSuffix_spec s p : HasSuffix s p = true <-> exists r, s = r +:+ p.
Proof.
  unfold HasSuffix. rewrite bytes_HasSuffix_spec. split.
  - intros [r H]. exists (go_string r). apply go_bytes_inj.
    by rewrite go_bytes_app, go_bytes_string.
  - intros [r ->]. exists (go_bytes r). apply go_bytes_app.
Qed.

Lemma TrimSuffix_app r p : TrimSuffix (r +:+ p) p = r.
Proof.
  unfold TrimSuffix. replace (HasSuffix (r +:+ p) p) with true.
  2:{ symmetry. apply HasSuffix_spec. eauto. }
  rewrite !go_bytes_app, length_app.
  replace (length (go_bytes r) + length (go_bytes p) - length (go_bytes p))
    with (length (go_bytes r)) by lia.
  rewrite take_app_length. apply go_string_bytes.
Qed.

Lemma bytes_Split_nonnil sep s : bytes_Split sep s <> [].
Proof. induction s; simpl; [done|]. go_cases; done. Qed.

Lemma bytes_Split_no_sep sep s : sep ∉ s -> bytes_Split sep s = [s].
Proof.
  induction s as [|c s IH]; simpl; [done|]. intros [Hne Hs]%not_elem_of_cons.
  rewrite IH by done. by rewrite bool_decide_eq_false_2.
Qed.

Lemma bytes_Split_app sep s1 s2 :
  sep ∉ s1 -> bytes_Split sep (s1 ++ sep :: s2) = s1 :: bytes_Split sep s2.
Proof.
  induction s1 as [|c s1 IH]; simpl; intros Hs.
  - by rewrite bool_decide_eq_true_2.
  - apply not_elem_of_cons in Hs as [Hne Hs].
    rewrite bool_decide_eq_false_2 by done. by rewrite IH.
Qed.

(** The fields never contain the separator. *)
Lemma bytes_Split_fields sep s f : f ∈ bytes_Split sep s -> sep ∉ f.
Proof.
  revert f. induction s as [|c s IH]; simpl; intros f.
  - intros ->%list_elem_of_singleton. apply not_elem_of_nil.
  - case_bool_decide as Hc.
    + intros [->|H]%elem_of_cons; [apply not_elem_of_nil|auto].
    + destruct (bytes_Split sep s) as [|f' r] eqn:E.
      * intros ->%list_elem_of_singleton. by rewrite list_elem_of_singleton.
      * intros [->|H]%elem_of_cons.
        -- rewrite not_elem_of_cons. split; [done|]. apply IH. by left.
        -- apply IH. by right.
Qed.

(** The last separator splits a text in one way. *)
Lemma last_sep_inj {A} (sep : A) x y x' y' :
  sep ∉ y -> sep ∉ y' -> x ++ sep :: y = x' ++ sep :: y' -> x = x' /\ y = y'.
Proof.
  intros Hy Hy'. revert x'. induction x as [|c x IH]; intros [|c' x'] Hxy;
    injection Hxy; [intros ->; done|..]; intros Heq Hc.
  - destruct Hy. rewrite Heq. apply elem_of_app. right. left.
  - destruct Hy'. rewrite <-Heq. apply elem_of_app. right. left.
  - apply IH in Heq as [-> ->]. by rewrite Hc.
Qed.

(** ** Reachability *)

(** An invariant of a step relation holds in every reachable state. *)
Lemma rtc_preserves {S : Type} (step : relation S) (I : S -> Prop) :
  (forall s s', I s -> step s s' -> I s') ->
  forall s s', rtc step s s' -> I s -> I s'.
Proof. intros HI s s' Hrtc. induction Hrtc; eauto. Qed.

(** ** Arithmetic *)

(** A Boolean property of every integer of a range holds if evaluating it
    over the range succeeds. *)
Lemma Z_range_check (f : Z -> bool) (k : Z) :
  forallb f (seqZ 0 k) = true -> forall n, (0 <= n < k)%Z -> f n = true.
Proof.
  rewrite forallb_forall. intros H n Hn. apply H.
  apply list_elem_of_In, elem_of_seqZ. lia.
Qed.

Lemma u64_small z : is_u64 z -> u64 z = z.
Proof. intros H. by apply Z.mod_small. Qed.

Lemma u64_range z : is_u64 (u64 z).
Proof. apply Z.mod_pos_bound. lia. Qed.

Lemma i64_range z : (- 2 ^ 63 <= i64 z < 2 ^ 63)%Z.
Proof. unfold i64. pose proof (Z.mod_pos_bound (z + 2 ^ 63) (2 ^ 64)). lia. Qed.

Lemma i64_small z : (- 2 ^ 63 <= z < 2 ^ 63)%Z -> i64 z = z.
Proof. intros H. unfold i64. rewrite Z.mod_small by lia. lia. Qed.

#[export] Hint Resolve u64_range i64_range : go.
