(* ===== verification/GoStd.v ===== *)
(** * The parts of Go's standard library the sources call on bytes and numbers

    [encoding/hex] (Encode, EncodeToString, Decode, DecodeString),
    [strconv] (ParseUint, AppendUint, Itoa, Atoi) and the operations of
    [math/big] on text and bits.  They belong to the language, so they are
    modelled here by their documented algorithms; the files that model the
    repository call them. *)

From S2P Require Import Prelude.
From Stdlib Require Import ZArith Lia.
From Stdlib Require Strings.Byte.
From Stdlib Require Import Init.Byte.
From stdpp Require Import gmap strings list.

Open Scope Z_scope.

(** ** encoding/hex *)

(** [hextable[n]], for [0 <= n < 16]. *)
Definition hextable (n : Z) : byte :=
  if n <? 10 then byte_of (48 + n) else byte_of (87 + n).

(** [hex.EncodeToString] and [hex.Encode]: two digits per byte. *)
Fixpoint hex_Encode (src : list byte) : list byte :=
  match src with
  | [] => []
  | v :: src' =>
      hextable (Z.shiftr (byte_val v) 4) :: hextable (Z.land (byte_val v) 15)
      :: hex_Encode src'
  end.

(** [fromHexChar]. *)
Definition fromHexChar (c : byte) : option Z :=
  let z := byte_val c in
  if (48 <=? z) && (z <=? 57) then Some (z - 48)
  else if (97 <=? z) && (z <=? 102) then Some (z - 97 + 10)
  else if (65 <=? z) && (z <=? 70) then Some (z - 65 + 10)
  else None.

Inductive hex_error := InvalidByteError (c : byte) | ErrLength.

(** [hex.Decode]: the bytes written before the first error, and the error.
    A trailing odd digit is reported after an invalid character. *)
Fixpoint hex_Decode (src : list byte) : list byte * option hex_error :=
  match src with
  | [] => ([], None)
  | [c] =>
      match fromHexChar c with
      | None => ([], Some (InvalidByteError c))
      | Some _ => ([], Some ErrLength)
      end
  | c1 :: c2 :: src' =>
      match fromHexChar c1 with
      | None => ([], Some (InvalidByteError c1))
      | Some a =>
          match fromHexChar c2 with
          | None => ([], Some (InvalidByteError c2))
          | Some b =>
              let '(dst, err) := hex_Decode src' in
              (byte_of (Z.lor (Z.shiftl a 4) b) :: dst, err)
          end
      end
  end.

(** ** strconv *)

Inductive num_error := ErrSyntax_ | ErrRange_.

(** The digit value of a character for [strconv.ParseUint]: digits, and
    letters of either case ([lower(c) = c | 0x20]). *)
Definition uint_digit (c : byte) : option Z :=
  let z := byte_val c in
  if (48 <=? z) && (z <=? 57) then Some (z - 48)
  else
    let l := Z.lor z 32 in
    if (97 <=? l) && (l <=? 122) then Some (l - 97 + 10) else None.

(** The loop of [ParseUint(s, base, 64)]: the syntax error of a character is
    found before the range error of the accumulated value. *)
Fixpoint ParseUint_loop (base n : Z) (s : list byte) : Z * option num_error :=
  match s with
  | [] => (n, None)
  | c :: s' =>
      match uint_digit c with
      | None => (0, Some ErrSyntax_)
      | Some d =>
          if base <=? d then (0, Some ErrSyntax_)
          else if maxUint64 / base + 1 <=? n then (maxUint64, Some ErrRange_)
          else
            let n' := u64 (n * base) in
            let n1 := u64 (n' + d) in
            if n1 <? n' then (maxUint64, Some ErrRange_)
            else ParseUint_loop base n1 s'
      end
  end.

Definition ParseUint (s : list byte) (base : Z) : Z * option num_error :=
  match s with
  | [] => (0, Some ErrSyntax_)
  | _ => ParseUint_loop base 0 s
  end.

(** The digits of [n] in [base], least significant first: [fuel] is at least
    their number ([Z.log2 n + 1] suffices for a base of two or more). *)
Fixpoint digits_le (fuel : nat) (base n : Z) : list Z :=
  match fuel with
  | O => []
  | S f => if n <? base then [n] else (n mod base) :: digits_le f base (n / base)
  end.

Definition num_digits (base n : Z) : list byte :=
  hextable <$> rev (digits_le (S (Z.to_nat (Z.log2 n))) base n).

(** [strconv.AppendUint(dst, i, base)], bases up to 16. *)
Definition AppendUint (dst : list byte) (i base : Z) : list byte :=
  dst ++ num_digits base i.

(** [strconv.Itoa], and [fmt]'s [%d]. *)
Definition Itoa (i : Z) : string :=
  if i <? 0 then "-" +:+ go_string (num_digits 10 (- i))
  else go_string (num_digits 10 i).

(** ** math/big *)

(** [x.BitLen()]. *)
Definition BitLen (x : Z) : Z := if x =? 0 then 0 else Z.log2 (Z.abs x) + 1.

(** The value of a digit string (most significant first) in [base]. *)
Fixpoint horner (base acc : Z) (ds : list Z) : Z :=
  match ds with
  | [] => acc
  | d :: ds' => horner base (acc * base + d) ds'
  end.

(** The digits of [s], if each is a digit of [base]. *)
Fixpoint base_digits (base : Z) (s : list byte) : option (list Z) :=
  match s with
  | [] => Some []
  | c :: s' =>
      match uint_digit c with
      | Some d => if d <? base then cons d <$> base_digits base s' else None
      | None => None
      end
  end.

(** [new(big.Int).SetString(s, base)] for an explicit base: an optional sign
    and one or more digits, and nothing else. *)
Definition SetString (s : list byte) (base : Z) : option Z :=
  let '(neg, ds) :=
    match s with
    | c :: s' =>
        if byte_val c =? 45 then (true, s')
        else if byte_val c =? 43 then (false, s') else (false, s)
    | [] => (false, s)
    end in
  match ds with
  | [] => None
  | _ =>
      match base_digits base ds with
      | Some l => Some (if neg : bool then - horner base 0 l else horner base 0 l)
      | None => None
      end
  end.

(** [strconv.Atoi]: the value, 0 on a syntax error, the nearest bound on a
    range error. *)
Definition Atoi (s : list byte) : Z * option num_error :=
  match SetString s 10 with
  | None => (0, Some ErrSyntax_)
  | Some z =>
      if 2 ^ 63 - 1 <? z then (2 ^ 63 - 1, Some ErrRange_)
      else if z <? - 2 ^ 63 then (- 2 ^ 63, Some ErrRange_)
      else (z, None)
  end.

(** [x.Bytes()]: the big-endian bytes of [|x|], without leading zeros. *)
Definition big_Bytes (x : Z) : list byte :=
  if x =? 0 then []
  else byte_of <$> rev (digits_le (S (Z.to_nat (Z.log2 (Z.abs x)))) 256 (Z.abs x)).

(** [new(big.Int).SetBytes(b)]. *)
Definition big_SetBytes (b : list byte) : Z := horner 256 0 (byte_val <$> b).

(** [fmt.Sprintf("%#x", x)] for a [*big.Int]: the sign comes first. *)
Definition Sprintf_x (x : Z) : list byte :=
  (if x <? 0 then [chr "-"] else []) ++ [chr "0"; chr "x"] ++ num_digits 16 (Z.abs x).

(** The word size of the platform, for [uint] and [big.Word]. *)
Inductive platform := P32 | P64.
Definition wordBits (p : platform) : Z := match p with P32 => 32 | P64 => 64 end.

(** [x.Bits()]: the little-endian words of [|x|], the last one not zero. *)
Definition Bits (p : platform) (x : Z) : list Z :=
  if x =? 0 then []
  else digits_le (S (Z.to_nat (Z.log2 (Z.abs x)))) (2 ^ wordBits p) (Z.abs x).

(** The value of little-endian words; [new(big.Int).SetBits(words)]. *)
Fixpoint SetBits (p : platform) (words : list Z) : Z :=
  match words with
  | [] => 0
  | w :: ws => w + 2 ^ wordBits p * SetBits p ws
  end.

(** ** Digits and their values *)

Lemma horner_acc base acc ds :
  horner base acc ds = acc * base ^ Z.of_nat (length ds) + horner base 0 ds.
Proof.
  revert acc. induction ds as [|d ds IH]; intros acc; cbn [horner length].
  - rewrite Z.pow_0_r. lia.
  - rewrite IH, (IH (0 * base + d)), Nat2Z.inj_succ, Z.pow_succ_r by lia. ring.
Qed.

Lemma horner_app base acc ds1 ds2 :
  horner base acc (ds1 ++ ds2) = horner base (horner base acc ds1) ds2.
Proof. revert acc. induction ds1; intros acc; simpl; [done|]. auto. Qed.

Lemma horner_bound base ds :
  0 < base -> Forall (fun d => 0 <= d < base) ds ->
  0 <= horner base 0 ds < base ^ Z.of_nat (length ds).
Proof.
  intros Hb. induction ds as [|d ds IH] using rev_ind; intros Hds; simpl.
  - rewrite Z.pow_0_r. lia.
  - apply Forall_app in Hds as [Hds Hd]. inversion_clear Hd.
    rewrite horner_app. simpl. specialize (IH Hds).
    rewrite length_app, Nat2Z.inj_add. simpl. rewrite Z.pow_add_r by lia.
    rewrite Z.pow_1_r. nia.
Qed.

Lemma digits_le_length fuel base n : (length (digits_le fuel base n) <= fuel)%nat.
Proof. revert n. induction fuel as [|f IH]; intros n; simpl; [lia|].
  case_match; simpl; [lia|]. specialize (IH (n / base)). lia.
Qed.

Lemma digits_le_range fuel base n :
  1 < base -> 0 <= n -> Forall (fun d => 0 <= d < base) (digits_le fuel base n).
Proof.
  intros Hb. revert n. induction fuel as [|f IH]; intros n Hn; simpl; [done|].
  case_match eqn:E; bool_prop; constructor; auto.
  - apply Z.mod_pos_bound. lia.
  - apply IH. apply Z.div_pos; lia.
Qed.

Lemma log2_div_base base n :
  1 < base -> base <= n -> (Z.to_nat (Z.log2 (n / base)) < Z.to_nat (Z.log2 n))%nat.
Proof.
  intros Hb Hn.
  assert (H : n / base <= n / 2) by (apply Z.div_le_compat_l; lia).
  assert (H1 : Z.log2 (n / base) <= Z.log2 (n / 2)) by (apply Z.log2_le_mono; lia).
  assert (H2 : Z.log2 (n / 2) = Z.log2 n - 1).
  { change (n / 2) with (n / 2 ^ 1). rewrite <-Z.shiftr_div_pow2, Z.log2_shiftr by lia.
    assert (1 <= Z.log2 n) by (apply Z.log2_le_pow2; lia). lia. }
  assert (1 <= Z.log2 n) by (apply Z.log2_le_pow2; lia). lia.
Qed.

(** The fuel of [num_digits], [big_Bytes] and [Bits] is enough: their digits
    have the value of the number. *)
Lemma digits_le_value fuel base n :
  1 < base -> 0 <= n -> (Z.to_nat (Z.log2 n) < fuel)%nat ->
  horner base 0 (rev (digits_le fuel base n)) = n.
Proof.
  intros Hb. revert n. induction fuel as [|f IH]; intros n Hn Hf; [lia|].
  cbn [digits_le]. case_match eqn:E; bool_prop; simpl; [lia|].
  rewrite horner_app. simpl. rewrite IH.
  - pose proof (Z.div_mod n base). lia.
  - apply Z.div_pos; lia.
  - pose proof (log2_div_base base n Hb E). lia.
Qed.

(** No leading zero, except for zero itself. *)
Lemma digits_le_last fuel base n d :
  1 < base -> 0 < n -> (Z.to_nat (Z.log2 n) < fuel)%nat ->
  last (digits_le fuel base n) = Some d -> 0 < d.
Proof.
  intros Hb. revert n. induction fuel as [|f IH]; intros n Hn Hf; [lia|].
  cbn [digits_le]. case_match eqn:E; bool_prop; [simpl; intros; simplify_eq; lia|].
  rewrite last_cons. intros Hd.
  destruct (last (digits_le f base (n / base))) eqn:El.
  - simplify_eq. eapply (IH (n / base)); [|pose proof (log2_div_base base n Hb E); lia|done].
    apply Z.div_str_pos. lia.
  - apply last_None in El. exfalso.
    pose proof (log2_div_base base n Hb E).
    destruct f as [|f]; [lia|]. simpl in El. go_cases.
Qed.

Lemma num_digits_nonnil base n : num_digits base n <> [].
Proof.
  unfold num_digits. cbn [digits_le]. intros H%fmap_nil_inv.
  apply (f_equal (@rev _)) in H. rewrite rev_involutive in H. go_cases.
Qed.

(** ** Hex characters *)

Lemma hextable_byte_val n :
  0 <= n < 16 -> byte_val (hextable n) = if n <? 10 then 48 + n else 87 + n.
Proof.
  intros Hn. unfold hextable. go_cases; bool_prop; rewrite byte_val_of, Z.mod_small; lia.
Qed.

Lemma fromHexChar_hextable n : 0 <= n < 16 -> fromHexChar (hextable n) = Some n.
Proof.
  intros Hn. apply (bool_decide_eq_true (fromHexChar (hextable n) = Some n)).
  revert n Hn. apply Z_range_check. vm_compute. reflexivity.
Qed.

Lemma fromHexChar_range c d : fromHexChar c = Some d -> 0 <= d < 16.
Proof.
  destruct c; vm_compute; intros H; try discriminate H; injection H as <-;
    split; (reflexivity || discriminate).
Qed.

(** On hex digits [strconv]'s and [encoding/hex]'s characters agree. *)
Lemma uint_digit_fromHexChar c :
  match uint_digit c with
  | Some d => if d <? 16 then fromHexChar c = Some d else fromHexChar c = None
  | None => fromHexChar c = None
  end.
Proof. destruct c; vm_compute; reflexivity. Qed.

(** [hex.EncodeToString] and [hex.Decode] are inverse. *)
Lemma hex_Encode_length b : length (hex_Encode b) = (2 * length b)%nat.
Proof. induction b; simpl; lia. Qed.

Lemma nibbles_byte v :
  byte_of (Z.lor (Z.shiftl (Z.shiftr (byte_val v) 4) 4) (Z.land (byte_val v) 15)) = v.
Proof. destruct v; vm_compute; reflexivity. Qed.

Lemma nibble_hi v : 0 <= Z.shiftr (byte_val v) 4 < 16.
Proof. destruct v; vm_compute; split; (reflexivity || discriminate). Qed.

Lemma nibble_lo v : 0 <= Z.land (byte_val v) 15 < 16.
Proof. destruct v; vm_compute; split; (reflexivity || discriminate). Qed.

#[export] Hint Resolve nibble_hi nibble_lo : go.

Lemma hex_Decode_Encode b : hex_Decode (hex_Encode b) = (b, None).
Proof.
  induction b as [|v b IH]; [done|].
  cbn [hex_Encode hex_Decode].
  rewrite !fromHexChar_hextable by auto with go. by rewrite IH, nibbles_byte.
Qed.

(** Induction on a byte list two elements at a time, as [hex.Decode] reads it. *)
Lemma pairs_ind {A} (P : list A -> Prop) :
  P [] -> (forall a, P [a]) -> (forall a b l, P l -> P (a :: b :: l)) -> forall l, P l.
Proof.
  intros H0 H1 H2. fix IH 1. intros [|a [|b l]]; [done|apply H1|].
  apply H2, IH.
Qed.

(** A successful decode consumed an even number of hex digits. *)
Lemma hex_Decode_ok_length s b :
  hex_Decode s = (b, None) -> length s = (2 * length b)%nat.
Proof.
  revert b. induction s as [| |c1 c2 s IH] using pairs_ind; intros b; cbn [hex_Decode].
  - intros. by simplify_eq.
  - by case_match.
  - do 2 (case_match; [|done]). destruct (hex_Decode s) as [d e].
    intros. simplify_eq. simpl. rewrite (IH d) by done. lia.
Qed.

Definition is_hex (c : byte) : Prop := fromHexChar c <> None.

#[export] Instance is_hex_dec c : Decision (is_hex c).
Proof. unfold is_hex. apply _. Defined.

Lemma is_hex_Some c : is_hex c <-> exists d, fromHexChar c = Some d.
Proof. unfold is_hex. destruct (fromHexChar c); naive_solver. Qed.

(** Decoding succeeds exactly on an even number of hex digits. *)
Lemma hex_Decode_ok_iff s :
  (hex_Decode s).2 = None <-> Forall is_hex s /\ Nat.Even (length s).
Proof.
  induction s as [|c|c1 c2 s IH] using pairs_ind; cbn [hex_Decode].
  - split; [|done]. split; [constructor|by exists 0%nat].
  - case_match; (split; [done|]); intros [_ [k Hk]]; simpl in Hk; lia.
  - rewrite !Forall_cons, !is_hex_Some. cbn [length].
    destruct (fromHexChar c1); [|naive_solver].
    destruct (fromHexChar c2); [|naive_solver].
    destruct (hex_Decode s) as [d e]. simpl in *. rewrite IH.
    split; intros Hs; destruct_and!; split_and!; eauto.
    + destruct H0 as [k Hk]. exists (S k). lia.
    + destruct H0 as [k Hk]. exists (k - 1)%nat. lia.
Qed.

(** ** ParseUint computes the value, or reports the error *)

Lemma uint_digit_range c d : uint_digit c = Some d -> 0 <= d < 36.
Proof.
  destruct c; vm_compute; intros H; try discriminate H; injection H as <-;
    split; (reflexivity || discriminate).
Qed.

Lemma base_digits_range base s ds :
  base_digits base s = Some ds -> Forall (fun d => 0 <= d < base) ds.
Proof.
  revert ds. induction s as [|c s IH]; intros ds; simpl; [by intros [= <-]|].
  destruct (uint_digit c) as [d|] eqn:Ed; [|done].
  destruct (d <? base) eqn:Eb; [|done]. intros (ds' & E & ->)%fmap_Some_1.
  apply uint_digit_range in Ed. bool_prop. constructor; [lia|eauto].
Qed.

Lemma base_digits_length base s ds : base_digits base s = Some ds -> length ds = length s.
Proof.
  revert ds. induction s as [|c s IH]; intros ds; simpl; [by intros [= <-]|].
  destruct (uint_digit c); [|done]. case_match; [|done].
  intros (ds' & E & ->)%fmap_Some_1. simpl. auto.
Qed.

Lemma base_digits_app base s1 s2 :
  base_digits base (s1 ++ s2) =
  match base_digits base s1 with
  | Some d1 => app d1 <$> base_digits base s2
  | None => None
  end.
Proof.
  induction s1 as [|c s1 IH]; simpl.
  - by destruct (base_digits base s2).
  - destruct (uint_digit c); [|done]. destruct (_ <? _); [|done].
    rewrite IH. destruct (base_digits base s1); [|done]. simpl.
    by destruct (base_digits base s2).
Qed.

Lemma horner_ge base n ds :
  2 <= base -> 0 <= n -> Forall (fun d => 0 <= d < base) ds -> n <= horner base n ds.
Proof.
  intros Hb Hn Hds. rewrite horner_acc.
  pose proof (horner_bound base ds ltac:(lia) Hds).
  assert (0 < base ^ Z.of_nat (length ds)) by (apply Z.pow_pos_nonneg; lia).
  nia.
Qed.

(** One step of the loop: the overflow tests are exact. *)
Lemma ParseUint_step base n d :
  2 <= base <= 36 -> is_u64 n -> 0 <= d < base ->
  (if maxUint64 / base + 1 <=? n then true
   else u64 (u64 (n * base) + d) <? u64 (n * base)) = (maxUint64 <? n * base + d)
  /\ (n * base + d <= maxUint64 -> u64 (u64 (n * base) + d) = n * base + d).
Proof.
  unfold is_u64, maxUint64. intros Hb Hn Hd.
  pose proof (Z.div_mod (2 ^ 64 - 1) base ltac:(lia)).
  pose proof (Z.mod_pos_bound (2 ^ 64 - 1) base ltac:(lia)).
  set (q := (2 ^ 64 - 1) / base) in *.
  destruct (q + 1 <=? n) eqn:E; bool_prop.
  - split; [symmetry; apply Z.ltb_lt; nia|nia].
  - rewrite (u64_small (n * base)) by (unfold is_u64; nia).
    destruct (Z.le_gt_cases (n * base + d) (2 ^ 64 - 1)).
    + rewrite u64_small by (unfold is_u64; nia).
      split; [|done]. apply eq_true_iff_eq. rewrite !Z.ltb_lt. nia.
    + split; [|lia]. unfold u64.
      replace (n * base + d) with (n * base + d - 2 ^ 64 + 1 * 2 ^ 64) by ring.
      rewrite Z.mod_add, Z.mod_small by nia.
      apply eq_true_iff_eq. rewrite !Z.ltb_lt. nia.
Qed.

Lemma ParseUint_loop_ok base n s v :
  2 <= base <= 36 -> is_u64 n ->
  ParseUint_loop base n s = (v, None) <->
  exists ds, base_digits base s = Some ds /\ v = horner base n ds /\ v <= maxUint64.
Proof.
  intros Hb. revert n. induction s as [|c s IH]; intros n Hn; cbn [ParseUint_loop base_digits].
  - unfold is_u64, maxUint64 in *. split; [intros [= <-]; exists []; naive_solver lia|].
    intros (ds & [= <-] & -> & _). done.
  - destruct (uint_digit c) as [d|] eqn:Ed; [|naive_solver].
    apply uint_digit_range in Ed.
    destruct (base <=? d) eqn:Ebd; bool_prop.
    { replace (d <? base) with false by lia. naive_solver. }
    replace (d <? base) with true by lia.
    destruct (ParseUint_step base n d Hb Hn ltac:(lia)) as [Htest Hval].
    assert (Hds : forall ds v, base_digits base s = Some ds -> v = horner base n (d :: ds) ->
                v <= maxUint64 -> n * base + d <= maxUint64).
    { intros ds v' Hs -> Hle. simpl in Hle.
      pose proof (horner_ge base (n * base + d) ds ltac:(lia) ltac:(unfold is_u64 in Hn; nia)
        (base_digits_range _ _ _ Hs)). lia. }
    transitivity (n * base + d <= maxUint64 /\ ParseUint_loop base (n * base + d) s = (v, None)).
    { destruct (maxUint64 / base + 1 <=? n); [|destruct (u64 _ <? u64 _)];
        symmetry in Htest; bool_prop.
      - split; [done|intros [? _]; lia].
      - split; [done|intros [? _]; lia].
      - rewrite Hval by lia. naive_solver lia. }
    split.
    + intros [Hle H]. apply IH in H as (ds & -> & -> & ?); [|unfold is_u64, maxUint64 in *; nia].
      by exists (d :: ds).
    + intros (ds & (ds' & Hs & ->)%fmap_Some_1 & Hv & Hle).
      specialize (Hds ds' v Hs Hv Hle). split; [done|].
      apply IH; [unfold is_u64, maxUint64 in *; nia|]. by exists ds'.
Qed.

Lemma ParseUint_ok base s v :
  2 <= base <= 36 ->
  ParseUint s base = (v, None) <->
  s <> [] /\ exists ds, base_digits base s = Some ds /\ v = horner base 0 ds /\ v <= maxUint64.
Proof.
  intros Hb. unfold ParseUint. destruct s as [|c s]; [naive_solver|].
  rewrite ParseUint_loop_ok by (unfold is_u64; done || lia). naive_solver.
Qed.

(** Digit strings whose value needs more than 64 bits are range errors, with
    the largest value. *)
Lemma ParseUint_range base s ds :
  2 <= base <= 36 -> base_digits base s = Some ds -> maxUint64 < horner base 0 ds ->
  ParseUint s base = (maxUint64, Some ErrRange_).
Proof.
  intros Hb Hs Hlt. unfold ParseUint. destruct s as [|c s]; [by simplify_eq/=|].
  assert (Hn : is_u64 0) by (unfold is_u64; lia).
  generalize dependent ds. generalize dependent 0. generalize (c :: s). clear c s.
  intros s. induction s as [|c s IH]; intros n Hn ds; cbn [ParseUint_loop base_digits].
  - intros [= <-]. simpl. unfold is_u64, maxUint64 in *. lia.
  - destruct (uint_digit c) as [d|] eqn:Ed; [|done]. apply uint_digit_range in Ed.
    destruct (d <? base) eqn:E; [|done]. intros (ds' & Hs & ->)%fmap_Some_1 Hlt. bool_prop.
    replace (base <=? d) with false by lia.
    destruct (ParseUint_step base n d Hb Hn ltac:(lia)) as [Htest Hval].
    destruct (maxUint64 / base + 1 <=? n); [done|].
    destruct (u64 _ <? u64 _); [done|]. symmetry in Htest. bool_prop.
    rewrite Hval by lia. apply (IH (n * base + d)) with ds'; [|done..].
    unfold is_u64, maxUint64 in *. nia.
Qed.

(** ** Printing and reading digits *)

Lemma uint_digit_hextable n : 0 <= n < 16 -> uint_digit (hextable n) = Some n.
Proof.
  intros Hn. apply (bool_decide_eq_true (uint_digit (hextable n) = Some n)).
  revert n Hn. apply Z_range_check. vm_compute. reflexivity.
Qed.

Lemma base_digits_hextable base ds :
  base <= 16 -> Forall (fun d => 0 <= d < base) ds ->
  base_digits base (hextable <$> ds) = Some ds.
Proof.
  intros Hb. induction 1 as [|d ds Hd Hds IH]; [done|].
  rewrite fmap_cons. cbn [base_digits]. rewrite uint_digit_hextable by lia.
  replace (d <? base) with true by lia. by rewrite IH.
Qed.

Lemma num_digits_base_digits base n :
  1 < base <= 16 -> 0 <= n ->
  exists ds, base_digits base (num_digits base n) = Some ds /\ horner base 0 ds = n.
Proof.
  intros Hb Hn. unfold num_digits. eexists. split.
  - apply base_digits_hextable; [lia|]. apply Forall_rev, digits_le_range; lia.
  - apply digits_le_value; lia.
Qed.

Lemma rev_head {A} (l : list A) : head (rev l) = last l.
Proof.
  induction l as [|x l IH] using rev_ind; [done|].
  rewrite rev_app_distr, last_snoc. done.
Qed.

Lemma head_fmap {A B} (f : A -> B) (l : list A) : head (f <$> l) = f <$> head l.
Proof. by destruct l. Qed.

Lemma hextable_inj_0 n : 0 <= n < 16 -> hextable n = chr "0" -> n = 0.
Proof.
  intros Hn H. assert (Hf : fromHexChar (hextable n) = fromHexChar (chr "0")) by congruence.
  rewrite fromHexChar_hextable in Hf by done. vm_compute in Hf. congruence.
Qed.

(** A printed number has no leading zero unless it is zero. *)
Lemma num_digits_head base n :
  1 < base <= 16 -> 0 < n -> head (num_digits base n) <> Some (chr "0").
Proof.
  intros Hb Hn. unfold num_digits. rewrite head_fmap, rev_head.
  destruct (last _) as [d|] eqn:E; [|done]. simpl. intros [= H].
  assert (0 < d) by (eapply digits_le_last, E; lia).
  assert (0 <= d < base).
  { apply last_Some_elem_of in E.
    pose proof (digits_le_range (S (Z.to_nat (Z.log2 n))) base n ltac:(lia) ltac:(lia)) as Hr.
    rewrite Forall_forall in Hr. auto. }
  apply hextable_inj_0 in H; lia.
Qed.

Lemma num_digits_0 base : 1 < base -> num_digits base 0 = [chr "0"].
Proof. intros Hb. unfold num_digits. cbn. case_match; [done|]. bool_prop. lia. Qed.

Lemma digits_le_length_bound fuel base n k :
  1 < base -> 0 <= n < base ^ Z.of_nat k -> (0 < k)%nat ->
  (length (digits_le fuel base n) <= k)%nat.
Proof.
  intros Hb. revert n k. induction fuel as [|f IH]; intros n k Hn Hk; simpl; [lia|].
  case_match eqn:E; bool_prop; simpl; [lia|]. destruct k as [|k]; [lia|].
  destruct k as [|k]; [simpl in Hn; rewrite Z.pow_1_r in Hn; lia|].
  rewrite Nat2Z.inj_succ, Z.pow_succ_r in Hn by lia.
  assert (n / base < base ^ Z.of_nat (S k)) by (apply Z.div_lt_upper_bound; lia).
  assert (0 <= n / base) by (apply Z.div_pos; lia).
  specialize (IH (n / base) (S k)). lia.
Qed.

Lemma num_digits_length base n k :
  1 < base -> 0 <= n < base ^ Z.of_nat k -> (0 < k)%nat ->
  (length (num_digits base n) <= k)%nat.
Proof.
  intros. unfold num_digits. rewrite length_fmap, length_rev.
  by apply digits_le_length_bound.
Qed.

(** The digits of a value are unique: a digit string without leading zero is
    the printed form of its value. *)
Lemma digits_le_unique fuel base ds :
  1 < base -> Forall (fun d => 0 <= d < base) ds -> ds <> [] ->
  (head ds = Some 0 -> length ds = 1%nat) ->
  (Z.to_nat (Z.log2 (horner base 0 ds)) < fuel)%nat ->
  digits_le fuel base (horner base 0 ds) = rev ds.
Proof.
  intros Hb. revert fuel. induction ds as [|d ds IH] using rev_ind; [done|].
  intros fuel Hds _ Hhd Hf. apply Forall_app in Hds as [Hds [Hd _]%Forall_cons].
  rewrite horner_app in Hf |- *. cbn [horner] in Hf |- *. rewrite rev_app_distr. simpl.
  destruct fuel as [|f]; [lia|]. cbn [digits_le].
  destruct ds as [|d0 ds'].
  { cbn [horner]. rewrite Z.mul_0_l, Z.add_0_l. by replace (d <? base) with true by lia. }
  assert (Hd0 : 0 < d0).
  { destruct (Z.eq_dec d0 0) as [->|]; [|inversion_clear Hds; lia].
    specialize (Hhd eq_refl). simpl in Hhd. rewrite length_app in Hhd. simpl in Hhd. lia. }
  assert (Hpos : 0 < horner base 0 (d0 :: ds')).
  { cbn [horner]. inversion_clear Hds.
    pose proof (horner_ge base (0 * base + d0) ds' ltac:(lia) ltac:(lia)) as H'.
    specialize (H' ltac:(done)). lia. }
  set (h := horner base 0 (d0 :: ds')) in *.
  assert (E : (h * base + d) / base = h)
    by (rewrite Z.div_add_l, Z.div_small by lia; lia).
  replace (h * base + d <? base) with false by (symmetry; apply Z.ltb_ge; nia).
  rewrite E. f_equal.
  - rewrite Z.add_comm, Z.mod_add, Z.mod_small by lia. done.
  - apply IH; [done|done| |].
    + intros [= ->]. lia.
    + pose proof (log2_div_base base (h * base + d) Hb ltac:(nia)). rewrite E in H. lia.
Qed.

(** The lower-case form of a hex digit. *)
Definition to_lower_ascii (c : byte) : byte :=
  if in_range "A" "Z" c then byte_of (byte_val c + 32) else c.

Lemma hextable_fromHexChar c d : fromHexChar c = Some d -> hextable d = to_lower_ascii c.
Proof.
  destruct c; intros H; vm_compute in H; try discriminate H; injection H as <-; reflexivity.
Qed.

Lemma base_digits_hextable_lower s ds :
  base_digits 16 s = Some ds -> hextable <$> ds = to_lower_ascii <$> s.
Proof.
  revert ds. induction s as [|c s IH]; intros ds; [by intros [= <-]|].
  cbn [base_digits]. pose proof (uint_digit_fromHexChar c) as H.
  destruct (uint_digit c) as [d|]; [|done]. destruct (d <? 16); [|done].
  intros (ds' & Hs & ->)%fmap_Some_1. rewrite !fmap_cons. f_equal; [|auto].
  by apply hextable_fromHexChar.
Qed.

Lemma base_digits_zero c d : fromHexChar c = Some d -> d = 0 -> c = chr "0".
Proof.
  destruct c; vm_compute; intros H; try discriminate H; injection H as <-; done.
Qed.

(** [num_digits 16] prints a minimal digit string back, in lower case. *)
Lemma num_digits_unique s ds :
  base_digits 16 s = Some ds -> s <> [] -> (head s = Some (chr "0") -> length s = 1%nat) ->
  num_digits 16 (horner 16 0 ds) = to_lower_ascii <$> s.
Proof.
  intros Hs Hne Hhd. unfold num_digits.
  rewrite digits_le_unique, rev_involutive; [by apply base_digits_hextable_lower|lia|..|lia].
  - by eapply base_digits_range.
  - intros ->. by destruct s; [|apply base_digits_length in Hs].
  - rewrite (base_digits_length _ _ _ Hs). intros H0. apply Hhd.
    destruct s as [|c s]; [done|]. cbn [base_digits] in Hs.
    pose proof (uint_digit_fromHexChar c) as H. destruct (uint_digit c) as [d|]; [|done].
    destruct (d <? 16); [|done]. apply fmap_Some_1 in Hs as (ds' & _ & ->).
    simplify_eq/=. f_equal. by eapply base_digits_zero.
Qed.

(** The error of a decode tells whether a character or the length is at fault. *)
Lemma hex_Decode_error s :
  match (hex_Decode s).2 with
  | Some (InvalidByteError c) => ~ is_hex c /\ ~ Forall is_hex s
  | Some ErrLength => Forall is_hex s /\ Nat.Odd (length s)
  | None => True
  end.
Proof.
  induction s as [|c|c1 c2 s IH] using pairs_ind; cbn [hex_Decode]; [done|..].
  - unfold is_hex. destruct (fromHexChar c) eqn:E; simpl.
    + split; [|by exists 0%nat]. repeat constructor. by rewrite E.
    + split; [congruence|]. intros H. inversion_clear H. congruence.
  - destruct (fromHexChar c1) eqn:E1; simpl.
    2:{ rewrite Forall_cons. unfold is_hex. naive_solver. }
    destruct (fromHexChar c2) eqn:E2; simpl.
    2:{ rewrite !Forall_cons. unfold is_hex at 1 3. naive_solver. }
    assert (is_hex c1 /\ is_hex c2) as [? ?] by (unfold is_hex; split; congruence).
    destruct (hex_Decode s) as [d [[e|]|]]; simpl in *; rewrite ?Forall_cons; [naive_solver| |done].
    destruct IH as [? [k Hk]]. split; [done|]. exists (S k). lia.
Qed.

Lemma nibbles_split a d :
  0 <= a < 16 -> 0 <= d < 16 ->
  Z.shiftr (byte_val (byte_of (Z.lor (Z.shiftl a 4) d))) 4 = a /\
  Z.land (byte_val (byte_of (Z.lor (Z.shiftl a 4) d))) 15 = d.
Proof.
  intros Ha Hd.
  assert (H : forallb (fun a => forallb (fun d =>
      (Z.shiftr (byte_val (byte_of (Z.lor (Z.shiftl a 4) d))) 4 =? a) &&
      (Z.land (byte_val (byte_of (Z.lor (Z.shiftl a 4) d))) 15 =? d)) (seqZ 0 16))
      (seqZ 0 16) = true) by (vm_compute; reflexivity).
  apply (Z_range_check _ 16) with (n := a) in H; [|done].
  apply (Z_range_check _ 16) with (n := d) in H; [|done].
  bool_prop. done.
Qed.

(** Decoding then encoding prints the digits back in lower case. *)
Lemma hex_Encode_Decode s b :
  hex_Decode s = (b, None) -> hex_Encode b = to_lower_ascii <$> s.
Proof.
  revert b. induction s as [| |c1 c2 s IH] using pairs_ind; intros b; cbn [hex_Decode].
  - by intros [= <-].
  - by case_match.
  - destruct (fromHexChar c1) as [a|] eqn:E1; [|done].
    destruct (fromHexChar c2) as [d|] eqn:E2; [|done].
    destruct (hex_Decode s) as [b' e]. intros [= <- ->]. cbn [hex_Encode].
    rewrite (IH b' eq_refl). cbn [fmap list_fmap].
    destruct (nibbles_split a d) as [-> ->]; eauto using fromHexChar_range.
    f_equal; [|f_equal]; by apply hextable_fromHexChar.
Qed.

(** ** Bytes of an integer *)

(** The low [k] bytes, least significant first. *)
Fixpoint le_bytes (k : nat) (v : Z) : list byte :=
  match k with
  | O => []
  | S k => byte_of v :: le_bytes k (Z.shiftr v 8)
  end.

Lemma le_bytes_length k v : length (le_bytes k v) = k.
Proof. revert v. induction k; intros v; simpl; auto. Qed.

(** [k] bytes determine the value modulo 2^(8k). *)
Lemma le_bytes_inj k v v' :
  le_bytes k v = le_bytes k v' -> v mod 2 ^ (8 * Z.of_nat k) = v' mod 2 ^ (8 * Z.of_nat k).
Proof.
  revert v v'. induction k as [|k IH]; intros v v' Heq; [by rewrite !Z.mod_1_r|].
  cbn [le_bytes] in Heq. injection Heq as Hb Heq. apply IH in Heq.
  apply (f_equal byte_val) in Hb. rewrite !byte_val_of in Hb.
  replace (8 * Z.of_nat (S k)) with (8 + 8 * Z.of_nat k) by lia.
  rewrite Z.pow_add_r, !Z.rem_mul_r by lia.
  rewrite !Z.shiftr_div_pow2 in Heq by lia. change (2 ^ 8) with 256 in *.
  rewrite Hb, Heq. done.
Qed.

Lemma le_bytes_mod k v v' :
  (v mod 2 ^ (8 * Z.of_nat k) = v' mod 2 ^ (8 * Z.of_nat k)) -> le_bytes k v = le_bytes k v'.
Proof.
  revert v v'. induction k as [|k IH]; intros v v' Heq; [done|]. cbn [le_bytes].
  replace (8 * Z.of_nat (S k)) with (8 + 8 * Z.of_nat k) in Heq by lia.
  rewrite Z.pow_add_r, !Z.rem_mul_r in Heq by lia. change (2 ^ 8) with 256 in Heq.
  pose proof (Z.mod_pos_bound v 256). pose proof (Z.mod_pos_bound v' 256).
  f_equal.
  - apply byte_val_inj. rewrite !byte_val_of. lia.
  - apply IH. rewrite !Z.shiftr_div_pow2 by lia. change (2 ^ 8) with 256. lia.
Qed.


Lemma le_bytes_app a b v :
  le_bytes (a + b) v = le_bytes a v ++ le_bytes b (Z.shiftr v (8 * Z.of_nat a)).
Proof.
  revert v. induction a as [|a IH]; intros v; cbn [le_bytes plus app].
  - by rewrite Z.shiftr_0_r.
  - rewrite IH, Z.shiftr_shiftr by lia. do 4 f_equal. lia.
Qed.

Lemma rev_replicate {A} k (x : A) : rev (replicate k x) = replicate k x.
Proof.
  induction k as [|k IH]; [done|]. cbn [replicate rev]. by rewrite IH, <-replicate_cons_app.
Qed.

Lemma le_bytes_0 k : le_bytes k 0 = replicate k x00.
Proof. induction k as [|k IH]; [done|]. cbn [le_bytes replicate]. by rewrite Z.shiftr_0_l, IH. Qed.

Lemma le_bytes_lookup k v i :
  (i < k)%nat -> le_bytes k v !! i = Some (byte_of (Z.shiftr v (8 * Z.of_nat i))).
Proof.
  revert v i. induction k as [|k IH]; intros v i Hi; [lia|]. destruct i as [|i]; cbn [le_bytes].
  - by rewrite Z.shiftr_0_r.
  - cbn [lookup list_lookup]. rewrite IH, Z.shiftr_shiftr by lia. do 3 f_equal. lia.
Qed.

(** Read back in big-endian order, the low bytes are the value modulo their
    power. *)
Lemma big_SetBytes_le k v : big_SetBytes (rev (le_bytes k v)) = v mod 256 ^ Z.of_nat k.
Proof.
  unfold big_SetBytes. revert v. induction k as [|k IH]; intros v; [by rewrite Z.mod_1_r|].
  cbn [le_bytes rev]. rewrite fmap_app, horner_app, IH. cbn [fmap list_fmap horner].
  rewrite byte_val_of, Nat2Z.inj_succ, Z.pow_succ_r, Z.rem_mul_r by lia.
  rewrite Z.shiftr_div_pow2 by lia. change (2 ^ 8) with 256. lia.
Qed.

Lemma log2_div_256 n : 256 <= n -> Z.log2 (n / 256) = Z.log2 n - 8.
Proof.
  intros Hn. change 256 with (2 ^ 8). rewrite <-Z.shiftr_div_pow2, Z.log2_shiftr by lia.
  assert (8 <= Z.log2 n) by (by apply Z.log2_le_pow2; lia). lia.
Qed.

Lemma digits_256 fuel n :
  0 < n -> (Z.to_nat (Z.log2 n) < fuel)%nat ->
  byte_of <$> digits_le fuel 256 n = le_bytes (Z.to_nat ((Z.log2 n + 8) / 8)) n.
Proof.
  revert n. induction fuel as [|f IH]; intros n Hn Hf; [lia|].
  cbn [digits_le]. pose proof (Z.log2_nonneg n). case_match eqn:E; bool_prop.
  - assert (Z.log2 n < 8) by (apply Z.log2_lt_pow2; lia).
    replace ((Z.log2 n + 8) / 8) with 1 by (apply Z.div_unique with (Z.log2 n); lia). done.
  - pose proof (log2_div_base 256 n ltac:(lia) E). pose proof (log2_div_256 n E) as Hlog.
    pose proof (Z.log2_nonneg (n / 256)).
    replace ((Z.log2 n + 8) / 8) with (Z.succ ((Z.log2 (n / 256) + 8) / 8))
      by (rewrite Hlog; Z.to_euclidean_division_equations; lia).
    rewrite Z2Nat.inj_succ by (apply Z.div_pos; lia). cbn [fmap list_fmap le_bytes].
    rewrite byte_of_mod, Z.shiftr_div_pow2 by lia. change (2 ^ 8) with 256. f_equal.
    apply IH; [|lia].
    apply Z.div_str_pos. lia.
Qed.

(** [x.Bytes()]: as many bytes as the bit length asks for. *)
Lemma big_Bytes_le x : big_Bytes x = rev (le_bytes (Z.to_nat ((BitLen x + 7) / 8)) (Z.abs x)).
Proof.
  unfold big_Bytes, BitLen. destruct (x =? 0) eqn:E; [done|]. bool_prop.
  change (byte_of <$> rev ?l) with (map byte_of (rev l)). rewrite map_rev.
  change (map byte_of ?l) with (byte_of <$> l). rewrite digits_256 by lia.
  do 3 f_equal. f_equal. lia.
Qed.

Lemma BitLen_bound x : Z.abs x < 2 ^ BitLen x.
Proof.
  unfold BitLen. destruct (x =? 0) eqn:E; bool_prop; [by subst|].
  pose proof (Z.log2_spec (Z.abs x) ltac:(lia)). rewrite Z.add_1_r. lia.
Qed.

Lemma BitLen_nonneg x : 0 <= BitLen x.
Proof. unfold BitLen. case_match; [lia|]. pose proof (Z.log2_nonneg (Z.abs x)). lia. Qed.

Lemma horner_rev_SetBits p ds : horner (2 ^ wordBits p) 0 (rev ds) = SetBits p ds.
Proof.
  induction ds as [|d ds IH]; [done|]. cbn [rev SetBits]. rewrite horner_app, IH.
  cbn [horner]. lia.
Qed.

(** [x.Bits()] are words, and their value is [|x|]. *)
Lemma SetBits_Bits p x : SetBits p (Bits p x) = Z.abs x.
Proof.
  unfold Bits. destruct (x =? 0) eqn:E; bool_prop; [by subst|].
  rewrite <-horner_rev_SetBits. apply digits_le_value; [destruct p; done|lia..].
Qed.

Definition is_word (p : platform) (w : Z) : Prop := 0 <= w < 2 ^ wordBits p.

Lemma Bits_words p x : Forall (is_word p) (Bits p x).
Proof.
  unfold Bits. case_match; [constructor|]. apply digits_le_range; [destruct p; done|lia].
Qed.

Lemma SetBits_bound p ws :
  Forall (is_word p) ws -> 0 <= SetBits p ws < 2 ^ (wordBits p * Z.of_nat (length ws)).
Proof.
  induction 1 as [|w ws Hw _ IH]; cbn [SetBits length]; [by rewrite Z.mul_0_r|].
  replace (wordBits p * Z.of_nat (S (length ws))) with (wordBits p + wordBits p * Z.of_nat (length ws)) by lia.
  rewrite Z.pow_add_r by (destruct p; simpl; lia). unfold is_word in Hw. nia.
Qed.

(** A word of a number, by its index. *)
Lemma SetBits_lookup p ws i :
  Forall (is_word p) ws ->
  default 0 (ws !! i) = Z.shiftr (SetBits p ws) (wordBits p * Z.of_nat i) mod 2 ^ wordBits p.
Proof.
  intros Hws. revert i. induction Hws as [|w ws Hw _ IH]; intros i.
  { simpl. by rewrite Z.shiftr_0_l. }
  assert (0 < wordBits p) by (destruct p; done). unfold is_word in Hw.
  destruct i as [|i]; cbn [lookup list_lookup SetBits].
  - rewrite Z.mul_0_r, Z.shiftr_0_r. simpl. rewrite Z.mul_comm, Z.mod_add, Z.mod_small by lia. done.
  - rewrite IH. replace (wordBits p * Z.of_nat (S i)) with (wordBits p + wordBits p * Z.of_nat i) by lia.
    rewrite <-Z.shiftr_shiftr by lia. do 2 f_equal.
    rewrite (Z.shiftr_div_pow2 _ (wordBits p)) by lia.
    rewrite Z.mul_comm, Z.div_add, Z.div_small by lia. done.
Qed.

(** A byte of a word is a byte of the number. *)
Lemma byte_of_shift v a b c :
  0 <= a -> 0 <= b -> b + 8 <= c ->
  byte_of (Z.shiftr (Z.shiftr v a mod 2 ^ c) b) = byte_of (Z.shiftr v (a + b)).
Proof.
  intros Ha Hb Hc. apply byte_val_inj. rewrite !byte_val_of. change 256 with (2 ^ 8).
  apply Z.bits_inj'. intros n Hn. destruct (Z.lt_ge_cases n 8).
  - rewrite !Z.mod_pow2_bits_low, !Z.shiftr_spec, Z.mod_pow2_bits_low, Z.shiftr_spec by lia.
    f_equal. lia.
  - by rewrite !Z.mod_pow2_bits_high by lia.
Qed.
