(* ===== verification/GoNet.v ===== *)
(** * More of Go's standard library: time, net

    [time.Duration.String] and [net.SplitHostPort], by their documented
    algorithms: library code the registry calls, nothing of the repository. *)

From S2P Require Import Prelude GoStd.
From Stdlib Require Import ZArith Lia.
From Stdlib Require Import Init.Byte.
From stdpp Require Import strings list.
Open Scope Z_scope.

(** ** time.Duration *)

Definition Nanosecond : Z := 1.
Definition Microsecond : Z := 1000.
Definition Millisecond : Z := 1000000.
Definition Second : Z := 1000000000.
Definition Minute : Z := 60 * Second.
Definition Hour : Z := 60 * Minute.

(** [d.Nanoseconds()]. *)
Definition Nanoseconds (d : Z) : Z := d.

(** [fmtFrac]: the text of the fraction [v / 10^prec] without trailing zeros
    and without the point if nothing is left, in front of [suffix]. *)
Fixpoint fmtFrac (prec : nat) (print : bool) (v : Z) (suffix : list byte) : list byte * Z :=
  match prec with
  | O => (if print then chr "." :: suffix else suffix, v)
  | S prec =>
      let digit := v mod 10 in
      let print := print || negb (digit =? 0) in
      fmtFrac prec print (v / 10) (if print then byte_of (48 + digit) :: suffix else suffix)
  end.

Definition fmtInt (v : Z) (suffix : list byte) : list byte := num_digits 10 v ++ suffix.

(** [d.String()], [fmt]'s [%v] of a duration. *)
Definition Duration_String (d : Z) : string :=
  let neg := d <? 0 in
  let u := Z.abs d in
  let body :=
    if u <? Second then
      if u =? 0 then go_bytes "0s"
      else
        let '(prec, unit) :=
          if u <? Microsecond then (0%nat, [chr "n"; chr "s"])
          else if u <? Millisecond then (3%nat, [xc2; xb5; chr "s"])
          else (6%nat, [chr "m"; chr "s"]) in
        let '(buf, u) := fmtFrac prec false u unit in
        fmtInt u buf
    else
      let '(buf, u) := fmtFrac 9 false u [chr "s"] in
      let buf := fmtInt (u mod 60) buf in
      let u := u / 60 in
      if 0 <? u then
        let buf := fmtInt (u mod 60) (chr "m" :: buf) in
        let u := u / 60 in
        if 0 <? u then fmtInt u (chr "h" :: buf) else buf
      else buf in
  go_string (if neg && negb (u =? 0) then chr "-" :: body else body).

Example Duration_String_examples :
  Duration_String <$> [0; 90 * Second; 1500 * Millisecond; 2 * Hour; -5; 1500; 120 * Second] =
  ["0s"; "1m30s"; "1.5s"; "2h0m0s"; "-5ns"; go_string [x31; x2e; x35; xc2; xb5; x73]; "2m0s"]%string.
Proof. vm_compute. reflexivity. Qed.

(** ** net.SplitHostPort *)

(** The index of the first and of the last occurrence of a byte. *)
Fixpoint byteIndex (c : byte) (s : list byte) : option nat :=
  match s with
  | [] => None
  | c' :: s => if bool_decide (c' = c) then Some O else S <$> byteIndex c s
  end.

Fixpoint lastIndex (c : byte) (s : list byte) : option nat :=
  match s with
  | [] => None
  | c' :: s =>
      match lastIndex c s with
      | Some i => Some (S i)
      | None => if bool_decide (c' = c) then Some O else None
      end
  end.

(** The texts [Err] of the [*net.AddrError] returned. *)
Definition missingPort : string := "missing port in address".
Definition tooManyColons : string := "too many colons in address".

Definition has_byte (c : byte) (s : list byte) : bool := bool_decide (byteIndex c s <> None).

(** The host and the offsets from which no bracket may follow. *)
Definition split_host (hostport : list byte) (i : nat) : result string (list byte * nat * nat) :=
  if bool_decide (head hostport = Some (chr "[")) then
    match byteIndex (chr "]") hostport with
    | None => Err "missing ']' in address"%string
    | Some e =>
        if (S e =? length hostport)%nat then Err missingPort
        else if (S e =? i)%nat then Ok (drop 1 (take e hostport), 1%nat, S e)
        else if bool_decide (hostport !! S e = Some (chr ":")) then Err tooManyColons
        else Err missingPort
    end
  else
    let host := take i hostport in
    if has_byte (chr ":") host then Err tooManyColons else Ok (host, O, O).

Definition SplitHostPort (hostport : string) : result string (string * string) :=
  let s := go_bytes hostport in
  match lastIndex (chr ":") s with
  | None => Err missingPort
  | Some i =>
      let? x := split_host s i in
      let '(host, j, k) := x in
      if has_byte (chr "[") (drop j s) then Err "unexpected '[' in address"%string
      else if has_byte (chr "]") (drop k s) then Err "unexpected ']' in address"%string
      else Ok (go_string host, go_string (drop (S i) s))
  end.

Example SplitHostPort_examples :
  SplitHostPort <$> ["127.0.0.1:8500"; "localhost"; "[::1]:80"; "::1"; "[::1]"; ":80"; "a:"]%string =
  [Ok ("127.0.0.1", "8500"); Err missingPort; Ok ("::1", "80"); Err tooManyColons;
   Err missingPort; Ok ("", "80"); Ok ("a", "")]%string.
Proof. vm_compute. reflexivity. Qed.

Lemma byteIndex_None c s : byteIndex c s = None <-> c ∉ s.
Proof.
  induction s as [|c' s IH]; cbn [byteIndex]; [rewrite elem_of_nil; naive_solver|].
  rewrite elem_of_cons. case_bool_decide; [naive_solver|].
  rewrite fmap_None, IH. naive_solver.
Qed.

Lemma lastIndex_None c s : lastIndex c s = None <-> c ∉ s.
Proof.
  induction s as [|c' s IH]; cbn [lastIndex]; [rewrite elem_of_nil; naive_solver|].
  rewrite elem_of_cons. destruct (lastIndex c s); [naive_solver|].
  case_bool_decide; naive_solver.
Qed.

Lemma lastIndex_app c s t : c ∉ t -> lastIndex c (s ++ c :: t) = Some (length s).
Proof.
  intros Ht. induction s as [|c' s IH]; cbn [lastIndex app length].
  - apply lastIndex_None in Ht as ->. by rewrite bool_decide_eq_true_2.
  - by rewrite IH.
Qed.

Lemma has_byte_false c s : has_byte c s = false <-> c ∉ s.
Proof.
  unfold has_byte. rewrite bool_decide_eq_false, <-byteIndex_None.
  destruct (byteIndex c s); naive_solver.
Qed.

(** A host without colons and brackets splits from its port. *)
Lemma SplitHostPort_plain host port :
  (forall c, c ∈ go_bytes host -> c <> chr ":" /\ c <> chr "[" /\ c <> chr "]") ->
  (forall c, c ∈ go_bytes port -> c <> chr ":" /\ c <> chr "[" /\ c <> chr "]") ->
  SplitHostPort (host +:+ ":" +:+ port) = Ok (host, port).
Proof.
  intros Hh Hp. unfold SplitHostPort.
  assert (E : go_bytes (host +:+ ":" +:+ port) = go_bytes host ++ chr ":" :: go_bytes port)
    by (rewrite !go_bytes_app; done).
  rewrite E, lastIndex_app by (intros H; naive_solver). unfold split_host.
  assert (Hb : forall c, c ∈ go_bytes host ++ chr ":" :: go_bytes port ->
    c <> chr "[" /\ c <> chr "]").
  { intros c [H|[->|H]%elem_of_cons]%elem_of_app; [naive_solver|done|naive_solver]. }
  rewrite bool_decide_eq_false_2.
  2:{ destruct (go_bytes host ++ _) as [|c l] eqn:El; [done|]. simpl. intros [= ->].
      destruct (Hb (chr "[")) as [? _]; [left|done]. }
  rewrite take_app_length. replace (has_byte (chr ":") (go_bytes host)) with false.
  2:{ symmetry. apply has_byte_false. naive_solver. }
  rewrite !drop_0. rewrite (proj2 (has_byte_false _ _)), (proj2 (has_byte_false _ _)) by naive_solver.
  rewrite go_string_bytes. f_equal. f_equal.
  replace (S (length (go_bytes host))) with (length (go_bytes host ++ [chr ":"]))
    by (rewrite length_app; simpl; lia).
  change (chr ":" :: go_bytes port) with ([chr ":"] ++ go_bytes port).
  rewrite app_assoc, drop_app_length. apply go_string_bytes.
Qed.

Lemma SplitHostPort_no_port host :
  chr ":" ∉ go_bytes host -> SplitHostPort host = Err missingPort.
Proof. intros H. unfold SplitHostPort. by apply lastIndex_None in H as ->. Qed.

(** ** strconv.Itoa and strconv.Atoi *)

Lemma num_digits_10_digit n c : 0 <= n -> c ∈ num_digits 10 n -> in_range "0" "9" c = true.
Proof.
  intros Hn. unfold num_digits. rewrite list_elem_of_fmap. intros (d & -> & Hd).
  apply list_elem_of_In, in_rev, list_elem_of_In in Hd.
  pose proof (digits_le_range (S (Z.to_nat (Z.log2 n))) 10 n ltac:(lia) Hn) as Hr.
  rewrite Forall_forall in Hr. specialize (Hr d Hd).
  apply (Z_range_check (fun d => in_range "0" "9" (hextable d)) 10); [reflexivity|lia].
Qed.

Lemma Itoa_bytes i c : c ∈ go_bytes (Itoa i) -> c = chr "-" \/ in_range "0" "9" c = true.
Proof.
  unfold Itoa. case_match eqn:E; bool_prop; rewrite ?go_bytes_app, go_bytes_string.
  - intros [->%list_elem_of_singleton|H]%elem_of_app; [by left|].
    right. eapply num_digits_10_digit, H. lia.
  - intros H. right. by eapply num_digits_10_digit.
Qed.

(** A digit is no sign, so the first digit does not look like one. *)
Lemma SetString_decimal n : 0 <= n -> SetString (num_digits 10 n) 10 = Some n.
Proof.
  intros Hn. destruct (num_digits_base_digits 10 n ltac:(lia) Hn) as (ds & Hds & Hv).
  destruct (num_digits 10 n) as [|c s] eqn:E; [by apply num_digits_nonnil in E|].
  assert (Hc : in_range "0" "9" c = true) 
    by (apply (num_digits_10_digit n); [done|rewrite E; left]).
  unfold SetString.
  assert (Hne : byte_val c =? 45 = false /\ byte_val c =? 43 = false).
  { unfold in_range in Hc. bool_prop. change (byte_val (chr "0")) with 48 in *. split; lia. }
  destruct Hne as [-> ->]. by rewrite Hds, Hv.
Qed.

Lemma SetString_negative n : 0 < n -> SetString (chr "-" :: num_digits 10 n) 10 = Some (- n).
Proof.
  intros Hn. destruct (num_digits_base_digits 10 n ltac:(lia) ltac:(lia)) as (ds & Hds & Hv).
  unfold SetString. change (byte_val (chr "-") =? 45) with true. cbv iota.
  destruct (num_digits 10 n) as [|c s] eqn:E; [by apply num_digits_nonnil in E|].
  by rewrite Hds, Hv.
Qed.

(** [strconv.Atoi] reads back what [strconv.Itoa] writes. *)
Lemma Atoi_Itoa i : - 2 ^ 63 <= i < 2 ^ 63 -> Atoi (go_bytes (Itoa i)) = (i, None).
Proof.
  intros Hi. unfold Atoi.
  assert (E : SetString (go_bytes (Itoa i)) 10 = Some i).
  { unfold Itoa. case_match eqn:E; bool_prop; rewrite ?go_bytes_app, go_bytes_string.
    - change (go_bytes "-" ++ num_digits 10 (- i)) with (chr "-" :: num_digits 10 (- i)).
      rewrite SetString_negative by lia. f_equal. lia.
    - by apply SetString_decimal. }
  rewrite E. replace (2 ^ 63 - 1 <? i) with false by lia. by replace (i <? - 2 ^ 63) with false by lia.
Qed.

Lemma Itoa_inj i j :
  - 2 ^ 63 <= i < 2 ^ 63 -> - 2 ^ 63 <= j < 2 ^ 63 -> Itoa i = Itoa j -> i = j.
Proof. intros Hi Hj E. pose proof (Atoi_Itoa i Hi). pose proof (Atoi_Itoa j Hj). congruence. Qed.

(** ** strings.Split and strings.Join *)

Lemma Split_cons s t sep :
  chr sep ∉ go_bytes s -> Split (s +:+ String sep t) sep = s :: Split t sep.
Proof.
  intros H. unfold Split. rewrite go_bytes_app.
  change (go_bytes (String sep t)) with (chr sep :: go_bytes t).
  rewrite bytes_Split_app by done. cbn [fmap list_fmap]. by rewrite go_string_bytes.
Qed.

Lemma Split_single s sep : chr sep ∉ go_bytes s -> Split s sep = [s].
Proof.
  intros H. unfold Split. rewrite bytes_Split_no_sep by done. cbn. by rewrite go_string_bytes.
Qed.

Lemma Split_Join l sep :
  l <> [] -> Forall (fun s => chr sep ∉ go_bytes s) l ->
  Split (Prelude.Join l (String sep "")) sep = l.
Proof.
  intros Hl H. induction H as [|s l Hs H IH]; [done|].
  destruct l as [|s' l]; [by apply Split_single|].
  change (Prelude.Join (s :: s' :: l) (String sep "")) with
    (s +:+ String sep (Prelude.Join (s' :: l) (String sep ""))).
  rewrite Split_cons by done. by rewrite IH.
Qed.
