(* ===== verification/MathUtil.v ===== *)
(** * pkg/common/math: integers that watch their width

    [integer.go]: checked arithmetic and the parsing of 64-bit integers;
    [big.go]: 256-bit integers on [math/big], their two's complement, their
    byte strings and exponentiation by squaring. *)

From S2P Require Import Prelude GoStd.
From Stdlib Require Import ZArith Zpow_facts Lia.
From Stdlib Require Import Init.Byte.
From stdpp Require Import strings list.
Open Scope Z_scope.

(** ** integer.go *)

(** The integer limits. *)
Definition MaxInt8 : Z := Z.shiftl 1 7 - 1.
Definition MinInt8 : Z := Z.shiftl (-1) 7.
Definition MaxInt16 : Z := Z.shiftl 1 15 - 1.
Definition MinInt16 : Z := Z.shiftl (-1) 15.
Definition MaxInt32 : Z := Z.shiftl 1 31 - 1.
Definition MinInt32 : Z := Z.shiftl (-1) 31.
Definition MaxInt64 : Z := Z.shiftl 1 63 - 1.
Definition MinInt64 : Z := Z.shiftl (-1) 63.
Definition MaxUint8 : Z := Z.shiftl 1 8 - 1.
Definition MaxUint16 : Z := Z.shiftl 1 16 - 1.
Definition MaxUint32 : Z := Z.shiftl 1 32 - 1.
Definition MaxUint64 : Z := Z.shiftl 1 64 - 1.

(** [s[:2] == "0x" || s[:2] == "0X"], for a string of two bytes or more. *)
Definition has_hex_prefix (s : list byte) : bool :=
  (2 <=? length s)%nat &&
  (bool_decide (take 2 s = [chr "0"; chr "x"]) || bool_decide (take 2 s = [chr "0"; chr "X"])).

Definition no_error (err : option num_error) : bool :=
  match err with None => true | Some _ => false end.

(** [ParseUint64(s)]. *)
Definition ParseUint64 (s : string) : Z * bool :=
  if bool_decide (s = "") then (0, true)
  else if has_hex_prefix (go_bytes s) then
    let '(v, err) := ParseUint (drop 2 (go_bytes s)) 16 in (v, no_error err)
  else
    let '(v, err) := ParseUint (go_bytes s) 10 in (v, no_error err).

Definition MustParseUint64 (s : string) : run Z :=
  let '(v, ok) := ParseUint64 s in if ok : bool then Ret v else Panic.

(** The error of the decoders, which quotes the input. *)
Inductive integer_error := InvalidInteger (input : list byte).

(** [HexOrDecimal64]: the new value of the receiver. *)
Definition HexOrDecimal64_UnmarshalText (input : list byte) : result integer_error Z :=
  let '(int, ok) := ParseUint64 (go_string input) in
  if ok : bool then Ok int else Err (InvalidInteger input).

Definition HexOrDecimal64_MarshalText (i : Z) : list byte := Sprintf_x i.

(** Checked arithmetic on [uint64]: the wrapped result and the overflow flag. *)
Definition SafeSub (x y : Z) : Z * bool := (u64 (x - y), x <? y).
Definition SafeAdd (x y : Z) : Z * bool := (u64 (x + y), u64 (MaxUint64 - x) <? y).
Definition SafeMul (x y : Z) : Z * bool :=
  if (x =? 0) || (y =? 0) then (0, false) else (u64 (x * y), MaxUint64 / x <? y).

(** ** big.go *)

(** [BigPow(a, b)], by [Exp] without a modulus: 1 for an exponent that is not
    positive. *)
Definition BigPow (a b : Z) : Z := if b <=? 0 then 1 else a ^ b.

Definition tt255 : Z := BigPow 2 255.
Definition tt256 : Z := BigPow 2 256.
Definition tt256m1 : Z := tt256 - 1.
Definition tt63 : Z := BigPow 2 63.
Definition MaxBig256 : Z := tt256m1.
Definition MaxBig63 : Z := tt63 - 1.

(** [ParseBig256(s)]: nothing when [ok] is false. *)
Definition ParseBig256 (s : string) : option Z :=
  if bool_decide (s = "") then Some 0
  else
    let bigint :=
      if has_hex_prefix (go_bytes s) then SetString (drop 2 (go_bytes s)) 16
      else SetString (go_bytes s) 10 in
    match bigint with
    | Some b => if 256 <? BitLen b then None else Some b
    | None => None
    end.

Definition MustParseBig256 (s : string) : run Z :=
  match ParseBig256 s with Some v => Ret v | None => Panic end.

(** [HexOrDecimal256]; the receiver of [MarshalText] may be nil. *)
Definition HexOrDecimal256_UnmarshalText (input : list byte) : result integer_error Z :=
  match ParseBig256 (go_string input) with
  | Some bigint => Ok bigint
  | None => Err (InvalidInteger input)
  end.

Definition HexOrDecimal256_MarshalText (i : option Z) : list byte :=
  match i with None => [chr "0"; chr "x"; chr "0"] | Some x => Sprintf_x x end.

Definition BigMax (x y : Z) : Z := if x <? y then y else x.
Definition BigMin (x y : Z) : Z := if y <? x then y else x.

(** [FirstBitSet(v)]: the loop, with [n] indices left. *)
Fixpoint FirstBitSet_loop (n : nat) (i v : Z) : Z :=
  match n with
  | O => i
  | S n => if Z.testbit v i then i else FirstBitSet_loop n (i + 1) v
  end.
Definition FirstBitSet (v : Z) : Z := FirstBitSet_loop (Z.to_nat (BitLen v)) 0 v.

Definition wordBytes (p : platform) : nat := match p with P32 => 4 | P64 => 8 end.

(** [ReadBits(bigint, buf)]: the inner loop over the bytes of a word, with [k]
    of them left, and the loop over the words; [i] is the index of the code. *)
Fixpoint read_word (k i : nat) (d : Z) (buf : list byte) : nat * list byte :=
  match k, i with
  | S k, S i => read_word k i (Z.shiftr d 8) (<[i := byte_of d]> buf)
  | _, _ => (i, buf)
  end.

Fixpoint read_words (p : platform) (i : nat) (words : list Z) (buf : list byte) : list byte :=
  match words with
  | [] => buf
  | d :: words => let '(i, buf) := read_word (wordBytes p) i d buf in read_words p i words buf
  end.

Definition ReadBits (p : platform) (bigint : Z) (buf : list byte) : list byte :=
  read_words p (length buf) (Bits p bigint) buf.

(** [PaddedBigBytes(bigint, n)]. *)
Definition PaddedBigBytes (p : platform) (bigint n : Z) : list byte :=
  if n <=? BitLen bigint / 8 then big_Bytes bigint
  else ReadBits p bigint (replicate (Z.to_nat n) x00).

(** [bigEndianByteAt(bigint, n)], for the indices [n >= 0] that [Byte] asks
    for. *)
Definition bigEndianByteAt (p : platform) (bigint : Z) (n : nat) : byte :=
  let words := Bits p bigint in
  let i := (n / wordBytes p)%nat in
  if (length words <=? i)%nat then byte_of 0
  else
    let word := default 0 (words !! i) in
    let shift := 8 * Z.of_nat (n mod wordBytes p)%nat in
    byte_of (Z.shiftr word shift).

Definition Byte (p : platform) (bigint padlength n : Z) : byte :=
  if padlength <=? n then byte_of 0
  else bigEndianByteAt p bigint (Z.to_nat (padlength - 1 - n)).

(** [U256(x)], the new value of [x]. *)
Definition U256 (x : Z) : Z := Z.land x tt256m1.

Definition S256 (x : Z) : Z := if x <? tt255 then x else x - tt256.

(** [Exp(base, exponent)], for two distinct objects: the result and the value
    left in [base].  The inner loop has [n] bits of [word] left. *)
Fixpoint Exp_bits (n : nat) (word result base : Z) : Z * Z :=
  match n with
  | O => (result, base)
  | S n =>
      let result := if Z.land word 1 =? 1 then U256 (result * base) else result in
      let base := U256 (base * base) in
      Exp_bits n (Z.shiftr word 1) result base
  end.

Fixpoint Exp_words (p : platform) (words : list Z) (result base : Z) : Z * Z :=
  match words with
  | [] => (result, base)
  | word :: words =>
      let '(result, base) := Exp_bits (Z.to_nat (wordBits p)) word result base in
      Exp_words p words result base
  end.

Definition Exp (p : platform) (base exponent : Z) : Z * Z :=
  Exp_words p (Bits p exponent) 1 base.

Definition MustStringToBigInt (str : string) : run Z :=
  match SetString (go_bytes str) 10 with Some ret => Ret ret | None => Panic end.

(** ** Exponentiation *)

Lemma U256_mod x : U256 x = x mod 2 ^ 256.
Proof. unfold U256. change tt256m1 with (Z.ones 256). apply Z.land_ones. lia. Qed.

(** Congruence modulo 2^256, and the values it leaves alone. *)
Notation "x ≡₂₅₆ y" := (x mod 2 ^ 256 = y mod 2 ^ 256) (at level 70, no associativity) : go_scope.
Definition is_u256 (x : Z) : Prop := 0 <= x < 2 ^ 256.

Lemma U256_cong x : U256 x ≡₂₅₆ x.
Proof. rewrite U256_mod. by apply Z.mod_mod. Qed.

Lemma U256_range x : is_u256 (U256 x).
Proof. rewrite U256_mod. by apply Z.mod_pos_bound. Qed.

Lemma cong_mul a b c d : a ≡₂₅₆ b -> c ≡₂₅₆ d -> a * c ≡₂₅₆ b * d.
Proof. intros H1 H2. rewrite (Z.mul_mod a c), (Z.mul_mod b d), H1, H2 by done. done. Qed.

Lemma cong_pow a b e : a ≡₂₅₆ b -> a ^ e ≡₂₅₆ b ^ e.
Proof. intros H. rewrite (Zpower_mod a), (Zpower_mod b), H by done. done. Qed.

Lemma square_pow b e : 0 <= e -> (b * b) ^ e = b ^ (2 * e).
Proof. intros. by rewrite Z.pow_mul_r, Z.pow_2_r by lia. Qed.

Lemma halve w : 0 <= w -> w = 2 * Z.shiftr w 1 + Z.land w 1.
Proof.
  intros. rewrite Z.shiftr_div_pow2 by lia. change 1 with (Z.ones 1) at 2.
  rewrite Z.land_ones by lia. change (2 ^ 1) with 2. apply Z.div_mod. lia.
Qed.

(** The bits of one word: the result takes the power, the base is squared once
    per bit. *)
Lemma Exp_bits_spec n w r b :
  0 <= w < 2 ^ Z.of_nat n ->
  let '(r', b') := Exp_bits n w r b in
  r' ≡₂₅₆ r * b ^ w /\ b' ≡₂₅₆ b ^ 2 ^ Z.of_nat n /\
  (is_u256 r -> is_u256 r') /\ (n <> O \/ is_u256 b -> is_u256 b').
Proof.
  revert w r b. induction n as [|n IH]; intros w r b Hw; cbn [Exp_bits].
  - change (2 ^ Z.of_nat 0) with 1 in *. replace w with 0 by lia.
    rewrite Z.pow_0_r, Z.pow_1_r, Z.mul_1_r. naive_solver.
  - rewrite Nat2Z.inj_succ, Z.pow_succ_r in * by lia.
    assert (Hbit : Z.land w 1 = 0 \/ Z.land w 1 = 1).
    { pose proof (Z.land_ones w 1 ltac:(lia)) as E. change (Z.ones 1) with 1 in E.
      pose proof (Z.mod_pos_bound w (2 ^ 1) ltac:(done)). change (2 ^ 1) with 2 in *. lia. }
    pose proof (halve w ltac:(lia)) as Hh.
    set (r1 := if Z.land w 1 =? 1 then _ else _).
    specialize (IH (Z.shiftr w 1) r1 (U256 (b * b)) ltac:(lia)).
    destruct (Exp_bits n _ _ _) as [r' b']. destruct IH as (Hr & Hb & Hrr & Hbr).
    assert (Hr1 : r1 ≡₂₅₆ r * b ^ Z.land w 1).
    { unfold r1. destruct Hbit as [-> | ->]; simpl; [by rewrite Z.pow_0_r, Z.mul_1_r|].
      by rewrite U256_cong, Z.pow_1_r. }
    split_and!.
    + rewrite Hr. rewrite (cong_mul _ _ _ _ Hr1 (cong_pow _ _ _ (U256_cong (b * b)))).
      rewrite square_pow by lia. rewrite Hh at 3. rewrite Z.pow_add_r by lia. f_equal. ring.
    + rewrite Hb, (cong_pow _ _ _ (U256_cong _)), square_pow by lia. done.
    + intros H. apply Hrr. unfold r1. case_match; [apply U256_range|done].
    + intros _. apply Hbr. right. apply U256_range.
Qed.

Lemma Exp_words_spec p ws r b :
  Forall (is_word p) ws ->
  let '(r', b') := Exp_words p ws r b in
  r' ≡₂₅₆ r * b ^ SetBits p ws /\
  b' ≡₂₅₆ b ^ 2 ^ (wordBits p * Z.of_nat (length ws)) /\
  (is_u256 r -> is_u256 r') /\ (ws <> [] \/ is_u256 b -> is_u256 b').
Proof.
  intros Hws. revert r b.
  assert (Hp : 0 < wordBits p) by (destruct p; done).
  induction Hws as [|w ws Hw Hws IH]; intros r b; cbn [Exp_words SetBits length].
  - rewrite Z.mul_0_r. change (2 ^ 0) with 1. rewrite Z.pow_0_r, Z.pow_1_r, Z.mul_1_r. naive_solver.
  - pose proof (Exp_bits_spec (Z.to_nat (wordBits p)) w r b) as H1.
    rewrite Z2Nat.id in H1 by lia. specialize (H1 Hw).
    destruct (Exp_bits _ w r b) as [r1 b1]. destruct H1 as (Hr1 & Hb1 & Hrr1 & Hbr1).
    specialize (IH r1 b1). destruct (Exp_words p ws r1 b1) as [r' b'].
    destruct IH as (Hr & Hb & Hrr & Hbr).
    pose proof (SetBits_bound p ws Hws) as [Hs _]. unfold is_word in Hw.
    split_and!.
    + rewrite Hr, (cong_mul _ _ _ _ Hr1 (cong_pow _ _ _ Hb1)), <-Z.pow_mul_r by lia.
      rewrite Z.pow_add_r by nia. f_equal. ring.
    + rewrite Hb, (cong_pow _ _ _ Hb1), <-Z.pow_mul_r, <-Z.pow_add_r by lia. do 3 f_equal. lia.
    + auto.
    + intros _. apply Hbr. right. apply Hbr1. left. lia.
Qed.

Lemma Bits_nil p x : Bits p x = [] <-> x = 0.
Proof.
  unfold Bits. destruct (x =? 0) eqn:E; bool_prop; [done|].
  split; [|done]. cbn [digits_le]. by case_match.
Qed.

(** ** Byte strings *)

(** The inner loop writes the low bytes of a word before index [i]. *)
Lemma read_word_spec k i d buf :
  (i <= length buf)%nat ->
  let m := Nat.min k i in
  read_word k i d buf =
    ((i - m)%nat, take (i - m) buf ++ rev (le_bytes m d) ++ drop i buf).
Proof.
  revert i d buf. induction k as [|k IH]; intros i d buf Hi; cbn [read_word].
  { simpl. by rewrite Nat.sub_0_r, take_drop. }
  destruct i as [|i]; simpl; [by rewrite drop_0|].
  rewrite IH by (rewrite length_insert; lia).
  f_equal. rewrite take_insert_ge by lia. f_equal.
  rewrite insert_take_drop, drop_app_length' by (rewrite ?length_take; lia).
  cbn [rev]. by rewrite <-app_assoc.
Qed.

Lemma word_low_bytes p w v :
  is_word p w -> le_bytes (wordBytes p) (w + 2 ^ wordBits p * v) = le_bytes (wordBytes p) w.
Proof.
  intros Hw. apply le_bytes_mod. replace (8 * Z.of_nat (wordBytes p)) with (wordBits p) by (by destruct p).
  rewrite Z.mul_comm, Z.mod_add by (by destruct p). done.
Qed.

Lemma le_bytes_take a b v : (a <= b)%nat -> take a (le_bytes b v) = le_bytes a v.
Proof.
  intros H. replace b with (a + (b - a))%nat by lia. rewrite le_bytes_app.
  apply take_app_length'. by rewrite le_bytes_length.
Qed.

(** The words of [p] as bytes, cut off at [i]. *)
Lemma le_bytes_word p i w ws :
  is_word p w ->
  le_bytes (Nat.min (wordBytes p * S (length ws)) i) (SetBits p (w :: ws)) =
  le_bytes (Nat.min (wordBytes p) i) w ++
  le_bytes (Nat.min (wordBytes p * length ws) (i - Nat.min (wordBytes p) i)) (SetBits p ws).
Proof.
  intros Hw. cbn [SetBits].
  assert (Hlow : forall a, (a <= wordBytes p)%nat ->
    le_bytes a (w + 2 ^ wordBits p * SetBits p ws) = le_bytes a w).
  { intros a Ha. by rewrite <-(le_bytes_take a (wordBytes p)), word_low_bytes, le_bytes_take. }
  destruct (Nat.le_gt_cases i (wordBytes p)) as [Hi|Hi].
  - replace (Nat.min (wordBytes p) i) with i by lia. rewrite Nat.sub_diag, Nat.min_0_r.
    simpl (le_bytes 0 _). rewrite app_nil_r. replace (Nat.min _ _) with i by nia. by apply Hlow.
  - replace (Nat.min (wordBytes p) i) with (wordBytes p) by lia.
    replace (Nat.min (wordBytes p * S (length ws)) i)
      with (wordBytes p + Nat.min (wordBytes p * length ws) (i - wordBytes p))%nat by lia.
    rewrite le_bytes_app, Hlow by lia. do 2 f_equal.
    replace (8 * Z.of_nat (wordBytes p)) with (wordBits p) by (by destruct p).
    unfold is_word in Hw.
    rewrite Z.shiftr_div_pow2, Z.mul_comm, Z.div_add, Z.div_small by (lia || by destruct p). lia.
Qed.

Lemma read_words_spec p i ws buf :
  (i <= length buf)%nat -> Forall (is_word p) ws ->
  let m := Nat.min (wordBytes p * length ws) i in
  read_words p i ws buf = take (i - m) buf ++ rev (le_bytes m (SetBits p ws)) ++ drop i buf.
Proof.
  intros Hi Hws. revert i buf Hi. induction Hws as [|w ws Hw _ IH]; intros i buf Hi.
  { rewrite Nat.mul_0_r. simpl. by rewrite Nat.sub_0_r, take_drop. }
  cbn [read_words length]. cbv zeta. rewrite read_word_spec, le_bytes_word by done. cbv zeta.
  set (a := Nat.min (wordBytes p) i). set (b := Nat.min (wordBytes p * length ws) (i - a)).
  rewrite IH by (rewrite !length_app, length_take, length_rev, le_bytes_length, length_drop; lia).
  cbv zeta. fold b. rewrite rev_app_distr, <-app_assoc.
  replace (i - Nat.min (wordBytes p * S (length ws)) i)%nat with (i - a - b)%nat by lia.
  rewrite take_app_le, take_take by (rewrite length_take; lia).
  rewrite drop_app_length' by (rewrite length_take; lia).
  f_equal. f_equal. lia.
Qed.

(** The bytes a big integer takes. *)
Definition byte_length (x : Z) : nat := Z.to_nat ((BitLen x + 7) / 8).

Lemma PaddedBigBytes_le p x n :
  PaddedBigBytes p x n = rev (le_bytes (Nat.max (Z.to_nat n) (byte_length x)) (Z.abs x)).
Proof.
  unfold PaddedBigBytes, byte_length. pose proof (BitLen_nonneg x).
  destruct (n <=? BitLen x / 8) eqn:E; bool_prop.
  { rewrite big_Bytes_le. do 2 f_equal. Z.to_euclidean_division_equations; lia. }
  unfold ReadBits. rewrite read_words_spec, length_replicate, SetBits_Bits by (done || apply Bits_words).
  cbv zeta. rewrite drop_ge, app_nil_r, take_replicate by (rewrite length_replicate; lia).
  replace (Nat.max _ _) with (Z.to_nat n) by (Z.to_euclidean_division_equations; lia).
  set (l := (wordBytes p * length (Bits p x))%nat). set (k := Z.to_nat n).
  destruct (Nat.le_gt_cases k l) as [Hk|Hk].
  { replace (Nat.min l k) with k by lia. by rewrite Nat.sub_diag. }
  replace (Nat.min l k) with l by lia. rewrite Nat.min_l by lia.
  replace k with (l + (k - l))%nat at 2 by lia. rewrite le_bytes_app, rev_app_distr. f_equal.
  pose proof (SetBits_bound p _ (Bits_words p x)) as Hb. rewrite SetBits_Bits in Hb.
  rewrite Z.shiftr_div_pow2, Z.div_small, le_bytes_0 by
    (try (split; [lia|]); try lia; replace (8 * Z.of_nat l) with
       (wordBits p * Z.of_nat (length (Bits p x))) by (unfold l; destruct p; simpl wordBytes; simpl wordBits; lia); lia).
  symmetry. apply rev_replicate.
Qed.

(** [bigEndianByteAt] is the byte at a power of 256, whatever the word size. *)
Lemma bigEndianByteAt_spec p x n :
  bigEndianByteAt p x n = byte_of (Z.shiftr (Z.abs x) (8 * Z.of_nat n)).
Proof.
  unfold bigEndianByteAt. cbv zeta. set (i := (n / wordBytes p)%nat). set (r := (n mod wordBytes p)%nat).
  assert (Hw : wordBits p = 8 * Z.of_nat (wordBytes p)) by (by destruct p).
  assert (Hr : (r < wordBytes p)%nat) by (apply Nat.mod_upper_bound; by destruct p).
  assert (Hn : n = (wordBytes p * i + r)%nat) by (apply Nat.div_mod; by destruct p).
  assert (E : byte_of (Z.shiftr (default 0 (Bits p x !! i)) (8 * Z.of_nat r)) =
              byte_of (Z.shiftr (Z.abs x) (8 * Z.of_nat n))).
  { rewrite (SetBits_lookup p), SetBits_Bits by apply Bits_words.
    rewrite byte_of_shift by lia. do 2 f_equal. rewrite Hn, Hw. lia. }
  destruct (length (Bits p x) <=? i)%nat eqn:Hi; [|done]. bool_prop.
  rewrite lookup_ge_None_2 in E by done. simpl in E. by rewrite Z.shiftr_0_l in E.
Qed.

(** ** Numbers as text *)

Lemma has_hex_prefix_0x s : has_hex_prefix ([chr "0"; chr "x"] ++ s) = true.
Proof. by destruct s. Qed.

(** No decimal number starts with a hex prefix. *)
Lemma has_hex_prefix_digits base s ds :
  base <= 16 -> base_digits base s = Some ds -> has_hex_prefix s = false.
Proof.
  intros Hb Hs. unfold has_hex_prefix. apply andb_false_iff.
  destruct s as [|c0 [|c1 s]]; [by left..|]. right. cbn [take].
  cbn [base_digits] in Hs. destruct (uint_digit c0); [|done]. case_match; [|done].
  destruct (uint_digit c1) as [d|] eqn:E; [|done].
  destruct (d <? base) eqn:Ed; [|done]. bool_prop.
  apply orb_false_iff. split; apply bool_decide_eq_false; intros [= _ ->];
    vm_compute in E; simplify_eq; lia.
Qed.

(** A digit is no sign. *)
Lemma SetString_digits base s ds :
  s <> [] -> base_digits base s = Some ds -> SetString s base = Some (horner base 0 ds).
Proof.
  intros Hn Hs. destruct s as [|c s]; [done|]. unfold SetString.
  assert (Hc : uint_digit c <> None) by (intros E; cbn [base_digits] in Hs; by rewrite E in Hs).
  assert (Hm : (byte_val c =? 45) = false /\ (byte_val c =? 43) = false)
    by (clear -Hc; destruct c; vm_compute in Hc |- *; done).
  destruct Hm as [-> ->]. by rewrite Hs.
Qed.

Lemma num_digits_no_prefix base n :
  1 < base <= 16 -> 0 <= n -> has_hex_prefix (num_digits base n) = false.
Proof.
  intros Hb Hn. destruct (num_digits_base_digits base n Hb Hn) as (ds & Hds & _).
  eapply has_hex_prefix_digits; [|exact Hds]. lia.
Qed.

Lemma go_string_nonempty b : b <> [] -> bool_decide (go_string b = "") = false.
Proof. intros Hb. apply bool_decide_eq_false. by destruct b. Qed.

Lemma SetString_num_digits base n :
  1 < base <= 16 -> 0 <= n -> SetString (num_digits base n) base = Some n.
Proof.
  intros Hb Hn. destruct (num_digits_base_digits base n Hb Hn) as (ds & Hds & Hv).
  by rewrite (SetString_digits _ _ _ (num_digits_nonnil _ _) Hds), Hv.
Qed.

Lemma ParseUint_num_digits base n :
  1 < base <= 16 -> 0 <= n ->
  ParseUint (num_digits base n) base =
  if n <? 2 ^ 64 then (n, None) else (maxUint64, Some ErrRange_).
Proof.
  intros Hb Hn. destruct (num_digits_base_digits base n Hb Hn) as (ds & Hds & Hv).
  destruct (n <? 2 ^ 64) eqn:E; bool_prop.
  - apply ParseUint_ok; [lia|]. split; [apply num_digits_nonnil|].
    exists ds. unfold maxUint64. split_and!; [done..|lia].
  - apply (ParseUint_range _ _ ds); [lia|done|]. unfold maxUint64. lia.
Qed.

Lemma BitLen_256 x : (256 <? BitLen x) = negb (Z.abs x <? 2 ^ 256).
Proof.
  apply eq_true_iff_eq. rewrite negb_true_iff, Z.ltb_lt, Z.ltb_ge. unfold BitLen.
  destruct (x =? 0) eqn:E; bool_prop; [subst; simpl; lia|].
  rewrite (Z.log2_le_pow2 (Z.abs x)) by lia. lia.
Qed.

Lemma ParseBig256_decimal n :
  0 <= n -> ParseBig256 (go_string (num_digits 10 n)) = if n <? 2 ^ 256 then Some n else None.
Proof.
  intros Hn. unfold ParseBig256. rewrite go_string_nonempty by apply num_digits_nonnil.
  rewrite go_bytes_string, num_digits_no_prefix, SetString_num_digits by lia.
  rewrite BitLen_256, Z.abs_eq by lia. by destruct (n <? 2 ^ 256).
Qed.

Lemma ParseBig256_hex n :
  0 <= n ->
  ParseBig256 (go_string ([chr "0"; chr "x"] ++ num_digits 16 n)) =
  if n <? 2 ^ 256 then Some n else None.
Proof.
  intros Hn. unfold ParseBig256. rewrite go_string_nonempty by done.
  rewrite go_bytes_string, has_hex_prefix_0x. cbn [drop app].
  rewrite drop_0, SetString_num_digits, BitLen_256, Z.abs_eq by lia. by destruct (n <? 2 ^ 256).
Qed.

Lemma ParseUint64_texts n :
  0 <= n ->
  ParseUint64 (go_string (num_digits 10 n)) =
    (if n <? 2 ^ 64 then n else maxUint64, n <? 2 ^ 64) /\
  ParseUint64 (go_string ([chr "0"; chr "x"] ++ num_digits 16 n)) =
    (if n <? 2 ^ 64 then n else maxUint64, n <? 2 ^ 64).
Proof.
  intros Hn. unfold ParseUint64. split.
  - rewrite go_string_nonempty by apply num_digits_nonnil.
    rewrite go_bytes_string, num_digits_no_prefix, ParseUint_num_digits by lia. by destruct (n <? 2 ^ 64).
  - rewrite go_string_nonempty by done.
    rewrite go_bytes_string, has_hex_prefix_0x. cbn [drop app].
    rewrite drop_0, ParseUint_num_digits by lia. by destruct (n <? 2 ^ 64).
Qed.

(** ** Checked arithmetic and two's complement *)

(** The result of an operation on unbounded integers, as the functions report
    it: wrapped to 64 bits, and whether it needs more. *)
Definition checked (z : Z) : Z * bool := (u64 z, negb ((0 <=? z) && (z <? 2 ^ 64))).

Lemma twos_complement x :
  (- 2 ^ 255 <= x < 2 ^ 255 -> S256 (U256 x) = x) /\
  (is_u256 x -> - 2 ^ 255 <= S256 x < 2 ^ 255 /\ U256 (S256 x) = x).
Proof.
  unfold S256, is_u256. rewrite !U256_mod. change tt255 with (2 ^ 255). change tt256 with (2 ^ 256).
  assert (2 ^ 256 = 2 * 2 ^ 255) by done.
  split; intros Hx.
  - destruct (Z.lt_ge_cases x 0).
    + replace (x mod 2 ^ 256) with (x + 2 ^ 256) by (apply Z.mod_unique with (-1); lia).
      case_match eqn:E; bool_prop; lia.
    + rewrite Z.mod_small by lia. case_match eqn:E; bool_prop; lia.
  - case_match eqn:E; bool_prop.
    + rewrite Z.mod_small by lia. lia.
    + split; [lia|]. symmetry. apply Z.mod_unique with (-1); lia.
Qed.

Lemma FirstBitSet_loop_spec n i v :
  let r := FirstBitSet_loop n i v in
  i <= r <= i + Z.of_nat n /\ (forall j, i <= j < r -> Z.testbit v j = false) /\
  (r < i + Z.of_nat n -> Z.testbit v r = true).
Proof.
  revert i. induction n as [|n IH]; intros i; cbn [FirstBitSet_loop]; cbv zeta.
  - split_and!; [lia..|intros; lia|lia].
  - destruct (Z.testbit v i) eqn:E; [split_and!; [lia..|intros; lia|done]|].
    destruct (IH (i + 1)) as (H1 & H2 & H3). split_and!; [lia..| |intros; apply H3; lia].
    intros j Hj. destruct (Z.eq_dec j i) as [->|]; [done|]. apply H2. lia.
Qed.

(** The index of the lowest bit set, for negative numbers too. *)
Lemma FirstBitSet_spec v :
  (FirstBitSet 0 = 0) /\
  (v <> 0 -> Z.testbit v (FirstBitSet v) = true /\
    forall j, 0 <= j < FirstBitSet v -> Z.testbit v j = false).
Proof.
  split; [done|]. intros Hv. unfold FirstBitSet.
  destruct (FirstBitSet_loop_spec (Z.to_nat (BitLen v)) 0 v) as (H1 & H2 & H3).
  rewrite Z2Nat.id, Z.add_0_l in * by apply BitLen_nonneg.
  split; [|done]. apply H3. apply Z.le_neq. split; [lia|]. intros Hr. rewrite Hr in H2.
  assert (Hz : v mod 2 ^ BitLen v = 0).
  { apply Z.bits_inj'. intros n Hn. rewrite Z.bits_0.
    destruct (Z.lt_ge_cases n (BitLen v)); [|by rewrite Z.mod_pow2_bits_high by (pose proof (BitLen_nonneg v); lia)].
    rewrite Z.mod_pow2_bits_low by lia. apply H2. lia. }
  apply Z.mod_divide in Hz as [q Hq]; [|pose proof (Z.pow_pos_nonneg 2 (BitLen v)); pose proof (BitLen_nonneg v); lia].
  pose proof (BitLen_bound v). assert (q = 0) by nia. lia.
Qed.

(** ** Properties *)

(** C35: exponentiation by squaring computes the power modulo 2^256 on either
    word size.  The comment of [Exp] says [base] is not changed: it is squared
    once for every bit of the words of the exponent. *)
Theorem Exp_power p base exponent :
  Exp p base exponent =
  (base ^ Z.abs exponent mod 2 ^ 256,
   if exponent =? 0 then base
   else base ^ 2 ^ (wordBits p * Z.of_nat (length (Bits p exponent))) mod 2 ^ 256).
Proof.
  unfold Exp. pose proof (Exp_words_spec p (Bits p exponent) 1 base (Bits_words p exponent)) as H.
  destruct (Exp_words p (Bits p exponent) 1 base) as [r b] eqn:E. destruct H as (Hr & Hb & Hrr & Hbr).
  rewrite SetBits_Bits, Z.mul_1_l in Hr. rewrite <-Hr, <-Hb.
  rewrite (Z.mod_small r) by (apply Hrr; done). f_equal.
  destruct (exponent =? 0) eqn:E0; bool_prop.
  - subst. by injection E as <- <-.
  - rewrite Z.mod_small; [done|]. apply Hbr. left. by rewrite Bits_nil.
Qed.

(** C34: [SafeAdd], [SafeSub] and [SafeMul] return the wrapped result and
    report an overflow exactly when the true result does not fit 64 bits. *)
Theorem safe_arithmetic_exact x y :
  is_u64 x -> is_u64 y ->
  SafeAdd x y = checked (x + y) /\ SafeSub x y = checked (x - y) /\ SafeMul x y = checked (x * y).
Proof.
  unfold is_u64, SafeAdd, SafeSub, SafeMul, checked, u64.
  change MaxUint64 with (2 ^ 64 - 1). intros Hx Hy.
  rewrite (Z.mod_small (2 ^ 64 - 1 - x)) by lia. split_and!.
  - f_equal. lia.
  - f_equal. lia.
  - destruct (x =? 0) eqn:E; bool_prop; [by subst|]. destruct (y =? 0) eqn:E'; bool_prop.
    { subst. by rewrite Z.mul_0_r. }
    simpl orb. f_equal. apply eq_true_iff_eq.
    rewrite Z.ltb_lt, negb_true_iff, andb_false_iff, Z.leb_gt, Z.ltb_ge.
    pose proof (Z.div_mod (2 ^ 64 - 1) x). pose proof (Z.mod_pos_bound (2 ^ 64 - 1) x). nia.
Qed.

(** C36: [PaddedBigBytes] is the big-endian encoding of the absolute value, in
    [n] bytes or as many as it takes, and [Byte] reads its bytes: the three
    loops over words agree, on either word size. *)
Theorem PaddedBigBytes_bytes p x n :
  let b := PaddedBigBytes p x n in
  big_SetBytes b = Z.abs x /\
  length b = Nat.max (Z.to_nat n) (byte_length x) /\
  (forall i, (i < length b)%nat ->
     b !! i = Some (Byte p x (Z.of_nat (length b)) (Z.of_nat i))).
Proof.
  cbv zeta. rewrite PaddedBigBytes_le. set (k := Nat.max _ _).
  rewrite length_rev, le_bytes_length. split_and!; [|done|].
  - rewrite big_SetBytes_le. apply Z.mod_small. split; [lia|].
    eapply Z.lt_le_trans; [apply BitLen_bound|]. change 256 with (2 ^ 8).
    rewrite <-Z.pow_mul_r by lia. apply Z.pow_le_mono_r; [lia|].
    pose proof (BitLen_nonneg x). unfold k, byte_length. Z.to_euclidean_division_equations; lia.
  - intros i Hi. unfold Byte. replace (Z.of_nat k <=? Z.of_nat i) with false by lia.
    rewrite bigEndianByteAt_spec, rev_alt.
    change (rev_append ?l []) with (reverse l). rewrite reverse_lookup by (rewrite le_bytes_length; lia).
    rewrite le_bytes_length, le_bytes_lookup by lia. do 4 f_equal. lia.
Qed.

(** Numbers survive the trip through their text: hex and decimal digits
    parse to the number up to the width and are refused beyond it, for 64 and
    256 bits, and what [MarshalText] writes is read back.  A negative number
    is written but not read. *)
Theorem HexOrDecimal_texts n :
  0 <= n ->
  ParseBig256 (go_string (num_digits 10 n)) = (if n <? 2 ^ 256 then Some n else None) /\
  ParseUint64 (go_string (num_digits 10 n)) =
    (if n <? 2 ^ 64 then n else maxUint64, n <? 2 ^ 64) /\
  HexOrDecimal256_UnmarshalText (HexOrDecimal256_MarshalText (Some n)) =
    (if n <? 2 ^ 256 then Ok n else Err (InvalidInteger (Sprintf_x n))) /\
  HexOrDecimal64_UnmarshalText (HexOrDecimal64_MarshalText n) =
    (if n <? 2 ^ 64 then Ok n else Err (InvalidInteger (Sprintf_x n))) /\
  (0 < n -> HexOrDecimal256_UnmarshalText (HexOrDecimal256_MarshalText (Some (- n))) =
    Err (InvalidInteger (Sprintf_x (- n)))).
Proof.
  intros Hn. destruct (ParseUint64_texts n Hn) as [Hd Hx].
  assert (Hs : Sprintf_x n = [chr "0"; chr "x"] ++ num_digits 16 n).
  { unfold Sprintf_x. replace (n <? 0) with false by lia. by rewrite Z.abs_eq by lia. }
  unfold HexOrDecimal256_UnmarshalText, HexOrDecimal64_UnmarshalText, HexOrDecimal256_MarshalText,
    HexOrDecimal64_MarshalText. rewrite Hs, Hx, ParseBig256_hex, ParseBig256_decimal by done.
  split_and!; [done|done|by destruct (n <? 2 ^ 256)|by destruct (n <? 2 ^ 64)|]. intros Hneg.
  unfold Sprintf_x. by replace (- n <? 0) with true by lia.
Qed.

Lemma safe_arithmetic_exact_witness :
  SafeMul (2 ^ 33) (2 ^ 32) = checked (2 ^ 65).
Proof. apply (safe_arithmetic_exact (2 ^ 33) (2 ^ 32)); split; vm_compute; done. Defined.

Lemma HexOrDecimal_texts_witness :
  ParseBig256 (go_string (num_digits 10 255)) = Some 255.
Proof. apply (HexOrDecimal_texts 255). done. Defined.
