(* ===== verification/HexUtil.v ===== *)
(** * pkg/common/hexutil/hexutil.go: hex strings with the 0x prefix

    [Decode]/[Encode] for byte slices, [DecodeUint64]/[EncodeUint64] for
    quantities of 64 bits and [DecodeBig]/[EncodeBig] for quantities of 256
    bits, with the word-by-word accumulation of [DecodeBig] on 32- and 64-bit
    platforms. *)

From S2P Require Import Prelude GoStd.
From Stdlib Require Import ZArith Lia.
From Stdlib Require Import Init.Byte.
From stdpp Require Import gmap strings list.

Open Scope Z_scope.

(** The package's error values; [ErrUintRange] prints the platform's bits. *)
Inductive decError :=
| ErrEmptyString | ErrSyntax | ErrMissingPrefix | ErrOddLength | ErrEmptyNumber
| ErrLeadingZero | ErrUint64Range | ErrUintRange | ErrBig256Range.

#[export] Instance decError_eq_dec : EqDecision decError.
Proof. solve_decision. Defined.

Definition decError_Error (p : platform) (e : decError) : string :=
  match e with
  | ErrEmptyString => "empty hex string"
  | ErrSyntax => "invalid hex string"
  | ErrMissingPrefix => "hex string without 0x prefix"
  | ErrOddLength => "hex string of odd length"
  | ErrEmptyNumber => go_string (go_bytes "hex string " ++ [x22] ++ go_bytes "0x" ++ [x22])
  | ErrLeadingZero => "hex number with leading zero digits"
  | ErrUint64Range => "hex number > 64 bits"
  | ErrUintRange => "hex number > " +:+ Itoa (wordBits p) +:+ " bits"
  | ErrBig256Range => "hex number > 256 bits"
  end.

(** [mapError] on the errors of [encoding/hex] and of [strconv]. *)
Definition mapHexError (e : hex_error) : decError :=
  match e with InvalidByteError _ => ErrSyntax | ErrLength => ErrOddLength end.
Definition mapNumError (e : num_error) : decError :=
  match e with ErrRange_ => ErrUint64Range | ErrSyntax_ => ErrSyntax end.

Definition has0xPrefix (input : list byte) : bool :=
  match input with
  | c0 :: c1 :: _ =>
      bool_decide (c0 = chr "0") && (bool_decide (c1 = chr "x") || bool_decide (c1 = chr "X"))
  | _ => false
  end.

(** [checkNumber(input)]: the digits after the prefix. *)
Definition checkNumber (input : list byte) : result decError (list byte) :=
  if (length input =? 0)%nat then Err ErrEmptyString
  else if negb (has0xPrefix input) then Err ErrMissingPrefix
  else
    let input := drop 2 input in
    if (length input =? 0)%nat then Err ErrEmptyNumber
    else if (1 <? length input)%nat && bool_decide (head input = Some (chr "0"))
    then Err ErrLeadingZero
    else Ok input.

(** [Decode(input)]: on an error of [hex.DecodeString] the bytes decoded so
    far are returned with it. *)
Definition Decode (input : string) : list byte * option decError :=
  let input := go_bytes input in
  if (length input =? 0)%nat then ([], Some ErrEmptyString)
  else if negb (has0xPrefix input) then ([], Some ErrMissingPrefix)
  else
    let '(b, err) := hex_Decode (drop 2 input) in
    (b, mapHexError <$> err).

Definition MustDecode (input : string) : run (list byte) :=
  match Decode input with
  | (dec, None) => Ret dec
  | (_, Some _) => Panic
  end.

(** [Encode(b)]. *)
Definition Encode (b : list byte) : string :=
  go_string ([chr "0"; chr "x"] ++ hex_Encode b).

(** [DecodeUint64(input)]: on a range error the value is the maximum. *)
Definition DecodeUint64 (input : string) : Z * option decError :=
  match checkNumber (go_bytes input) with
  | Err e => (0, Some e)
  | Ok raw =>
      let '(dec, err) := ParseUint raw 16 in
      (dec, mapNumError <$> err)
  end.

Definition MustDecodeUint64 (input : string) : run Z :=
  match DecodeUint64 input with
  | (dec, None) => Ret dec
  | (_, Some _) => Panic
  end.

Definition EncodeUint64 (i : Z) : string :=
  go_string (AppendUint [chr "0"; chr "x"] i 16).

(** [badNibble = ^uint64(0)] and [decodeNibble]. *)
Definition badNibble : Z := maxUint64.
Definition decodeNibble (c : byte) : Z :=
  if in_range "0" "9" c then byte_val c - byte_val (chr "0")
  else if in_range "A" "F" c then byte_val c - byte_val (chr "A") + 10
  else if in_range "a" "f" c then byte_val c - byte_val (chr "a") + 10
  else badNibble.

(** [bigWordNibbles], from the number of words of 0xFFFFFFFFFF. *)
Definition bigWordNibbles (p : platform) : nat :=
  match length (Bits p 0xFFFFFFFFFF) with
  | 1%nat => 16
  | _ => 8
  end.

(** The body of the loop over [raw[start:end]]: [words[i] *= 16] and
    [words[i] += nib], in a [big.Word]. *)
Fixpoint word_loop (p : platform) (w : Z) (s : list byte) : option Z :=
  match s with
  | [] => Some w
  | c :: s' =>
      let nib := decodeNibble c in
      if nib =? badNibble then None
      else word_loop p (((w * 16) mod 2 ^ wordBits p + nib) mod 2 ^ wordBits p) s'
  end.

(** The loop over [words]: each takes the [bigWordNibbles] digits that end at
    [end], or what is left of them ([start] is clamped at 0). *)
Fixpoint words_loop (p : platform) (raw : list byte) (nwords fin : nat)
    : option (list Z) :=
  match nwords with
  | O => Some []
  | S n =>
      let start := (fin - bigWordNibbles p)%nat in
      match word_loop p 0 (take (fin - start) (drop start raw)) with
      | None => None
      | Some w => cons w <$> words_loop p raw n start
      end
  end.

(** [DecodeBig(input)]. *)
Definition DecodeBig_raw (p : platform) (raw : list byte) : result decError Z :=
  if (64 <? length raw)%nat then Err ErrBig256Range
  else
    match words_loop p raw (length raw / bigWordNibbles p + 1) (length raw) with
    | None => Err ErrSyntax
    | Some words => Ok (SetBits p words)
    end.

Definition DecodeBig (p : platform) (input : string) : result decError Z :=
  let? raw := checkNumber (go_bytes input) in DecodeBig_raw p raw.

Definition MustDecodeBig (p : platform) (input : string) : run Z :=
  match DecodeBig p input with
  | Ok dec => Ret dec
  | Err _ => Panic
  end.

(** [EncodeBig(bigint)]. *)
Definition EncodeBig (bigint : Z) : string :=
  if BitLen bigint =? 0 then "0x0" else go_string (Sprintf_x bigint).

(** ** Specifications *)

(** The prefix, and the reference value of a digit string. *)
Definition prefix_0x (l : list byte) : list byte := [chr "0"; chr "x"] ++ l.

(** The value of hex digits, by Horner's rule on unbounded integers. *)
Definition hex_value (s : list byte) : option Z := horner 16 0 <$> base_digits 16 s.

(** A minimal quantity: at least one digit, and no leading zero. *)
Definition quantity (raw : list byte) : Prop :=
  raw <> [] /\ (head raw = Some (chr "0") -> length raw = 1%nat).

(** ** Lemmas *)

Lemma has0xPrefix_spec s :
  has0xPrefix s = true <->
  exists c raw, s = chr "0" :: c :: raw /\ (c = chr "x" \/ c = chr "X").
Proof.
  destruct s as [|c0 [|c1 raw]]; cbn [has0xPrefix]; [naive_solver..|].
  rewrite andb_true_iff, orb_true_iff, !bool_decide_eq_true. naive_solver.
Qed.

Lemma checkNumber_ok s raw :
  checkNumber s = Ok raw <->
  (exists c, s = chr "0" :: c :: raw /\ (c = chr "x" \/ c = chr "X")) /\ quantity raw.
Proof.
  unfold checkNumber, quantity. destruct (length s =? 0)%nat eqn:E0; bool_prop.
  { destruct s; naive_solver. }
  destruct (has0xPrefix s) eqn:Ep; simpl.
  2:{ split; [done|]. intros [(c & -> & Hc) _].
      assert (H : has0xPrefix (chr "0" :: c :: raw) = true) by (apply has0xPrefix_spec; eauto).
      congruence. }
  apply has0xPrefix_spec in Ep as (c & r & -> & Hc). cbn [drop]. rewrite !drop_0.
  destruct (length r =? 0)%nat eqn:E1; bool_prop.
  { destruct r; naive_solver. }
  destruct (1 <? length r)%nat eqn:E2; bool_prop; simpl.
  - case_bool_decide as E3; bool_prop.
    + split; [done|]. intros [(c' & Heq & _) [_ Hz]]. simplify_eq. apply Hz in E3. lia.
    + destruct r; naive_solver.
  - destruct r as [|? [|]]; simpl in *; naive_solver lia.
Qed.

Lemma checkNumber_prefix raw : quantity raw -> checkNumber (prefix_0x raw) = Ok raw.
Proof. intros H. apply checkNumber_ok. split; [|done]. exists (chr "x"). naive_solver. Qed.

Lemma num_digits_minimal base n : 1 < base <= 16 -> 0 <= n -> quantity (num_digits base n).
Proof.
  intros Hb Hn. split; [apply num_digits_nonnil|].
  destruct (Z.eq_dec n 0) as [->|]; [by rewrite num_digits_0 by lia|].
  intros H. exfalso. eapply num_digits_head, H; lia.
Qed.

Lemma decodeNibble_spec c :
  decodeNibble c = match fromHexChar c with Some d => d | None => badNibble end.
Proof. destruct c; vm_compute; reflexivity. Qed.

Lemma fromHexChar_digit c d :
  fromHexChar c = Some d <-> uint_digit c = Some d /\ d < 16.
Proof.
  pose proof (uint_digit_fromHexChar c) as H. destruct (uint_digit c) as [d'|].
  - destruct (d' <? 16) eqn:E; bool_prop; rewrite H; naive_solver lia.
  - rewrite H. naive_solver.
Qed.

Lemma base_digits_16_cons c s :
  base_digits 16 (c :: s) =
  match fromHexChar c with Some d => cons d <$> base_digits 16 s | None => None end.
Proof.
  cbn [base_digits]. pose proof (uint_digit_fromHexChar c) as H.
  destruct (uint_digit c) as [d|]; [|by rewrite H].
  destruct (d <? 16); by rewrite H.
Qed.

Lemma word_pow p : 2 ^ wordBits p = 16 ^ Z.of_nat (bigWordNibbles p).
Proof. by destruct p. Qed.

Lemma bigWordNibbles_pos p : (0 < bigWordNibbles p)%nat.
Proof. destruct p; vm_compute; lia. Qed.

(** A word holds its nibbles without wrapping around. *)
Lemma word_loop_spec p w k s :
  0 <= w < 16 ^ Z.of_nat k -> (k + length s <= bigWordNibbles p)%nat ->
  word_loop p w s = horner 16 w <$> base_digits 16 s.
Proof.
  revert w k. induction s as [|c s IH]; intros w k Hw Hk; [done|].
  rewrite base_digits_16_cons. cbn [word_loop]. rewrite decodeNibble_spec.
  destruct (fromHexChar c) as [d|] eqn:Ec; [|done].
  apply fromHexChar_range in Ec.
  replace (d =? badNibble) with false by (symmetry; apply Z.eqb_neq; unfold badNibble, maxUint64; lia).
  simpl in Hk.
  assert (16 ^ Z.of_nat (S k) <= 2 ^ wordBits p).
  { rewrite word_pow. apply Z.pow_le_mono_r; lia. }
  rewrite Nat2Z.inj_succ, Z.pow_succ_r in * by lia.
  rewrite (Z.mod_small (w * 16)), Z.mod_small by lia.
  rewrite (IH _ (S k)); [|rewrite Nat2Z.inj_succ, Z.pow_succ_r by lia; lia|lia].
  by destruct (base_digits 16 s).
Qed.

Lemma base_digits_take_drop s i j :
  (i <= j)%nat ->
  base_digits 16 (take j s) =
  match base_digits 16 (take i s) with
  | Some d1 => app d1 <$> base_digits 16 (take (j - i) (drop i s))
  | None => None
  end.
Proof.
  intros Hij. rewrite <-base_digits_app. f_equal.
  rewrite <-(take_drop i (take j s)) at 1. rewrite take_take, skipn_firstn_comm.
  by rewrite Nat.min_l by lia.
Qed.

(** The words computed by the loop have the value of the digits read, and the
    loop fails exactly on a character that is not a hex digit. *)
Lemma words_loop_spec p raw n fin :
  (fin < n * bigWordNibbles p)%nat -> (fin <= length raw)%nat ->
  SetBits p <$> words_loop p raw n fin = hex_value (take fin raw).
Proof.
  revert fin. induction n as [|n IH]; intros fin Hfin Hlen; [lia|].
  cbn [words_loop]. set (start := (fin - bigWordNibbles p)%nat).
  pose proof (bigWordNibbles_pos p) as Hpos.
  rewrite (word_loop_spec p 0 0); [|simpl; lia|rewrite length_take; lia].
  unfold hex_value at 1. rewrite (base_digits_take_drop raw start fin) by lia.
  assert (Hrest : SetBits p <$> words_loop p raw n start = hex_value (take start raw)
                  \/ (n = 0%nat /\ start = 0%nat)).
  { destruct n; [right; lia|]. left. apply IH; lia. }
  destruct (base_digits 16 (take (fin - start) (drop start raw))) as [d2|] eqn:E2.
  2:{ destruct (base_digits 16 (take start raw)); done. }
  assert (Hl2 : length d2 = (fin - start)%nat).
  { erewrite base_digits_length by done. rewrite length_take, length_drop. lia. }
  simpl. destruct Hrest as [Hrest|[-> Hs]].
  - unfold hex_value in Hrest. destruct (base_digits 16 (take start raw)) as [d1|] eqn:E1.
    + simpl in Hrest. destruct (words_loop p raw n start); simplify_eq/=.
      f_equal. rewrite horner_app, (horner_acc 16 (horner _ _ _)), Hl2, Hrest, word_pow.
      destruct (Nat.le_gt_cases (bigWordNibbles p) fin).
      * replace (fin - start)%nat with (bigWordNibbles p) by lia. lia.
      * assert (d1 = []) as ->; [|simpl; lia].
        destruct d1; [done|]. apply base_digits_length in E1.
        replace start with 0%nat in E1 by lia. done.
    + simpl in Hrest. by destruct (words_loop p raw n start).
  - rewrite Hs. simpl. f_equal. lia.
Qed.

Lemma DecodeBig_raw_spec p raw :
  DecodeBig_raw p raw =
  if (64 <? length raw)%nat then Err ErrBig256Range
  else match hex_value raw with Some n => Ok n | None => Err ErrSyntax end.
Proof.
  unfold DecodeBig_raw. case_match; [done|].
  rewrite <-(take_ge raw (length raw)) at 4 by lia.
  rewrite <-(words_loop_spec p raw (length raw / bigWordNibbles p + 1)).
  - by destruct (words_loop _ _ _ _).
  - pose proof (bigWordNibbles_pos p).
    pose proof (Nat.div_mod (length raw) (bigWordNibbles p) ltac:(lia)).
    pose proof (Nat.mod_upper_bound (length raw) (bigWordNibbles p) ltac:(lia)). nia.
  - lia.
Qed.

Lemma hex_value_bound raw n :
  hex_value raw = Some n -> 0 <= n < 16 ^ Z.of_nat (length raw).
Proof.
  unfold hex_value. intros (ds & Hds & ->)%fmap_Some_1.
  rewrite <-(base_digits_length _ _ _ Hds). apply horner_bound; [lia|].
  by eapply base_digits_range.
Qed.

Lemma hex_value_num_digits n : 0 <= n -> hex_value (num_digits 16 n) = Some n.
Proof.
  intros Hn. destruct (num_digits_base_digits 16 n ltac:(lia) Hn) as (ds & E & Hv).
  unfold hex_value. by rewrite E, <-Hv.
Qed.

Lemma EncodeBig_nonneg n : 0 <= n -> EncodeBig n = go_string (prefix_0x (num_digits 16 n)).
Proof.
  intros Hn. unfold EncodeBig, BitLen, Sprintf_x, prefix_0x.
  destruct (n =? 0) eqn:E; bool_prop; [by subst|].
  pose proof (Z.log2_nonneg (Z.abs n)).
  replace (Z.log2 (Z.abs n) + 1 =? 0) with false by lia.
  replace (n <? 0) with false by lia. by rewrite Z.abs_eq by lia.
Qed.

Lemma checkNumber_num_digits n :
  0 <= n -> checkNumber (prefix_0x (num_digits 16 n)) = Ok (num_digits 16 n).
Proof. intros Hn. apply checkNumber_prefix, num_digits_minimal; lia. Qed.

Lemma num_digits_16_long n k :
  0 <= n -> (length (num_digits 16 n) <= k)%nat -> n < 16 ^ Z.of_nat k.
Proof.
  intros Hn Hk. pose proof (hex_value_bound _ _ (hex_value_num_digits n Hn)) as [_ H].
  eapply Z.lt_le_trans; [exact H|]. apply Z.pow_le_mono_r; lia.
Qed.

Lemma byte_val_nibbles v :
  byte_val v = Z.shiftr (byte_val v) 4 * 16 + Z.land (byte_val v) 15.
Proof. destruct v; reflexivity. Qed.

(** The digits [hex.Encode] writes have the big-endian value of the bytes. *)
Lemma hex_value_hex_Encode b : hex_value (hex_Encode b) = Some (big_SetBytes b).
Proof.
  unfold hex_value, big_SetBytes. generalize 0 as acc.
  induction b as [|v b IH]; intros acc; [done|].
  cbn [hex_Encode]. rewrite !base_digits_16_cons, !fromHexChar_hextable by auto with go.
  specialize (IH (acc * 256 + byte_val v)).
  destruct (base_digits 16 (hex_Encode b)) as [ds|]; [|done].
  apply (inj Some) in IH. change (Some (horner 16 ((acc * 16 + Z.shiftr (byte_val v) 4) * 16
    + Z.land (byte_val v) 15) ds) = Some (horner 256 (acc * 256 + byte_val v) (byte_val <$> b))).
  rewrite <-IH. do 2 f_equal. rewrite (byte_val_nibbles v) at 3. lia.
Qed.

Lemma big_SetBytes_inj b1 b2 :
  length b1 = length b2 -> big_SetBytes b1 = big_SetBytes b2 -> b1 = b2.
Proof.
  unfold big_SetBytes. revert b2. induction b1 as [|x b1 IH] using rev_ind; intros b2 Hl Hv.
  - by destruct b2.
  - destruct b2 as [|y b2 _] using rev_ind.
    + rewrite length_app in Hl. simpl in Hl. lia.
    + rewrite !length_app in Hl. simpl in Hl. rewrite !fmap_app, !horner_app in Hv.
      specialize (IH b2 ltac:(lia)). simpl in Hv.
      set (h1 := horner 256 0 (byte_val <$> b1)) in *.
      set (h2 := horner 256 0 (byte_val <$> b2)) in *.
      pose proof (byte_val_range x). pose proof (byte_val_range y).
      assert (byte_val x = byte_val y) as ->%byte_val_inj by lia.
      f_equal. apply IH. lia.
Qed.

(** ** Properties *)

(** [DecodeBig] accepts exactly the prefixed minimal digit strings of at
    most 64 hex digits, and on either word size its word-by-word accumulation
    returns their value by Horner's rule. *)
Theorem DecodeBig_accepts p s n :
  DecodeBig p s = Ok n <->
  exists c raw, go_bytes s = chr "0" :: c :: raw /\ (c = chr "x" \/ c = chr "X") /\
    quantity raw /\ (length raw <= 64)%nat /\ hex_value raw = Some n.
Proof.
  unfold DecodeBig. destruct (checkNumber (go_bytes s)) as [raw|e] eqn:E.
  - rewrite DecodeBig_raw_spec. apply checkNumber_ok in E as [(c & Hs & Hc) Hm].
    split.
    + intros H. exists c, raw. destruct (64 <? length raw)%nat eqn:E64; [done|].
      bool_prop. destruct (hex_value raw) as [v|] eqn:Ev; [|done]. by simplify_eq.
    + intros (c' & raw' & Hs' & _ & _ & Hl & Hv). rewrite Hs in Hs'. simplify_eq.
      replace (64 <? length raw')%nat with false by (symmetry; apply Nat.ltb_ge; lia).
      by rewrite Hv.
  - split; [done|]. intros (c & raw & Hs & Hc & Hm & _).
    assert (checkNumber (go_bytes s) = Ok raw) by (apply checkNumber_ok; eauto). congruence.
Qed.

(** C37: [DecodeBig] after [EncodeBig] gives the number back below 2^256, the
    range error from there on, and the missing-prefix error for a negative
    number, whose encoding starts with the sign. *)
Theorem DecodeBig_EncodeBig p n :
  DecodeBig p (EncodeBig n) =
  if n <? 0 then Err ErrMissingPrefix
  else if n <? 2 ^ 256 then Ok n else Err ErrBig256Range.
Proof.
  destruct (n <? 0) eqn:En; bool_prop.
  - unfold EncodeBig, BitLen. replace (n =? 0) with false by lia.
    pose proof (Z.log2_nonneg (Z.abs n)).
    replace (Z.log2 (Z.abs n) + 1 =? 0) with false by lia.
    unfold Sprintf_x, DecodeBig. replace (n <? 0) with true by lia.
    by rewrite go_bytes_string.
  - rewrite EncodeBig_nonneg by done. unfold DecodeBig.
    rewrite go_bytes_string, checkNumber_num_digits by done.
    rewrite DecodeBig_raw_spec, hex_value_num_digits by done.
    change (2 ^ 256) with (16 ^ Z.of_nat 64).
    destruct (n <? 16 ^ Z.of_nat 64) eqn:E; bool_prop.
    + pose proof (num_digits_length 16 n 64 ltac:(lia) ltac:(lia) ltac:(lia)).
      by replace (64 <? _)%nat with false by (symmetry; apply Nat.ltb_ge; lia).
    + destruct (64 <? _)%nat eqn:E64; bool_prop; [done|].
      pose proof (num_digits_16_long n 64). lia.
Qed.

(** The encoding is canonical: a string [DecodeBig] accepts is, up to the
    case of its digits and of the x, the one [EncodeBig] prints for the value. *)
Theorem DecodeBig_canonical p s n :
  DecodeBig p s = Ok n -> to_lower_ascii <$> go_bytes s = go_bytes (EncodeBig n).
Proof.
  unfold DecodeBig. destruct (checkNumber (go_bytes s)) as [raw|e] eqn:E; [|done].
  apply checkNumber_ok in E as [(c & Hs & Hc) [Hne Hhd]]. rewrite DecodeBig_raw_spec.
  case_match; [done|]. destruct (hex_value raw) as [v|] eqn:Ev; [|done]. intros [= <-].
  pose proof (hex_value_bound _ _ Ev). rewrite EncodeBig_nonneg, go_bytes_string by lia.
  unfold hex_value in Ev. apply fmap_Some_1 in Ev as (ds & Hds & ->).
  rewrite (num_digits_unique raw ds Hds Hne Hhd), Hs.
  unfold prefix_0x. rewrite !fmap_cons. by destruct Hc as [-> | ->].
Qed.

Lemma DecodeBig_canonical_witness :
  to_lower_ascii <$> go_bytes "0X1aF" = go_bytes (EncodeBig 431).
Proof. apply (DecodeBig_canonical P64). vm_compute. reflexivity. Defined.

(** [DecodeUint64] accepts exactly the prefixed minimal hex digit strings
    whose value fits 64 bits, and returns the value. *)
Theorem DecodeUint64_accepts s n :
  DecodeUint64 s = (n, None) <->
  exists c raw, go_bytes s = chr "0" :: c :: raw /\ (c = chr "x" \/ c = chr "X") /\
    quantity raw /\ hex_value raw = Some n /\ n <= maxUint64.
Proof.
  unfold DecodeUint64, hex_value. destruct (checkNumber (go_bytes s)) as [raw|e] eqn:E.
  - apply checkNumber_ok in E as [(c & Hs & Hc) Hm].
    transitivity (ParseUint raw 16 = (n, None)).
    { destruct (ParseUint raw 16) as [v [err|]]; [|naive_solver].
      split; [|done]. by destruct err. }
    rewrite ParseUint_ok by lia. split.
    + intros (_ & ds & Hds & -> & Hle). exists c, raw. by rewrite Hds.
    + intros (c' & raw' & Hs' & _ & [Hne _] & Hv & Hle). rewrite Hs in Hs'. simplify_eq.
      apply fmap_Some_1 in Hv as (ds & Hds & ->). eauto.
  - split; [done|]. intros (c & raw & Hs & Hc & Hm & _).
    assert (checkNumber (go_bytes s) = Ok raw) by (apply checkNumber_ok; eauto). congruence.
Qed.

(** [DecodeUint64] reads back what [EncodeUint64] and the printing of any
    larger number in the same form write: the number up to 2^64 - 1, and the
    range error with the largest value beyond. *)
Theorem DecodeUint64_EncodeUint64 n :
  0 <= n ->
  DecodeUint64 (EncodeUint64 n) =
  if n <=? maxUint64 then (n, None) else (maxUint64, Some ErrUint64Range).
Proof.
  intros Hn. unfold DecodeUint64, EncodeUint64, AppendUint. rewrite go_bytes_string.
  change ([chr "0"; chr "x"] ++ num_digits 16 n) with (prefix_0x (num_digits 16 n)).
  rewrite checkNumber_num_digits by done.
  destruct (num_digits_base_digits 16 n ltac:(lia) Hn) as (ds & Hds & Hv).
  destruct (n <=? maxUint64) eqn:E; bool_prop.
  - assert (ParseUint (num_digits 16 n) 16 = (n, None)) as ->; [|done].
    apply ParseUint_ok; [lia|]. split; [apply num_digits_nonnil|]. eauto.
  - by rewrite (ParseUint_range 16 _ ds) by (done || lia).
Qed.

Lemma DecodeUint64_EncodeUint64_witness :
  DecodeUint64 (EncodeUint64 0xfedcba9876543210) = (0xfedcba9876543210, None) /\
  DecodeUint64 (EncodeUint64 (2 ^ 64)) = (maxUint64, Some ErrUint64Range).
Proof.
  split.
  - rewrite (DecodeUint64_EncodeUint64 0xfedcba9876543210); [reflexivity|lia].
  - rewrite (DecodeUint64_EncodeUint64 (2 ^ 64)); [reflexivity|lia].
Defined.

(** Every outcome of [Decode]: the empty string, a missing prefix, a
    character that is not a hex digit (reported before an odd length), an odd
    length, and success exactly on an even number of hex digits. *)
Theorem Decode_outcome s :
  match (Decode s).2 with
  | Some ErrEmptyString => s = ""
  | Some ErrMissingPrefix => s <> "" /\ has0xPrefix (go_bytes s) = false
  | Some ErrSyntax =>
      has0xPrefix (go_bytes s) = true /\ ~ Forall is_hex (drop 2 (go_bytes s))
  | Some ErrOddLength =>
      has0xPrefix (go_bytes s) = true /\ Forall is_hex (drop 2 (go_bytes s)) /\
      Nat.Odd (length (go_bytes s))
  | Some _ => False
  | None =>
      has0xPrefix (go_bytes s) = true /\ Forall is_hex (drop 2 (go_bytes s)) /\
      Nat.Even (length (go_bytes s)) /\
      length (go_bytes s) = (2 + 2 * length (Decode s).1)%nat
  end.
Proof.
  unfold Decode. destruct (length (go_bytes s) =? 0)%nat eqn:E0; bool_prop; simpl.
  { apply go_bytes_inj. by destruct (go_bytes s). }
  destruct (has0xPrefix (go_bytes s)) eqn:Ep; simpl.
  2:{ split; [|done]. by intros ->. }
  apply has0xPrefix_spec in Ep as (c & raw & -> & _). simpl drop. rewrite drop_0.
  destruct (hex_Decode raw) as [b e] eqn:E. simpl.
  pose proof (hex_Decode_ok_iff raw) as Hok. rewrite E in Hok. simpl in Hok.
  assert (Hlen : Nat.Even (length raw) -> Nat.Even (length (chr "0" :: c :: raw))).
  { intros [k Hk]. exists (S k). simpl. lia. }
  destruct e as [e|]; simpl.
  - pose proof (hex_Decode_error raw) as Herr. rewrite E in Herr.
    destruct e; simpl in *; [naive_solver|]. destruct Herr as [? [k Hk]].
    split_and!; [done..|]. exists (S k). lia.
  - destruct Hok as [[Hh He] _]; [done|]. split_and!; [done..|auto|].
    rewrite (hex_Decode_ok_length _ _ E). lia.
Qed.

(** [Decode] and [Encode] are inverse: decoding an encoded slice gives it
    back, and a string that decodes is, up to case, the encoding of its bytes. *)
Theorem Decode_Encode b s :
  Decode (Encode b) = (b, None) /\
  (Decode s = (b, None) -> to_lower_ascii <$> go_bytes s = go_bytes (Encode b)).
Proof.
  unfold Decode, Encode. split.
  - rewrite go_bytes_string. cbn [app length Nat.eqb].
    replace (has0xPrefix _) with true by (symmetry; apply has0xPrefix_spec; eauto 10).
    cbn [negb drop]. by rewrite drop_0, hex_Decode_Encode.
  - destruct (length (go_bytes s) =? 0)%nat; [done|].
    destruct (has0xPrefix (go_bytes s)) eqn:Ep; simpl; [|done].
    apply has0xPrefix_spec in Ep as (c & raw & -> & Hc). simpl drop. rewrite drop_0.
    destruct (hex_Decode raw) as [b' [e|]] eqn:E; [done|]. intros [= <-].
    rewrite go_bytes_string, !fmap_cons, <-(hex_Encode_Decode _ _ E).
    by destruct Hc as [-> | ->].
Qed.

Lemma Decode_Encode_witness :
  to_lower_ascii <$> go_bytes "0XaB01" = go_bytes (Encode [xab; x01]).
Proof. apply (Decode_Encode [xab; x01] "0XaB01"). vm_compute. reflexivity. Defined.
