(* ===== verification/HexJson.v ===== *)
(** * pkg/common/hexutil/json.go and the hash type of pkg/types/types.go

    The types [Bytes], [Big], [Uint64] and [Uint] with their text and JSON
    codecs, the decoding into fixed-size buffers, and [Hash] built on it. *)

From S2P Require Import Prelude GoStd HexUtil.
From Stdlib Require Import ZArith Lia.
From Stdlib Require Import Init.Byte.
From stdpp Require Import gmap strings list.

Open Scope Z_scope.

(** The errors: one of the package's, the length error of the fixed-size
    decoders, or [json.UnmarshalTypeError] with the value and the type. *)
Inductive text_error :=
| DecErr (e : decError)
| LengthErr (msg : string)
| TypeErr (Value typ : string).

(** The types as [reflect] prints them. *)
Definition bytesT : string := "hexutil.Bytes".
Definition bigT : string := "*hexutil.Big".
Definition uintT : string := "hexutil.Uint".
Definition uint64T : string := "hexutil.Uint64".

Definition QUOTE : byte := x22.

Definition isString (input : list byte) : bool :=
  (2 <=? length input)%nat && bool_decide (head input = Some QUOTE) &&
  bool_decide (last input = Some QUOTE).

(** [input[1:len(input)-1]]. *)
Definition unquoted (input : list byte) : list byte :=
  drop 1 (take (length input - 1) input).

Definition bytesHave0xPrefix (input : list byte) : bool :=
  match input with
  | c0 :: c1 :: _ =>
      bool_decide (c0 = chr "0") && (bool_decide (c1 = chr "x") || bool_decide (c1 = chr "X"))
  | _ => false
  end.

(** [checkText(input, wantPrefix)]. *)
Definition checkText (input : list byte) (wantPrefix : bool) : result decError (list byte) :=
  if (length input =? 0)%nat then Ok []
  else
    let? input :=
      (if bytesHave0xPrefix input then Ok (drop 2 input)
       else if wantPrefix then Err ErrMissingPrefix else Ok input) in
    if negb (length input mod 2 =? 0)%nat then Err ErrOddLength else Ok input.

(** [checkNumberText(input)]. *)
Definition checkNumberText (input : list byte) : result decError (list byte) :=
  if (length input =? 0)%nat then Ok []
  else if negb (bytesHave0xPrefix input) then Err ErrMissingPrefix
  else
    let input := drop 2 input in
    if (length input =? 0)%nat then Err ErrEmptyNumber
    else if (1 <? length input)%nat && bool_decide (head input = Some (chr "0"))
    then Err ErrLeadingZero
    else Ok input.

(** [wrapTypeError(err, typ)] and [errNonString(typ)]. *)
Definition wrapTypeError (p : platform) (err : text_error) (typ : string) : text_error :=
  match err with
  | DecErr e => TypeErr (decError_Error p e) typ
  | _ => err
  end.
Definition errNonString (typ : string) : text_error := TypeErr "non-string" typ.

(** [UnmarshalStringJSON(typ, input, unmarshal)], which the methods
    [UnmarshalJSON] of the types repeat. *)
Definition UnmarshalStringJSON {A} (p : platform) (typ : string) (input : list byte)
    (unmarshal : list byte -> result text_error A) : result text_error A :=
  if negb (isString input) then Err (errNonString typ)
  else match unmarshal (unquoted input) with
       | Ok a => Ok a
       | Err e => Err (wrapTypeError p e typ)
       end.

(** ** Bytes *)

Definition Bytes_MarshalText (b : list byte) : list byte := [chr "0"; chr "x"] ++ hex_Encode b.

Definition Bytes_UnmarshalText (input : list byte) : result text_error (list byte) :=
  match checkText input true with
  | Err e => Err (DecErr e)
  | Ok raw =>
      match hex_Decode raw with
      | (dec, None) => Ok dec
      | (_, Some e) => Err (DecErr (mapHexError e))
      end
  end.

Definition Bytes_UnmarshalJSON (p : platform) (input : list byte) : result text_error (list byte) :=
  if negb (isString input) then Err (errNonString bytesT)
  else match Bytes_UnmarshalText (unquoted input) with
       | Ok b => Ok b
       | Err e => Err (wrapTypeError p e bytesT)
       end.

Definition Bytes_String (b : list byte) : string := Encode b.

(** ** Fixed-size buffers *)

(** The body after [checkText]: the length of [out] is fixed, the syntax is
    verified before [hex.Decode] writes [out]; [out] is returned as it is
    left, with the error. *)
Definition fixed_body (typname : string) (raw out : list byte) : list byte * option text_error :=
  if negb (length raw / 2 =? length out)%nat then
    (out, Some (LengthErr ("hex string has length " +:+ Itoa (Z.of_nat (length raw))
                 +:+ ", want " +:+ Itoa (Z.of_nat (length out * 2)) +:+ " for " +:+ typname)))
  else if negb (forallb (fun b => negb (decodeNibble b =? badNibble)) raw) then
    (out, Some (DecErr ErrSyntax))
  else
    let dec := (hex_Decode raw).1 in (dec ++ drop (length dec) out, None).

Definition UnmarshalFixedText (typname : string) (input out : list byte)
    : list byte * option text_error :=
  match checkText input true with
  | Err e => (out, Some (DecErr e))
  | Ok raw => fixed_body typname raw out
  end.

Definition UnmarshalFixedUnprefixedText (typname : string) (input out : list byte)
    : list byte * option text_error :=
  match checkText input false with
  | Err e => (out, Some (DecErr e))
  | Ok raw => fixed_body typname raw out
  end.

Definition UnmarshalFixedJSON (p : platform) (typ : string) (input out : list byte)
    : list byte * option text_error :=
  if negb (isString input) then (out, Some (errNonString typ))
  else
    let '(out, err) := UnmarshalFixedText typ (unquoted input) out in
    (out, (fun e => wrapTypeError p e typ) <$> err).

(** ** Big *)

Definition Big_MarshalText (b : Z) : list byte := go_bytes (EncodeBig b).

Definition Big_UnmarshalText (p : platform) (input : list byte) : result text_error Z :=
  match checkNumberText input with
  | Err e => Err (DecErr e)
  | Ok raw =>
      if (64 <? length raw)%nat then Err (DecErr ErrBig256Range)
      else
        match words_loop p raw (length raw / bigWordNibbles p + 1) (length raw) with
        | None => Err (DecErr ErrSyntax)
        | Some words => Ok (SetBits p words)
        end
  end.

Definition Big_UnmarshalJSON (p : platform) (input : list byte) : result text_error Z :=
  if negb (isString input) then Err (errNonString bigT)
  else match Big_UnmarshalText p (unquoted input) with
       | Ok b => Ok b
       | Err e => Err (wrapTypeError p e bigT)
       end.

Definition Big_String (b : Z) : string := EncodeBig b.

(** ** Uint64 and Uint *)

Definition Uint64_MarshalText (b : Z) : list byte := AppendUint [chr "0"; chr "x"] b 16.

(** The loop [dec *= 16; dec += nib] on a [uint64]. *)
Fixpoint uint64_loop (dec : Z) (raw : list byte) : option Z :=
  match raw with
  | [] => Some dec
  | c :: raw' =>
      let nib := decodeNibble c in
      if nib =? badNibble then None else uint64_loop (u64 (u64 (dec * 16) + nib)) raw'
  end.

Definition Uint64_UnmarshalText (input : list byte) : result text_error Z :=
  match checkNumberText input with
  | Err e => Err (DecErr e)
  | Ok raw =>
      if (16 <? length raw)%nat then Err (DecErr ErrUint64Range)
      else
        match uint64_loop 0 raw with
        | None => Err (DecErr ErrSyntax)
        | Some dec => Ok dec
        end
  end.

Definition Uint64_UnmarshalJSON (p : platform) (input : list byte) : result text_error Z :=
  if negb (isString input) then Err (errNonString uint64T)
  else match Uint64_UnmarshalText (unquoted input) with
       | Ok b => Ok b
       | Err e => Err (wrapTypeError p e uint64T)
       end.

Definition Uint64_String (b : Z) : string := EncodeUint64 b.

Definition Uint_MarshalText (b : Z) : list byte := Uint64_MarshalText b.

(** A failed [u64.UnmarshalText] leaves [u64] at 0. *)
Definition Uint_UnmarshalText (p : platform) (input : list byte) : result text_error Z :=
  let '(v, err) :=
    match Uint64_UnmarshalText input with Ok v => (v, None) | Err e => (0, Some e) end in
  if (2 ^ wordBits p - 1 <? v) || match err with Some (DecErr ErrUint64Range) => true | _ => false end
  then Err (DecErr ErrUintRange)
  else match err with Some e => Err e | None => Ok v end.

Definition Uint_UnmarshalJSON (p : platform) (input : list byte) : result text_error Z :=
  if negb (isString input) then Err (errNonString uintT)
  else match Uint_UnmarshalText p (unquoted input) with
       | Ok b => Ok b
       | Err e => Err (wrapTypeError p e uintT)
       end.

Definition Uint_String (b : Z) : string := EncodeUint64 b.

(** ** pkg/types/types.go: Hash *)

Definition HashLength : nat := 32.

(** [h.SetBytes(b)]: [copy(h[HashLength-len(b):], b)] after cropping [b] from
    the left; the rest of [h] stays. *)
Definition Hash_SetBytes (h b : list byte) : list byte :=
  let b := if (length h <? length b)%nat then drop (length b - HashLength) b else b in
  take (HashLength - length b) h ++ b.

Definition BytesToHash (b : list byte) : list byte := Hash_SetBytes (replicate HashLength x00) b.
Definition BigToHash (b : Z) : list byte := BytesToHash (big_Bytes b).

(** [FromHex(s)] of the package: the text after a prefix, not decoded. *)
Definition FromHex (s : string) : list byte :=
  let b := go_bytes s in
  if bytes_HasPrefix b [chr "0"; chr "x"] then drop 2 b else b.
Definition HexToHash (s : string) : list byte := BytesToHash (FromHex s).

Definition Hash_Big (h : list byte) : Z := big_SetBytes h.
Definition Hash_Hex (h : list byte) : string := Encode h.
Definition Hash_String (h : list byte) : string := Hash_Hex h.

Definition Hash_UnmarshalText (input h : list byte) : list byte * option text_error :=
  UnmarshalFixedText "Hash" input h.
Definition Hash_UnmarshalJSON (p : platform) (input h : list byte) : list byte * option text_error :=
  UnmarshalFixedJSON p "types.Hash" input h.
Definition Hash_MarshalText (h : list byte) : list byte := Bytes_MarshalText h.

Definition UnprefixedHash_UnmarshalText (input h : list byte) : list byte * option text_error :=
  UnmarshalFixedUnprefixedText "UnprefixedHash" input h.
Definition UnprefixedHash_MarshalText (h : list byte) : list byte := hex_Encode h.

(** ** Lemmas *)

Lemma bytesHave0xPrefix_eq input : bytesHave0xPrefix input = has0xPrefix input.
Proof. by destruct input as [|? [|? ?]]. Qed.

(** On a text that is not empty the check is the one of the string functions. *)
Lemma checkNumberText_eq input : input <> [] -> checkNumberText input = checkNumber input.
Proof.
  intros Hne. unfold checkNumberText, checkNumber. rewrite bytesHave0xPrefix_eq.
  destruct (length input =? 0)%nat eqn:E; [|done]. bool_prop. by apply length_zero_iff_nil in E.
Qed.

Lemma uint64_loop_word dec raw : uint64_loop dec raw = word_loop P64 dec raw.
Proof. revert dec. induction raw as [|c raw IH]; intros dec; simpl; [done|]. case_match; auto. Qed.

Lemma uint64_loop_spec raw :
  (length raw <= 16)%nat -> uint64_loop 0 raw = hex_value raw.
Proof.
  intros Hl. rewrite uint64_loop_word. apply (word_loop_spec P64 0 0); [simpl; lia|].
  change (bigWordNibbles P64) with 16%nat. lia.
Qed.

Lemma isString_quoted t : isString (QUOTE :: t ++ [QUOTE]) = true.
Proof.
  unfold isString. rewrite last_cons, last_app. simpl. rewrite length_app. simpl.
  destruct (length t); done.
Qed.

Lemma unquoted_quoted t : unquoted (QUOTE :: t ++ [QUOTE]) = t.
Proof.
  unfold unquoted. cbn [length]. rewrite length_app. cbn [length].
  replace (S (length t + 1) - 1)%nat with (S (length t)) by lia. cbn [take drop].
  rewrite drop_0, take_app_le by lia. apply firstn_all.
Qed.

Lemma decodeNibble_hex b : negb (decodeNibble b =? badNibble) = bool_decide (is_hex b).
Proof. destruct b; vm_compute; reflexivity. Qed.

Lemma nibbles_hex raw :
  forallb (fun b => negb (decodeNibble b =? badNibble)) raw = true <-> Forall is_hex raw.
Proof.
  rewrite forallb_forall, Forall_forall. setoid_rewrite decodeNibble_hex.
  setoid_rewrite bool_decide_eq_true. by setoid_rewrite list_elem_of_In.
Qed.

Lemma even_mod n : (n mod 2 =? 0)%nat = true <-> Nat.Even n.
Proof.
  rewrite Nat.eqb_eq. split.
  - intros H. exists (n / 2)%nat. pose proof (Nat.div_mod n 2). lia.
  - intros [k ->]. rewrite Nat.mul_comm. apply Nat.Div0.mod_mul.
Qed.

Lemma hex_Encode_even b : Nat.Even (length (hex_Encode b)).
Proof. rewrite hex_Encode_length. by exists (length b). Qed.

Lemma Bytes_UnmarshalText_Decode t b :
  t <> [] -> Bytes_UnmarshalText t = Ok b <-> Decode (go_string t) = (b, None).
Proof.
  intros Hne. unfold Bytes_UnmarshalText, checkText, Decode. rewrite go_bytes_string, bytesHave0xPrefix_eq.
  destruct (length t =? 0)%nat eqn:E; bool_prop; [by apply length_zero_iff_nil in E|].
  destruct (has0xPrefix t) eqn:Ep; cbn -[Nat.modulo drop]; [|done].
  destruct (hex_Decode (drop 2 t)) as [dec [e|]] eqn:Ed.
  - destruct (negb _) eqn:Em; [done|]. rewrite Ed. done.
  - assert (length (drop 2 t) mod 2 =? 0 = true)%nat as ->.
    { apply even_mod. apply hex_Decode_ok_length in Ed. rewrite Ed. by exists (length dec). }
    simpl. rewrite Ed. simpl. naive_solver.
Qed.

Lemma Big_UnmarshalText_DecodeBig p t :
  t <> [] ->
  Big_UnmarshalText p t =
  match DecodeBig p (go_string t) with Ok n => Ok n | Err e => Err (DecErr e) end.
Proof.
  intros Hne. unfold Big_UnmarshalText, DecodeBig. rewrite go_bytes_string, checkNumberText_eq by done.
  destruct (checkNumber t) as [raw|]; [|done]. unfold DecodeBig_raw. case_match; [done|].
  by destruct (words_loop _ _ _ _).
Qed.

Lemma Uint64_UnmarshalText_DecodeUint64 t n :
  t <> [] -> Uint64_UnmarshalText t = Ok n <-> DecodeUint64 (go_string t) = (n, None).
Proof.
  intros Hne. unfold Uint64_UnmarshalText, DecodeUint64.
  rewrite go_bytes_string, checkNumberText_eq by done.
  destruct (checkNumber t) as [raw|] eqn:E; [|done].
  apply checkNumber_ok in E as [_ [Hraw Hhd]].
  transitivity (ParseUint raw 16 = (n, None)).
  2:{ destruct (ParseUint raw 16) as [v [err|]]; [by destruct err|naive_solver]. }
  rewrite ParseUint_ok by lia. destruct (16 <? length raw)%nat eqn:El; bool_prop.
  - split; [done|]. intros (_ & ds & Hds & -> & Hle). exfalso.
    pose proof (num_digits_unique raw ds Hds Hraw Hhd) as Hu.
    assert (Hh : 0 <= horner 16 0 ds < 16 ^ Z.of_nat 16).
    { split; [|unfold maxUint64 in Hle; lia].
      apply (hex_value_bound raw). unfold hex_value. by rewrite Hds. }
    pose proof (num_digits_length 16 (horner 16 0 ds) 16 ltac:(lia) ltac:(lia) ltac:(lia)) as Hlen.
    rewrite Hu, length_fmap in Hlen. lia.
  - rewrite uint64_loop_spec by lia. unfold hex_value.
    destruct (base_digits 16 raw) as [ds|] eqn:Eds; simpl; [|split; [done|naive_solver]].
    assert (0 <= horner 16 0 ds < 16 ^ Z.of_nat (length raw))
      by (apply (hex_value_bound raw); unfold hex_value; by rewrite Eds).
    assert (16 ^ Z.of_nat (length raw) <= 16 ^ 16) by (apply Z.pow_le_mono_r; lia).
    split; [intros [= <-]|intros (_ & ds' & [= <-] & -> & _); done].
    split; [done|]. exists ds. split_and!; [done..|]. unfold maxUint64. lia.
Qed.

Lemma Uint64_value_range t n : Uint64_UnmarshalText t = Ok n -> 0 <= n <= maxUint64.
Proof.
  destruct t as [|c t]; [by intros [= <-]|]. intros Hn.
  apply Uint64_UnmarshalText_DecodeUint64 in Hn; [|done]. unfold DecodeUint64 in Hn.
  destruct (checkNumber _) as [raw|]; [|done].
  destruct (ParseUint raw 16) as [v [err|]] eqn:Ep; simpl in Hn; [done|]. injection Hn as ->.
  apply ParseUint_ok in Ep as (_ & ds & Hds & -> & Hle); [|lia]. split; [|done].
  apply (hex_value_bound raw). unfold hex_value. by rewrite Hds.
Qed.

Lemma Uint_UnmarshalText_ok p t n :
  Uint_UnmarshalText p t = Ok n <-> Uint64_UnmarshalText t = Ok n /\ n < 2 ^ wordBits p.
Proof.
  unfold Uint_UnmarshalText. destruct (Uint64_UnmarshalText t) as [v|e].
  - rewrite orb_false_r. destruct (2 ^ wordBits p - 1 <? v) eqn:E; bool_prop.
    + split; [done|]. intros [[= ->] ?]. lia.
    + split; [intros [= ->]; split; [done|lia]|by intros [? _]].
  - split; [|by intros [? _]]. by destruct (_ || _).
Qed.

(** ** Properties *)

(** The text codecs of the types and the functions on strings, written
    separately, agree on every text that is not empty: [Big] in value and
    error, [Uint64] and [Bytes] in what they accept and its value; [Uint]
    accepts what [Uint64] does and the platform's word can hold. *)
Theorem UnmarshalText_agrees p t :
  t <> [] ->
  Big_UnmarshalText p t =
    match DecodeBig p (go_string t) with Ok n => Ok n | Err e => Err (DecErr e) end /\
  (forall n, Uint64_UnmarshalText t = Ok n <-> DecodeUint64 (go_string t) = (n, None)) /\
  (forall n, Uint_UnmarshalText p t = Ok n <->
     DecodeUint64 (go_string t) = (n, None) /\ n < 2 ^ wordBits p) /\
  (forall b, Bytes_UnmarshalText t = Ok b <-> Decode (go_string t) = (b, None)).
Proof.
  intros Hne. split_and!; [by apply Big_UnmarshalText_DecodeBig|..]; intros n.
  - by apply Uint64_UnmarshalText_DecodeUint64.
  - rewrite Uint_UnmarshalText_ok. by rewrite Uint64_UnmarshalText_DecodeUint64.
  - by apply Bytes_UnmarshalText_Decode.
Qed.

Lemma UnmarshalText_agrees_witness :
  Uint_UnmarshalText P32 (go_bytes "0xffffffff") = Ok (2 ^ 32 - 1) /\
  Big_UnmarshalText P32 (go_bytes "0x00") = Err (DecErr ErrLeadingZero).
Proof.
  split.
  - apply (proj1 (proj2 (proj2 (UnmarshalText_agrees P32 (go_bytes "0xffffffff") ltac:(done))))).
    vm_compute. split; reflexivity.
  - rewrite (proj1 (UnmarshalText_agrees P32 (go_bytes "0x00") ltac:(done))). reflexivity.
Defined.

(** C38: every value survives the trip through its JSON string: byte slices,
    big integers from 0 to 2^256 - 1, 64-bit integers and integers of the
    platform's word. *)
Theorem UnmarshalJSON_MarshalText p :
  (forall b, Bytes_UnmarshalJSON p (QUOTE :: Bytes_MarshalText b ++ [QUOTE]) = Ok b) /\
  (forall n, 0 <= n < 2 ^ 256 -> Big_UnmarshalJSON p (QUOTE :: Big_MarshalText n ++ [QUOTE]) = Ok n) /\
  (forall n, is_u64 n -> Uint64_UnmarshalJSON p (QUOTE :: Uint64_MarshalText n ++ [QUOTE]) = Ok n) /\
  (forall n, 0 <= n < 2 ^ wordBits p ->
     Uint_UnmarshalJSON p (QUOTE :: Uint_MarshalText n ++ [QUOTE]) = Ok n).
Proof.
  assert (Hu64 : forall n, is_u64 n -> Uint64_UnmarshalText (Uint64_MarshalText n) = Ok n).
  { intros n Hn. apply Uint64_UnmarshalText_DecodeUint64; [done|].
    unfold DecodeUint64, Uint64_MarshalText, AppendUint. rewrite go_bytes_string.
    change ([chr "0"; chr "x"] ++ num_digits 16 n) with (prefix_0x (num_digits 16 n)).
    unfold is_u64 in Hn. rewrite checkNumber_num_digits by lia.
    destruct (num_digits_base_digits 16 n ltac:(lia) ltac:(lia)) as (ds & Hds & Hv).
    assert (ParseUint (num_digits 16 n) 16 = (n, None)) as ->; [|done].
    apply ParseUint_ok; [lia|]. split; [apply num_digits_nonnil|]. exists ds.
    unfold maxUint64. split_and!; [done..|lia]. }
  split_and!.
  - intros b. unfold Bytes_UnmarshalJSON. rewrite isString_quoted, unquoted_quoted. simpl.
    assert (Bytes_UnmarshalText (Bytes_MarshalText b) = Ok b) as ->; [|done].
    apply Bytes_UnmarshalText_Decode; [done|]. unfold Decode, Bytes_MarshalText.
    rewrite go_bytes_string. simpl. by rewrite drop_0, hex_Decode_Encode.
  - intros n Hn. unfold Big_UnmarshalJSON. rewrite isString_quoted, unquoted_quoted. simpl.
    assert (Big_UnmarshalText p (Big_MarshalText n) = Ok n) as ->; [|done].
    unfold Big_MarshalText. rewrite EncodeBig_nonneg, go_bytes_string by lia.
    rewrite Big_UnmarshalText_DecodeBig by done. unfold DecodeBig.
    rewrite go_bytes_string, checkNumber_num_digits by lia.
    rewrite DecodeBig_raw_spec, hex_value_num_digits by lia.
    pose proof (num_digits_length 16 n 64 ltac:(lia) ltac:(lia)) as Hl.
    change (16 ^ Z.of_nat 64) with (2 ^ 256) in Hl.
    by replace (64 <? _)%nat with false by (symmetry; apply Nat.ltb_ge; lia).
  - intros n Hn. unfold Uint64_UnmarshalJSON. rewrite isString_quoted, unquoted_quoted. simpl.
    by rewrite Hu64.
  - intros n Hn. unfold Uint_UnmarshalJSON. rewrite isString_quoted, unquoted_quoted. simpl.
    assert (Uint_UnmarshalText p (Uint_MarshalText n) = Ok n) as ->; [|done].
    apply Uint_UnmarshalText_ok. split; [|lia]. apply Hu64. unfold is_u64.
    assert (2 ^ wordBits p <= 2 ^ 64) by (destruct p; simpl; lia). lia.
Qed.

Lemma UnmarshalJSON_MarshalText_witness :
  Big_UnmarshalJSON P64 (QUOTE :: Big_MarshalText 255 ++ [QUOTE]) = Ok 255.
Proof. apply (proj1 (proj2 (UnmarshalJSON_MarshalText P64))). lia. Defined.

(** Decoding into a fixed-size buffer is all or nothing: without an error
    the whole buffer is written, with the bytes of a text of exactly that
    length; with an error the buffer is untouched. *)
Theorem UnmarshalFixedText_atomic typname input out :
  match UnmarshalFixedText typname input out with
  | (out', None) =>
      length out' = length out /\
      (input = [] \/ exists c raw, input = chr "0" :: c :: raw /\ (c = chr "x" \/ c = chr "X") /\
         hex_Encode out' = to_lower_ascii <$> raw)
  | (out', Some _) => out' = out
  end.
Proof.
  unfold UnmarshalFixedText, checkText. destruct (length input =? 0)%nat eqn:E0; bool_prop.
  { apply length_zero_iff_nil in E0 as ->. unfold fixed_body. simpl.
    destruct out; simpl; [by auto|done]. }
  rewrite bytesHave0xPrefix_eq. destruct (has0xPrefix input) eqn:Ep; cbn -[Nat.modulo drop]; [|done].
  apply has0xPrefix_spec in Ep as (c & raw & -> & Hc). cbn [drop]. rewrite drop_0.
  destruct (length raw mod 2 =? 0)%nat eqn:Em; simpl; [|done]. unfold fixed_body.
  destruct (length raw / 2 =? length out)%nat eqn:El; simpl; [|done]. bool_prop.
  destruct (forallb _ raw) eqn:Eh; simpl; [|done]. apply nibbles_hex in Eh.
  assert ((hex_Decode raw).2 = None) as Hnone by (apply hex_Decode_ok_iff; split; [done|by apply even_mod, Nat.eqb_eq]).
  destruct (hex_Decode raw) as [dec e] eqn:Ed. simpl in Hnone. subst e. simpl.
  pose proof (hex_Decode_ok_length _ _ Ed) as Hlen.
  assert (length dec = length out) as Hdl by (rewrite <-El, Hlen, Nat.mul_comm, Nat.div_mul; lia).
  rewrite drop_ge, app_nil_r by lia. split; [done|]. right. exists c, raw.
  split_and!; [done..|]. by apply hex_Encode_Decode.
Qed.

(** [HexToHash] does not invert [Hash.Hex]: the package's [FromHex] only
    strips the prefix, so the hash it gives holds the last 32 characters of the
    text, the hex digits of the second half. *)
Theorem HexToHash_Hex h :
  length h = HashLength -> HexToHash (Hash_Hex h) = hex_Encode (drop 16 h).
Proof.
  intros Hl. unfold HexToHash, FromHex, Hash_Hex, Encode. rewrite go_bytes_string.
  change (bytes_HasPrefix ([chr "0"; chr "x"] ++ hex_Encode h) [chr "0"; chr "x"]) with
    (bool_decide ([chr "0"; chr "x"] = [chr "0"; chr "x"])).
  rewrite bool_decide_eq_true_2 by done. simpl drop. rewrite drop_0.
  unfold BytesToHash, Hash_SetBytes. rewrite length_replicate, hex_Encode_length, Hl.
  change (HashLength <? 2 * HashLength)%nat with true. cbn iota.
  change (2 * HashLength - HashLength)%nat with (2 * 16)%nat.
  assert (Hd : forall k b, drop (2 * k) (hex_Encode b) = hex_Encode (drop k b)).
  { induction k as [|k IH]; intros b; [by rewrite !drop_0|].
    destruct b as [|v b]; [by rewrite !drop_nil|].
    replace (2 * S k)%nat with (S (S (2 * k))) by lia. cbn [hex_Encode drop]. apply IH. }
  rewrite Hd, hex_Encode_length, length_drop, Hl. done.
Qed.

Lemma HexToHash_Hex_witness :
  HexToHash (Hash_Hex (replicate 32 xff)) <> replicate 32 xff.
Proof. rewrite (HexToHash_Hex (replicate 32 xff)); [discriminate|reflexivity]. Defined.
