(* ===== verification/CommonBytes.v ===== *)
(** * pkg/common/bytes.go: byte slices, hex texts and padding

    Every function of the file.  A [[]byte] is a [list byte], a [string] the
    list of its bytes; [CopyBytes], which tells [nil] from an empty slice,
    takes an option.  Slicing out of range and [make] with a negative length
    panic. *)

From S2P Require Import Prelude GoStd.
From Stdlib Require Import ZArith Lia.
From Stdlib Require Import Init.Byte.
From stdpp Require Import strings list.
Open Scope Z_scope.

(** The built-in [copy(dst[i:], src)]. *)
Definition copy_at (i : nat) (dst src : list byte) : list byte :=
  take i dst ++ take (length dst - i) src ++ drop (i + length src) dst.

(** [make([]byte, n)]. *)
Definition make_bytes (n : Z) : run (list byte) :=
  if n <? 0 then Panic else Ret (replicate (Z.to_nat n) x00).

(** ** Hex texts *)

Definition Bytes2Hex (d : list byte) : list byte := hex_Encode d.

(** [hex.DecodeString] returns the bytes before the first error. *)
Definition Hex2Bytes (str : list byte) : list byte := (hex_Decode str).1.

Definition ToHex (b : list byte) : list byte :=
  let hex := Bytes2Hex b in
  let hex := if (length hex =? 0)%nat then [chr "0"] else hex in
  [chr "0"; chr "x"] ++ hex.

Definition FromHex (s : list byte) : list byte :=
  let s :=
    if (1 <? length s)%nat then
      if bool_decide (take 2 s = [chr "0"; chr "x"]) || bool_decide (take 2 s = [chr "0"; chr "X"])
      then drop 2 s else s
    else s in
  let s := if (length s mod 2 =? 1)%nat then chr "0" :: s else s in
  Hex2Bytes s.

Definition CopyBytes (b : option (list byte)) : option (list byte) :=
  match b with
  | None => None
  | Some b => Some (copy_at 0 (replicate (length b) x00) b)
  end.

Definition hasHexPrefix (str : list byte) : bool :=
  match str with
  | c0 :: c1 :: _ =>
      bool_decide (c0 = chr "0") && (bool_decide (c1 = chr "x") || bool_decide (c1 = chr "X"))
  | _ => false
  end.

Definition isHexCharacter (c : byte) : bool :=
  in_range "0" "9" c || in_range "a" "f" c || in_range "A" "F" c.

Definition isHex (str : list byte) : bool :=
  if negb (length str mod 2 =? 0)%nat then false else forallb isHexCharacter str.

(** ** Fixed lengths *)

Definition Hex2BytesFixed (str : list byte) (flen : Z) : run (list byte) :=
  let h := Hex2Bytes str in
  let n := Z.of_nat (length h) in
  if n =? flen then Ret h
  else if flen <? n then
    (* h[len(h)-flen:] is out of range for a negative length *)
    if flen <? 0 then Panic else Ret (drop (Z.to_nat (n - flen)) h)
  else
    let! hh := make_bytes flen in
    Ret (copy_at (Z.to_nat (flen - n)) hh h).

Definition RightPadBytes (slice : list byte) (l : Z) : list byte :=
  if l <=? Z.of_nat (length slice) then slice
  else copy_at 0 (replicate (Z.to_nat l) x00) slice.

Definition LeftPadBytes (slice : list byte) (l : Z) : list byte :=
  if l <=? Z.of_nat (length slice) then slice
  else copy_at (Z.to_nat l - length slice) (replicate (Z.to_nat l) x00) slice.

(** ** 64-bit integers in big-endian order *)

(** [binary.BigEndian.Uint64] reads [b[7]] first, which panics if there are
    fewer bytes, and takes no others than the first eight. *)
Definition BytesToUint64 (b : list byte) : run Z :=
  if (length b <? 8)%nat then Panic
  else Ret (big_SetBytes (take 8 b)).

(** [binary.BigEndian.PutUint64] stores [byte(v >> 56)], ..., [byte(v)]. *)
Definition Uint64ToBytes (u : Z) : list byte :=
  (fun i => byte_of (Z.shiftr u (8 * i))) <$> [7; 6; 5; 4; 3; 2; 1; 0].

(** ** Copying and padding *)

Lemma copy_at_length i dst src :
  (i + length src <= length dst)%nat -> length (copy_at i dst src) = length dst.
Proof. intros H. unfold copy_at. rewrite !length_app, !length_take, length_drop. lia. Qed.

Lemma copy_at_zeros i j src :
  copy_at i (replicate (i + length src + j) x00) src = replicate i x00 ++ src ++ replicate j x00.
Proof.
  unfold copy_at. rewrite length_replicate, take_replicate, drop_replicate.
  rewrite take_ge by lia. do 2 f_equal; [f_equal; lia|]. f_equal. lia.
Qed.

(** A copy equals its original, [nil] included. *)
Lemma CopyBytes_id b : CopyBytes b = b.
Proof.
  destruct b as [b|]; [|done]. cbn [CopyBytes]. f_equal.
  pose proof (copy_at_zeros 0 0 b) as H. rewrite Nat.add_0_r in H.
  cbn [plus] in H. rewrite H. cbn. apply app_nil_r.
Qed.

Lemma RightPadBytes_spec slice l :
  RightPadBytes slice l = slice ++ replicate (Z.to_nat l - length slice) x00.
Proof.
  unfold RightPadBytes. case_match eqn:E; bool_prop.
  - replace (Z.to_nat l - length slice)%nat with O by lia. symmetry. apply app_nil_r.
  - pose proof (copy_at_zeros 0 (Z.to_nat l - length slice) slice) as H.
    cbn [plus] in H. rewrite Nat.add_comm, Nat.sub_add in H by lia. exact H.
Qed.

Lemma LeftPadBytes_spec slice l :
  LeftPadBytes slice l = replicate (Z.to_nat l - length slice) x00 ++ slice.
Proof.
  unfold LeftPadBytes. case_match eqn:E; bool_prop.
  - replace (Z.to_nat l - length slice)%nat with O by lia. done.
  - pose proof (copy_at_zeros (Z.to_nat l - length slice) 0 slice) as H.
    rewrite Nat.add_0_r, Nat.sub_add, app_nil_r in H by lia. exact H.
Qed.

(** ** Values of byte strings *)

Lemma big_SetBytes_app a b :
  big_SetBytes (a ++ b) = big_SetBytes a * 256 ^ Z.of_nat (length b) + big_SetBytes b.
Proof.
  unfold big_SetBytes. rewrite fmap_app, horner_app, horner_acc, length_fmap. done.
Qed.

Lemma big_SetBytes_bound b : 0 <= big_SetBytes b < 256 ^ Z.of_nat (length b).
Proof.
  unfold big_SetBytes. rewrite <-(length_fmap byte_val b). apply horner_bound; [lia|].
  apply Forall_fmap, Forall_true. intros x. apply byte_val_range.
Qed.

Lemma big_SetBytes_zeros k b : big_SetBytes (replicate k x00 ++ b) = big_SetBytes b.
Proof. induction k as [|k IH]; [done|]. exact IH. Qed.

(** The last bytes of a string are its value modulo their power. *)
Lemma big_SetBytes_drop k b :
  (k <= length b)%nat ->
  big_SetBytes (drop k b) = big_SetBytes b mod 256 ^ Z.of_nat (length b - k).
Proof.
  intros Hk. rewrite <-(take_drop k b) at 2. rewrite big_SetBytes_app, length_drop.
  rewrite Z.add_comm, Z.mod_add by (apply Z.pow_nonzero; lia).
  symmetry. apply Z.mod_small. rewrite <-length_drop. apply big_SetBytes_bound.
Qed.

(** ** Hex characters *)

Lemma isHexCharacter_spec c : isHexCharacter c = true <-> is_hex c.
Proof. unfold is_hex. destruct c; vm_compute; split; congruence. Qed.

Lemma mod2_Even n : Nat.Even n <-> (n mod 2)%nat = 0%nat.
Proof.
  split.
  - intros [k ->]. rewrite Nat.mul_comm. apply Nat.Div0.mod_mul.
  - intros H. apply Nat.Div0.mod_divides in H as [k ->]. by exists k.
Qed.

(** [isHex] accepts exactly what [hex.DecodeString] decodes without error. *)
Lemma isHex_spec s : isHex s = true <-> (hex_Decode s).2 = None.
Proof.
  rewrite hex_Decode_ok_iff, mod2_Even. unfold isHex.
  rewrite Forall_forall. case_match eqn:E; bool_prop; [naive_solver|].
  rewrite forallb_forall. setoid_rewrite <-list_elem_of_In.
  setoid_rewrite isHexCharacter_spec. naive_solver.
Qed.

(** ** Properties *)

(** [Hex2BytesFixed] returns exactly [flen] bytes, the value of the text
    modulo 256^flen: longer texts keep their last bytes and shorter ones are
    padded in front.  It panics exactly on a negative length. *)
Theorem Hex2BytesFixed_value str flen :
  match Hex2BytesFixed str flen with
  | Ret b => 0 <= flen /\ Z.of_nat (length b) = flen /\
             big_SetBytes b = big_SetBytes (Hex2Bytes str) mod 256 ^ flen
  | Panic => flen < 0
  end.
Proof.
  unfold Hex2BytesFixed, make_bytes. generalize (Hex2Bytes str) as h. intros h.
  pose proof (big_SetBytes_bound h) as Hb.
  destruct (Z.of_nat (length h) =? flen) eqn:E1; bool_prop.
  { subst flen. split_and!; [lia|done|]. symmetry. by apply Z.mod_small. }
  destruct (flen <? Z.of_nat (length h)) eqn:E2; bool_prop.
  { destruct (flen <? 0) eqn:E3; bool_prop; [done|]. rewrite length_drop, big_SetBytes_drop by lia.
    split_and!; [done|lia|]. do 2 f_equal. lia. }
  replace (flen <? 0) with false by lia.
  pose proof (copy_at_zeros (Z.to_nat (flen - Z.of_nat (length h))) 0 h) as H.
  replace (_ + length h + 0)%nat with (Z.to_nat flen) in H by lia.
  rewrite H. cbn [replicate]. rewrite app_nil_r, big_SetBytes_zeros, length_app, length_replicate.
  split_and!; [lia|lia|]. symmetry. apply Z.mod_small. split; [lia|].
  eapply Z.lt_le_trans; [apply Hb|]. apply Z.pow_le_mono_r; lia.
Qed.

(** [FromHex] reads back what [ToHex] writes; the empty slice, written
    ["0x0"], comes back as one zero byte. *)
Theorem FromHex_ToHex b :
  FromHex (ToHex b) = if bool_decide (b = []) then [x00] else b.
Proof.
  unfold FromHex, ToHex, Bytes2Hex. rewrite hex_Encode_length.
  destruct b as [|v b]; [reflexivity|].
  replace (2 * length (v :: b) =? 0)%nat with false by (symmetry; apply Nat.eqb_neq; simpl; lia).
  rewrite (bool_decide_eq_false_2 (v :: b = [])) by done.
  set (h := hex_Encode (v :: b)).
  change (1 <? length ([chr "0"; chr "x"] ++ h))%nat with true. cbv iota.
  change (take 2 ([chr "0"; chr "x"] ++ h)) with [chr "0"; chr "x"].
  rewrite bool_decide_eq_true_2 by done. cbn [orb app drop]. rewrite drop_0.
  replace (length h mod 2 =? 1)%nat with false.
  - unfold Hex2Bytes, h. by rewrite hex_Decode_Encode.
  - symmetry. apply Nat.eqb_neq. replace (length h mod 2)%nat with 0%nat; [done|].
    symmetry. apply mod2_Even. exists (length (v :: b)). apply hex_Encode_length.
Qed.

(** [BytesToUint64] reads back [Uint64ToBytes], whatever follows. *)
Lemma BytesToUint64_Uint64ToBytes u r :
  is_u64 u -> BytesToUint64 (Uint64ToBytes u ++ r) = Ret u.
Proof.
  intros Hu. unfold BytesToUint64. rewrite length_app.
  replace (length (Uint64ToBytes u) + length r <? 8)%nat with false by done.
  rewrite (take_app_le _ _ 8) by done. f_equal.
  assert (H : Uint64ToBytes u = rev (le_bytes 8 u)).
  { cbn [le_bytes rev app]. rewrite !Z.shiftr_shiftr by lia. by cbn; rewrite Z.shiftr_0_r. }
  rewrite H, take_ge by (rewrite length_rev, le_bytes_length; lia).
  rewrite big_SetBytes_le. by apply Z.mod_small.
Qed.
