(* ===== verification/RpcTypes.v ===== *)
(** * pkg/types/error.go and the request record of pkg/types/types.go

    The RPC errors with their codes, the request a codec hands to the server,
    and the parts of Go's [reflect] the server inspects: types by kind, name
    and package, and values by kind and nil-ness. *)

From S2P Require Import Prelude.
From Stdlib Require Import ZArith Lia.
From Stdlib Require Import Init.Byte.
From stdpp Require Import gmap strings list.

(** ** Errors *)

(** The implementations of the interface [Error]. *)
Inductive RpcError :=
| MethodNotFoundError (Service Method : string)
| InvalidRequestError (Message : string)
| InvalidMessageError (Message : string)
| InvalidParamsError (Message : string)
| CallbackError (Message : string)
| ShutdownError.

#[export] Instance RpcError_eq_dec : EqDecision RpcError.
Proof. solve_decision. Defined.

Definition ErrorCode (e : RpcError) : Z :=
  match e with
  | MethodNotFoundError _ _ => -32601
  | InvalidRequestError _ => -32600
  | InvalidMessageError _ => -32700
  | InvalidParamsError _ => -32602
  | CallbackError _ => -32000
  | ShutdownError => -32000
  end.

Definition Error (e : RpcError) : string :=
  match e with
  | MethodNotFoundError Service Method =>
      "The method " +:+ Service +:+ "_" +:+ Method +:+ " does not exist/is not available"
  | InvalidRequestError Message => Message
  | InvalidMessageError Message => Message
  | InvalidParamsError Message => Message
  | CallbackError Message => Message
  | ShutdownError => "server is shutting down"
  end.

(** ** Requests *)

(** [json.RawMessage]: the bytes of a JSON value; the empty slice when absent. *)
Notation RawMessage := (list byte) (only parsing).

(** [RpcRequest]: [Id] points to the raw id, [Params] is nil or a raw message. *)
Record RpcRequest := mkRpcRequest {
  req_Service : string;
  req_Method : string;
  req_Id : RawMessage;
  req_IsPubSub : bool;
  req_Params : option RawMessage;
  req_Err : option RpcError
}.

(** A subscription request always carries parameters. *)
Definition has_params (r : RpcRequest) : Prop :=
  req_IsPubSub r = true -> req_Params r <> None.

(** ** reflect *)

Inductive kind := KBool | KString | KNumber | KStruct | KArray
| KInterface | KSlice | KMap | KChan | KFunc | KUnsafePointer.

#[export] Instance kind_eq_dec : EqDecision kind.
Proof. solve_decision. Defined.

(** [reflect.Type]: a pointer type with its element type, or a type of another
    kind with its [Name()], [PkgPath()] and [String()] and whether it
    implements [error].  [String()] separates the unnamed types. *)
Inductive rtype :=
| TPtr (name pkgpath : string) (elem : rtype)
| TBase (k : kind) (name pkgpath str : string) (implements_error : bool).

#[export] Instance rtype_eq_dec : EqDecision rtype.
Proof. solve_decision. Defined.

Definition type_Name (t : rtype) : string :=
  match t with TPtr n _ _ => n | TBase _ n _ _ _ => n end.
Definition type_PkgPath (t : rtype) : string :=
  match t with TPtr _ p _ => p | TBase _ _ p _ _ => p end.
(** [t.Implements(errorType)]: the methods of [*T] are those of [T] too, but
    pointers to pointers and to interfaces, and named pointer types, have no
    methods. *)
Definition type_Implements_error (t : rtype) : bool :=
  match t with
  | TBase _ _ _ _ b => b
  | TPtr "" "" (TBase k _ _ _ b) => b && negb (bool_decide (k = KInterface))
  | TPtr _ _ _ => false
  end.

(** [reflect.TypeOf("")]. *)
Definition stringType : rtype := TBase KString "string" "" "string" false.
Definition boolType : rtype := TBase KBool "bool" "" "bool" false.

(** The loop [for t.Kind() == reflect.Ptr { t = t.Elem() }]. *)
Fixpoint strip_ptr (t : rtype) : rtype :=
  match t with TPtr _ _ e => strip_ptr e | TBase _ _ _ _ _ => t end.

(** An unnamed pointer type [*T]. *)
Definition ptr_to (t : rtype) : rtype := TPtr "" "" t.

Definition is_ptr (t : rtype) : bool :=
  match t with TPtr _ _ _ => true | TBase _ _ _ _ _ => false end.

(** The zero value test [v.IsNil()] is allowed on these kinds only. *)
Definition nilable (t : rtype) : bool :=
  match t with
  | TPtr _ _ _ => true
  | TBase k _ _ _ _ =>
      match k with
      | KInterface | KSlice | KMap | KChan | KFunc | KUnsafePointer => true
      | _ => false
      end
  end.

(** ** Values *)

Section Values.
Context {Data : Type}.

(** [reflect.Value] as the server sees it: strings and booleans, nil values of
    the nilable kinds, non-nil errors, [*Subscription]s (by their address in
    the store of subscriptions), the context and the receiver of a method, and
    other values, with whether their kind is nilable. *)
Inductive gvalue :=
| VString (s : string)
| VBool (b : bool)
| VNil
| VError (msg : string)
| VSubscription (l : nat)
| VContext
| VReceiver (name : string)
| VData (is_nilable : bool) (d : Data).

(** [v.Kind() == reflect.String]. *)
Definition kind_is_String (v : gvalue) : bool :=
  match v with VString _ => true | _ => false end.

(** [s[i]] on a slice, which panics out of range. *)
Definition index {A} (l : list A) (i : nat) : run A :=
  match l !! i with Some x => Ret x | None => Panic end.

(** [s[1:]], which panics on an empty slice of length 0 and capacity 0. *)
Definition slice_from_1 {A} (l : list A) : run (list A) :=
  match l with [] => Panic | _ :: l' => Ret l' end.

End Values.
Arguments gvalue Data : clear implicits.

(** The types of utils.go that methods are matched against. *)
Definition contextType : rtype := TBase KInterface "Context" "context" "context.Context" false.
Definition errorType : rtype := TBase KInterface "error" "" "error" true.
Definition subscriptionType : rtype :=
  TBase KStruct "Subscription" "airman.com/airfk/pkg/server" "server.Subscription" false.

(** The results of a method are values of its declared result types [t].
    [v.IsNil()] panics on the kinds that have no nil. *)
Definition IsNil {Data} (t : rtype) (v : gvalue Data) : run bool :=
  if nilable t then Ret (match v with VNil => true | _ => false end) else Panic.

(** [v.Interface().(error).Error()]: the type assertion panics on a type that
    does not implement [error], and on a nil value. *)
Definition as_error {Data} (t : rtype) (v : gvalue Data) : run string :=
  if type_Implements_error t then match v with VError msg => Ret msg | _ => Panic end
  else Panic.

(** [v.Interface().( *Subscription)], used through its fields: the type
    assertion panics on another type, the structure itself included, and the
    field access on a nil pointer. *)
Definition as_Subscription {Data} (t : rtype) (v : gvalue Data) : run nat :=
  if bool_decide (t = ptr_to subscriptionType) then
    match v with VSubscription l => Ret l | _ => Panic end
  else Panic.

(** The type of a payload of user code. *)
Class DataTypes (Data : Type) := data_type : Data -> rtype.

(** Whether [reflect] assigns a value to a parameter of type [t]: a nil value of
    a nilable type, a value of the type itself. *)
Definition assignable {Data} `{DataTypes Data} (v : gvalue Data) (t : rtype) : bool :=
  match v with
  | VString _ => bool_decide (t = stringType)
  | VBool _ => bool_decide (t = boolType)
  | VNil => nilable t
  | VError _ => bool_decide (t = errorType)
  | VSubscription _ => bool_decide (t = ptr_to subscriptionType)
  | VContext => bool_decide (t = contextType)
  | VReceiver _ => false
  | VData is_nilable d => bool_decide (data_type d = t) && eqb is_nilable (nilable t)
  end.

Fixpoint assignable_all {Data} `{DataTypes Data} (vs : list (gvalue Data)) (ts : list rtype) : bool :=
  match vs, ts with
  | [], [] => true
  | v :: vs, t :: ts => assignable v t && assignable_all vs ts
  | _, _ => false
  end.

(** The arguments of a method call, with the receiver in front: it is a value of
    the type the method was listed from. *)
Definition call_fits {Data} `{DataTypes Data} (vs : list (gvalue Data)) (ts : list rtype) : bool :=
  match vs, ts with
  | VReceiver _ :: vs, _ :: ts => assignable_all vs ts
  | _, _ => false
  end.

Lemma assignable_all_length {Data} `{DataTypes Data} (vs : list (gvalue Data)) ts :
  assignable_all vs ts = true -> length vs = length ts.
Proof.
  revert ts. induction vs as [|v vs IH]; intros [|t ts]; simpl; try done.
  intros [_ ?]%andb_true_iff. f_equal. auto.
Qed.

Lemma call_fits_length {Data} `{DataTypes Data} (vs : list (gvalue Data)) ts :
  call_fits vs ts = true -> length vs = length ts.
Proof.
  destruct vs as [|[] vs], ts as [|t ts]; simpl; try done.
  intros ?%assignable_all_length. lia.
Qed.

Lemma assignable_all_app {Data} `{DataTypes Data} (vs vs' : list (gvalue Data)) ts ts' :
  assignable_all vs ts = true -> assignable_all vs' ts' = true ->
  assignable_all (vs ++ vs') (ts ++ ts') = true.
Proof.
  revert ts. induction vs as [|v vs IH]; intros [|t ts]; simpl; try done.
  intros [-> ?]%andb_true_iff ?. simpl. auto.
Qed.

(** ** The messages of a codec *)

(** What [Write] sends: one response, or the responses of a batch. *)
Inductive message (R : Type) := One (r : R) | Many (rs : list R).
Arguments One {R} r.
Arguments Many {R} rs.

Definition message_list {R} (m : message R) : list R :=
  match m with One r => [r] | Many rs => rs end.

(** ** pkg/codec/interfaces.go: the interface [ServerCodec]

    A codec state [C] with its methods; [R] is the type of the responses the
    codec assembles and [Data] that of the payloads user code supplies. *)

Class ServerCodec (Data C R : Type) := {
  (** requests or an error, and whether they came as a batch *)
  ReadRequestHeaders : C -> (result RpcError (list RpcRequest) * bool) * C;
  ParseRequestArguments :
    list rtype -> option RawMessage -> result RpcError (list (gvalue Data));
  CreateResponse : RawMessage -> gvalue Data -> R;
  CreateErrorResponse : option RawMessage -> RpcError -> R;
  CreateNotification : string -> string -> Data -> R;
  Write : message R -> C -> option string * C;
  Close : C -> C;
  Closed : C -> bool
}.

(** What the server relies on: a request read outside a batch comes alone,
    subscription requests have parameters, parsing yields a value of each type,
    closing is permanent. *)
Class ServerCodecLaws (Data C R : Type) `{ServerCodec Data C R} `{DataTypes Data} := {
  read_single : forall c reqs c',
    ReadRequestHeaders c = ((Ok reqs, false), c') -> length reqs = 1%nat;
  read_params : forall c reqs batch c',
    ReadRequestHeaders c = ((Ok reqs, batch), c') -> Forall has_params reqs;
  parse_typed : forall (types : list rtype) params (args : list (gvalue Data)),
    ParseRequestArguments types params = Ok args -> assignable_all args types = true;
  close_closed : forall c, Closed (Close c) = true;
  read_closed : forall c, Closed (ReadRequestHeaders c).2 = Closed c;
  write_closed : forall m c, Closed (Write m c).2 = Closed c;
  (** the id a response answers *)
  response_id : R -> option RawMessage;
  response_id_ok : forall id v, response_id (CreateResponse id v) = Some id;
  response_id_err : forall id e, response_id (CreateErrorResponse id e) = id
}.
