(* ===== verification/Utf8.v ===== *)
(** * UTF-8 and upper/lower case, as the sources use them

    [utf8.DecodeRuneInString], the conversions between [string] and [[]rune],
    [unicode.IsUpper] and [unicode.ToLower].  The Unicode case tables are data
    of Go's library: they are exact here for Latin-1 and a parameter beyond. *)

From S2P Require Import Prelude.
From Stdlib Require Import ZArith Lia.
From Stdlib Require Import Init.Byte.
From stdpp Require Import gmap strings list.

Open Scope Z_scope.

(** [utf8.RuneError]. *)
Definition RuneError : Z := 0xFFFD.

(** A continuation byte in [lo, hi]. *)
Definition cont (lo hi : Z) (b : byte) : bool := (lo <=? byte_val b) && (byte_val b <=? hi).

(** [utf8.DecodeRune]: the first rune and its width; an invalid sequence is
    [RuneError] of width 1. *)
Definition DecodeRune (s : list byte) : Z * nat :=
  match s with
  | [] => (RuneError, 0%nat)
  | c0 :: s1 =>
      let b0 := byte_val c0 in
      if b0 <? 0x80 then (b0, 1%nat)
      else if (0xC2 <=? b0) && (b0 <=? 0xDF) then
        match s1 with
        | c1 :: _ =>
            if cont 0x80 0xBF c1
            then ((b0 - 0xC0) * 64 + (byte_val c1 - 0x80), 2%nat) else (RuneError, 1%nat)
        | _ => (RuneError, 1%nat)
        end
      else if (0xE0 <=? b0) && (b0 <=? 0xEF) then
        let lo := if b0 =? 0xE0 then 0xA0 else 0x80 in
        let hi := if b0 =? 0xED then 0x9F else 0xBF in
        match s1 with
        | c1 :: c2 :: _ =>
            if cont lo hi c1 && cont 0x80 0xBF c2
            then ((b0 - 0xE0) * 4096 + (byte_val c1 - 0x80) * 64 + (byte_val c2 - 0x80), 3%nat)
            else (RuneError, 1%nat)
        | _ => (RuneError, 1%nat)
        end
      else if (0xF0 <=? b0) && (b0 <=? 0xF4) then
        let lo := if b0 =? 0xF0 then 0x90 else 0x80 in
        let hi := if b0 =? 0xF4 then 0x8F else 0xBF in
        match s1 with
        | c1 :: c2 :: c3 :: _ =>
            if cont lo hi c1 && cont 0x80 0xBF c2 && cont 0x80 0xBF c3
            then ((b0 - 0xF0) * 262144 + (byte_val c1 - 0x80) * 4096
                  + (byte_val c2 - 0x80) * 64 + (byte_val c3 - 0x80), 4%nat)
            else (RuneError, 1%nat)
        | _ => (RuneError, 1%nat)
        end
      else (RuneError, 1%nat)
  end.

(** A Unicode scalar value. *)
Definition valid_rune (r : Z) : bool :=
  ((0 <=? r) && (r <? 0xD800)) || ((0xE000 <=? r) && (r <=? 0x10FFFF)).

(** [utf8.EncodeRune]. *)
Definition EncodeRune (r : Z) : list byte :=
  let r := if valid_rune r then r else RuneError in
  if r <? 0x80 then [byte_of r]
  else if r <? 0x800 then [byte_of (0xC0 + r / 64); byte_of (0x80 + r mod 64)]
  else if r <? 0x10000 then
    [byte_of (0xE0 + r / 4096); byte_of (0x80 + r / 64 mod 64); byte_of (0x80 + r mod 64)]
  else
    [byte_of (0xF0 + r / 262144); byte_of (0x80 + r / 4096 mod 64);
     byte_of (0x80 + r / 64 mod 64); byte_of (0x80 + r mod 64)].

(** [[]rune(s)]: every rune takes at least one byte, so the length is fuel. *)
Fixpoint decode_runes (fuel : nat) (s : list byte) : list Z :=
  match fuel with
  | O => []
  | S f =>
      match s with
      | [] => []
      | _ => let '(r, w) := DecodeRune s in r :: decode_runes f (drop w s)
      end
  end.
Definition runes (s : list byte) : list Z := decode_runes (length s) s.

(** [string(runes)]. *)
Definition runes_string (rs : list Z) : list byte := rs ≫= EncodeRune.

(** The case tables beyond Latin-1. *)
Class UnicodeTables := {
  is_upper_table : Z -> bool;
  to_lower_table : Z -> Z
}.

Section Case.
Context `{UnicodeTables}.

(** [unicode.IsUpper]. *)
Definition IsUpper (r : Z) : bool :=
  if (0 <=? r) && (r <=? 0xFF)
  then ((65 <=? r) && (r <=? 90)) || ((0xC0 <=? r) && (r <=? 0xDE) && negb (r =? 0xD7))
  else is_upper_table r.

(** [unicode.ToLower]. *)
Definition ToLower (r : Z) : Z :=
  if (0 <=? r) && (r <=? 0xFF)
  then if ((65 <=? r) && (r <=? 90)) || ((0xC0 <=? r) && (r <=? 0xDE) && negb (r =? 0xD7))
       then r + 32 else r
  else to_lower_table r.

End Case.

(** The tables of a program whose identifiers stay within Latin-1. *)
Definition latin1_tables : UnicodeTables :=
  {| is_upper_table := fun _ => false; to_lower_table := fun r => r |}.

(** ** Lemmas *)

Lemma cont_byte_of lo hi z :
  0 <= z < 256 -> cont lo hi (byte_of z) = ((lo <=? z) && (z <=? hi)).
Proof. intros Hz. unfold cont. by rewrite byte_val_of, Z.mod_small. Qed.

Lemma byte_val_of_small z : 0 <= z < 256 -> byte_val (byte_of z) = z.
Proof. intros Hz. by rewrite byte_val_of, Z.mod_small. Qed.

Lemma valid_rune_spec r :
  valid_rune r = true <-> (0 <= r < 0xD800 \/ 0xE000 <= r <= 0x10FFFF).
Proof.
  unfold valid_rune. rewrite orb_true_iff, !andb_true_iff, !Z.leb_le, Z.ltb_lt. lia.
Qed.

Ltac decide_tests :=
  repeat match goal with
  | |- context [if ?b then _ else _] =>
      first [replace b with true by lia | replace b with false by lia
            | lazymatch b with ?x =? ?y => destruct (Z.eqb_spec x y) end]
  end.

(** Decoding an encoded rune gives the rune and its width, whatever follows. *)
Lemma DecodeRune_EncodeRune r s :
  valid_rune r = true ->
  DecodeRune (EncodeRune r ++ s) = (r, length (EncodeRune r)).
Proof.
  intros Hv. unfold EncodeRune. rewrite Hv. apply valid_rune_spec in Hv.
  pose proof (Z.div_mod r 64 ltac:(lia)). pose proof (Z.mod_pos_bound r 64 ltac:(lia)).
  pose proof (Z.div_mod (r / 64) 64 ltac:(lia)). pose proof (Z.mod_pos_bound (r / 64) 64 ltac:(lia)).
  pose proof (Z.div_mod (r / 4096) 64 ltac:(lia)). pose proof (Z.mod_pos_bound (r / 4096) 64 ltac:(lia)).
  assert (r / 64 / 64 = r / 4096) by (rewrite Z.div_div by lia; done).
  assert (r / 4096 / 64 = r / 262144) by (rewrite Z.div_div by lia; done).
  destruct (r <? 0x80) eqn:E1; [|destruct (r <? 0x800) eqn:E2;
    [|destruct (r <? 0x10000) eqn:E3]]; bool_prop;
    cbn [app DecodeRune length]; rewrite ?cont_byte_of, ?byte_val_of_small by lia;
    decide_tests; f_equal; lia.
Qed.
