(* ===== verification/Hash.v ===== *)
(** * pkg/types/types.go: the formatting and the generation of hashes

    What [HexJson] leaves of the type [Hash].  The verbs of fmt on a byte
    slice are those of its documentation; the readings of the generator's
    random source are arguments. *)

From S2P Require Import Prelude GoStd HexUtil HexJson Utf8.
From Stdlib Require Import ZArith Lia.
From Stdlib Require Import Init.Byte.
From stdpp Require Import strings list.
Open Scope Z_scope.

Definition AddressLength : nat := 20.
Definition MacLength : nat := 20.

(** [h[:]]. *)
Definition Hash_Bytes (h : list byte) : list byte := h.

(** ["%x…%x"] of the first and the last three bytes. *)
Definition TerminalString (h : list byte) : list byte :=
  hex_Encode (take 3 h) ++ [xe2; x80; xa6] ++ hex_Encode (drop 29 h).

(** ** fmt *)

Definition to_upper_ascii (c : byte) : byte :=
  if (97 <=? byte_val c) && (byte_val c <=? 122) then byte_of (byte_val c - 32) else c.

(** [Fprintf(s, "%"+verb, b)] of a byte slice: text, hexadecimal, or the
    elements in brackets.  The remaining verbs (%q, %c, %U and what is no verb)
    are left to [fmt_other]. *)
Definition Fprintf_bytes (fmt_other : list byte -> list byte -> list byte) (verb b : list byte) : list byte :=
  let elems := fun base =>
    go_bytes ("[" +:+ Prelude.Join ((fun x => go_string (num_digits base (byte_val x))) <$> b) " " +:+ "]") in
  if bool_decide (verb = [chr "s"]) then b
  else if bool_decide (verb = [chr "x"]) then hex_Encode b
  else if bool_decide (verb = [chr "X"]) then to_upper_ascii <$> hex_Encode b
  else if bool_decide (verb = [chr "d"]) || bool_decide (verb = [chr "v"]) then elems 10
  else if bool_decide (verb = [chr "b"]) then elems 2
  else if bool_decide (verb = [chr "o"]) then elems 8
  else fmt_other verb b.

(** [string(c)] of a rune is its UTF-8 text. *)
Definition Hash_Format (fmt_other : list byte -> list byte -> list byte) (h : list byte) (c : Z) : list byte :=
  Fprintf_bytes fmt_other (EncodeRune c) h.

(** ** testing/quick *)

(** The loop from [i] down to [m], not included, for [i - m] steps; [readings]
    are the results of [rand.Uint32]. *)
Fixpoint Generate_loop (steps i : nat) (readings : list Z) (h : list byte) : list byte :=
  match steps, readings with
  | S steps, r :: readings => Generate_loop steps (i - 1) readings (<[i := byte_of r]> h)
  | _, _ => h
  end.

(** [m] is the result of [rand.Intn(len(h))]; the receiver is a copy. *)
Definition Generate (m : nat) (readings : list Z) (h : list byte) : list byte :=
  Generate_loop (length h - 1 - m) (length h - 1) readings h.

Lemma Generate_loop_spec steps : forall i readings h,
  (length h = i + 1)%nat \/ (i < length h)%nat -> (steps <= i)%nat -> length readings = steps ->
  Generate_loop steps i readings h =
  take (i + 1 - steps) h ++ rev (byte_of <$> readings) ++ drop (i + 1) h.
Proof.
  induction steps as [|steps IH]; intros i readings h Hi Hs Hl.
  - apply length_zero_iff_nil in Hl as ->. cbn. rewrite Nat.sub_0_r. by rewrite take_drop.
  - destruct readings as [|r readings]; [done|]. cbn [Generate_loop]. injection Hl as Hl.
    rewrite IH by (rewrite ?length_insert; lia).
    replace (i - 1 + 1 - steps)%nat with (i + 1 - S steps)%nat by lia.
    replace (i - 1 + 1)%nat with i by lia.
    rewrite take_insert_ge by lia. f_equal. cbn [fmap list_fmap rev]. rewrite <-app_assoc. f_equal.
    rewrite (drop_S (<[i:=byte_of r]> h) (byte_of r) i) by (apply list_lookup_insert_eq; lia).
    rewrite drop_insert_lt by lia. by replace (i + 1)%nat with (S i) by lia.
Qed.

(** The first [m]+1 bytes stay; the others are the low bytes of the readings,
    the first one last. *)
Lemma Generate_bytes m readings h :
  (m < length h)%nat -> length readings = (length h - 1 - m)%nat ->
  Generate m readings h = take (S m) h ++ rev (byte_of <$> readings).
Proof.
  intros Hm Hl. unfold Generate. rewrite Generate_loop_spec by lia.
  replace (length h - 1 + 1 - (length h - 1 - m))%nat with (S m) by lia.
  by rewrite (drop_ge h), app_nil_r by lia.
Qed.

Example Hash_texts :
  let h := x01 :: replicate 30 x00 ++ [xab] in
  TerminalString h = go_bytes "010000" ++ [xe2; x80; xa6] ++ go_bytes "0000ab" /\
  Hash_Format (fun _ b => b) [x01; xab] 88 = go_bytes "01AB" /\
  Hash_Format (fun _ b => b) [x01; xab] 118 = go_bytes "[1 171]" /\
  Generate 30 [511] h = x01 :: replicate 30 x00 ++ [xff].
Proof. vm_compute. done. Qed.
