(* ===== verification/GoMime.v ===== *)
(** * More of Go's standard library: strings on runes, mime

    [strings.ToLower] and [strings.TrimSpace], and [mime.ParseMediaType] (the
    media type and whether there was an error; of the parameters only what can
    make it fail), by their documented algorithms.  Library code, nothing of
    the repository. *)

From S2P Require Import Prelude GoNet Utf8.
From Stdlib Require Import ZArith Lia.
From Stdlib Require Import Init.Byte.
From stdpp Require Import strings list.
Open Scope Z_scope.

Section Strings.
Context `{UnicodeTables}.

(** [strings.ToLower]: rune by rune; an invalid byte becomes [RuneError]. *)
Definition bytes_ToLower (s : list byte) : list byte := runes_string (ToLower <$> runes s).
Definition strings_ToLower (s : string) : string := go_string (bytes_ToLower (go_bytes s)).

End Strings.

(** [unicode.IsSpace]. *)
Definition IsSpace (r : Z) : bool :=
  ((9 <=? r) && (r <=? 13)) || (r =? 32) || (r =? 0x85) || (r =? 0xA0) || (r =? 0x1680)
  || ((0x2000 <=? r) && (r <=? 0x200a)) || (r =? 0x2028) || (r =? 0x2029) || (r =? 0x202f)
  || (r =? 0x205f) || (r =? 0x3000).

(** The text cut into the bytes of its runes. *)
Fixpoint rune_chunks (fuel : nat) (s : list byte) : list (Z * list byte) :=
  match fuel, s with
  | S f, _ :: _ => let '(r, w) := DecodeRune s in (r, take w s) :: rune_chunks f (drop w s)
  | _, _ => []
  end.

Fixpoint drop_spaces (l : list (Z * list byte)) : list (Z * list byte) :=
  match l with
  | (r, b) :: l' => if IsSpace r then drop_spaces l' else l
  | [] => []
  end.

(** [strings.TrimLeftFunc(s, unicode.IsSpace)] and [strings.TrimSpace]. *)
Definition TrimLeftSpace (s : list byte) : list byte :=
  concat (snd <$> drop_spaces (rune_chunks (length s) s)).
Definition TrimSpace (s : list byte) : list byte :=
  concat (snd <$> rev (drop_spaces (rev (drop_spaces (rune_chunks (length s) s))))).

(** ** mime *)

Definition isTSpecial (c : byte) : bool :=
  bool_decide (c ∈ [chr "("; chr ")"; chr "<"; chr ">"; chr "@"; chr ","; chr ";"; chr ":";
                    x5c; x22; chr "/"; chr "["; chr "]"; chr "?"; chr "="]).

Definition isTokenChar (c : byte) : bool :=
  (32 <? byte_val c) && (byte_val c <? 127) && negb (isTSpecial c).

(** [consumeToken(v)]: the token and the rest. *)
Fixpoint consumeToken (v : list byte) : list byte * list byte :=
  match v with
  | [] => ([], [])
  | c :: v' =>
      if isTokenChar c then let '(tok, rest) := consumeToken v' in (c :: tok, rest) else ([], v)
  end.

(** The inside of a quoted string, up to the end quote. *)
Fixpoint consumeQuoted (fuel : nat) (v : list byte) : option (list byte * list byte) :=
  match fuel with
  | O => None
  | S fuel =>
      match v with
      | [] => None
      | c :: v' =>
          if bool_decide (c = x22) then Some ([], v')
          else
            match v' with
            | c' :: v'' =>
                if bool_decide (c = x5c) && isTSpecial c' then
                  '(s, rest) ← consumeQuoted fuel v''; Some (c' :: s, rest)
                else if bool_decide (c = x0d) || bool_decide (c = x0a) then None
                else '(s, rest) ← consumeQuoted fuel v'; Some (c :: s, rest)
            | [] => None
            end
      end
  end.

Definition consumeValue (v : list byte) : list byte * list byte :=
  match v with
  | [] => ([], [])
  | c :: v' =>
      if bool_decide (c = x22) then
        match consumeQuoted (length v) v' with
        | Some r => r
        | None => ([], v)
        end
      else consumeToken v
  end.

(** [consumeMediaParam(v)]: the name in lower case and the rest, or nothing. *)
Definition consumeMediaParam `{UnicodeTables} (v : list byte) : option (list byte * list byte) :=
  match TrimLeftSpace v with
  | c :: rest =>
      if bool_decide (c = chr ";") then
        let '(param, rest) := consumeToken (TrimLeftSpace rest) in
        match bytes_ToLower param, TrimLeftSpace rest with
        | (_ :: _) as param, c :: rest =>
            if bool_decide (c = chr "=") then
              let rest := TrimLeftSpace rest in
              let '(value, rest2) := consumeValue rest in
              if bool_decide (value = []) && bool_decide (rest2 = rest) then None
              else Some (param, rest2)
            else None
        | _, _ => None
        end
      else None
  | [] => None
  end.

(** The loop over the parameters; the result is whether it ends without error.
    [seen] holds the names so far: a name occurring twice is an error, and a
    lone semicolon at the end is not. *)
Fixpoint media_params `{UnicodeTables} (fuel : nat) (seen : list (list byte)) (v : list byte) : bool :=
  match fuel with
  | O => true
  | S fuel =>
      match TrimLeftSpace v with
      | [] => true
      | v =>
          match consumeMediaParam v with
          | None => bool_decide (TrimSpace v = [chr ";"])
          | Some (key, rest) =>
              if bool_decide (key ∈ seen) then false else media_params fuel (key :: seen) rest
          end
      end
  end.

(** [checkMediaTypeDisposition(s)] returns no error. *)
Definition media_type_ok (s : list byte) : bool :=
  let '(typ, rest) := consumeToken s in
  match typ, rest with
  | [], _ => false
  | _, [] => true
  | _, c :: rest =>
      if bool_decide (c = chr "/") then
        let '(subtype, rest) := consumeToken rest in
        bool_decide (subtype <> []) && bool_decide (rest = [])
      else false
  end.

(** [mime.ParseMediaType(v)]: the media type if there is no error. *)
Definition ParseMediaType `{UnicodeTables} (v : string) : option string :=
  let b := go_bytes v in
  let i := default (length b) (byteIndex (chr ";") b) in
  let mediatype := TrimSpace (bytes_ToLower (take i b)) in
  if media_type_ok mediatype && media_params (length b) [] (drop i b)
  then Some (go_string mediatype) else None.

Example ParseMediaType_examples :
  let _ := latin1_tables in
  (ParseMediaType <$> ["application/json"; "Application/JSON; charset=utf-8"; " application/json ;";
    "application/json; charset"; "application/json; a=1; a=2"; "text/html"; ""; "application/json x"]%string) =
  [Some "application/json"; Some "application/json"; Some "application/json"; None; None;
   Some "text/html"; None; None]%string.
Proof. vm_compute. reflexivity. Qed.
