(* ===== verification/Json.v ===== *)
(** * encoding/json, as the sources use it

    The JSON grammar of Go's scanner with the raw text of every value (for
    [json.RawMessage]), the unquoting of strings, the decoder's loose matching
    of member names, and the overflow test of [strconv.ParseFloat] on JSON
    numbers.  Library code: nothing here is from the repository. *)

From S2P Require Import Prelude GoStd Utf8.
From Stdlib Require Import ZArith Lia.
From Stdlib Require Import Init.Byte.
From stdpp Require Import gmap strings list.

(** ** Lexical level *)

Definition is_byte (v : Z) (c : byte) : bool := (byte_val c =? v)%Z.

(** Space, tab, newline and carriage return. *)
Definition is_ws (c : byte) : bool :=
  is_byte 0x20 c || is_byte 0x09 c || is_byte 0x0a c || is_byte 0x0d c.

Fixpoint skip_ws (s : list byte) : list byte :=
  match s with
  | c :: s' => if is_ws c then skip_ws s' else s
  | [] => []
  end.

Definition is_digit (c : byte) : bool := in_range "0" "9" c.

Fixpoint skip_digits (s : list byte) : list byte :=
  match s with
  | c :: s' => if is_digit c then skip_digits s' else s
  | [] => []
  end.

(** One digit or more. *)
Definition scan_digits (s : list byte) : option (list byte) :=
  match s with
  | c :: s' => if is_digit c then Some (skip_digits s') else None
  | [] => None
  end.

Definition QUOTE : byte := x22.
Definition BACKSLASH : byte := x5c.

Definition skip_sign (s : list byte) : list byte :=
  match s with
  | c :: s' => if bool_decide (c = chr "+" \/ c = chr "-") then s' else s
  | [] => []
  end.

(** The exponent and the fraction of a number, both optional. *)
Definition scan_exp (s : list byte) : option (list byte) :=
  match s with
  | c :: s' =>
      if bool_decide (c = chr "e" \/ c = chr "E") then scan_digits (skip_sign s') else Some s
  | [] => Some []
  end.

Definition scan_frac (s : list byte) : option (list byte) :=
  match s with
  | c :: s' =>
      if bool_decide (c = chr ".")
      then match scan_digits s' with Some r => scan_exp r | None => None end
      else scan_exp s
  | [] => Some []
  end.

Definition scan_int (s : list byte) : option (list byte) :=
  match s with
  | c :: s' =>
      if bool_decide (c = chr "0") then scan_frac s'
      else if is_digit c then scan_frac (skip_digits s') else None
  | [] => None
  end.

(** A number: what follows it. *)
Definition scan_number (s : list byte) : option (list byte) :=
  match s with
  | c :: s' => if bool_decide (c = chr "-") then scan_int s' else scan_int s
  | [] => None
  end.

Definition is_hexdigit (c : byte) : bool :=
  match fromHexChar c with Some _ => true | None => false end.

Definition simple_escape (e : byte) : option byte :=
  if bool_decide (e = QUOTE \/ e = BACKSLASH \/ e = chr "/") then Some e
  else if bool_decide (e = chr "b") then Some x08
  else if bool_decide (e = chr "f") then Some x0c
  else if bool_decide (e = chr "n") then Some x0a
  else if bool_decide (e = chr "r") then Some x0d
  else if bool_decide (e = chr "t") then Some x09
  else None.

(** The text of a string after its opening quote, and what follows the closing
    quote. *)
Fixpoint scan_string (s : list byte) : option (list byte * list byte) :=
  match s with
  | [] => None
  | c :: s' =>
      if bool_decide (c = QUOTE) then Some ([], s')
      else if bool_decide (c = BACKSLASH) then
        match s' with
        | e :: s1 =>
            if bool_decide (e = chr "u") then
              match s1 with
              | h1 :: h2 :: h3 :: h4 :: s2 =>
                  if is_hexdigit h1 && is_hexdigit h2 && is_hexdigit h3 && is_hexdigit h4
                  then (fun p => (c :: e :: h1 :: h2 :: h3 :: h4 :: p.1, p.2)) <$> scan_string s2
                  else None
              | _ => None
              end
            else match simple_escape e with
                 | Some _ => (fun p => (c :: e :: p.1, p.2)) <$> scan_string s1
                 | None => None
                 end
        | [] => None
        end
      else if (byte_val c <? 0x20)%Z then None
      else (fun p => (c :: p.1, p.2)) <$> scan_string s'
  end.

(** [getu4]: the code unit of an escape. *)
Definition getu4 (s : list byte) : option (Z * list byte) :=
  match s with
  | c :: u :: h1 :: h2 :: h3 :: h4 :: s' =>
      if bool_decide (c = BACKSLASH /\ u = chr "u") then
        match fromHexChar h1, fromHexChar h2, fromHexChar h3, fromHexChar h4 with
        | Some a, Some b, Some d, Some e => Some (((a * 16 + b) * 16 + d) * 16 + e, s')%Z
        | _, _, _, _ => None
        end
      else None
  | _ => None
  end.

(** [unquote]: escapes resolved, surrogate pairs joined, and what is not UTF-8
    replaced; [fuel] is the length of the text. *)
Fixpoint unquote_loop (fuel : nat) (s : list byte) : list byte :=
  match fuel, s with
  | S f, c :: s' =>
      if bool_decide (c = BACKSLASH) then
        match getu4 s with
        | Some (rr, s2) =>
            if ((0xD800 <=? rr) && (rr <? 0xE000))%Z then
              match getu4 s2 with
              | Some (rr1, s3) =>
                  if ((rr <? 0xDC00) && (0xDC00 <=? rr1) && (rr1 <? 0xE000))%Z
                  then EncodeRune ((rr - 0xD800) * 1024 + (rr1 - 0xDC00) + 0x10000)
                       ++ unquote_loop f s3
                  else EncodeRune RuneError ++ unquote_loop f s2
              | None => EncodeRune RuneError ++ unquote_loop f s2
              end
            else EncodeRune rr ++ unquote_loop f s2
        | None =>
            match s' with
            | e :: s2 =>
                match simple_escape e with
                | Some b => b :: unquote_loop f s2
                | None => []
                end
            | [] => []
            end
        end
      else if (byte_val c <? 0x80)%Z then c :: unquote_loop f s'
      else let '(r, w) := DecodeRune s in EncodeRune r ++ unquote_loop f (drop w s)
  | _, _ => []
  end.
Definition unquote (s : list byte) : list byte := unquote_loop (length s) s.

(** ** Values *)

(** A value with the raw text of the values inside it; strings and member
    names are unquoted. *)
Inductive json :=
| JNull
| JBool (b : bool)
| JNumber (raw : list byte)
| JString (s : list byte)
| JArray (elems : list (list byte * json))
| JObject (members : list (list byte * (list byte * json))).

Definition strip (lit s : list byte) : option (list byte) :=
  if bytes_HasPrefix s lit then Some (drop (length lit) s) else None.

(** The text of [s] up to the suffix [r]. *)
Definition consumed (s r : list byte) : list byte := take (length s - length r) s.

(** A value after optional white space, with what follows it.  Every call
    consumes a byte at least every second level, so twice the length and one
    is fuel enough. *)
Fixpoint parse_value (fuel : nat) (s : list byte) : option (json * list byte) :=
  match fuel with
  | O => None
  | S f =>
      match skip_ws s with
      | [] => None
      | c :: s' =>
          if bool_decide (c = chr "{") then
            match skip_ws s' with
            | d :: r =>
                if bool_decide (d = chr "}") then Some (JObject [], r)
                else (fun p => (JObject p.1, p.2)) <$> parse_members f s'
            | [] => None
            end
          else if bool_decide (c = chr "[") then
            match skip_ws s' with
            | d :: r =>
                if bool_decide (d = chr "]") then Some (JArray [], r)
                else (fun p => (JArray p.1, p.2)) <$> parse_elems f s'
            | [] => None
            end
          else if bool_decide (c = QUOTE) then
            (fun p => (JString (unquote p.1), p.2)) <$> scan_string s'
          else if bool_decide (c = chr "t") then
            (fun r => (JBool true, r)) <$> strip (go_bytes "rue") s'
          else if bool_decide (c = chr "f") then
            (fun r => (JBool false, r)) <$> strip (go_bytes "alse") s'
          else if bool_decide (c = chr "n") then
            (fun r => (JNull, r)) <$> strip (go_bytes "ull") s'
          else
            (fun r => (JNumber (consumed (c :: s') r), r)) <$> scan_number (c :: s')
      end
  end
with parse_elems (fuel : nat) (s : list byte)
    : option (list (list byte * json) * list byte) :=
  match fuel with
  | O => None
  | S f =>
      match parse_value f s with
      | None => None
      | Some (v, r) =>
          let raw := consumed (skip_ws s) r in
          match skip_ws r with
          | d :: r' =>
              if bool_decide (d = chr ",")
              then (fun p => ((raw, v) :: p.1, p.2)) <$> parse_elems f r'
              else if bool_decide (d = chr "]") then Some ([(raw, v)], r') else None
          | [] => None
          end
      end
  end
with parse_members (fuel : nat) (s : list byte)
    : option (list (list byte * (list byte * json)) * list byte) :=
  match fuel with
  | O => None
  | S f =>
      match skip_ws s with
      | q :: s1 =>
          if bool_decide (q = QUOTE) then
            match scan_string s1 with
            | Some (key, s2) =>
                match skip_ws s2 with
                | d :: s3 =>
                    if bool_decide (d = chr ":") then
                      match parse_value f s3 with
                      | None => None
                      | Some (v, r) =>
                          let m := (unquote key, (consumed (skip_ws s3) r, v)) in
                          match skip_ws r with
                          | d :: r' =>
                              if bool_decide (d = chr ",")
                              then (fun p => (m :: p.1, p.2)) <$> parse_members f r'
                              else if bool_decide (d = chr "}") then Some ([m], r') else None
                          | [] => None
                          end
                      end
                    else None
                | [] => None
                end
            | None => None
            end
          else None
      | [] => None
      end
  end.

Definition parse_fuel (s : list byte) : nat := 2 * length s + 1.

(** The first value of a stream ([Decoder.Decode]): its raw text, the value,
    and the rest. *)
Definition read_value (s : list byte) : option (list byte * json * list byte) :=
  match parse_value (parse_fuel s) s with
  | Some (v, r) => Some (consumed (skip_ws s) r, v, r)
  | None => None
  end.

(** [checkValid] and the value of the whole text ([json.Unmarshal]). *)
Definition parse (data : list byte) : option json :=
  match parse_value (parse_fuel data) data with
  | Some (v, r) => match skip_ws r with [] => Some v | _ => None end
  | None => None
  end.

(** ** Member names *)

(** One byte of [equalFoldRight]: the name is lower-case ASCII; the long s and
    the Kelvin sign fold to s and k. *)
Definition fold_byte (n : byte) (key : list byte) : option (list byte) :=
  match key with
  | [] => None
  | t :: key' =>
      if (byte_val t <? 0x80)%Z
      then if (Z.land (byte_val t) 0xDF =? Z.land (byte_val n) 0xDF)%Z then Some key' else None
      else
        let '(tr, w) := DecodeRune key in
        if (bool_decide (n = chr "s") && (tr =? 0x17F)%Z)
           || (bool_decide (n = chr "k") && (tr =? 0x212A)%Z)
        then Some (drop w key) else None
  end.

Fixpoint equalFold (name key : list byte) : bool :=
  match name with
  | [] => match key with [] => true | _ => false end
  | n :: name' =>
      match fold_byte n key with Some key' => equalFold name' key' | None => false end
  end.

(** ** strconv.ParseFloat on a JSON number *)

Fixpoint dec_value (acc : Z) (s : list byte) : Z :=
  match s with
  | c :: s' => if is_digit c then dec_value (acc * 10 + (byte_val c - byte_val (chr "0")))%Z s' else acc
  | [] => acc
  end.

(** The digits of the exponent, which the code stops adding up at 10000. *)
Fixpoint exp_value (acc : Z) (s : list byte) : Z :=
  match s with
  | c :: s' =>
      if is_digit c
      then exp_value (if (acc <? 10000)%Z then acc * 10 + (byte_val c - byte_val (chr "0")) else acc)%Z s'
      else acc
  | [] => acc
  end.

(** Mantissa and decimal exponent of a JSON number without its sign. *)
Definition number_parts (raw : list byte) : Z * Z :=
  let s := match raw with
           | c :: s => if bool_decide (c = chr "-") then s else raw
           | [] => []
           end in
  let r := skip_digits s in
  let int := consumed s r in
  let '(frac, r) :=
    match r with
    | c :: r' => if bool_decide (c = chr ".") then (consumed r' (skip_digits r'), skip_digits r')
                 else ([], r)
    | [] => ([], [])
    end in
  let e :=
    match r with
    | c :: r' =>
        if bool_decide (c = chr "e" \/ c = chr "E") then
          match r' with
          | sg :: r'' => if bool_decide (sg = chr "-") then (- exp_value 0 r'')%Z
                         else exp_value 0 (skip_sign r')
          | [] => 0%Z
          end
        else 0%Z
    | [] => 0%Z
    end in
  (dec_value 0 (int ++ frac), (e - Z.of_nat (length frac))%Z).

(** No range error: the number is below the tie of the largest finite float
    and 2^1024. *)
Definition ParseFloat_in_range (raw : list byte) : bool :=
  let '(m, e) := number_parts raw in
  let lim := (2 ^ 1024 - 2 ^ 970)%Z in
  if (m =? 0)%Z then true
  else if (0 <=? e)%Z
  then if (400 <? e)%Z then false else (m * 10 ^ e <? lim)%Z
  else (m <? lim * 10 ^ (- e))%Z.

(** ** Lemmas: lengths *)

Lemma skip_ws_length s : length (skip_ws s) <= length s.
Proof. induction s as [|c s IH]; simpl; [done|]. destruct (is_ws c); simpl; lia. Qed.

Lemma skip_digits_length s : length (skip_digits s) <= length s.
Proof. induction s as [|c s IH]; simpl; [done|]. destruct (is_digit c); simpl; lia. Qed.

Lemma skip_sign_length s : length (skip_sign s) <= length s.
Proof. destruct s as [|c s]; simpl; [done|]. case_bool_decide; simpl; lia. Qed.

Lemma scan_digits_length s r : scan_digits s = Some r -> length r < length s.
Proof.
  destruct s as [|c s]; simpl; [done|]. destruct (is_digit c); [|done]. intros [= <-].
  pose proof (skip_digits_length s). lia.
Qed.

Lemma scan_exp_length s r : scan_exp s = Some r -> length r <= length s.
Proof.
  destruct s as [|c s]; simpl; [by intros [= <-]|]. case_bool_decide; [|by intros [= <-]].
  intros Hr%scan_digits_length. pose proof (skip_sign_length s). lia.
Qed.

Lemma scan_frac_length s r : scan_frac s = Some r -> length r <= length s.
Proof.
  destruct s as [|c s]; [by intros [= <-]|]. unfold scan_frac. case_bool_decide.
  - destruct (scan_digits s) as [r'|] eqn:E; [|done]. apply scan_digits_length in E.
    intros H'%scan_exp_length. simpl. lia.
  - apply scan_exp_length.
Qed.

Lemma scan_int_length s r : scan_int s = Some r -> length r < length s.
Proof.
  destruct s as [|c s]; simpl; [done|]. pose proof (skip_digits_length s).
  case_bool_decide; [|destruct (is_digit c); [|done]]; intros ?%scan_frac_length; lia.
Qed.

Lemma scan_number_length s r : scan_number s = Some r -> length r < length s.
Proof.
  destruct s as [|c s]; [done|]. unfold scan_number.
  case_bool_decide; intros Hr%scan_int_length; simpl in *; lia.
Qed.

(** Induction over the text of a string, escape by escape. *)
Lemma scan_string_ind (P : list byte -> Prop) :
  (forall s, (forall s', length s' < length s -> P s') -> P s) -> forall s, P s.
Proof. intros H s. remember (length s) as n eqn:E. revert s E.
  induction n as [n IH] using lt_wf_ind. intros s ->. apply H. intros s' Hl. by eapply IH. Qed.

Lemma scan_string_length s x r : scan_string s = Some (x, r) -> length r < length s.
Proof.
  revert x r. induction s as [s IH] using scan_string_ind. intros x r.
  destruct s as [|c s]; [done|]. cbn [scan_string]. case_bool_decide; [intros [= <- <-]; simpl; lia|].
  case_bool_decide.
  - destruct s as [|e s]; [done|]. case_bool_decide.
    + destruct s as [|h1 [|h2 [|h3 [|h4 s]]]]; try done. destruct (_ && _); [|done].
      intros ([x' r'] & E & [= _ <-])%fmap_Some. apply IH in E; simpl in *; lia.
    + destruct (simple_escape e); [|done].
      intros ([x' r'] & E & [= _ <-])%fmap_Some. apply IH in E; simpl in *; lia.
  - destruct (_ <? _)%Z; [done|].
    intros ([x' r'] & E & [= _ <-])%fmap_Some. apply IH in E; simpl in *; lia.
Qed.

Lemma strip_length lit s r : strip lit s = Some r -> length r <= length s.
Proof. unfold strip. destruct (bytes_HasPrefix s lit); [|done]. intros [= <-]. rewrite length_drop. lia. Qed.

Lemma skip_ws_cons_length s c s' : skip_ws s = c :: s' -> length s' < length s.
Proof. intros E. pose proof (skip_ws_length s) as H. rewrite E in H. simpl in H. lia. Qed.

Lemma parse_length_all f :
  (forall s v r, parse_value f s = Some (v, r) -> length r < length s) /\
  (forall s v r, parse_elems f s = Some (v, r) -> length r < length s) /\
  (forall s v r, parse_members f s = Some (v, r) -> length r < length s).
Proof.
  induction f as [|f (IHv & IHe & IHm)]; [done|]. split_and!; intros s v r; cbn [parse_value parse_elems parse_members].
  - destruct (skip_ws s) as [|c s'] eqn:Es; [done|]. apply skip_ws_cons_length in Es.
    case_bool_decide; [|case_bool_decide].
    + destruct (skip_ws s') as [|d s1] eqn:E1; [done|]. apply skip_ws_cons_length in E1.
      case_bool_decide; [intros [= <- <-]; lia|].
      intros ([x r'] & E & [= _ <-])%fmap_Some. apply IHm in E. simpl. lia.
    + destruct (skip_ws s') as [|d s1] eqn:E1; [done|]. apply skip_ws_cons_length in E1.
      case_bool_decide; [intros [= <- <-]; lia|].
      intros ([x r'] & E & [= _ <-])%fmap_Some. apply IHe in E. simpl. lia.
    + case_bool_decide.
      { intros ([x r'] & E%scan_string_length & [= _ <-])%fmap_Some. simpl. lia. }
      do 3 (case_bool_decide; [intros (r' & E%strip_length & [= _ <-])%fmap_Some; lia|]).
      intros (r' & E%scan_number_length & [= _ <-])%fmap_Some. simpl in E. lia.
  - destruct (parse_value f s) as [[v' r1]|] eqn:Ev; [|done]. apply IHv in Ev.
    destruct (skip_ws r1) as [|d r2] eqn:E1; [done|]. apply skip_ws_cons_length in E1.
    case_bool_decide; [|case_bool_decide; [|done]].
    + intros ([x r'] & E & [= _ <-])%fmap_Some. apply IHe in E. simpl. lia.
    + intros [= _ <-]. lia.
  - destruct (skip_ws s) as [|q s1] eqn:Es; [done|]. apply skip_ws_cons_length in Es.
    case_bool_decide; [|done].
    destruct (scan_string s1) as [[key s2]|] eqn:Ek; [|done]. apply scan_string_length in Ek.
    destruct (skip_ws s2) as [|d s3] eqn:E2; [done|]. apply skip_ws_cons_length in E2.
    case_bool_decide; [|done].
    destruct (parse_value f s3) as [[v' r1]|] eqn:Ev; [|done]. apply IHv in Ev.
    destruct (skip_ws r1) as [|d' r2] eqn:E1; [done|]. apply skip_ws_cons_length in E1.
    case_bool_decide; [|case_bool_decide; [|done]].
    + intros ([x r'] & E & [= _ <-])%fmap_Some. apply IHm in E. simpl. lia.
    + intros [= _ <-]. lia.
Qed.

(** Every element of an array takes a byte of the text. *)
Lemma parse_elems_count f s es r :
  parse_elems f s = Some (es, r) -> length es + length r <= length s.
Proof.
  revert s es r. induction f as [|f IH]; [done|]. intros s es r. cbn [parse_elems].
  destruct (parse_value f s) as [[v' r1]|] eqn:Ev; [|done]. apply parse_length_all in Ev.
  destruct (skip_ws r1) as [|d r2] eqn:E1; [done|]. apply skip_ws_cons_length in E1.
  case_bool_decide; [|case_bool_decide; [|done]].
  - intros ([x r'] & E & [= -> <-])%fmap_Some. apply IH in E. simpl. lia.
  - intros [= <- <-]. simpl. lia.
Qed.

Lemma parse_array_count data es : parse data = Some (JArray es) -> length es <= length data.
Proof.
  unfold parse. destruct (parse_value _ data) as [[v r]|] eqn:E; [|done].
  destruct (skip_ws r); [|done]. intros [= ->]. revert E. generalize (parse_fuel data).
  intros [|f]; [done|]. cbn [parse_value].
  destruct (skip_ws data) as [|c s'] eqn:Es; [done|]. apply skip_ws_cons_length in Es.
  repeat case_bool_decide; try (by intros ([] & _ & [= ])%fmap_Some);
    try (by intros (? & _ & [= ])%fmap_Some).
  - destruct (skip_ws s') as [|d r0]; [done|]. case_bool_decide; [done|].
    by intros ([] & _ & [= ])%fmap_Some.
  - destruct (skip_ws s') as [|d r0]; [done|]. case_bool_decide; [intros [= <- <-]; simpl; lia|].
    intros ([x r'] & E & [= -> <-])%fmap_Some. apply parse_elems_count in E. simpl. lia.
Qed.

(** ** Lemmas: fuel *)

(** Beyond twice the length the fuel does not matter. *)
Lemma parse_fuel_all f :
  (forall f' s, 2 * length s + 1 <= f <= f' -> parse_value f' s = parse_value f s) /\
  (forall f' s, 2 * length s + 2 <= f <= f' -> parse_elems f' s = parse_elems f s) /\
  (forall f' s, 2 * length s + 2 <= f <= f' -> parse_members f' s = parse_members f s).
Proof.
  induction f as [|f (IHv & IHe & IHm)]; [split_and!; intros; lia|].
  split_and!; intros [|f'] s Hf; try lia; cbn [parse_value parse_elems parse_members].
  - destruct (skip_ws s) as [|c s'] eqn:Es; [done|]. apply skip_ws_cons_length in Es.
    rewrite (IHm f' s'), (IHe f' s') by lia. done.
  - rewrite (IHv f' s) by lia. destruct (parse_value f s) as [[v r]|] eqn:Ev; [|done].
    apply parse_length_all in Ev. destruct (skip_ws r) as [|d r'] eqn:Er; [done|].
    apply skip_ws_cons_length in Er. rewrite (IHe f' r') by lia. done.
  - destruct (skip_ws s) as [|q s1] eqn:Es; [done|]. apply skip_ws_cons_length in Es.
    case_bool_decide; [|done].
    destruct (scan_string s1) as [[key s2]|] eqn:Ek; [|done]. apply scan_string_length in Ek.
    destruct (skip_ws s2) as [|d s3] eqn:E2; [done|]. apply skip_ws_cons_length in E2.
    rewrite (IHv f' s3) by lia. case_bool_decide; [|done].
    destruct (parse_value f s3) as [[v' r1]|] eqn:Ev; [|done]. apply parse_length_all in Ev.
    destruct (skip_ws r1) as [|d' r2] eqn:E1; [done|]. apply skip_ws_cons_length in E1.
    rewrite (IHm f' r2) by lia. done.
Qed.

(** The fuel of [parse] is enough: any larger amount gives the same result, so
    a failure is a syntax error and never lack of fuel. *)
Lemma parse_value_fuel f s :
  parse_fuel s <= f -> parse_value f s = parse_value (parse_fuel s) s.
Proof. unfold parse_fuel. intros Hf. apply parse_fuel_all. lia. Qed.

Lemma parse_value_mono f f' s : f <= f' ->
  (forall x, parse_value f s = Some x -> parse_value f' s = Some x).
Proof.
  revert f' s. assert (Hall : forall f,
    (forall f' s x, f <= f' -> parse_value f s = Some x -> parse_value f' s = Some x) /\
    (forall f' s x, f <= f' -> parse_elems f s = Some x -> parse_elems f' s = Some x) /\
    (forall f' s x, f <= f' -> parse_members f s = Some x -> parse_members f' s = Some x)).
  { clear f. induction f as [|f (IHv & IHe & IHm)]; [done|].
    split_and!; intros [|f'] s x Hf; try lia; cbn [parse_value parse_elems parse_members].
    - destruct (skip_ws s) as [|c s']; [done|]. case_bool_decide; [|case_bool_decide].
      + destruct (skip_ws s'); [done|]. case_bool_decide; [done|].
        intros (y & E & ->)%fmap_Some. by rewrite (IHm f' s' y) by (done || lia).
      + destruct (skip_ws s'); [done|]. case_bool_decide; [done|].
        intros (y & E & ->)%fmap_Some. by rewrite (IHe f' s' y) by (done || lia).
      + done.
    - destruct (parse_value f s) as [[v r]|] eqn:Ev; [|done].
      rewrite (IHv f' s (v, r)) by (done || lia). destruct (skip_ws r) as [|d r']; [done|].
      case_bool_decide; [|done]. intros (y & E & ->)%fmap_Some.
      by rewrite (IHe f' r' y) by (done || lia).
    - destruct (skip_ws s) as [|q s1]; [done|]. case_bool_decide; [|done].
      destruct (scan_string s1) as [[key s2]|]; [|done].
      destruct (skip_ws s2) as [|d s3]; [done|]. case_bool_decide; [|done].
      destruct (parse_value f s3) as [[v r]|] eqn:Ev; [|done].
      rewrite (IHv f' s3 (v, r)) by (done || lia). destruct (skip_ws r) as [|d' r']; [done|].
      case_bool_decide; [|done]. intros (y & E & ->)%fmap_Some.
      by rewrite (IHm f' r' y) by (done || lia). }
  intros f' s Hf x. by apply Hall.
Qed.

(** ** Lemmas: a value in context *)

(** What may follow a value without being read as part of it. *)
Definition continues_number (c : byte) : bool :=
  is_digit c || bool_decide (c = chr "." \/ c = chr "e" \/ c = chr "E" \/ c = chr "+" \/ c = chr "-").
Definition stop (t : list byte) : Prop :=
  match t with c :: _ => continues_number c = false | [] => True end.

Lemma stop_cases c t : stop (c :: t) ->
  is_digit c = false /\ c <> chr "." /\ c <> chr "e" /\ c <> chr "E" /\ c <> chr "+" /\ c <> chr "-".
Proof.
  unfold stop, continues_number. intros [H1 H2]%orb_false_iff. bool_prop. naive_solver.
Qed.

Lemma skip_ws_app s t : skip_ws s <> [] -> skip_ws (s ++ t) = skip_ws s ++ t.
Proof. induction s as [|c s IH]; simpl; [done|]. destruct (is_ws c); auto. Qed.

Lemma skip_digits_app s t : stop t -> skip_digits (s ++ t) = skip_digits s ++ t.
Proof.
  intros Ht. induction s as [|c s IH]; simpl.
  - destruct t as [|c t]; [done|]. apply stop_cases in Ht as [Hd _]. simpl. by rewrite Hd.
  - by destruct (is_digit c).
Qed.

Lemma scan_digits_app s r t : stop t -> scan_digits s = Some r -> scan_digits (s ++ t) = Some (r ++ t).
Proof.
  intros Ht. destruct s as [|c s]; simpl; [done|]. destruct (is_digit c); [|done].
  intros [= <-]. by rewrite skip_digits_app.
Qed.

Lemma skip_sign_app s t : s <> [] -> skip_sign (s ++ t) = skip_sign s ++ t.
Proof. destruct s as [|c s]; simpl; [done|]. by case_bool_decide. Qed.

Lemma scan_exp_app s r t : stop t -> scan_exp s = Some r -> scan_exp (s ++ t) = Some (r ++ t).
Proof.
  intros Ht. destruct s as [|c s]; simpl.
  - intros [= <-]. destruct t as [|c t]; [done|]. apply stop_cases in Ht. simpl.
    rewrite bool_decide_eq_false_2; [done|naive_solver].
  - case_bool_decide; [|by intros [= <-]]. intros Hd. destruct s as [|c' s]; [done|].
    rewrite (skip_sign_app (c' :: s)) by done. by apply scan_digits_app.
Qed.

Lemma scan_frac_app s r t : stop t -> scan_frac s = Some r -> scan_frac (s ++ t) = Some (r ++ t).
Proof.
  intros Ht. destruct s as [|c s].
  - intros [= <-]. destruct t as [|c t]; [done|]. pose proof (stop_cases _ _ Ht) as (_ & Hd & _).
    unfold scan_frac. simpl. rewrite bool_decide_eq_false_2 by done.
    exact (scan_exp_app [] [] (c :: t) Ht eq_refl).
  - unfold scan_frac. simpl. case_bool_decide.
    + destruct (scan_digits s) as [r'|] eqn:E; [|done]. rewrite (scan_digits_app _ _ _ Ht E).
      by apply scan_exp_app.
    + intros Hr. exact (scan_exp_app (c :: s) r t Ht Hr).
Qed.

Lemma scan_int_app s r t : stop t -> scan_int s = Some r -> scan_int (s ++ t) = Some (r ++ t).
Proof.
  intros Ht. destruct s as [|c s]; [done|]. unfold scan_int. simpl. case_bool_decide.
  - by apply scan_frac_app.
  - destruct (is_digit c); [|done]. rewrite skip_digits_app by done. by apply scan_frac_app.
Qed.

Lemma scan_number_app s r t : stop t -> scan_number s = Some r -> scan_number (s ++ t) = Some (r ++ t).
Proof.
  intros Ht. destruct s as [|c s]; [done|]. unfold scan_number. simpl. case_bool_decide.
  - by apply scan_int_app.
  - intros Hr. exact (scan_int_app (c :: s) r t Ht Hr).
Qed.

Lemma scan_string_app s x r t : scan_string s = Some (x, r) -> scan_string (s ++ t) = Some (x, r ++ t).
Proof.
  revert x r. induction s as [s IH] using scan_string_ind. intros x r.
  destruct s as [|c s]; [done|]. simpl. case_bool_decide; [by intros [= <- <-]|].
  case_bool_decide.
  - destruct s as [|e s]; [done|]. simpl. case_bool_decide.
    + destruct s as [|h1 [|h2 [|h3 [|h4 s]]]]; try done. simpl. destruct (_ && _); [|done].
      intros ([x' r'] & E & [= -> ->])%fmap_Some. erewrite IH by (done || (simpl; lia)). done.
    + destruct (simple_escape e); [|done].
      intros ([x' r'] & E & [= -> ->])%fmap_Some. erewrite IH by (done || (simpl; lia)). done.
  - destruct (_ <? _)%Z; [done|].
    intros ([x' r'] & E & [= -> ->])%fmap_Some. erewrite IH by (done || (simpl; lia)). done.
Qed.

Lemma strip_app lit s r t : strip lit s = Some r -> strip lit (s ++ t) = Some (r ++ t).
Proof.
  unfold strip. destruct (bytes_HasPrefix s lit) eqn:E; [|done]. intros [= <-].
  apply bytes_HasPrefix_spec in E as [k ->]. rewrite <-app_assoc.
  assert (bytes_HasPrefix (lit ++ k ++ t) lit = true) as -> by (apply bytes_HasPrefix_spec; eauto).
  by rewrite !drop_app_length.
Qed.

Lemma consumed_app s r t : length r <= length s -> consumed (s ++ t) (r ++ t) = consumed s r.
Proof.
  intros Hl. unfold consumed. rewrite !length_app.
  replace (length s + length t - (length r + length t)) with (length s - length r) by lia.
  rewrite take_app_le by lia. done.
Qed.

Lemma parse_value_starts f s v r : parse_value f s = Some (v, r) -> skip_ws s <> [].
Proof. destruct f; cbn [parse_value]; [done|]. by destruct (skip_ws s). Qed.

Lemma raw_app f s v r t :
  parse_value f s = Some (v, r) ->
  consumed (skip_ws (s ++ t)) (r ++ t) = consumed (skip_ws s) r.
Proof.
  intros Hv. pose proof (parse_value_starts _ _ _ _ Hv) as Hs.
  rewrite skip_ws_app by done. apply consumed_app.
  destruct f; cbn [parse_value] in Hv; [done|]. clear Hs.
  destruct (parse_length_all (S f)) as (Hl & _).
  assert (Hid : skip_ws (skip_ws s) = skip_ws s).
  { clear. induction s as [|c s IH]; simpl; [done|]. destruct (is_ws c) eqn:E; [done|].
    simpl. by rewrite E. }
  specialize (Hl (skip_ws s) v r). cbn [parse_value] in Hl. rewrite Hid in Hl.
  apply Hl in Hv. lia.
Qed.

Lemma skip_ws_cons_app s c s' t : skip_ws s = c :: s' -> skip_ws (s ++ t) = c :: s' ++ t.
Proof. intros E. rewrite skip_ws_app, E; [done|]. by rewrite E. Qed.

(** A value is read the same before any text that cannot continue it. *)
Lemma parse_app_all f t :
  stop t ->
  (forall s v r, parse_value f s = Some (v, r) -> parse_value f (s ++ t) = Some (v, r ++ t)) /\
  (forall s v r, parse_elems f s = Some (v, r) -> parse_elems f (s ++ t) = Some (v, r ++ t)) /\
  (forall s v r, parse_members f s = Some (v, r) -> parse_members f (s ++ t) = Some (v, r ++ t)).
Proof.
  intros Ht. induction f as [|f (IHv & IHe & IHm)]; [done|].
  split_and!; intros s v r; cbn [parse_value parse_elems parse_members].
  - destruct (skip_ws s) as [|c s'] eqn:Es; [done|]. rewrite (skip_ws_cons_app _ _ _ t Es).
    case_bool_decide; [|case_bool_decide].
    + destruct (skip_ws s') as [|d s1] eqn:E1; [done|]. rewrite (skip_ws_cons_app _ _ _ t E1).
      case_bool_decide; [by intros [= <- <-]|].
      intros ([x r'] & E & [= -> ->])%fmap_Some. by rewrite (IHm _ _ _ E).
    + destruct (skip_ws s') as [|d s1] eqn:E1; [done|]. rewrite (skip_ws_cons_app _ _ _ t E1).
      case_bool_decide; [by intros [= <- <-]|].
      intros ([x r'] & E & [= -> ->])%fmap_Some. by rewrite (IHe _ _ _ E).
    + case_bool_decide.
      { intros ([x r'] & E & [= -> ->])%fmap_Some. by rewrite (scan_string_app _ _ _ t E). }
      do 3 (case_bool_decide;
        [intros (r' & E & [= -> ->])%fmap_Some; by rewrite (strip_app _ _ _ t E)|]).
      intros (r' & E & [= -> ->])%fmap_Some.
      change (c :: s' ++ t) with ((c :: s') ++ t).
      rewrite (scan_number_app (c :: s') r' t Ht E). apply scan_number_length in E.
      cbn [fmap option_fmap option_map]. by rewrite consumed_app by lia.
  - destruct (parse_value f s) as [[v' r1]|] eqn:Ev; [|done]. rewrite (IHv _ _ _ Ev).
    rewrite (raw_app f s v' r1 t Ev).
    destruct (skip_ws r1) as [|d r2] eqn:E1; [done|]. rewrite (skip_ws_cons_app _ _ _ t E1).
    case_bool_decide; [|case_bool_decide; [|done]]; [|by intros [= <- <-]].
    intros ([x r'] & E & [= -> ->])%fmap_Some. by rewrite (IHe _ _ _ E).
  - destruct (skip_ws s) as [|q s1] eqn:Es; [done|]. rewrite (skip_ws_cons_app _ _ _ t Es).
    case_bool_decide; [|done].
    destruct (scan_string s1) as [[key s2]|] eqn:Ek; [|done]. rewrite (scan_string_app _ _ _ t Ek).
    destruct (skip_ws s2) as [|d s3] eqn:E2; [done|]. rewrite (skip_ws_cons_app _ _ _ t E2).
    case_bool_decide; [|done].
    destruct (parse_value f s3) as [[v' r1]|] eqn:Ev; [|done]. rewrite (IHv _ _ _ Ev).
    rewrite (raw_app f s3 v' r1 t Ev).
    destruct (skip_ws r1) as [|d' r2] eqn:E1; [done|]. rewrite (skip_ws_cons_app _ _ _ t E1).
    case_bool_decide; [|case_bool_decide; [|done]]; [|by intros [= <- <-]].
    intros ([x r'] & E & [= -> ->])%fmap_Some. by rewrite (IHm _ _ _ E).
Qed.

(** ** Writing values *)

(** A complete text of a value: nothing before it and nothing after. *)
Definition value_text (raw : list byte) (v : json) : Prop :=
  parse_value (parse_fuel raw) raw = Some (v, []) /\ skip_ws raw = raw.

Lemma value_text_parse raw v : value_text raw v -> parse raw = Some v.
Proof. intros [E _]. unfold parse. by rewrite E. Qed.

Lemma value_text_nonnil raw v : value_text raw v -> raw <> [].
Proof. intros [E _] ->. done. Qed.

(** A value text in front of a text that cannot continue it. *)
Lemma value_text_app raw v t f :
  value_text raw v -> stop t -> parse_fuel raw <= f ->
  parse_value f (raw ++ t) = Some (v, t) /\ consumed (skip_ws (raw ++ t)) t = raw.
Proof.
  intros [E Hw] Ht Hf. split.
  - change t with ([] ++ t) at 2. apply parse_app_all; [done|]. by eapply parse_value_mono.
  - change t with ([] ++ t) at 2. rewrite (raw_app _ _ _ _ t E), Hw.
    unfold consumed. simpl. rewrite Nat.sub_0_r. by rewrite firstn_all.
Qed.

(** The characters that stand for themselves in a string. *)
Definition plain (c : byte) : bool :=
  (0x20 <=? byte_val c)%Z && (byte_val c <? 0x80)%Z && bool_decide (c <> QUOTE /\ c <> BACKSLASH).

Definition quoted (s : list byte) : list byte := QUOTE :: s ++ [QUOTE].

Lemma plain_spec c : plain c = true ->
  (0x20 <= byte_val c < 0x80)%Z /\ c <> QUOTE /\ c <> BACKSLASH.
Proof. unfold plain. intros H. bool_prop. naive_solver lia. Qed.

Lemma scan_string_plain s t : Forall (fun c => plain c = true) s ->
  scan_string (s ++ QUOTE :: t) = Some (s, t).
Proof.
  induction 1 as [|c s Hc _ IH]; simpl; [done|]. apply plain_spec in Hc as (Hr & Hq & Hb).
  rewrite !bool_decide_eq_false_2 by done.
  replace (byte_val c <? 0x20)%Z with false by lia. by rewrite IH.
Qed.

Lemma unquote_plain s : Forall (fun c => plain c = true) s -> unquote s = s.
Proof.
  unfold unquote. induction 1 as [|c s Hc _ IH]; simpl; [done|].
  apply plain_spec in Hc as (Hr & Hq & Hb). rewrite bool_decide_eq_false_2 by done.
  replace (byte_val c <? 0x80)%Z with true by lia. by rewrite IH.
Qed.

Lemma quoted_text s : Forall (fun c => plain c = true) s -> value_text (quoted s) (JString s).
Proof.
  intros Hs. split; [|done]. unfold parse_fuel, quoted. rewrite Nat.add_1_r. cbn [parse_value skip_ws].
  change (is_ws QUOTE) with false. cbn iota.
  rewrite (bool_decide_eq_false_2 (QUOTE = chr "{")), (bool_decide_eq_false_2 (QUOTE = chr "[")),
    (bool_decide_eq_true_2 (QUOTE = QUOTE)) by done.
  rewrite scan_string_plain by done. simpl. by rewrite unquote_plain.
Qed.

(** The rest of a sequence: a comma before each element, then the end. *)
Fixpoint tail_text (fin : byte) (l : list (list byte)) : list byte :=
  match l with
  | [] => [fin]
  | x :: l' => chr "," :: x ++ tail_text fin l'
  end.

Definition array_text (raws : list (list byte)) : list byte :=
  chr "[" :: match raws with [] => [chr "]"] | r :: rs => r ++ tail_text (chr "]") rs end.

Definition member_text (m : list byte * list byte) : list byte :=
  quoted m.1 ++ chr ":" :: m.2.

Definition object_text (ms : list (list byte * list byte)) : list byte :=
  chr "{" :: match member_text <$> ms with
             | [] => [chr "}"]
             | m :: ms => m ++ tail_text (chr "}") ms
             end.

Lemma stop_tail fin l : continues_number fin = false -> stop (tail_text fin l).
Proof. by destruct l. Qed.

Lemma skip_ws_id c s : is_ws c = false -> skip_ws (c :: s) = c :: s.
Proof. intros E. simpl. by rewrite E. Qed.

Lemma tail_length fin x l : length x < length (x ++ tail_text fin l).
Proof. rewrite length_app. destruct l; simpl; lia. Qed.

(** A text that begins a value does not begin with the end of an array. *)
Lemma value_text_head raw v : value_text raw v ->
  exists c s, raw = c :: s /\ is_ws c = false /\ c <> chr "]" /\ c <> chr "}".
Proof.
  intros [E Hw]. destruct raw as [|c s]; [done|]. exists c, s. split; [done|].
  destruct (is_ws c) eqn:Ec.
  { exfalso. simpl in Hw. rewrite Ec in Hw.
    pose proof (skip_ws_length s) as Hl. rewrite Hw in Hl. simpl in Hl. lia. }
  split; [done|]. unfold parse_fuel in E. rewrite Nat.add_1_r in E. cbn [parse_value] in E.
  rewrite Hw in E. split; intros ->; vm_compute in E; done.
Qed.

Lemma parse_elems_text raw v raws vs f :
  value_text raw v -> Forall2 value_text raws vs ->
  2 * length (raw ++ tail_text (chr "]") raws) + 2 <= f ->
  parse_elems f (raw ++ tail_text (chr "]") raws) = Some ((raw, v) :: zip raws vs, []).
Proof.
  intros Hr Hrs. revert f raw v Hr. induction Hrs as [|raw' v' raws vs Hr' Hrs IH];
    intros [|f] raw v Hr Hf; try lia; cbn [parse_elems].
  - destruct (value_text_app raw v (tail_text (chr "]") []) f Hr) as [-> ->]; [done| |done].
    unfold parse_fuel. rewrite length_app in Hf. lia.
  - destruct (value_text_app raw v (tail_text (chr "]") (raw' :: raws)) f Hr) as [-> ->];
      [done|unfold parse_fuel; rewrite length_app in Hf; lia|].
    cbn [tail_text]. rewrite skip_ws_id by done. rewrite bool_decide_eq_true_2 by done.
    rewrite (IH f raw' v' Hr'); [done|]. rewrite length_app in Hf. simpl in Hf. lia.
Qed.

Lemma array_text_value raws vs :
  Forall2 value_text raws vs -> value_text (array_text raws) (JArray (zip raws vs)).
Proof.
  intros Hrs. split; [|by destruct raws]. destruct Hrs as [|raw v raws vs Hr Hrs]; [done|].
  unfold parse_fuel, array_text. rewrite Nat.add_1_r. cbn [parse_value].
  rewrite skip_ws_id by done. rewrite (bool_decide_eq_false_2 (chr "[" = chr "{")) by done.
  rewrite bool_decide_eq_true_2 by done.
  pose proof (value_text_head raw v Hr) as (c & s & Hraw & Hc & Hne & _).
  replace (skip_ws (raw ++ tail_text (chr "]") raws)) with (c :: s ++ tail_text (chr "]") raws)
    by (rewrite Hraw; simpl; by rewrite Hc).
  rewrite bool_decide_eq_false_2 by done.
  rewrite (parse_elems_text raw v raws vs) by (done || (simpl; lia)). done.
Qed.

(** The members of an object: plain names and value texts. *)
Definition member_ok (m : list byte * list byte) (v : json) : Prop :=
  Forall (fun c => plain c = true) m.1 /\ value_text m.2 v.

Definition parsed_member (m : list byte * list byte) (v : json)
    : list byte * (list byte * json) := (m.1, (m.2, v)).

Lemma parse_members_text m v ms vs f :
  member_ok m v -> Forall2 member_ok ms vs ->
  2 * length (member_text m ++ tail_text (chr "}") (member_text <$> ms)) + 2 <= f ->
  parse_members f (member_text m ++ tail_text (chr "}") (member_text <$> ms)) =
  Some (parsed_member m v :: zip_with parsed_member ms vs, []).
Proof.
  intros Hr Hrs. revert f m v Hr. induction Hrs as [|m' v' ms vs Hm' Hms IH];
    intros [|f] [key raw] v [Hk Hr] Hf; try lia; simpl in Hk, Hr;
    unfold member_text at 1, quoted; cbn [parse_members fst snd];
    rewrite <-!app_assoc; cbn [app]; rewrite <-!app_assoc; cbn [app];
    rewrite skip_ws_id by done;
    rewrite scan_string_plain, skip_ws_id, !bool_decide_eq_true_2 by done;
    unfold parsed_member at 1; cbn [fst snd]; rewrite unquote_plain by done.
  - destruct (value_text_app raw v (tail_text (chr "}") []) f Hr) as [E1 E2]; [done| |].
    { unfold parse_fuel. unfold member_text, quoted in Hf.
      rewrite ?length_app in Hf. simpl in Hf. rewrite ?length_app in Hf. simpl in Hf. lia. }
    cbn [fmap list_fmap tail_text] in *. by rewrite E1, E2.
  - destruct (value_text_app raw v (tail_text (chr "}") (member_text <$> m' :: ms)) f Hr)
      as [E1 E2]; [done| |].
    { unfold parse_fuel. unfold member_text at 1, quoted in Hf.
      rewrite ?length_app in Hf. simpl in Hf. rewrite ?length_app in Hf. simpl in Hf. lia. }
    rewrite E1, E2. rewrite fmap_cons. cbn [tail_text].
    rewrite skip_ws_id, bool_decide_eq_true_2 by done.
    rewrite (IH f m' v' Hm'); [done|].
    rewrite length_app, fmap_cons in Hf. cbn [tail_text length] in Hf. lia.
Qed.

Lemma object_text_value ms vs :
  Forall2 member_ok ms vs ->
  value_text (object_text ms) (JObject (zip_with parsed_member ms vs)).
Proof.
  intros Hms. split; [|by destruct ms]. destruct Hms as [|m v ms vs Hm Hms]; [done|].
  unfold parse_fuel, object_text. rewrite fmap_cons, Nat.add_1_r. cbn [parse_value].
  rewrite skip_ws_id by done. rewrite bool_decide_eq_true_2 by done.
  assert (exists s, member_text m = QUOTE :: s) as [s Es] by (unfold member_text, quoted; eauto).
  replace (skip_ws (member_text m ++ tail_text (chr "}") (member_text <$> ms)))
    with (QUOTE :: s ++ tail_text (chr "}") (member_text <$> ms)) by (rewrite Es; done).
  rewrite bool_decide_eq_false_2 by done.
  rewrite (parse_members_text m v ms vs) by (done || (simpl; lia)). done.
Qed.
