(* ===== verification/JsonText.v ===== *)
(** * encoding/json: writing strings, numbers and raw values

    What the encoder of Go's library writes for the values of a response: a
    string with its escapes (HTML characters included, as [Encoder] does by
    default), an integer, and a raw message, compacted.  Library code, from its
    documentation; the lemmas say that a reader gets the value back. *)

From S2P Require Import Prelude GoStd Utf8 Json.
From Stdlib Require Import ZArith Lia.
From Stdlib Require Import Init.Byte.
From stdpp Require Import gmap strings list.
Open Scope Z_scope.

(** ** Strings *)

(** [\u00xx] of a code unit below 2^16. *)
Definition unit_escape (r : Z) : list byte :=
  [BACKSLASH; chr "u"; hextable (r / 4096 mod 16); hextable (r / 256 mod 16);
   hextable (r / 16 mod 16); hextable (r mod 16)].

Definition html_byte (c : byte) : bool := bool_decide (c = chr "<" \/ c = chr ">" \/ c = chr "&").

(** A byte below 0x80. *)
Definition ascii_text (c : byte) : list byte :=
  if bool_decide (c = QUOTE \/ c = BACKSLASH) then [BACKSLASH; c]
  else if bool_decide (c = x0a) then [BACKSLASH; chr "n"]
  else if bool_decide (c = x0d) then [BACKSLASH; chr "r"]
  else if bool_decide (c = x09) then [BACKSLASH; chr "t"]
  else if (byte_val c <? 0x20) || html_byte c then unit_escape (byte_val c)
  else [c].

(** A rune of several bytes; an invalid byte is written as the escape of
    [RuneError], and the two line separators are escaped. *)
Definition rune_text (s : list byte) (r : Z) (w : nat) : list byte :=
  if (r =? RuneError) && (w =? 1)%nat then unit_escape RuneError
  else if (r =? 0x2028) || (r =? 0x2029) then unit_escape r
  else take w s.

(** [encodeState.string]: the text between the quotes. *)
Fixpoint string_body (fuel : nat) (s : list byte) : list byte :=
  match fuel, s with
  | S f, c :: s' =>
      if byte_val c <? 0x80 then ascii_text c ++ string_body f s'
      else let '(r, w) := DecodeRune s in rune_text s r w ++ string_body f (drop w s)
  | _, _ => []
  end.

Definition json_string (s : list byte) : list byte := quoted (string_body (length s) s).

(** The string a reader gets: what is not UTF-8 is replaced. *)
Definition to_valid (s : list byte) : list byte := runes_string (runes s).

(** ** Runes *)

Lemma cont_spec lo hi c : cont lo hi c = true -> lo <= byte_val c <= hi.
Proof. unfold cont. intros H. bool_prop. lia. Qed.

(** What is decoded from several bytes is a rune of at least 0x80, and those
    bytes are its encoding. *)
Definition decoded (l : list byte) (r : Z) : Prop :=
  0x80 <= r /\ valid_rune r = true /\ l = EncodeRune r.

Lemma encode2 b0 b1 : 0xC2 <= byte_val b0 <= 0xDF -> 0x80 <= byte_val b1 <= 0xBF ->
  decoded [b0; b1] ((byte_val b0 - 0xC0) * 64 + (byte_val b1 - 0x80)).
Proof.
  intros H0 H1. set (r := _ + _). assert (Hr : 0x80 <= r < 0x800) by lia.
  assert (Hv : valid_rune r = true) by (apply valid_rune_spec; lia).
  split; [lia|]. split; [done|]. unfold EncodeRune. rewrite Hv.
  replace (r <? 0x80) with false by lia. replace (r <? 0x800) with true by lia.
  repeat f_equal; apply byte_val_inj; rewrite byte_val_of; unfold r; Z.to_euclidean_division_equations; lia.
Qed.

Lemma encode3 b0 b1 b2 r : r = (byte_val b0 - 0xE0) * 4096 + (byte_val b1 - 0x80) * 64 + (byte_val b2 - 0x80) ->
  0xE0 <= byte_val b0 <= 0xEF -> 0x80 <= byte_val b1 <= 0xBF -> 0x80 <= byte_val b2 <= 0xBF ->
  0x800 <= r < 0xD800 \/ 0xE000 <= r -> decoded [b0; b1; b2] r.
Proof.
  intros E H0 H1 H2 Hr. assert (Hv : valid_rune r = true) by (apply valid_rune_spec; lia).
  split; [lia|]. split; [done|]. unfold EncodeRune. rewrite Hv.
  replace (r <? 0x80) with false by lia. replace (r <? 0x800) with false by lia.
  replace (r <? 0x10000) with true by lia.
  assert (E1 : r / 4096 = byte_val b0 - 0xE0) by (Z.to_euclidean_division_equations; lia).
  assert (E2 : r / 64 = (byte_val b0 - 0xE0) * 64 + (byte_val b1 - 0x80))
    by (Z.to_euclidean_division_equations; lia).
  rewrite E1, E2, E. clear E1 E2 E Hv Hr r.
  repeat f_equal; apply byte_val_inj; rewrite byte_val_of; Z.to_euclidean_division_equations; lia.
Qed.

Lemma encode4 b0 b1 b2 b3 r :
  r = (byte_val b0 - 0xF0) * 262144 + (byte_val b1 - 0x80) * 4096 + (byte_val b2 - 0x80) * 64 + (byte_val b3 - 0x80) ->
  0xF0 <= byte_val b0 <= 0xF4 -> 0x80 <= byte_val b1 <= 0xBF -> 0x80 <= byte_val b2 <= 0xBF ->
  0x80 <= byte_val b3 <= 0xBF -> 0x10000 <= r <= 0x10FFFF -> decoded [b0; b1; b2; b3] r.
Proof.
  intros E H0 H1 H2 H3 Hr. assert (Hv : valid_rune r = true) by (apply valid_rune_spec; lia).
  split; [lia|]. split; [done|]. unfold EncodeRune. rewrite Hv.
  replace (r <? 0x80) with false by lia. replace (r <? 0x800) with false by lia.
  replace (r <? 0x10000) with false by lia.
  assert (E1 : r / 262144 = byte_val b0 - 0xF0) by (Z.to_euclidean_division_equations; lia).
  assert (E2 : r / 4096 = (byte_val b0 - 0xF0) * 64 + (byte_val b1 - 0x80))
    by (Z.to_euclidean_division_equations; lia).
  assert (E3 : r / 64 = ((byte_val b0 - 0xF0) * 64 + (byte_val b1 - 0x80)) * 64 + (byte_val b2 - 0x80))
    by (Z.to_euclidean_division_equations; lia).
  rewrite E1, E2, E3, E. clear E1 E2 E3 E Hv Hr r.
  repeat f_equal; apply byte_val_inj; rewrite byte_val_of; Z.to_euclidean_division_equations; lia.
Qed.

Lemma DecodeRune_multi c s r w :
  0x80 <= byte_val c -> DecodeRune (c :: s) = (r, w) ->
  (r = RuneError /\ w = 1%nat) \/ ((1 < w)%nat /\ decoded (take w (c :: s)) r).
Proof.
  intros Hc. unfold DecodeRune. rewrite (proj2 (Z.ltb_ge _ _)) by done.
  repeat match goal with
  | |- context [match ?l with [] => _ | _ :: _ => _ end] => is_var l; destruct l as [|? l]
  | |- context [if ?b && ?c then _ else _] => destruct (b && c) eqn:?; bool_prop
  | |- context [if cont ?lo ?hi ?b then _ else _] => destruct (cont lo hi b) eqn:?; bool_prop
  end; intros [= <- <-]; try (by left);
  repeat match goal with
  | H : (_ && _) = true |- _ => apply andb_true_iff in H as [? ?]
  | H : cont _ _ _ = true |- _ => apply cont_spec in H end;
  right; (split; [lia|]); cbn [firstn]; rewrite ?take_0.
  all: first [apply encode2; lia
             |eapply encode3; [done|repeat case_match; bool_prop; lia..]
             |eapply encode4; [done|repeat case_match; bool_prop; lia..]].
Qed.

(** The bytes of a rune above ASCII are above ASCII. *)
Lemma EncodeRune_high r : 0x80 <= r -> valid_rune r = true ->
  Forall (fun c => 0x80 <= byte_val c) (EncodeRune r).
Proof.
  intros Hr Hv. unfold EncodeRune. rewrite Hv. apply valid_rune_spec in Hv.
  replace (r <? 0x80) with false by lia.
  destruct (r <? 0x800) eqn:E1; [|destruct (r <? 0x10000) eqn:E2]; bool_prop;
    repeat constructor; rewrite byte_val_of; Z.to_euclidean_division_equations; lia.
Qed.

(** ** Reading back what was written *)

(** A piece of the text of a string that stands for [out]. *)
Definition reads_as (chunk out : list byte) : Prop :=
  chunk <> [] /\
  (forall t, scan_string (chunk ++ t) = (fun p => (chunk ++ p.1, p.2)) <$> scan_string t) /\
  (forall f t, unquote_loop (S f) (chunk ++ t) = out ++ unquote_loop f t).

Lemma hexdigit_mod z : is_hexdigit (hextable (z mod 16)) = true.
Proof. unfold is_hexdigit. rewrite fromHexChar_hextable; [done|apply Z.mod_pos_bound; lia]. Qed.

Lemma getu4_unit r t : 0 <= r < 65536 -> getu4 (unit_escape r ++ t) = Some (r, t).
Proof.
  intros Hr. unfold unit_escape, getu4. cbn [app].
  rewrite bool_decide_eq_true_2 by done. rewrite !fromHexChar_hextable by (apply Z.mod_pos_bound; lia).
  repeat f_equal. Z.to_euclidean_division_equations. lia.
Qed.

Lemma unit_reads r : 0 <= r < 65536 -> valid_rune r = true -> reads_as (unit_escape r) (EncodeRune r).
Proof.
  intros Hr Hv. split; [done|]. split.
  - intros t. unfold unit_escape. cbn [app scan_string].
    rewrite (bool_decide_eq_false_2 (BACKSLASH = QUOTE)), !bool_decide_eq_true_2 by done.
    by rewrite !hexdigit_mod.
  - intros f t. pose proof (getu4_unit r t Hr) as Hg. unfold unit_escape in *. cbn [app unquote_loop] in *.
    rewrite bool_decide_eq_true_2 by done. rewrite Hg.
    apply valid_rune_spec in Hv. replace ((0xD800 <=? r) && (r <? 0xE000)) with false by lia. done.
Qed.

Lemma high_reads r w l : Forall (fun c => 0x80 <= byte_val c) (EncodeRune r) -> valid_rune r = true ->
  l = EncodeRune r -> w = length l -> reads_as l (EncodeRune r).
Proof.
  intros Hh Hv -> _. split; [|split].
  - unfold EncodeRune. repeat case_match; done.
  - intros t. induction Hh as [|c l Hc _ IH]; cbn [app scan_string].
    { destruct (scan_string t) as [[]|]; done. }
    rewrite !bool_decide_eq_false_2 by (intros ->; vm_compute in Hc; done).
    replace (byte_val c <? 0x20) with false by lia. rewrite IH. by destruct (scan_string t).
  - intros f t. pose proof (DecodeRune_EncodeRune r t Hv) as Hd.
    destruct (EncodeRune r) as [|c l] eqn:E; [by unfold EncodeRune in E; repeat case_match|].
    apply Forall_cons in Hh as [Hc _]. cbn [app unquote_loop] in *.
    rewrite bool_decide_eq_false_2 by (intros ->; vm_compute in Hc; done).
    replace (byte_val c <? 0x80) with false by lia. rewrite Hd.
    change (c :: l ++ t) with ((c :: l) ++ t). by rewrite drop_app_length, E.
Qed.

Lemma simple_reads c e : simple_escape e = Some c -> e <> chr "u" -> reads_as [BACKSLASH; e] [c].
Proof.
  intros He Hu. split; [done|]. split; intros; cbn [app scan_string unquote_loop].
  - rewrite (bool_decide_eq_false_2 (BACKSLASH = QUOTE)), (bool_decide_eq_true_2 (BACKSLASH = BACKSLASH)),
      (bool_decide_eq_false_2 (e = chr "u")) by done. by rewrite He.
  - rewrite bool_decide_eq_true_2 by done.
    replace (getu4 (BACKSLASH :: e :: t)) with (@None (Z * list byte)); [by rewrite He|].
    unfold getu4. repeat (case_match; try done). by case_bool_decide as Hx; [destruct Hx|].
Qed.

Lemma ascii_reads c : byte_val c < 0x80 -> reads_as (ascii_text c) [c].
Proof.
  intros Hc. unfold ascii_text.
  assert (Hu : reads_as (unit_escape (byte_val c)) [c]).
  { pose proof (byte_val_range c). replace [c] with (EncodeRune (byte_val c)).
    - apply unit_reads; [lia|]. apply valid_rune_spec. lia.
    - unfold EncodeRune. replace (valid_rune (byte_val c)) with true
        by (symmetry; apply valid_rune_spec; lia).
      replace (byte_val c <? 0x80) with true by lia. by rewrite byte_of_val. }
  case_bool_decide as H1; [by destruct H1 as [-> | ->]; apply simple_reads|].
  do 3 (case_bool_decide; [by subst; apply simple_reads|]).
  destruct (_ || _) eqn:E; [done|]. apply orb_false_iff in E as [E _]. bool_prop.
  split; [done|]. split; intros; cbn [app scan_string unquote_loop].
  - rewrite !bool_decide_eq_false_2 by naive_solver. replace (byte_val c <? 0x20) with false by lia. done.
  - rewrite bool_decide_eq_false_2 by naive_solver. replace (byte_val c <? 0x80) with true by lia. done.
Qed.

(** The text of a string reads back as its valid form. *)
Lemma rune_reads c s r w :
  0x80 <= byte_val c -> DecodeRune (c :: s) = (r, w) -> reads_as (rune_text (c :: s) r w) (EncodeRune r).
Proof.
  intros Hc Hd. unfold rune_text. destruct (DecodeRune_multi _ _ _ _ Hc Hd) as [[-> ->]|(Hw & Hr & Hv & He)].
  { by apply unit_reads. }
  rewrite (proj2 (Nat.eqb_neq w 1)), andb_false_r by lia.
  destruct (_ || _) eqn:E; [apply orb_true_iff in E as [E|E]; bool_prop; subst; by apply unit_reads|].
  eapply high_reads; [by apply EncodeRune_high|done|done|done].
Qed.

Lemma DecodeRune_width c s : (0 < (DecodeRune (c :: s)).2)%nat.
Proof.
  destruct (DecodeRune (c :: s)) as [r w] eqn:Hd. cbn.
  destruct (Z.lt_ge_cases (byte_val c) 0x80) as [Hc|Hc].
  - unfold DecodeRune in Hd. rewrite (proj2 (Z.ltb_lt _ _) Hc) in Hd. injection Hd as _ <-. lia.
  - destruct (DecodeRune_multi _ _ _ _ Hc Hd) as [[_ ->]|[? _]]; lia.
Qed.

Lemma string_body_reads fuel s t :
  (length s <= fuel)%nat ->
  scan_string (string_body fuel s ++ QUOTE :: t) = Some (string_body fuel s, t) /\
  forall f, (length (string_body fuel s) <= f)%nat ->
    unquote_loop f (string_body fuel s) = runes_string (decode_runes fuel s).
Proof.
  revert s. induction fuel as [|fuel IH]; intros s Hl.
  { destruct s; [|simpl in Hl; lia]. split; [done|]. intros f _. by destruct f. }
  destruct s as [|c s]; [split; [done|]; intros f _; by destruct f|].
  assert (Hgo : forall chunk r w, DecodeRune (c :: s) = (r, w) -> reads_as chunk (EncodeRune r) ->
    string_body (S fuel) (c :: s) = chunk ++ string_body fuel (drop w (c :: s)) ->
    scan_string (string_body (S fuel) (c :: s) ++ QUOTE :: t) = Some (string_body (S fuel) (c :: s), t) /\
    forall f, (length (string_body (S fuel) (c :: s)) <= f)%nat ->
      unquote_loop f (string_body (S fuel) (c :: s)) = runes_string (decode_runes (S fuel) (c :: s))).
  { intros chunk r w Hd (Hne & Hscan & Hun) ->. cbn [decode_runes]. rewrite Hd.
    pose proof (DecodeRune_width c s) as Hw. rewrite Hd in Hw. cbn in Hw.
    destruct (IH (drop w (c :: s))) as [IH1 IH2]; [rewrite length_drop; simpl in *; lia|].
    split.
    - rewrite <-app_assoc, Hscan, IH1. done.
    - intros f Hf. rewrite length_app in Hf. destruct chunk; [done|]. destruct f as [|f]; [simpl in Hf; lia|].
      rewrite Hun, IH2 by (simpl in Hf; lia). done. }
  cbn [string_body] in Hgo |- *. destruct (byte_val c <? 0x80) eqn:E; bool_prop.
  - assert (Hd : DecodeRune (c :: s) = (byte_val c, 1%nat))
      by (unfold DecodeRune; by rewrite (proj2 (Z.ltb_lt _ _) E)).
    apply (Hgo (ascii_text c) _ _ Hd); [|done]. pose proof (byte_val_range c).
    replace (EncodeRune (byte_val c)) with [c]; [by apply ascii_reads|].
    unfold EncodeRune. replace (valid_rune (byte_val c)) with true by (symmetry; apply valid_rune_spec; lia).
    replace (byte_val c <? 0x80) with true by lia. by rewrite byte_of_val.
  - destruct (DecodeRune (c :: s)) as [r w] eqn:Hd.
    apply (Hgo (rune_text (c :: s) r w) r w); [done|by apply rune_reads|done].
Qed.

Lemma json_string_value s : value_text (json_string s) (JString (to_valid s)).
Proof.
  destruct (string_body_reads (length s) s [] ltac:(done)) as [Hs Hu]. split; [|done].
  unfold parse_fuel, json_string, quoted. rewrite Nat.add_1_r. cbn [parse_value skip_ws].
  change (is_ws QUOTE) with false. cbn iota.
  rewrite (bool_decide_eq_false_2 (QUOTE = chr "{")), (bool_decide_eq_false_2 (QUOTE = chr "[")),
    (bool_decide_eq_true_2 (QUOTE = QUOTE)) by done.
  rewrite Hs. simpl. unfold unquote. by rewrite Hu.
Qed.

Lemma to_valid_ascii s : Forall (fun c => byte_val c < 0x80) s -> to_valid s = s.
Proof.
  unfold to_valid, runes. induction 1 as [|c s Hc _ IH]; [done|].
  pose proof (byte_val_range c). cbn [length decode_runes]. unfold DecodeRune.
  rewrite (proj2 (Z.ltb_lt _ _) Hc). rewrite skipn_cons, drop_0.
  unfold runes_string in *. rewrite bind_cons, IH.
  unfold EncodeRune. replace (valid_rune (byte_val c)) with true by (symmetry; apply valid_rune_spec; lia).
  replace (byte_val c <? 0x80) with true by lia. by rewrite byte_of_val.
Qed.

(** ** Integers *)

Lemma skip_digits_all s : Forall (fun c => is_digit c = true) s -> skip_digits s = [].
Proof. induction 1 as [|c s Hc _ IH]; [done|]. cbn. by rewrite Hc. Qed.

Lemma hextable_digit z : 0 <= z < 10 -> is_digit (hextable z) = true.
Proof.
  intros Hz. apply (bool_decide_eq_true (is_digit (hextable z) = true)).
  revert z Hz. apply Z_range_check. vm_compute. reflexivity.
Qed.

Lemma num_digits_digits n : 0 <= n -> Forall (fun c => is_digit c = true) (num_digits 10 n).
Proof.
  intros Hn. unfold num_digits. apply Forall_fmap, Forall_rev.
  eapply Forall_impl; [by apply (digits_le_range _ 10)|]. intros z Hz. by apply hextable_digit.
Qed.

Lemma scan_int_digits n : 0 <= n -> scan_int (num_digits 10 n) = Some [].
Proof.
  intros Hn. pose proof (num_digits_digits n Hn) as Hd.
  destruct (Z.eq_dec n 0) as [->|Hne]; [done|].
  pose proof (num_digits_head 10 n ltac:(lia) ltac:(lia)) as Hh.
  destruct (num_digits 10 n) as [|c s] eqn:E; [by apply num_digits_nonnil in E|].
  apply Forall_cons in Hd as [Hc Hs]. cbn [scan_int]. cbn in Hh.
  rewrite bool_decide_eq_false_2 by congruence. by rewrite Hc, skip_digits_all.
Qed.

Lemma number_value s : scan_number s = Some [] ->
  (exists c s', s = c :: s' /\ (is_digit c = true \/ c = chr "-")) -> value_text s (JNumber s).
Proof.
  intros Hs (c & s' & -> & Hc).
  assert (Hws : is_ws c = false) by (destruct Hc as [Hc| ->]; [|done]; destruct c; vm_compute in Hc |- *; done).
  split; [|by apply skip_ws_id]. unfold parse_fuel. rewrite Nat.add_1_r. cbn [parse_value].
  rewrite (skip_ws_id c s' Hws).
  rewrite !bool_decide_eq_false_2 by (intros ->; destruct Hc as [Hc|Hc]; vm_compute in Hc; done).
  rewrite Hs. cbn. by rewrite firstn_all.
Qed.

Lemma Itoa_value z : value_text (go_bytes (Itoa z)) (JNumber (go_bytes (Itoa z))).
Proof.
  unfold Itoa. destruct (z <? 0) eqn:E; bool_prop.
  - rewrite go_bytes_app, go_bytes_string. apply number_value.
    + cbn. apply scan_int_digits. lia.
    + eexists _, _. split; [reflexivity|]. by right.
  - rewrite go_bytes_string. pose proof (num_digits_digits z ltac:(lia)) as Hd.
    pose proof (scan_int_digits z ltac:(lia)) as Hs.
    destruct (num_digits 10 z) as [|c s] eqn:E'; [by apply num_digits_nonnil in E'|].
    apply Forall_cons in Hd as [Hc _]. apply number_value; [|eexists _, _; eauto].
    unfold scan_number. rewrite bool_decide_eq_false_2; [done|]. intros ->. by vm_compute in Hc.
Qed.

(** ** Raw messages *)

(** Inside a string, after its backslash, or outside. *)
Inductive compact_mode := InString | Escaped | Outside.

Definition next_mode (m : compact_mode) (c : byte) : compact_mode :=
  match m with
  | Outside => if bool_decide (c = QUOTE) then InString else Outside
  | InString => if bool_decide (c = QUOTE) then Outside
                else if bool_decide (c = BACKSLASH) then Escaped else InString
  | Escaped => InString
  end.

(** [compact] on a valid text: white space outside strings is dropped; the
    HTML characters and the two line separators are escaped. *)
Fixpoint compact_text (m : compact_mode) (s : list byte) : list byte :=
  match s with
  | [] => []
  | c :: s1 =>
      let plain := (if is_ws c then match m with Outside => [] | _ => [c] end else [c])
                   ++ compact_text (next_mode m c) s1 in
      if html_byte c then unit_escape (byte_val c) ++ compact_text (next_mode m c) s1
      else if bool_decide (c = xe2) then
        match s1 with
        | c1 :: c2 :: s3 =>
            if bool_decide (c1 = x80 /\ (c2 = xa8 \/ c2 = xa9))
            then unit_escape (0x2000 + Z.land (byte_val c2) 15 + 0x20) ++ compact_text (next_mode m c) s3
            else plain
        | _ => plain
        end
      else plain
  end.

(** A raw message of an interface: [RawMessage(nil)] is written as null, a text
    that is no value is an error. *)
Definition marshal_raw (syntax_error : list byte -> string) (raw : list byte) : result string (list byte) :=
  match raw with
  | [] => Ok (go_bytes "null")
  | _ =>
      match parse raw with
      | Some _ => Ok (compact_text Outside raw)
      | None => Err (syntax_error raw)
      end
  end.

(** Bytes that [compact_text] leaves as they are in any mode. *)
Definition stable (c : byte) : bool :=
  negb (html_byte c) && negb (is_ws c) && negb (bool_decide (c = xe2)).

Lemma compact_stable m s : Forall (fun c => stable c = true) s -> compact_text m s = s.
Proof.
  intros Hs. revert m. induction Hs as [|c s Hc _ IH]; intros m; [done|].
  unfold stable in Hc. apply andb_true_iff in Hc as [[Hh Hw]%andb_true_iff He].
  apply negb_true_iff in Hh, Hw, He. cbn [compact_text]. rewrite Hh, He, Hw. cbn. by rewrite IH.
Qed.

Lemma marshal_raw_stable e raw v :
  value_text raw v -> Forall (fun c => stable c = true) raw -> marshal_raw e raw = Ok raw.
Proof.
  intros Hv Hs. unfold marshal_raw. rewrite (value_text_parse _ _ Hv), compact_stable by done.
  destruct raw; [by apply value_text_nonnil in Hv|done].
Qed.

Example json_texts :
  json_string (go_bytes "a<b" ++ [x0a; xff; xc3; xa9; x01]) = QUOTE :: go_bytes "a" ++
    unit_escape 60 ++ go_bytes "b" ++ [BACKSLASH; chr "n"] ++ unit_escape 65533 ++ [xc3; xa9] ++
    unit_escape 1 ++ [QUOTE] /\
  compact_text Outside (go_bytes "[ 1 , " ++ quoted (go_bytes "x &") ++ go_bytes " ]") =
    go_bytes "[1," ++ quoted (go_bytes "x " ++ unit_escape 38) ++ go_bytes "]".
Proof. vm_compute. done. Qed.
