(* ===== verification/Codec.v ===== *)
(** * pkg/codec/jsonc.go: the JSON-RPC codec

    Reading requests and batches from the bytes of a message, the parsing of
    positional arguments, the responses, and the codec as an instance of the
    interface [ServerCodec] the server is written against. *)

From S2P Require Import Prelude GoStd RpcTypes Utf8 Json.
From Stdlib Require Import ZArith Lia.
From Stdlib Require Import Init.Byte.
From stdpp Require Import gmap strings list.

Definition jsonrpcVersion : string := "2.0".
Definition serviceMethodSeparator : Ascii.ascii := "_".
Definition subscribeMethodSuffix : string := "_subscribe".
Definition unsubscribeMethodSuffix : string := "_unsubscribe".
Definition notificationMethodSuffix : string := "_subscription".

(** ** The messages *)

Record JsonRequest := mkJsonRequest {
  in_Method : string;
  in_Version : string;
  in_Id : list byte;
  in_Payload : list byte
}.

Section Messages.
Context {Data : Type}.

Record JsonSuccessResponse := mkJsonSuccessResponse {
  ok_Version : string;
  ok_Id : list byte;
  ok_Result : gvalue Data
}.

(** The field [Data] is absent unless [CreateErrorResponseWithInfo] sets it. *)
Record JsonError := mkJsonError {
  je_Code : Z;
  je_Message : string;
  je_Data : option Data
}.

(** A nil id is left out ([omitempty]). *)
Record JsonErrResponse := mkJsonErrResponse {
  er_Version : string;
  er_Id : option (list byte);
  er_Error : JsonError
}.

Record JsonSubscription := mkJsonSubscription {
  js_Subscription : string;
  js_Result : Data
}.

Record JsonNotification := mkJsonNotification {
  jn_Version : string;
  jn_Method : string;
  jn_Params : JsonSubscription
}.

(** What the codec hands to its encoder. *)
Inductive JsonMessage :=
| MSuccess (r : JsonSuccessResponse)
| MError (r : JsonErrResponse)
| MNotification (n : JsonNotification).

(** [JsonError.Error()] and [JsonError.ErrorCode()]. *)
Definition JsonError_Error (err : JsonError) : string :=
  if bool_decide (je_Message err = "") then "json-rpc error " +:+ Itoa (je_Code err)
  else je_Message err.
Definition JsonError_ErrorCode (err : JsonError) : Z := je_Code err.

End Messages.
Arguments JsonMessage Data : clear implicits.

(** ** What comes from outside

    [jc_decode] and [jc_encode] are the functions a transport gives to [NewCodec],
    on its state [T]; [unmarshal_value] decodes a value into a type of user
    code; [json_error] is the text of the library's error for an input. *)
Class JsonEnv (Data T : Type) := {
  jc_decode : T -> result string (list byte) * T;
  jc_encode : message (JsonMessage Data) -> T -> option string * T;
  unmarshal_value : rtype -> list byte -> result string (gvalue Data);
  json_error : list byte -> string
}.

(** Decoding into a value of a type gives a value of that type. *)
Class JsonEnvLaws (Data T : Type) `{JsonEnv Data T} `{DataTypes Data} := {
  unmarshal_typed : forall t raw (v : gvalue Data),
    unmarshal_value t raw = Ok v -> assignable v t = true
}.

(** ** Unmarshalling *)

(** A string field: null leaves it alone, another value is a type error. *)
Definition set_string (v : json) (old : string) : option string :=
  match v with
  | JString s => Some (go_string s)
  | JNull => Some old
  | _ => None
  end.

(** One member of the object, in the field its name folds to. *)
Definition set_field (r : JsonRequest) (m : list byte * (list byte * json))
    : option JsonRequest :=
  let '(key, (raw, v)) := m in
  if equalFold (go_bytes "method") key then
    (fun s => mkJsonRequest s (in_Version r) (in_Id r) (in_Payload r)) <$> set_string v (in_Method r)
  else if equalFold (go_bytes "jsonrpc") key then
    (fun s => mkJsonRequest (in_Method r) s (in_Id r) (in_Payload r)) <$> set_string v (in_Version r)
  else if equalFold (go_bytes "id") key then
    Some (mkJsonRequest (in_Method r) (in_Version r) raw (in_Payload r))
  else if equalFold (go_bytes "params") key then
    Some (mkJsonRequest (in_Method r) (in_Version r) (in_Id r) raw)
  else Some r.

Fixpoint set_fields (r : JsonRequest) (ms : list (list byte * (list byte * json)))
    : option JsonRequest :=
  match ms with
  | [] => Some r
  | m :: ms' => match set_field r m with Some r' => set_fields r' ms' | None => None end
  end.

(** A [JsonRequest] from a value: null gives the zero struct. *)
Definition decode_request (v : json) : option JsonRequest :=
  match v with
  | JNull => Some (mkJsonRequest "" "" [] [])
  | JObject ms => set_fields (mkJsonRequest "" "" [] []) ms
  | _ => None
  end.

Fixpoint decode_requests (elems : list (list byte * json)) : option (list JsonRequest) :=
  match elems with
  | [] => Some []
  | (_, v) :: elems' =>
      match decode_request v, decode_requests elems' with
      | Some r, Some rs => Some (r :: rs)
      | _, _ => None
      end
  end.

(** [json.Unmarshal(reqId, &str)] and [json.Unmarshal(payload, &[1]string)]:
    an array too short leaves the zero string, further elements are skipped. *)
Definition unmarshal_string (data : list byte) : option string :=
  match parse data with Some v => set_string v "" | None => None end.
Definition unmarshal_1string (data : list byte) : option string :=
  match parse data with
  | Some (JArray []) => Some ""
  | Some (JArray ((_, v) :: _)) => set_string v ""
  | Some JNull => Some ""
  | _ => None
  end.

(** [strconv.ParseFloat(s, 64)] succeeds, for the text of a JSON value. *)
Definition ParseFloat_ok (s : list byte) : bool :=
  match scan_number s with Some [] => ParseFloat_in_range s | _ => false end.

(** ** Reading requests *)

(** [isBatch(msg)]. *)
Fixpoint isBatch (msg : list byte) : bool :=
  match msg with
  | [] => false
  | c :: msg' =>
      if is_byte 0x20 c || is_byte 0x09 c || is_byte 0x0a c || is_byte 0x0d c
      then isBatch msg' else bool_decide (c = chr "[")
  end.

(** [checkReqId(reqId)]: the error text if any. *)
Definition checkReqId (reqId : list byte) : option string :=
  if (length reqId =? 0)%nat then Some "missing request id"
  else if ParseFloat_ok reqId then None
  else match unmarshal_string reqId with
       | Some _ => None
       | None => Some "invalid request id"
       end.

Section Codec.
Context {Data T : Type} `{JsonEnv Data T}.

Definition unmarshal_request (data : list byte) : result string JsonRequest :=
  match parse data with
  | Some v => match decode_request v with Some r => Ok r | None => Err (json_error data) end
  | None => Err (json_error data)
  end.

Definition unmarshal_requests (data : list byte) : result string (list JsonRequest) :=
  match parse data with
  | Some JNull => Ok []
  | Some (JArray elems) =>
      match decode_requests elems with Some rs => Ok rs | None => Err (json_error data) end
  | _ => Err (json_error data)
  end.

(** [parseRequest(incomingMsg)]. *)
Definition parseRequest (incomingMsg : list byte)
    : result RpcError (list RpcRequest) * bool :=
  match unmarshal_request incomingMsg with
  | Err e => (Err (InvalidMessageError e), false)
  | Ok r =>
      match checkReqId (in_Id r) with
      | Some e => (Err (InvalidMessageError e), false)
      | None =>
          if HasSuffix (in_Method r) subscribeMethodSuffix then
            if (0 <? length (in_Payload r))%nat then
              match unmarshal_1string (in_Payload r) with
              | None => (Err (InvalidRequestError "Unable to parse subscription request"), false)
              | Some subscribeMethod =>
                  (Ok [mkRpcRequest (TrimSuffix (in_Method r) subscribeMethodSuffix) subscribeMethod
                         (in_Id r) true (Some (in_Payload r)) None], false)
              end
            else (Err (InvalidRequestError "Unable to parse subscription request"), false)
          else if HasSuffix (in_Method r) unsubscribeMethodSuffix then
            (Ok [mkRpcRequest "" (in_Method r) (in_Id r) true (Some (in_Payload r)) None], false)
          else
            match Split (in_Method r) serviceMethodSeparator with
            | [service; method] =>
                if (length (in_Payload r) =? 0)%nat
                then (Ok [mkRpcRequest service method (in_Id r) false None None], false)
                else (Ok [mkRpcRequest service method (in_Id r) false (Some (in_Payload r)) None], false)
            | _ => (Err (MethodNotFoundError (in_Method r) ""), false)
            end
      end
  end.

(** One iteration of the loop of [parseBatchRequest]: an early return with its
    batch indication, or the request. *)
Definition batch_request (r : JsonRequest) : result (RpcError * bool) RpcRequest :=
  match checkReqId (in_Id r) with
  | Some e => Err (InvalidMessageError e, false)
  | None =>
      if HasSuffix (in_Method r) subscribeMethodSuffix then
        if (0 <? length (in_Payload r))%nat then
          match unmarshal_1string (in_Payload r) with
          | None => Err (InvalidRequestError "Unable to parse subscription request", false)
          | Some subscribeMethod =>
              Ok (mkRpcRequest (TrimSuffix (in_Method r) subscribeMethodSuffix) subscribeMethod
                    (in_Id r) true (Some (in_Payload r)) None)
          end
        else Err (InvalidRequestError "Unable to parse (un)subscribe request arguments", true)
      else if HasSuffix (in_Method r) unsubscribeMethodSuffix then
        Ok (mkRpcRequest "" (in_Method r) (in_Id r) true (Some (in_Payload r)) None)
      else
        let params := if (length (in_Payload r) =? 0)%nat then None else Some (in_Payload r) in
        match Split (in_Method r) serviceMethodSeparator with
        | [service; method] => Ok (mkRpcRequest service method (in_Id r) false params None)
        | _ => Ok (mkRpcRequest "" "" (in_Id r) false params
                     (Some (MethodNotFoundError (in_Method r) "")))
        end
  end.

Fixpoint batch_requests (rs : list JsonRequest) : result (RpcError * bool) (list RpcRequest) :=
  match rs with
  | [] => Ok []
  | r :: rs' =>
      let? q := batch_request r in
      let? qs := batch_requests rs' in
      Ok (q :: qs)
  end.

(** [parseBatchRequest(incomingMsg)]. *)
Definition parseBatchRequest (incomingMsg : list byte)
    : result RpcError (list RpcRequest) * bool :=
  match unmarshal_requests incomingMsg with
  | Err e => (Err (InvalidMessageError e), false)
  | Ok rs =>
      match batch_requests rs with
      | Ok requests => (Ok requests, true)
      | Err (e, batch) => (Err e, batch)
      end
  end.

(** ** Arguments *)

(** [dec.Decode(argval.Interface())] of a value into a new [types[i]]. *)
Definition decode_arg (t : rtype) (raw : list byte) (v : json) : result string (gvalue Data) :=
  if bool_decide (t = stringType) then
    match set_string v "" with
    | Some s => Ok (VString s)
    | None => Err (json_error raw)
    end
  else unmarshal_value t raw.

(** [argval.IsNil()], where [argval] is [reflect.New(types[i])]: the pointer to
    the new value, which is not nil whatever was decoded into it. *)
Definition argval_IsNil : bool := false.

Definition invalid_argument (i : nat) (e : string) : RpcError :=
  InvalidParamsError ("invalid argument " +:+ Itoa (Z.of_nat i) +:+ ": " +:+ e).
Definition missing_value (i : nat) : RpcError :=
  InvalidParamsError ("missing value for required argument " +:+ Itoa (Z.of_nat i)).
Definition too_many (n : nat) : RpcError :=
  InvalidParamsError ("too many arguments, want at most " +:+ Itoa (Z.of_nat n)).

(** The loop [for i := 0; dec.More(); i++] on what is left of the input and of
    the types; [comma] is whether an element was read before, [n] is
    [len(types)].  The result has the arguments and the rest of the input. *)
Fixpoint read_args (n i : nat) (comma : bool) (types : list rtype) (s : list byte)
    : result RpcError (list (gvalue Data) * list byte) :=
  match skip_ws s with
  | [] => Ok ([], [])
  | c :: s' =>
      if bool_decide (c = chr "]" \/ c = chr "}") then Ok ([], c :: s')
      else
        match types with
        | [] => Err (too_many n)
        | t :: types' =>
            match (if comma then if bool_decide (c = chr ",") then Some s' else None
                   else Some (c :: s')) with
            | None => Err (invalid_argument i "expected comma after array element")
            | Some s0 =>
                match read_value s0 with
                | None => Err (invalid_argument i (json_error s0))
                | Some (raw, v, r) =>
                    match decode_arg t raw v with
                    | Err e => Err (invalid_argument i e)
                    | Ok arg =>
                        if argval_IsNil && negb (is_ptr t) then Err (missing_value i)
                        else
                          let? (args, r') := read_args n (S i) true types' r in
                          Ok (arg :: args, r')
                    end
                end
            end
        end
  end.

(** The loop that sets the missing arguments, from index [i]. *)
Fixpoint missing_args (i : nat) (types : list rtype) : result RpcError (list (gvalue Data)) :=
  match types with
  | [] => Ok []
  | t :: types' =>
      if negb (is_ptr t) then Err (missing_value i)
      else let? args := missing_args (S i) types' in Ok (VNil :: args)
  end.

(** [parsePositionalArguments(rawArgs, types)]. *)
Definition parsePositionalArguments (rawArgs : list byte) (types : list rtype)
    : result RpcError (list (gvalue Data)) :=
  match skip_ws rawArgs with
  | c :: s =>
      if bool_decide (c = chr "[") then
        let? (args, r) := read_args (length types) 0 false types s in
        match skip_ws r with
        | d :: _ =>
            if bool_decide (d = chr "]") then
              let? missing := missing_args (length args) (drop (length args) types) in
              Ok (args ++ missing)
            else Err (InvalidParamsError (json_error r))
        | [] => Err (InvalidParamsError "EOF")
        end
      else Err (InvalidParamsError "non-array args")
  | [] => Err (InvalidParamsError "non-array args")
  end.

(** [ParseRequestArguments(argTypes, params)]: nil parameters are not a raw
    message. *)
Definition json_ParseRequestArguments (argTypes : list rtype) (params : option (list byte))
    : result RpcError (list (gvalue Data)) :=
  match params with
  | None => Err (InvalidParamsError "Invalid params supplied")
  | Some args => parsePositionalArguments args argTypes
  end.

(** ** Responses *)

Definition json_CreateResponse (id : list byte) (reply : gvalue Data) : JsonMessage Data :=
  MSuccess (mkJsonSuccessResponse jsonrpcVersion id reply).

Definition json_CreateErrorResponse (id : option (list byte)) (err : RpcError) : JsonMessage Data :=
  MError (mkJsonErrResponse jsonrpcVersion id (mkJsonError (ErrorCode err) (Error err) None)).

Definition json_CreateErrorResponseWithInfo (id : option (list byte)) (err : RpcError)
    (info : Data) : JsonMessage Data :=
  MError (mkJsonErrResponse jsonrpcVersion id
    (mkJsonError (ErrorCode err) (Error err) (Some info))).

Definition json_CreateNotification (subid namespace : string) (event : Data) : JsonMessage Data :=
  MNotification (mkJsonNotification jsonrpcVersion (namespace +:+ notificationMethodSuffix)
    (mkJsonSubscription subid event)).

(** ** The codec *)

(** [jc_closed]: [closer] has run and the channel [closed] is closed. *)
Record JsonCodec := mkJsonCodec {
  jc_closed : bool;
  jc_conn : T
}.

Definition NewCodec (rwc : T) : JsonCodec := mkJsonCodec false rwc.

Definition json_ReadRequestHeaders (c : JsonCodec)
    : (result RpcError (list RpcRequest) * bool) * JsonCodec :=
  let '(msg, rw) := jc_decode (jc_conn c) in
  let c := mkJsonCodec (jc_closed c) rw in
  match msg with
  | Err e => ((Err (InvalidRequestError e), false), c)
  | Ok incomingMsg =>
      (if isBatch incomingMsg then parseBatchRequest incomingMsg else parseRequest incomingMsg, c)
  end.

Definition json_Write (res : message (JsonMessage Data)) (c : JsonCodec)
    : option string * JsonCodec :=
  let '(err, rw) := jc_encode res (jc_conn c) in (err, mkJsonCodec (jc_closed c) rw).

(** [closer.Do]: the channel is closed once, the connection is not. *)
Definition json_Close (c : JsonCodec) : JsonCodec :=
  if jc_closed c then c else mkJsonCodec true (jc_conn c).

Definition json_Closed (c : JsonCodec) : bool := jc_closed c.

#[export] Instance JsonServerCodec : ServerCodec Data JsonCodec (JsonMessage Data) := {|
  ReadRequestHeaders := json_ReadRequestHeaders;
  ParseRequestArguments := json_ParseRequestArguments;
  CreateResponse := json_CreateResponse;
  CreateErrorResponse := json_CreateErrorResponse;
  CreateNotification := json_CreateNotification;
  Write := json_Write;
  Close := json_Close;
  Closed := json_Closed
|}.

End Codec.
Arguments JsonCodec T : clear implicits.

(** ** The laws of the interface *)

Section Laws.
Context {Data T : Type} `{JsonEnv Data T}.

Lemma parseRequest_single msg rs b :
  parseRequest msg = (Ok rs, b) -> b = false /\ length rs = 1 /\ Forall has_params rs.
Proof.
  unfold parseRequest. destruct (unmarshal_request msg) as [r|]; [|done].
  destruct (checkReqId _); [done|].
  assert (Hone : forall q, has_params q -> (Ok (E:=RpcError) [q], false) = (Ok rs, b) ->
    b = false /\ length rs = 1 /\ Forall has_params rs).
  { intros q Hq [= <- <-]. split_and!; [done..|]. by repeat constructor. }
  destruct (HasSuffix _ subscribeMethodSuffix).
  - destruct (0 <? _)%nat; [|done]. destruct (unmarshal_1string _); [|done]. by apply Hone.
  - destruct (HasSuffix _ _); [by apply Hone|].
    destruct (Split _ _) as [|? [|? []]]; try done. destruct (_ =? _)%nat; by apply Hone.
Qed.

Lemma batch_request_params r q : batch_request r = Ok q -> has_params q.
Proof.
  unfold batch_request. destruct (checkReqId _); [done|].
  destruct (HasSuffix _ subscribeMethodSuffix).
  - destruct (0 <? _)%nat; [|done]. destruct (unmarshal_1string _); [|done]. by intros [= <-].
  - destruct (HasSuffix _ _); [by intros [= <-]|].
    destruct (Split _ _) as [|? [|? []]]; by intros [= <-].
Qed.

Lemma batch_requests_params rs qs : batch_requests rs = Ok qs -> Forall has_params qs.
Proof.
  revert qs. induction rs as [|r rs IH]; simpl; intros qs; [intros [= <-]; constructor|].
  destruct (batch_request r) as [q|] eqn:E; [|done].
  destruct (batch_requests rs) as [qs'|] eqn:E'; [|done]. intros [= <-].
  constructor; [by eapply batch_request_params|by apply IH].
Qed.

(** In a batch the indication of a result is always set. *)
Lemma parseBatchRequest_batch msg rs b :
  parseBatchRequest msg = (Ok rs, b) -> b = true /\ Forall has_params rs.
Proof.
  unfold parseBatchRequest. destruct (unmarshal_requests msg) as [ins|]; [|done].
  destruct (batch_requests ins) as [qs|[e b']] eqn:E; [|done]. intros [= <- <-].
  split; [done|]. by eapply batch_requests_params.
Qed.

(** A message has at most a request per byte, or one. *)
Lemma decode_requests_count es rs : decode_requests es = Some rs -> length rs = length es.
Proof.
  revert rs. induction es as [|[raw v] es IH]; cbn; intros rs; [by intros [= <-]|].
  destruct (decode_request v); [|done]. destruct (decode_requests es); [|done].
  intros [= <-]. simpl. by rewrite IH.
Qed.

Lemma batch_requests_count rs qs : batch_requests rs = Ok qs -> length qs = length rs.
Proof.
  revert qs. induction rs as [|r rs IH]; simpl; intros qs; [by intros [= <-]|].
  destruct (batch_request r); [|done]. destruct (batch_requests rs); [|done].
  intros [= <-]. simpl. by rewrite IH.
Qed.

Lemma parseBatchRequest_count msg rs b : parseBatchRequest msg = (Ok rs, b) -> length rs <= length msg.
Proof.
  unfold parseBatchRequest, unmarshal_requests.
  destruct (parse msg) as [[| | | |es|]|] eqn:Ep; try done.
  - intros [= <- _]. simpl. lia.
  - apply parse_array_count in Ep. destruct (decode_requests es) as [ins|] eqn:Ed; [|done].
    apply decode_requests_count in Ed.
    destruct (batch_requests ins) as [qs|[]] eqn:Eb; [|done]. apply batch_requests_count in Eb.
    intros [= <- _]. lia.
Qed.

Lemma read_requests_count (c : JsonCodec T) rs b c' :
  json_ReadRequestHeaders c = ((Ok rs, b), c') ->
  exists msg, jc_decode (jc_conn c) = (Ok msg, jc_conn c') /\ length rs <= length msg + 1.
Proof.
  unfold json_ReadRequestHeaders. destruct (jc_decode (jc_conn c)) as [[msg|e] rw]; [|done].
  intros [= E <-]. exists msg. split; [done|]. destruct (isBatch msg).
  - apply parseBatchRequest_count in E. lia.
  - apply parseRequest_single in E as (_ & E & _). lia.
Qed.

Section Typed.
Context `{DataTypes Data} `{!JsonEnvLaws Data T}.

Lemma decode_arg_typed t raw v (a : gvalue Data) :
  decode_arg t raw v = Ok a -> assignable a t = true.
Proof.
  unfold decode_arg. case_bool_decide as Ht; [|apply unmarshal_typed].
  destruct (set_string v ""); [|done]. intros [= <-]. by apply bool_decide_eq_true.
Qed.

(** The arguments read are values of the first types. *)
Lemma read_args_typed n i comma types s args r :
  read_args n i comma types s = Ok (args, r) ->
  assignable_all args (take (length args) types) = true.
Proof.
  revert i comma s args r. induction types as [|t types IH]; intros i comma s args r;
    cbn [read_args]; destruct (skip_ws s) as [|c s']; try (by intros [= <- <-]);
    (case_bool_decide; [by intros [= <- <-]|]); [done|].
  destruct (if comma then _ else _) as [s0|]; [|done].
  destruct (read_value s0) as [[[raw v] r0]|]; [|done].
  destruct (decode_arg t raw v) as [arg|] eqn:Ed; [|done]. simpl.
  destruct (read_args n (S i) true types r0) as [[args' r']|] eqn:E; [|done].
  intros [= <- <-]. apply IH in E. apply decode_arg_typed in Ed. simpl. by rewrite Ed, E.
Qed.

Lemma missing_args_typed i types (args : list (gvalue Data)) :
  missing_args i types = Ok args -> assignable_all args types = true.
Proof.
  revert i args. induction types as [|t types IH]; intros i args; simpl; [by intros [= <-]|].
  destruct (is_ptr t) eqn:Et; [|done]. simpl. destruct (missing_args (S i) types) eqn:E; [|done].
  intros [= <-]. simpl. apply IH in E. rewrite E. by destruct t.
Qed.

Lemma parsePositionalArguments_typed raw types (args : list (gvalue Data)) :
  parsePositionalArguments raw types = Ok args -> assignable_all args types = true.
Proof.
  unfold parsePositionalArguments.
  destruct (skip_ws raw) as [|c s]; [done|]. case_bool_decide; [|done].
  destruct (read_args _ _ _ _ _) as [[as0 r]|] eqn:E; [|done]. apply read_args_typed in E.
  destruct (skip_ws r) as [|d r']; [done|]. case_bool_decide; [|done].
  destruct (missing_args _ _) as [ms|] eqn:Em; [|done]. apply missing_args_typed in Em.
  intros [= <-]. rewrite <-(take_drop (length as0) types). by apply assignable_all_app.
Qed.

#[export] Instance JsonServerCodec_laws :
  ServerCodecLaws Data (JsonCodec T) (JsonMessage Data).
Proof.
  refine {| response_id := fun r => match r with
    | MSuccess r => Some (ok_Id r)
    | MError r => er_Id r
    | MNotification _ => None
    end |}; simpl; try done.
  - unfold json_ReadRequestHeaders. intros c reqs c'. destruct (jc_decode (jc_conn c)) as [[msg|e] rw]; [|done].
    destruct (isBatch msg).
    + destruct (parseBatchRequest msg) as [[rs|] b] eqn:E; [|done].
      apply parseBatchRequest_batch in E as [-> _]. done.
    + destruct (parseRequest msg) as [[rs|] b] eqn:E; [|done].
      apply parseRequest_single in E as (_ & Hl & _). by intros [= <- _ _].
  - unfold json_ReadRequestHeaders. intros c reqs batch c'.
    destruct (jc_decode (jc_conn c)) as [[msg|e] rw]; [|done]. destruct (isBatch msg).
    + destruct (parseBatchRequest msg) as [[rs|] b] eqn:E; [|done].
      apply parseBatchRequest_batch in E as [_ Hp]. by intros [= <- _ _].
    + destruct (parseRequest msg) as [[rs|] b] eqn:E; [|done].
      apply parseRequest_single in E as (_ & _ & Hp). by intros [= <- _ _].
  - intros types [raw|] args; simpl; [|done]. apply parsePositionalArguments_typed.
  - intros c. unfold json_Closed, json_Close. by destruct (jc_closed c) eqn:E.
  - intros c. unfold json_ReadRequestHeaders, json_Closed.
    by destruct (jc_decode (jc_conn c)) as [[msg|e] rw].
  - intros m c. unfold json_Write, json_Closed. by destruct (jc_encode m (jc_conn c)).
Defined.

End Typed.
End Laws.

(** ** Requests as text *)

Section Texts.
Context {Data T : Type} `{JsonEnv Data T}.

(** The request a client of JSON-RPC 2.0 writes. *)
Definition request_text (id : list byte) (method : string) (params : list byte) : list byte :=
  object_text [(go_bytes "jsonrpc", quoted (go_bytes jsonrpcVersion));
               (go_bytes "method", quoted (go_bytes method));
               (go_bytes "id", id); (go_bytes "params", params)].

Definition plain_text (s : string) : Prop := Forall (fun c => plain c = true) (go_bytes s).

Lemma request_text_value id idv method params pv :
  value_text id idv -> plain_text method -> value_text params pv ->
  value_text (request_text id method params)
    (JObject [(go_bytes "jsonrpc", (quoted (go_bytes jsonrpcVersion), JString (go_bytes jsonrpcVersion)));
              (go_bytes "method", (quoted (go_bytes method), JString (go_bytes method)));
              (go_bytes "id", (id, idv)); (go_bytes "params", (params, pv))]).
Proof.
  intros Hid Hm Hp.
  apply (object_text_value
    [(go_bytes "jsonrpc", quoted (go_bytes jsonrpcVersion));
     (go_bytes "method", quoted (go_bytes method)); (go_bytes "id", id); (go_bytes "params", params)]
    [JString (go_bytes jsonrpcVersion); JString (go_bytes method); idv; pv]).
  assert (Hplain : forall s, Forall (fun c => plain c = true) s <-> forallb plain s = true).
  { intros s. rewrite forallb_forall, Forall_forall. setoid_rewrite list_elem_of_In. done. }
  repeat (apply Forall2_cons; split); [..|by apply Forall2_nil]; (split; [by apply Hplain|]); simpl.
  - by apply quoted_text, Hplain.
  - by apply quoted_text.
  - done.
  - done.
Qed.

Lemma unmarshal_request_text id idv method params pv :
  value_text id idv -> plain_text method -> value_text params pv ->
  unmarshal_request (request_text id method params) =
  Ok (mkJsonRequest method jsonrpcVersion id params).
Proof.
  intros Hid Hm Hp. unfold unmarshal_request.
  rewrite (value_text_parse _ _ (request_text_value _ _ _ _ _ Hid Hm Hp)).
  cbn -[go_bytes go_string jsonrpcVersion]. by rewrite !go_string_bytes.
Qed.

Definition no_separator (s : string) : Prop := chr "_" ∉ go_bytes s.

Lemma service_method_split service name :
  no_separator service -> no_separator name ->
  Split (service +:+ "_" +:+ name) serviceMethodSeparator = [service; name].
Proof.
  intros Hs Hn. unfold Split. rewrite !go_bytes_app.
  change (go_bytes "_" ++ go_bytes name) with (chr "_" :: go_bytes name).
  rewrite bytes_Split_app, bytes_Split_no_sep by done. simpl. by rewrite !go_string_bytes.
Qed.

(** The suffixes begin with the separator. *)
Lemma service_method_suffix service name word :
  no_separator name -> no_separator word -> name <> word ->
  HasSuffix (service +:+ "_" +:+ name) ("_" +:+ word) = false.
Proof.
  intros Hn Hw Hne. destruct (HasSuffix _ _) eqn:E; [|done].
  apply HasSuffix_spec in E as [r E]. apply (f_equal go_bytes) in E.
  rewrite !go_bytes_app in E. apply last_sep_inj in E as [_ E]; [|done..].
  by apply go_bytes_inj in E.
Qed.

(** What a value text is, by its first byte. *)
Lemma value_text_number raw v : value_text raw v ->
  scan_number raw = Some [] <-> exists r, v = JNumber r.
Proof.
  intros [E Hw]. unfold parse_fuel in E. rewrite Nat.add_1_r in E. cbn [parse_value] in E.
  rewrite Hw in E. destruct raw as [|c s]; [done|].
  assert (Hno : forall d, c = d -> bool_decide (d = chr "-") = false ->
    bool_decide (d = chr "0") = false -> is_digit d = false -> scan_number (c :: s) = None).
  { intros d -> H1 H2 H3. unfold scan_number, scan_int. by rewrite H1, H2, H3. }
  case_bool_decide; [|case_bool_decide; [|case_bool_decide; [|case_bool_decide; [|case_bool_decide;
    [|case_bool_decide]]]]].
  - rewrite (Hno (chr "{")) by done. split; [done|]. intros [r ->].
    destruct (skip_ws s); [done|]. case_bool_decide; [done|]. by apply fmap_Some in E as (? & _ & ?).
  - rewrite (Hno (chr "[")) by done. split; [done|]. intros [r ->].
    destruct (skip_ws s); [done|]. case_bool_decide; [done|]. by apply fmap_Some in E as (? & _ & ?).
  - rewrite (Hno QUOTE) by done. split; [done|]. intros [r ->]. by apply fmap_Some in E as (? & _ & ?).
  - rewrite (Hno (chr "t")) by done. split; [done|]. intros [r ->]. by apply fmap_Some in E as (? & _ & ?).
  - rewrite (Hno (chr "f")) by done. split; [done|]. intros [r ->]. by apply fmap_Some in E as (? & _ & ?).
  - rewrite (Hno (chr "n")) by done. split; [done|]. intros [r ->]. by apply fmap_Some in E as (? & _ & ?).
  - apply fmap_Some in E as (r & E & [= -> <-]). split; [eauto|done].
Qed.

(** ** Properties *)

(** An id is accepted exactly when it is a string, null, or a number in
    the range of [float64]. *)
Theorem checkReqId_accepts id v :
  value_text id v ->
  checkReqId id = None <->
  match v with
  | JNumber _ => ParseFloat_in_range id = true
  | JString _ | JNull => True
  | _ => False
  end.
Proof.
  intros Hid. unfold checkReqId, ParseFloat_ok, unmarshal_string.
  rewrite (value_text_parse _ _ Hid). apply value_text_nonnil in Hid as Hne.
  destruct (length id =? 0)%nat eqn:El; bool_prop; [by apply length_zero_iff_nil in El|].
  pose proof (value_text_number _ _ Hid) as [H1 H2].
  destruct v; simpl; try (destruct (scan_number id) as [[|]|];
    [by destruct H1 as [? ?]|done..]).
  rewrite H2 by eauto. by destruct (ParseFloat_in_range id).
Qed.

(** Reading what a client writes. *)
Lemma parseRequest_text id idv service name params pv :
  value_text id idv -> checkReqId id = None -> value_text params pv ->
  plain_text service -> plain_text name -> no_separator service -> no_separator name ->
  name <> "subscribe" -> name <> "unsubscribe" ->
  parseRequest (request_text id (service +:+ "_" +:+ name) params) =
  (Ok [mkRpcRequest service name id false (Some params) None], false).
Proof.
  intros Hid Hck Hp Hs Hn Hss Hsn Hsub Hunsub. unfold parseRequest.
  assert (plain_text (service +:+ "_" +:+ name)).
  { unfold plain_text. rewrite !go_bytes_app. apply Forall_app. split; [done|].
    by constructor. }
  rewrite (unmarshal_request_text _ _ _ _ _ Hid) by done. cbn [in_Id in_Method in_Payload].
  rewrite Hck.
  assert (Hword : forall w, forallb (fun c => bool_decide (c <> chr "_")) (go_bytes w) = true ->
    no_separator w).
  { intros w. rewrite forallb_forall. intros Hw Hin%list_elem_of_In%Hw. by bool_prop. }
  change subscribeMethodSuffix with ("_" +:+ "subscribe").
  change unsubscribeMethodSuffix with ("_" +:+ "unsubscribe").
  rewrite !service_method_suffix by (done || by apply Hword).
  rewrite service_method_split by done. apply value_text_nonnil in Hp.
  by destruct params.
Qed.

(** C17: the request a client writes is read back: the service and the method
    around the separator, the raw id and the raw parameters. *)
Theorem parseRequest_encoded id idv service name params pv :
  value_text id idv -> checkReqId id = None -> value_text params pv ->
  plain_text service -> plain_text name -> no_separator service -> no_separator name ->
  name <> "subscribe" -> name <> "unsubscribe" ->
  parseRequest (request_text id (service +:+ "_" +:+ name) params) =
  (Ok [mkRpcRequest service name id false (Some params) None], false).
Proof. apply parseRequest_text. Qed.

(** What an element of a batch becomes: the request it is alone, or, when its
    method has no service, an entry that carries the error. *)
Definition batch_entry (raw : list byte) (q : RpcRequest) : Prop :=
  parseRequest raw = (Ok [q], false) \/
  exists r, unmarshal_request raw = Ok r /\
    parseRequest raw = (Err (MethodNotFoundError (in_Method r) ""), false) /\
    q = mkRpcRequest "" "" (in_Id r) false
          (if (length (in_Payload r) =? 0)%nat then None else Some (in_Payload r))
          (Some (MethodNotFoundError (in_Method r) "")).

Lemma batch_request_entry raw r q :
  unmarshal_request raw = Ok r -> batch_request r = Ok q <-> batch_entry raw q.
Proof.
  intros Hr. unfold batch_entry, parseRequest, batch_request. rewrite Hr.
  assert (Hok : forall x : RpcRequest, Ok (E:=RpcError * bool) x = Ok q <->
    (Ok (E:=RpcError) [x], false) = (Ok [q], false) \/
    exists r', Ok (E:=string) r = Ok r' /\
      (Ok (E:=RpcError) [x], false) = (Err (MethodNotFoundError (in_Method r') ""), false) /\
      q = mkRpcRequest "" "" (in_Id r') false
            (if (length (in_Payload r') =? 0)%nat then None else Some (in_Payload r'))
            (Some (MethodNotFoundError (in_Method r') ""))).
  { intros x. split; [intros [= ->]; by left|]. by intros [[= ->]|(? & _ & ? & _)]. }
  assert (Herr : forall (e e' : RpcError) (b : bool), (forall m, e' <> MethodNotFoundError m "") ->
    Err (A:=RpcRequest) (e, b) = Ok q <->
    (Err (A:=list RpcRequest) e', false) = (Ok [q], false) \/
    exists r', Ok (E:=string) r = Ok r' /\
      (Err (A:=list RpcRequest) e', false) = (Err (MethodNotFoundError (in_Method r') ""), false) /\
      q = mkRpcRequest "" "" (in_Id r') false
            (if (length (in_Payload r') =? 0)%nat then None else Some (in_Payload r'))
            (Some (MethodNotFoundError (in_Method r') ""))).
  { intros e e' b Hm. split; [done|]. intros [?|(r' & _ & [= He] & _)]; [done|]. by apply Hm in He. }
  destruct (checkReqId (in_Id r)); [by apply Herr|].
  destruct (HasSuffix (in_Method r) subscribeMethodSuffix).
  { destruct (0 <? _)%nat; [|by apply Herr].
    destruct (unmarshal_1string (in_Payload r)); [apply Hok|by apply Herr]. }
  destruct (HasSuffix _ _); [apply Hok|].
  assert (Hmnf : forall x, Ok (E:=RpcError * bool) x = Ok q <-> x = q) by (split; [by intros [=]|by intros ->]).
  destruct (Split _ _) as [|? [|? []]]; try (destruct (_ =? _)%nat eqn:El; apply Hok);
    rewrite Hmnf; (split;
      [intros <-; right; by exists r | by intros [?|(r' & [= <-] & _ & ->)]]).
Qed.

Lemma decode_requests_entries raws vs :
  Forall2 value_text raws vs ->
  match decode_requests (zip raws vs) with
  | Some rs => Forall2 (fun raw r => unmarshal_request raw = Ok r) raws rs
  | None => exists raw, raw ∈ raws /\ unmarshal_request raw = Err (json_error raw)
  end.
Proof.
  induction 1 as [|raw v raws vs Hr Hrs IH]; simpl; [done|].
  assert (Hu : unmarshal_request raw =
    match decode_request v with Some r => Ok r | None => Err (json_error raw) end).
  { unfold unmarshal_request. by rewrite (value_text_parse _ _ Hr). }
  destruct (decode_request v) as [r|] eqn:Ed.
  - destruct (decode_requests (zip raws vs)) as [rs|]; [by constructor|].
    destruct IH as (raw' & ? & ?). exists raw'. split; [by right|done].
  - exists raw. split; [left|done].
Qed.

(** C14: a batch is read as its elements are read one by one: it gives requests
    exactly when every element alone is a request or calls a method without a
    service, and then it gives these requests in order. *)
Theorem batch_agrees_with_single raws vs qs :
  Forall2 value_text raws vs ->
  parseBatchRequest (array_text raws) = (Ok qs, true) <-> Forall2 batch_entry raws qs.
Proof.
  intros Hrs. unfold parseBatchRequest, unmarshal_requests.
  rewrite (value_text_parse _ _ (array_text_value _ _ Hrs)).
  apply decode_requests_entries in Hrs. destruct (decode_requests (zip raws vs)) as [rs|].
  - assert (Hiff : batch_requests rs = Ok qs <-> Forall2 batch_entry raws qs).
    { revert qs. induction Hrs as [|raw r raws rs Hr Hrs IH]; intros qs; simpl.
      - split; [intros [= <-]; constructor|]. by intros ->%Forall2_nil_inv_l.
      - split.
        + destruct (batch_request r) as [q|] eqn:E; [|done].
          destruct (batch_requests rs) as [qs'|] eqn:E'; [|done]. intros [= <-].
          constructor; [by apply (batch_request_entry raw r)|by apply IH].
        + intros (q & qs' & Hq & Hqs & ->)%Forall2_cons_inv_l.
          apply (batch_request_entry raw r) in Hq; [|done]. apply IH in Hqs.
          by rewrite Hq, Hqs. }
    rewrite <-Hiff. destruct (batch_requests rs) as [qs'|[e b]]; split; naive_solver.
  - destruct Hrs as (raw & Hin & Hu). split; [done|]. intros Hall.
    apply list_elem_of_lookup in Hin as [i Hi].
    destruct (Forall2_lookup_l _ _ _ _ _ Hall Hi) as (q & _ & [Hq|(r & Hr & _)]).
    + unfold parseRequest in Hq. by rewrite Hu in Hq.
    + congruence.
Qed.

(** The arguments by position: an error at the first argument that does not
    decode, at a type left without argument unless it is a pointer, or when
    arguments outnumber the types. *)
Fixpoint positional (n i : nat) (types : list rtype) (args : list (list byte * json))
    {struct args} : result RpcError (list (gvalue Data)) :=
  match args, types with
  | [], _ => missing_args i types
  | _ :: _, [] => Err (too_many n)
  | (raw, v) :: args', t :: types' =>
      match decode_arg t raw v with
      | Err e => Err (invalid_argument i e)
      | Ok a => let? l := positional n (S i) types' args' in Ok (a :: l)
      end
  end.

(** What the loop and the closing bracket make of the rest of an array. *)
Definition finish_args (i : nat) (types : list rtype)
    (res : result RpcError (list (gvalue Data) * list byte)) : result RpcError (list (gvalue Data)) :=
  let? (args, r) := res in
  match skip_ws r with
  | d :: _ =>
      if bool_decide (d = chr "]") then
        let? missing := missing_args (i + length args) (drop (length args) types) in
        Ok (args ++ missing)
      else Err (InvalidParamsError (json_error r))
  | [] => Err (InvalidParamsError "EOF")
  end.

Lemma finish_args_cons i t types a res :
  finish_args i (t :: types) (let? (args, r) := res in Ok (a :: args, r)) =
  (let? l := finish_args (S i) types res in Ok (a :: l)).
Proof.
  destruct res as [[args r]|]; simpl; [|done]. destruct (skip_ws r) as [|d r']; [done|].
  case_bool_decide; [|done]. rewrite <-plus_n_Sm. by destruct (missing_args _ _).
Qed.

Lemma read_value_text raw v t :
  value_text raw v -> stop t -> read_value (raw ++ t) = Some (raw, v, t).
Proof.
  intros Hr Ht. unfold read_value.
  destruct (value_text_app raw v t (parse_fuel (raw ++ t)) Hr Ht) as [-> ->]; [|done].
  unfold parse_fuel. rewrite length_app. lia.
Qed.

Lemma read_args_tail n i types raws vs :
  Forall2 value_text raws vs ->
  finish_args i types (read_args n i true types (tail_text (chr "]") raws)) =
  positional n i types (zip raws vs).
Proof.
  intros Hrs. revert i types. induction Hrs as [|raw v raws vs Hr Hrs IH]; intros i types.
  - assert (read_args n i true types (tail_text (chr "]") []) = Ok ([], [chr "]"])) as ->
      by (by destruct types).
    simpl. rewrite Nat.add_0_r, drop_0. by destruct (missing_args (Data:=Data) i types).
  - destruct types as [|t types]; cbn [tail_text zip_with positional read_args];
      rewrite skip_ws_id, bool_decide_eq_false_2 by (done || by intros [?|?]); [done|].
    rewrite bool_decide_eq_true_2, (read_value_text raw v) by (done || by apply stop_tail).
    destruct (decode_arg t raw v) as [a|e]; [|done]. cbn [argval_IsNil andb].
    by rewrite finish_args_cons, IH.
Qed.

(** C15: the positional parser on an array of any values computes exactly the
    positional assignment of arguments to types, errors included. *)
Theorem parsePositionalArguments_spec raws vs types :
  Forall2 value_text raws vs ->
  parsePositionalArguments (array_text raws) types =
  positional (length types) 0 types (zip raws vs).
Proof.
  intros Hrs. unfold parsePositionalArguments, array_text.
  rewrite skip_ws_id, bool_decide_eq_true_2 by done.
  match goal with |- (match ?res with _ => _ end) = _ =>
    change (finish_args 0 types res = positional (length types) 0 types (zip raws vs)) end.
  destruct Hrs as [|raw v raws vs Hr Hrs].
  - rewrite <-(read_args_tail (length types) 0 types [] []) by constructor. by destruct types.
  - apply value_text_head in Hr as Hh. destruct Hh as (c & s & Hraw & Hc & H1 & H2).
    assert (Hskip : skip_ws (raw ++ tail_text (chr "]") raws) = c :: s ++ tail_text (chr "]") raws)
      by (rewrite Hraw; simpl; by rewrite Hc).
    destruct types as [|t types]; cbn [read_args]; rewrite Hskip, bool_decide_eq_false_2
      by (by intros [?|?]); [done|].
    change (c :: s ++ ?x) with ((c :: s) ++ x). rewrite <-Hraw.
    rewrite (read_value_text raw v) by (done || by apply stop_tail). cbn [zip_with positional].
    destruct (decode_arg t raw v) as [a|e]; [|done]. cbn [argval_IsNil andb].
    by rewrite finish_args_cons, (read_args_tail _ _ _ _ _ Hrs).
Qed.

(** Null is accepted for a required argument: the test for a missing value
    looks at the pointer the decoder filled, which is never nil, and the
    argument is whatever null decodes to, the empty string for a string. *)
Theorem null_argument_accepted :
  json_ParseRequestArguments [stringType] (Some (go_bytes "[null]")) = Ok [VString ""] /\
  forall t v, t <> stringType -> unmarshal_value t (go_bytes "null") = Ok v ->
    json_ParseRequestArguments [t] (Some (go_bytes "[null]")) = Ok [v].
Proof.
  split; [done|]. intros t v Ht Hv. unfold json_ParseRequestArguments, parsePositionalArguments.
  change (go_bytes "[null]") with (chr "[" :: chr "n" :: go_bytes "ull]").
  rewrite skip_ws_id, bool_decide_eq_true_2 by done. cbn [read_args length].
  rewrite skip_ws_id, bool_decide_eq_false_2 by (done || by intros [?|?]).
  change (read_value (chr "n" :: go_bytes "ull]")) with (Some (go_bytes "null", JNull, [chr "]"])).
  cbn iota beta. unfold decode_arg. rewrite bool_decide_eq_false_2 by done. by rewrite Hv.
Qed.

End Texts.
