(* ===== verification/Notifier.v ===== *)
(** * pkg/server/subscription.go: subscriptions and the notifier

    The identifiers of subscriptions ([NewID]), the store of [*Subscription]
    objects, and the [Notifier] of a connection with its two maps of active
    and inactive subscriptions. *)

From S2P Require Import Prelude GoStd HexUtil RpcTypes.
From Stdlib Require Import ZArith Lia.
From Stdlib Require Import Init.Byte.
From stdpp Require Import gmap strings list.

(** ** NewID *)

(** The inner loop: [id[i+j] = byte(val); val >>= 8] while [i+j < len(id)] and
    [j < 7]; [fuel] is 7 minus the initial [j]. *)
Fixpoint fill_chunk (fuel j i : nat) (val : Z) (id : list byte) : list byte :=
  match fuel with
  | O => id
  | S f =>
      if (i + j <? length id) && (j <? 7)
      then fill_chunk f (S j) i (Z.shiftr val 8) (<[(i + j)%nat := byte_of val]> id)
      else id
  end.

(** The outer loop, over the values [idGenerator().Int63()] yields. *)
Fixpoint fill_id (i : nat) (vals : list Z) (id : list byte) : list byte :=
  match vals with
  | [] => id
  | v :: vs => if i <? length id then fill_id (i + 7) vs (fill_chunk 7 0 i v id) else id
  end.

(** [strings.TrimLeft(s, "0")]. *)
Fixpoint TrimLeft_0 (s : list byte) : list byte :=
  match s with
  | c :: s' => if bool_decide (c = chr "0") then TrimLeft_0 s' else s
  | [] => []
  end.

(** The type [ID], a string. *)
Notation ID := string (only parsing).

(** The sixteen bytes, from the three readings of [Int63] the loop makes. *)
Definition id_bytes (v0 v1 v2 : Z) : list byte :=
  fill_id 0 [v0; v1; v2] (replicate 16 x00).

Definition NewID (v0 v1 v2 : Z) : ID :=
  let rpcId := TrimLeft_0 (hex_Encode (id_bytes v0 v1 v2)) in
  let rpcId := if (length rpcId =? 0)%nat then [chr "0"] else rpcId in
  go_string ([chr "0"; chr "x"] ++ rpcId).

(** ** Subscriptions and the notifier *)

(** The struct [Subscription]; [sub_err_closed] is whether its channel [err]
    is closed. *)
Record Subscription := mkSubscription {
  sub_ID : ID;
  sub_namespace : string;
  sub_err_closed : bool
}.

(** The maps of [Notifier], from identifiers to addresses in the store. *)
Record Notifier := mkNotifier {
  active : gmap string nat;
  inactive : gmap string nat
}.

(** [newNotifier]. *)
Definition newNotifier : Notifier := mkNotifier ∅ ∅.

Section Conn.
Context {Data C R : Type} `{ServerCodec Data C R}.

(** The calls of [Write] on a codec, in order, with the error each returned: a
    response message, or the notification of an event. *)
Inductive event :=
| EvResponse (m : message R) (err : option string)
| EvNotify (id : ID) (namespace : string) (data : Data) (err : option string).

(** A connection: its codec, the writes so far, the store of subscription
    objects and, when its context carries one, the notifier. *)
Record conn := mkConn {
  conn_codec : C;
  conn_log : list event;
  conn_subs : list Subscription;
  conn_notifier : option Notifier
}.

Definition set_codec (c : C) (w : conn) : conn :=
  mkConn c (conn_log w) (conn_subs w) (conn_notifier w).
Definition set_notifier (n : Notifier) (w : conn) : conn :=
  mkConn (conn_codec w) (conn_log w) (conn_subs w) (Some n).
Definition set_sub (l : nat) (s : Subscription) (w : conn) : conn :=
  mkConn (conn_codec w) (conn_log w) (<[l := s]> (conn_subs w)) (conn_notifier w).

(** [Write] of a response. *)
Definition write (m : message R) (w : conn) : option string * conn :=
  let '(err, c) := Write m (conn_codec w) in
  (err, mkConn c (conn_log w ++ [EvResponse m err]) (conn_subs w) (conn_notifier w)).

Definition close_codec (w : conn) : conn := set_codec (Close (conn_codec w)) w.

(** [NotifierFromContext]. *)
Definition NotifierFromContext (w : conn) : option Notifier := conn_notifier w.

(** [n.CreateSubscription()], with the identifier [NewID()] returned; the
    result is the address of the object.  A nil notifier panics. *)
Definition CreateSubscription (id : ID) (w : conn) : run (nat * conn) :=
  match conn_notifier w with
  | None => Panic
  | Some n =>
      let l := length (conn_subs w) in
      Ret (l, mkConn (conn_codec w) (conn_log w)
             (conn_subs w ++ [mkSubscription id "" false])
             (Some (mkNotifier (active n) (<[id := l]> (inactive n)))))
  end.

(** [n.Notify(id, data)]: nothing unless the subscription is active; the codec
    is closed when the write fails, and the error returned. *)
Definition Notify (id : ID) (data : Data) (w : conn) : run (option string * conn) :=
  match conn_notifier w with
  | None => Panic
  | Some n =>
      match active n !! id with
      | None => Ret (None, w)
      | Some l =>
          match conn_subs w !! l with
          | None => Panic
          | Some sub =>
              let notification := CreateNotification id (sub_namespace sub) data in
              let '(err, c) := Write (One notification) (conn_codec w) in
              let w' := mkConn c (conn_log w ++ [EvNotify id (sub_namespace sub) data err])
                          (conn_subs w) (conn_notifier w) in
              match err with
              | Some e => Ret (Some e, close_codec w')
              | None => Ret (None, w')
              end
          end
      end
  end.

(** [ErrSubscriptionNotFound]. *)
Definition ErrSubscriptionNotFound : string := "subscription not found".
Definition ErrNotificationsUnsupported : string := "notifications not supported".

(** [close(s.err)] panics on a closed channel. *)
Definition close_err (l : nat) (w : conn) : run conn :=
  match conn_subs w !! l with
  | None => Panic
  | Some s =>
      if sub_err_closed s then Panic
      else Ret (set_sub l (mkSubscription (sub_ID s) (sub_namespace s) true) w)
  end.

(** [n.unsubscribe(id)]: the error is [ErrSubscriptionNotFound] or none. *)
Definition unsubscribe (id : ID) (w : conn) : run (option string * conn) :=
  match conn_notifier w with
  | None => Panic
  | Some n =>
      match active n !! id with
      | Some l =>
          let! w := close_err l w in
          Ret (None, set_notifier (mkNotifier (delete id (active n)) (inactive n)) w)
      | None => Ret (Some ErrSubscriptionNotFound, w)
      end
  end.

(** [n.activate(id, namespace)]. *)
Definition activate (id : ID) (namespace : string) (w : conn) : run conn :=
  match conn_notifier w with
  | None => Panic
  | Some n =>
      match inactive n !! id with
      | Some l =>
          match conn_subs w !! l with
          | None => Panic
          | Some sub =>
              let w := set_sub l (mkSubscription (sub_ID sub) namespace (sub_err_closed sub)) w in
              Ret (set_notifier (mkNotifier (<[id := l]> (active n)) (delete id (inactive n))) w)
          end
      | None => Ret w
      end
  end.

(** ** The invariant of a notifier *)

(** Every subscription in the maps is an object of the store filed under its
    own identifier with an open channel, and no object is in both maps. *)
Definition filed (subs : list Subscription) (m : gmap string nat) : Prop :=
  map_Forall (fun id l => exists s, subs !! l = Some s /\ sub_ID s = id /\
                                    sub_err_closed s = false) m.

Definition wf_notifier (subs : list Subscription) (n : Notifier) : Prop :=
  filed subs (active n) /\ filed subs (inactive n) /\
  forall id l, active n !! id = Some l -> inactive n !! id <> Some l.

Definition wf_conn (w : conn) : Prop :=
  match conn_notifier w with Some n => wf_notifier (conn_subs w) n | None => True end.

(** One call of the notifier's methods, by the server or by user code. *)
Inductive notifier_step : conn -> conn -> Prop :=
| step_create id l w w' : CreateSubscription id w = Ret (l, w') -> notifier_step w w'
| step_notify id data e w w' : Notify id data w = Ret (e, w') -> notifier_step w w'
| step_unsubscribe id e w w' : unsubscribe id w = Ret (e, w') -> notifier_step w w'
| step_activate id ns w w' : activate id ns w = Ret w' -> notifier_step w w'
| step_write m e w w' : write m w = (e, w') -> notifier_step w w'
| step_close w : notifier_step w (close_codec w).

End Conn.
Arguments event Data R : clear implicits.
Arguments conn Data C R : clear implicits.

(** ** Lemmas on NewID *)

Lemma id_bytes_eq v0 v1 v2 :
  id_bytes v0 v1 v2 = le_bytes 7 v0 ++ le_bytes 7 v1 ++ le_bytes 2 v2.
Proof. reflexivity. Qed.

Lemma TrimLeft_0_suffix s : exists k, s = replicate k (chr "0") ++ TrimLeft_0 s.
Proof.
  induction s as [|c s [k IH]]; [by exists 0|]. simpl. case_bool_decide as Hc.
  - exists (S k). simpl. congruence.
  - by exists 0.
Qed.

Lemma TrimLeft_0_head s : head (TrimLeft_0 s) <> Some (chr "0").
Proof. induction s as [|c s IH]; simpl; [done|]. case_bool_decide; [done|]. simpl. congruence. Qed.

Lemma hex_value_zeros k s : hex_value (replicate k (chr "0") ++ s) = hex_value s.
Proof.
  induction k as [|k IH]; [done|]. unfold hex_value in *. cbn [replicate app].
  rewrite base_digits_16_cons. change (fromHexChar (chr "0")) with (Some 0%Z).
  destruct (base_digits 16 (replicate k (chr "0") ++ s)); simpl in *; [|done]. done.
Qed.

Lemma hex_value_TrimLeft_0 s : hex_value (TrimLeft_0 s) = hex_value s.
Proof. destruct (TrimLeft_0_suffix s) as [k E]. rewrite E at 2. by rewrite hex_value_zeros. Qed.

Lemma TrimLeft_0_length s : length (TrimLeft_0 s) <= length s.
Proof.
  destruct (TrimLeft_0_suffix s) as [k E]. rewrite E at 2. rewrite length_app. lia.
Qed.

(** The digits of an identifier, and their value. *)
Lemma NewID_digits v0 v1 v2 :
  exists raw, NewID v0 v1 v2 = go_string (prefix_0x raw) /\ quantity raw /\
    length raw <= 64 /\ hex_value raw = Some (big_SetBytes (id_bytes v0 v1 v2)).
Proof.
  unfold NewID. set (b := id_bytes v0 v1 v2). set (t := TrimLeft_0 (hex_Encode b)).
  assert (Hl : length t <= 32).
  { etransitivity; [apply TrimLeft_0_length|]. rewrite hex_Encode_length.
    unfold b. rewrite id_bytes_eq, !length_app, !le_bytes_length. lia. }
  assert (Hv : hex_value t = Some (big_SetBytes b))
    by (unfold t; by rewrite hex_value_TrimLeft_0, hex_value_hex_Encode).
  eexists. split; [reflexivity|]. destruct (length t =? 0) eqn:E; bool_prop.
  - apply nil_length_inv in E. split; [by split|]. split; [simpl; lia|].
    rewrite <-Hv, E. done.
  - split; [|split; [lia|done]]. split; [by intros ?%length_zero_iff_nil|].
    intros Hh. by apply TrimLeft_0_head in Hh.
Qed.

(** ** Lemmas on the invariant *)

Section Proofs.
Context {Data C R : Type} `{ServerCodec Data C R}.
Implicit Types (w : conn Data C R) (n : Notifier) (id : string) (subs : list Subscription).

Lemma filed_insert subs m id l s :
  filed subs m -> subs !! l = Some s -> sub_ID s = id -> sub_err_closed s = false ->
  filed subs (<[id := l]> m).
Proof. intros Hm Hs Hid Hc. apply map_Forall_insert_2; eauto. Qed.

Lemma filed_delete subs m id : filed subs m -> filed subs (delete id m).
Proof. apply map_Forall_delete. Qed.

Lemma filed_app subs subs' m : filed subs m -> filed (subs ++ subs') m.
Proof.
  intros Hm. eapply map_Forall_impl; [exact Hm|]. intros id l (s & Hs & ? & ?).
  exists s. split; [|done]. by apply lookup_app_l_Some.
Qed.

(** Two entries of the maps that share an object share their key. *)
Lemma filed_inj subs m m' id id' l :
  filed subs m -> filed subs m' -> m !! id = Some l -> m' !! id' = Some l -> id = id'.
Proof.
  intros Hm Hm' H1 H2. apply Hm in H1 as (s & Hs & <- & _).
  apply Hm' in H2 as (s' & Hs' & <- & _). congruence.
Qed.

(** Updating an object no entry of the map refers to. *)
Lemma filed_set_other subs m l s :
  filed subs m -> (forall id, m !! id <> Some l) -> filed (<[l := s]> subs) m.
Proof.
  intros Hm Hl id l' Hid. destruct (Hm id l' Hid) as (s' & Hs' & ? & ?).
  exists s'. split; [|done]. rewrite list_lookup_insert_ne; [done|]. naive_solver.
Qed.

(** Updating an object without changing what the invariant reads. *)
Lemma filed_set_same subs m l s s' :
  filed subs m -> subs !! l = Some s -> sub_ID s' = sub_ID s ->
  sub_err_closed s' = sub_err_closed s -> filed (<[l := s']> subs) m.
Proof.
  intros Hm Hs Hid Hc id l' Hl'. destruct (Hm id l' Hl') as (s0 & Hs0 & ? & ?).
  destruct (decide (l = l')) as [->|].
  - exists s'. rewrite list_lookup_insert_eq by eauto using lookup_lt_Some.
    split; [done|]. simplify_eq. split; congruence.
  - exists s0. by rewrite list_lookup_insert_ne.
Qed.

#[local] Hint Resolve filed_insert filed_delete filed_app filed_set_same : go.

Lemma wf_newNotifier : wf_notifier [] newNotifier.
Proof. split_and!; [apply map_Forall_empty..|]. intros id l; cbn. by rewrite !lookup_empty. Qed.

Lemma CreateSubscription_wf id l w w' :
  CreateSubscription id w = Ret (l, w') -> wf_conn w -> wf_conn w'.
Proof.
  unfold CreateSubscription, wf_conn. destruct (conn_notifier w) as [n|]; [|done].
  intros [= <- <-] (Ha & Hi & Hd). simpl. split_and!; simpl; auto with go.
  - eapply filed_insert; [by apply filed_app|by apply list_lookup_middle|done..].
  - intros id' l' Hl'. destruct (decide (id = id')) as [->|].
    + rewrite lookup_insert_eq. intros [= <-].
      apply Ha in Hl' as (s & Hs & _). apply lookup_lt_Some in Hs. lia.
    + rewrite lookup_insert_ne by done. auto.
Qed.

Lemma unsubscribe_wf id e w w' :
  unsubscribe id w = Ret (e, w') -> wf_conn w -> wf_conn w'.
Proof.
  unfold unsubscribe, wf_conn. destruct (conn_notifier w) as [n|] eqn:En; [|done].
  destruct (active n !! id) as [l|] eqn:El.
  2:{ intros [= <- <-]. by rewrite En. }
  unfold close_err. destruct (conn_subs w !! l) as [s|] eqn:Es; [|done].
  destruct (sub_err_closed s); [done|]. intros [= <- <-] (Ha & Hi & Hd). simpl.
  split_and!; simpl.
  - apply filed_set_other; auto with go. intros id'. rewrite lookup_delete_Some.
    intros [Hne Hid']. apply Hne. eapply filed_inj; [exact Ha|exact Ha|..]; done.
  - apply filed_set_other; [done|]. intros id' Hid'.
    assert (id = id') as -> by (eapply filed_inj; [exact Ha|exact Hi|..]; done).
    by eapply Hd.
  - intros id' l' [Hne Hid']%lookup_delete_Some. eauto.
Qed.

Lemma activate_wf id ns w w' : activate id ns w = Ret w' -> wf_conn w -> wf_conn w'.
Proof.
  unfold activate, wf_conn. destruct (conn_notifier w) as [n|] eqn:En; [|done].
  destruct (inactive n !! id) as [l|] eqn:El.
  2:{ intros [= <-]. by rewrite En. }
  destruct (conn_subs w !! l) as [s|] eqn:Es; [|done].
  intros [= <-] (Ha & Hi & Hd). simpl.
  destruct (Hi id l El) as (s' & Hs' & Hid & Hc). simplify_eq.
  split_and!; simpl.
  - eapply filed_insert; [eapply filed_set_same; eauto|..];
      [apply list_lookup_insert_eq; eauto using lookup_lt_Some|done..].
  - eapply filed_set_same; eauto with go.
  - intros id' l' Hl'. rewrite lookup_delete_Some. intros [Hne Hid'].
    rewrite lookup_insert_ne in Hl' by done. by eapply Hd.
Qed.

Lemma Notify_wf id data e w w' : Notify id data w = Ret (e, w') -> wf_conn w -> wf_conn w'.
Proof.
  unfold Notify, wf_conn. destruct (conn_notifier w) as [n|] eqn:En; [|done].
  destruct (active n !! id); [|by intros [= <- <-]; rewrite En].
  destruct (conn_subs w !! _); [|done].
  destruct (Write _ _) as [[err|] c]; intros [= <- <-]; simpl; rewrite ?En; done.
Qed.

Lemma write_wf m e w w' : write m w = (e, w') -> wf_conn w -> wf_conn w'.
Proof. unfold write. destruct (Write _ _). by intros [= <- <-]. Qed.

Lemma notifier_step_wf w w' : notifier_step w w' -> wf_conn w -> wf_conn w'.
Proof.
  intros []; eauto using CreateSubscription_wf, Notify_wf, unsubscribe_wf, activate_wf, write_wf.
Qed.

(** On a well-formed connection with a notifier no method of it panics. *)
Lemma notifier_total id ns data w :
  wf_conn w -> conn_notifier w <> None ->
  (exists l w', CreateSubscription id w = Ret (l, w')) /\
  (exists e w', Notify id data w = Ret (e, w')) /\
  (exists e w', unsubscribe id w = Ret (e, w')) /\
  (exists w', activate id ns w = Ret w').
Proof.
  unfold wf_conn, CreateSubscription, Notify, unsubscribe, activate, close_err.
  destruct (conn_notifier w) as [n|]; [|done]. intros (Ha & Hi & _) _. split_and!.
  - eauto.
  - destruct (active n !! id) as [l|] eqn:El; [|eauto].
    destruct (Ha _ _ El) as (s & -> & _). destruct (Write _ _) as [[]]; eauto.
  - destruct (active n !! id) as [l|] eqn:El; [|eauto].
    destruct (Ha _ _ El) as (s & -> & _ & ->). simpl. eauto.
  - destruct (inactive n !! id) as [l|] eqn:El; [|eauto].
    destruct (Hi _ _ El) as (s & -> & _). eauto.
Qed.

Lemma notifier_step_keeps w w' :
  notifier_step w w' -> conn_notifier w <> None -> conn_notifier w' <> None.
Proof.
  intros [id l w1 w2 Hc|id data e w1 w2 Hc|id e w1 w2 Hc|id ns w1 w2 Hc|m e w1 w2 Hc|w1] Hn.
  - unfold CreateSubscription in Hc. by destruct (conn_notifier w1); simplify_eq/=.
  - unfold Notify in Hc. destruct (conn_notifier w1) as [n|] eqn:En; [|done].
    destruct (active n !! id); [|by simplify_eq; rewrite En].
    destruct (conn_subs w1 !! _) as [s|]; [|done].
    destruct (Write _ _) as [[err|] c]; by simplify_eq/=.
  - unfold unsubscribe, close_err in Hc. destruct (conn_notifier w1) as [n|] eqn:En; [|done].
    destruct (active n !! id); [|by simplify_eq; rewrite En].
    destruct (conn_subs w1 !! _) as [s|]; [|done]. destruct (sub_err_closed s); by simplify_eq/=.
  - unfold activate in Hc. destruct (conn_notifier w1) as [n|] eqn:En; [|done].
    destruct (inactive n !! id); [|by simplify_eq; rewrite En].
    destruct (conn_subs w1 !! _) as [s|]; by simplify_eq/=.
  - unfold write in Hc. destruct (Write _ _). by simplify_eq/=.
  - done.
Qed.

(** ** Properties *)

(** C25: along any sequence of calls by the server and by user code on a
    connection with a new notifier, none of the notifier's methods panics: the
    channel of a subscription is closed at most once, and every entry of the
    two maps is a subscription filed under its own identifier. *)
Theorem notifier_never_panics c log w id ns data :
  rtc notifier_step (mkConn c log [] (Some newNotifier)) w ->
  wf_conn w /\
  (exists l w', CreateSubscription id w = Ret (l, w')) /\
  (exists e w', Notify id data w = Ret (e, w')) /\
  (exists e w', unsubscribe id w = Ret (e, w')) /\
  (exists w', activate id ns w = Ret w').
Proof.
  intros Hs.
  assert (wf_conn w /\ conn_notifier w <> None) as [Hwf Hn].
  { eapply (rtc_preserves notifier_step (fun w => wf_conn w /\ conn_notifier w <> None));
      [|exact Hs|split; [apply wf_newNotifier|done]].
    intros w1 w2 [H1 H2] H12. eauto using notifier_step_wf, notifier_step_keeps. }
  split; [done|]. by apply notifier_total.
Qed.

(** The life of a subscription, on any well-formed connection: created, it
    is inactive and notifications to it are dropped; activated, a notification
    is written with its namespace and data; cancelled, its channel is closed,
    notifications are dropped again and a second cancellation finds nothing. *)
Theorem subscription_lifecycle id ns data w l w1 :
  wf_conn w ->
  (forall n, conn_notifier w = Some n -> active n !! id = None) ->
  CreateSubscription id w = Ret (l, w1) ->
  Notify id data w1 = Ret (None, w1) /\
  exists w2, activate id ns w1 = Ret w2 /\
    conn_log w2 = conn_log w /\
    (exists e w2', Notify id data w2 = Ret (e, w2') /\
       conn_log w2' = conn_log w ++ [EvNotify id ns data e] /\
       e = (Write (One (CreateNotification id ns data)) (conn_codec w)).1) /\
    exists w3, unsubscribe id w2 = Ret (None, w3) /\
      conn_subs w3 !! l = Some (mkSubscription id ns true) /\
      Notify id data w3 = Ret (None, w3) /\
      unsubscribe id w3 = Ret (Some ErrSubscriptionNotFound, w3).
Proof.
  intros Hwf Hfree. unfold CreateSubscription.
  destruct (conn_notifier w) as [n|]; [|done]. intros [= <- <-].
  specialize (Hfree n eq_refl).
  assert (Hl : forall s, (conn_subs w ++ [s]) !! length (conn_subs w) = Some s)
    by (intros; by apply list_lookup_middle).
  assert (Hins : forall s s', <[length (conn_subs w) := s']> (conn_subs w ++ [s]) !! length (conn_subs w)
                   = Some s').
  { intros s s'. apply list_lookup_insert_eq. rewrite length_app. simpl. lia. }
  unfold Notify at 1. simpl. cbn [active]. rewrite Hfree. split; [done|].
  unfold activate. simpl. cbn [inactive active]. rewrite lookup_insert_eq, Hl.
  eexists. split; [done|]. split; [done|]. split.
  - unfold Notify. simpl. cbn [active]. rewrite lookup_insert_eq, Hins. simpl.
    destruct (Write _ _) as [[e|] c]; eexists _, _; (split; [done|]); done.
  - unfold unsubscribe at 1, close_err. simpl. cbn [active inactive].
    rewrite lookup_insert_eq, Hins. simpl. eexists. split; [done|]. simpl.
    split; [|split].
    + rewrite list_lookup_insert_eq; [done|]. rewrite length_insert, length_app. simpl. lia.
    + unfold Notify. simpl. cbn [active]. by rewrite lookup_delete_eq.
    + unfold unsubscribe. simpl. cbn [active]. by rewrite lookup_delete_eq.
Qed.

End Proofs.

(** Identifiers are equal exactly when the bytes they show are. *)
Lemma NewID_bytes v0 v1 v2 v0' v1' v2' :
  NewID v0 v1 v2 = NewID v0' v1' v2' <-> id_bytes v0 v1 v2 = id_bytes v0' v1' v2'.
Proof.
  split; [|unfold NewID; by intros ->]. intros Heq.
  destruct (NewID_digits v0 v1 v2) as (raw & E & _ & _ & Hv).
  destruct (NewID_digits v0' v1' v2') as (raw' & E' & _ & _ & Hv').
  rewrite E, E' in Heq. apply (f_equal go_bytes) in Heq. rewrite !go_bytes_string in Heq.
  unfold prefix_0x in Heq. apply (inj (app _)) in Heq as ->. rewrite Hv in Hv'.
  apply (inj Some) in Hv'.
  apply big_SetBytes_inj; [|done]. by rewrite !id_bytes_eq, !length_app, !le_bytes_length.
Qed.

(** An identifier is a JSON-RPC quantity: it decodes, by [DecodeBig], to
    the number its sixteen random bytes write in big-endian order. *)
Theorem NewID_decodes p v0 v1 v2 :
  DecodeBig p (NewID v0 v1 v2) = Ok (big_SetBytes (id_bytes v0 v1 v2)).
Proof.
  destruct (NewID_digits v0 v1 v2) as (raw & -> & Hq & Hl & Hv). unfold DecodeBig.
  rewrite go_bytes_string, checkNumber_prefix by done. simpl.
  rewrite DecodeBig_raw_spec, Hv. by replace (64 <? length raw) with false
    by (symmetry; apply Nat.ltb_ge; lia).
Qed.

(** Two identifiers are equal exactly when the low 56 bits of the first
    two readings and the low 16 bits of the third agree: nothing else of the
    random numbers is used and nothing of these is lost. *)
Theorem NewID_injective v0 v1 v2 v0' v1' v2' :
  NewID v0 v1 v2 = NewID v0' v1' v2' <->
  (v0 mod 2 ^ 56 = v0' mod 2 ^ 56 /\ v1 mod 2 ^ 56 = v1' mod 2 ^ 56 /\
   v2 mod 2 ^ 16 = v2' mod 2 ^ 16)%Z.
Proof.
  rewrite NewID_bytes, !id_bytes_eq. split.
  - intros Heq. apply app_inj_1 in Heq as [H0 Heq]; [|by rewrite !le_bytes_length].
    apply app_inj_1 in Heq as [H1 H2]; [|by rewrite !le_bytes_length].
    split_and!; [exact (le_bytes_inj 7 _ _ H0)|exact (le_bytes_inj 7 _ _ H1)|exact (le_bytes_inj 2 _ _ H2)].
  - intros (H0 & H1 & H2).
    by rewrite (le_bytes_mod 7 v0 v0'), (le_bytes_mod 7 v1 v1'), (le_bytes_mod 2 v2 v2').
Qed.
