(* ===== verification/Register.v ===== *)
(** * pkg/server/utils.go and the registration of services (server.go)

    Which methods of a receiver are RPC callbacks or subscriptions, and how
    [RegisterName] files them in the server's registry. *)

From S2P Require Import Prelude GoStd RpcTypes Utf8 Notifier.
From Stdlib Require Import ZArith Lia.
From Stdlib Require Import Init.Byte.
From stdpp Require Import gmap strings list.

(** ** The types the server recognises *)

Definition isContextType (t : rtype) : bool := bool_decide (strip_ptr t = contextType).
Definition isErrorType (t : rtype) : bool := type_Implements_error (strip_ptr t).
Definition isSubscriptionType (t : rtype) : bool := bool_decide (strip_ptr t = subscriptionType).

Section Names.
Context `{UnicodeTables}.

Definition isExported (name : string) : bool := IsUpper (DecodeRune (go_bytes name)).1.

Definition isExportedOrBuiltinType (t : rtype) : bool :=
  let t := strip_ptr t in
  isExported (type_Name t) || bool_decide (type_PkgPath t = "").

(** [formatName]: the first rune in lower case. *)
Definition formatName (name : string) : string :=
  let ret := runes (go_bytes name) in
  let ret := match ret with r :: rs => ToLower r :: rs | [] => [] end in
  go_string (runes_string ret).

End Names.

Section Register.
Context {Data C R : Type} `{ServerCodec Data C R} {DataTy : DataTypes Data} `{UnicodeTables}.

(** A method of a receiver type: [Method.Name], [Method.PkgPath], the input
    types with the receiver first, the output types, and its body, which runs
    on the connection and may panic. *)
Record Method := mkMethod {
  m_Name : string;
  m_PkgPath : string;
  m_In : list rtype;
  m_Out : list rtype;
  m_Func : list (gvalue Data) -> conn Data C R -> run (list (gvalue Data) * conn Data C R)
}.

Definition NumIn (m : Method) : nat := length (m_In m).
Definition NumOut (m : Method) : nat := length (m_Out m).

(** [Method.Func.Call(args)]: a wrong number of arguments panics, and so does an
    argument that cannot be assigned to the type of its parameter. *)
Definition Call (m : Method) (args : list (gvalue Data)) (w : conn Data C R)
    : run (list (gvalue Data) * conn Data C R) :=
  if call_fits args (m_In m) then m_Func m args w else Panic.

Record Callback := mkCallback {
  Rcvr : gvalue Data;
  cb_Method : Method;
  ArgTypes : list rtype;
  HasCtx : bool;
  ErrPos : Z;
  IsSubscribe : bool
}.

Definition isPubSub (m : Method) : bool :=
  if (NumIn m <? 2)%nat || negb (NumOut m =? 2)%nat then false
  else
    match m_In m !! 1%nat, m_Out m !! 0%nat, m_Out m !! 1%nat with
    | Some i1, Some o0, Some o1 =>
        isContextType i1 && isSubscriptionType o0 && isErrorType o1
    | _, _, _ => false
    end.

(** The loop that finds the first result of an error type, or -1. *)
Fixpoint find_ErrPos (i : Z) (outs : list rtype) : Z :=
  match outs with
  | [] => -1
  | t :: outs' => if isErrorType t then i else find_ErrPos (i + 1) outs'
  end.

(** What one iteration of [METHODS] does: nothing, or an entry in one of the
    two maps. *)
Inductive suitability :=
| Unsuitable
| SuitCallback (mname : string) (h : Callback)
| SuitSubscription (mname : string) (h : Callback).

Definition suitable (rcvr : gvalue Data) (method : Method) : suitability :=
  let mname := formatName (m_Name method) in
  if negb (bool_decide (m_PkgPath method = "")) then Unsuitable
  else
    let isSubscribe := isPubSub method in
    let numIn := NumIn method in
    let hasCtx := (2 <=? numIn)%nat && bool_decide (m_In method !! 1%nat = Some contextType) in
    let firstArg := if hasCtx then 2%nat else 1%nat in
    let argTypes := drop firstArg (m_In method) in
    if isSubscribe then
      if forallb isExportedOrBuiltinType argTypes
      then SuitSubscription mname (mkCallback rcvr method argTypes hasCtx (-1) true)
      else Unsuitable
    else if negb (forallb isExportedOrBuiltinType argTypes) then Unsuitable
    else if negb (forallb isExportedOrBuiltinType (m_Out method)) then Unsuitable
    else
      let errPos := find_ErrPos 0 (m_Out method) in
      if (0 <=? errPos)%Z && negb (errPos =? Z.of_nat (NumOut method) - 1)%Z then Unsuitable
      else if (NumOut method <=? 2)%nat then
        if (NumOut method =? 2)%nat && (errPos =? -1)%Z then Unsuitable
        else SuitCallback mname (mkCallback rcvr method argTypes hasCtx errPos false)
      else Unsuitable.

(** [suitableCallbacks(rcvr, typ)], over the methods of the type in order. *)
Definition add_suitable (rcvr : gvalue Data)
    (acc : gmap string Callback * gmap string Callback) (method : Method) :=
  match suitable rcvr method with
  | Unsuitable => acc
  | SuitCallback mname h => (<[mname := h]> acc.1, acc.2)
  | SuitSubscription mname h => (acc.1, <[mname := h]> acc.2)
  end.

Definition suitableCallbacks (rcvr : gvalue Data) (methods : list Method)
    : gmap string Callback * gmap string Callback :=
  fold_left (add_suitable rcvr) methods (∅, ∅).

(** ** Services and the registry *)

Record Service := mkService {
  svc_Name : string;
  svc_Callbacks : gmap string Callback;
  svc_Subscriptions : gmap string Callback
}.

(** A receiver as [RegisterName] reflects on it: the name of its type behind
    pointers of one level ([reflect.Indirect]), how the type prints, and the
    methods of its type. *)
Record Receiver := mkReceiver {
  rc_Name : string;
  rc_String : string;
  rc_Methods : list Method
}.

(** The loop [for _, m := range methods { cs[formatName(m.Method.Name)] = m }];
    the keys of [methods] are those formatted names already. *)
Definition merge_callbacks (methods cs : gmap string Callback) : gmap string Callback :=
  map_fold (fun _ m acc => <[formatName (m_Name (cb_Method m)) := m]> acc) cs methods.

(** [s.RegisterName(name, rcvr)] on the map [Services]: the error message, or
    the new registry. *)
Definition RegisterName (Services : gmap string Service) (name : string) (rcvr : Receiver)
    : result string (gmap string Service) :=
  if bool_decide (name = "") then Err ("no service name for type " +:+ rc_String rcvr)
  else if negb (isExported (rc_Name rcvr)) then Err (rc_Name rcvr +:+ " is not exported")
  else
    let '(methods, subscriptions) :=
      suitableCallbacks (VReceiver (rc_Name rcvr)) (rc_Methods rcvr) in
    let none := (size methods =? 0)%nat && (size subscriptions =? 0)%nat in
    match Services !! name with
    | Some regsvc =>
        if none
        then Err ("Service " +:+ rc_String rcvr
                  +:+ " doesn't have any suitable methods/Subscriptions to expose")
        else
          Ok (<[name := mkService (svc_Name regsvc)
                          (merge_callbacks methods (svc_Callbacks regsvc))
                          (merge_callbacks subscriptions (svc_Subscriptions regsvc))]> Services)
    | None =>
        if none
        then Err ("Service " +:+ rc_String rcvr
                  +:+ " doesn't have any suitable methods/Subscriptions to expose")
        else Ok (<[name := mkService name methods subscriptions]> Services)
    end.

(** [RPCService.Modules()]: every registered name with version 1.0. *)
Definition Modules (Services : gmap string Service) : gmap string string :=
  (fun _ => "1.0") <$> Services.

(** [MetadataApi] and [NewServer()]: the registry holds the service "rpc",
    whose receiver type RPCService has the method Modules. *)
Definition MetadataApi : string := "rpc".

Definition NewServer_Services (RPCService : Receiver) : gmap string Service :=
  match RegisterName ∅ MetadataApi RPCService with
  | Ok services => services
  | Err _ => ∅
  end.

End Register.
Arguments Method Data C R : clear implicits.
Arguments Callback Data C R : clear implicits.
Arguments Service Data C R : clear implicits.
Arguments Receiver Data C R : clear implicits.
Arguments suitability Data C R : clear implicits.

(** ** Specification of registered callbacks *)

Section Spec.
Context {Data C R : Type} `{ServerCodec Data C R} {DataTy : DataTypes Data} `{UnicodeTables}.
Implicit Types (m : Method Data C R) (h : Callback Data C R).

(** A Go method type lists its receiver first. *)
Definition has_receiver m : Prop := (1 <= NumIn m)%nat.

(** The receiver, the context and the argument types are the method's
    parameters. *)
Definition parameters_match h : Prop :=
  exists n recv, Rcvr h = VReceiver n /\
    m_In (cb_Method h) = recv :: (if HasCtx h then [contextType] else []) ++ ArgTypes h.

(** What a registered RPC callback satisfies, for calling it safely: the
    arguments fill the method's parameters, there are at most two results, and
    an error result is the last one; two results end with an error. *)
Definition wf_callback h : Prop :=
  IsSubscribe h = false /\
  parameters_match h /\
  (NumOut (cb_Method h) <= 2)%nat /\
  (ErrPos h = -1 \/ ErrPos h = Z.of_nat (NumOut (cb_Method h)) - 1 /\
     (1 <= NumOut (cb_Method h))%nat /\
     exists t, last (m_Out (cb_Method h)) = Some t /\ isErrorType t = true)%Z /\
  (NumOut (cb_Method h) = 2%nat -> ErrPos h = 1%Z).

(** And a registered subscription: a context comes first, and the results are
    a subscription and an error. *)
Definition wf_subscription h : Prop :=
  IsSubscribe h = true /\ isPubSub (cb_Method h) = true /\
  parameters_match h.

(** The criteria of the documentation, on the method alone. *)
Definition callback_criteria m : Prop :=
  m_PkgPath m = "" /\ isPubSub m = false /\
  Forall (fun t => isExportedOrBuiltinType t = true)
    (drop (if bool_decide (m_In m !! 1%nat = Some contextType) then 2 else 1) (m_In m)) /\
  Forall (fun t => isExportedOrBuiltinType t = true) (m_Out m) /\
  (m_Out m = [] \/
   (exists t, m_Out m = [t]) \/
   exists t1 t2, m_Out m = [t1; t2] /\ isErrorType t1 = false /\ isErrorType t2 = true).

(** The registry of a server: each service is filed under its name, which is
    not empty, offers something, and its maps hold well-formed entries filed
    under their formatted names. *)
Definition wf_entries (P : Callback Data C R -> Prop) (cs : gmap string (Callback Data C R)) :=
  map_Forall (fun k h => k = formatName (m_Name (cb_Method h)) /\ P h) cs.

Definition wf_service (k : string) (svc : Service Data C R) : Prop :=
  svc_Name svc = k /\ k <> "" /\
  (svc_Callbacks svc <> ∅ \/ svc_Subscriptions svc <> ∅) /\
  wf_entries wf_callback (svc_Callbacks svc) /\
  wf_entries wf_subscription (svc_Subscriptions svc).

Definition wf_registry (Services : gmap string (Service Data C R)) : Prop :=
  map_Forall wf_service Services.

(** ** Lemmas *)

Lemma find_ErrPos_spec i outs :
  (0 <= i)%Z ->
  (find_ErrPos i outs = -1 /\ Forall (fun t => isErrorType t = false) outs \/
   exists j t, find_ErrPos i outs = i + Z.of_nat j /\ outs !! j = Some t /\
               isErrorType t = true)%Z.
Proof.
  revert i. induction outs as [|t outs IH]; intros i Hi; simpl; [by left|].
  destruct (isErrorType t) eqn:Et.
  - right. exists 0%nat, t. split_and!; [lia|done..].
  - destruct (IH (i + 1)%Z ltac:(lia)) as [[-> Hf]|(j & t' & -> & Hj & Ht')].
    + left. by split; [|constructor].
    + right. exists (S j), t'. split_and!; [lia|done..].
Qed.

Lemma isPubSub_NumIn m : isPubSub m = true -> (2 <= NumIn m)%nat /\ NumOut m = 2%nat.
Proof.
  unfold isPubSub. destruct (NumIn m <? 2)%nat eqn:E1; [done|].
  destruct (NumOut m =? 2)%nat eqn:E2; [|done]. bool_prop. done.
Qed.

(** The entry an iteration adds is filed under the formatted name. *)
Lemma suitable_callback rcvr m k h :
  suitable rcvr m = SuitCallback k h ->
  k = formatName (m_Name m) /\ cb_Method h = m /\ Rcvr h = rcvr /\ m_PkgPath m = "" /\
  IsSubscribe h = false /\ isPubSub m = false /\
  HasCtx h = (2 <=? NumIn m)%nat && bool_decide (m_In m !! 1%nat = Some contextType) /\
  ArgTypes h = drop (if HasCtx h then 2 else 1) (m_In m) /\
  Forall (fun t => isExportedOrBuiltinType t = true) (ArgTypes h) /\
  Forall (fun t => isExportedOrBuiltinType t = true) (m_Out m) /\
  ErrPos h = find_ErrPos 0 (m_Out m) /\ (NumOut m <= 2)%nat /\
  ((0 <= ErrPos h)%Z -> ErrPos h = (Z.of_nat (NumOut m) - 1)%Z) /\
  (NumOut m = 2%nat -> ErrPos h <> (-1)%Z).
Proof.
  unfold suitable. case_bool_decide as Hp; simpl; [|done].
  destruct (isPubSub m) eqn:Eps; [by case_match|].
  destruct (forallb isExportedOrBuiltinType (drop _ _)) eqn:Ea; simpl; [|done].
  destruct (forallb isExportedOrBuiltinType (m_Out m)) eqn:Eo; simpl; [|done].
  destruct ((0 <=? find_ErrPos 0 (m_Out m))%Z && _) eqn:E1; [done|].
  destruct (NumOut m <=? 2)%nat eqn:E2; [|done].
  destruct ((NumOut m =? 2)%nat && _) eqn:E3; [done|]. intros [= <- <-]. simpl.
  bool_prop. rewrite forallb_forall in Ea, Eo.
  split_and!; try done.
  - apply Forall_forall. intros t Ht. by apply Ea, list_elem_of_In.
  - apply Forall_forall. intros t Ht. by apply Eo, list_elem_of_In.
  - intros Hpos. apply andb_false_iff in E1 as [E1|E1]; bool_prop; lia.
  - intros Hn. apply andb_false_iff in E3 as [E3|E3]; bool_prop; lia.
Qed.

(** A method whose last result is of an error type has it at [ErrPos]. *)
Lemma suitable_error_position rcvr m k h t :
  suitable rcvr m = SuitCallback k h -> last (m_Out m) = Some t -> isErrorType t = true ->
  cb_Method h = m /\ Rcvr h = rcvr /\ IsSubscribe h = false /\
  ErrPos h = (Z.of_nat (NumOut m) - 1)%Z.
Proof.
  intros (_ & Hm & Hr & _ & Hsub & _ & _ & _ & _ & _ & Hpos & _ & Hlast & _)%suitable_callback Ht He.
  split_and!; [done..|]. apply Hlast. rewrite Hpos.
  destruct (find_ErrPos_spec 0 (m_Out m)) as [[_ Hall]|(j & t' & -> & _)]; [lia| |lia].
  rewrite last_lookup in Ht. rewrite (Forall_lookup_1 _ _ _ _ Hall Ht) in He. discriminate He.
Qed.

Lemma suitable_subscription rcvr m k h :
  suitable rcvr m = SuitSubscription k h ->
  k = formatName (m_Name m) /\ cb_Method h = m /\ Rcvr h = rcvr /\ m_PkgPath m = "" /\
  IsSubscribe h = true /\ isPubSub m = true /\
  HasCtx h = (2 <=? NumIn m)%nat && bool_decide (m_In m !! 1%nat = Some contextType) /\
  ArgTypes h = drop (if HasCtx h then 2 else 1) (m_In m) /\
  Forall (fun t => isExportedOrBuiltinType t = true) (ArgTypes h).
Proof.
  unfold suitable. case_bool_decide as Hp; simpl; [|done].
  destruct (isPubSub m) eqn:Eps.
  2:{ repeat (case_match; try done). }
  destruct (forallb isExportedOrBuiltinType (drop _ _)) eqn:Ea; [|done].
  intros [= <- <-]. simpl. rewrite forallb_forall in Ea. split_and!; try done.
  apply Forall_forall. intros t Ht. by apply Ea, list_elem_of_In.
Qed.

Lemma HasCtx_args m b :
  has_receiver m ->
  b = (2 <=? NumIn m)%nat && bool_decide (m_In m !! 1%nat = Some contextType) ->
  exists recv,
    m_In m = recv :: (if b then [contextType] else []) ++ drop (if b then 2 else 1) (m_In m).
Proof.
  unfold has_receiver, NumIn. intros Hr ->. destruct (m_In m) as [|recv [|t ts]]; simpl in *.
  - lia.
  - by exists recv.
  - exists recv. case_bool_decide; simplify_eq/=; by rewrite ?drop_0.
Qed.

Lemma suitable_callback_wf n m k h :
  has_receiver m -> suitable (VReceiver n) m = SuitCallback k h -> wf_callback h.
Proof.
  intros Hr Hs. apply suitable_callback in Hs
    as (-> & Hm & Hrcvr & _ & Hsub & _ & Hctx & Hargs & _ & _ & Herr & Hn & He1 & He2).
  unfold wf_callback, parameters_match. rewrite Hm, Hargs. split_and!; [done| |done|..].
  - destruct (HasCtx_args m _ Hr Hctx) as [recv E]. by exists n, recv.
  - destruct (find_ErrPos_spec 0 (m_Out m)) as [[E _]|(j & t & E & Hj & Ht)]; [lia|left; lia|].
    right. specialize (He1 ltac:(lia)). unfold NumOut in *.
    assert (j = pred (length (m_Out m)) /\ 1 <= length (m_Out m))%nat as [-> ?]
      by (apply lookup_lt_Some in Hj; lia).
    split_and!; [lia|lia|]. exists t. by rewrite last_lookup.
  - intros Hn2. specialize (He2 Hn2).
    destruct (find_ErrPos_spec 0 (m_Out m)) as [[E _]|(j & t & E & Hj & Ht)]; lia.
Qed.

Lemma suitable_subscription_wf n m k h :
  has_receiver m -> suitable (VReceiver n) m = SuitSubscription k h -> wf_subscription h.
Proof.
  intros Hr Hs. apply suitable_subscription in Hs
    as (-> & Hm & Hrcvr & _ & Hsub & Hps & Hctx & Hargs & _).
  unfold wf_subscription, parameters_match. rewrite Hm, Hargs. split_and!; [done..|].
  destruct (HasCtx_args m _ Hr Hctx) as [recv E]. by exists n, recv.
Qed.

(** The two maps after the loop, by induction from its end. *)
Lemma suitableCallbacks_snoc rcvr ms m :
  suitableCallbacks rcvr (ms ++ [m]) = add_suitable rcvr (suitableCallbacks rcvr ms) m.
Proof. unfold suitableCallbacks. by rewrite fold_left_app. Qed.

Lemma suitableCallbacks_sound rcvr ms k h :
  ((suitableCallbacks rcvr ms).1 !! k = Some h ->
     exists m, m ∈ ms /\ suitable rcvr m = SuitCallback k h) /\
  ((suitableCallbacks rcvr ms).2 !! k = Some h ->
     exists m, m ∈ ms /\ suitable rcvr m = SuitSubscription k h).
Proof.
  induction ms as [|m ms [IH1 IH2]] using rev_ind.
  { split; intros Hl; destruct (lookup_empty_Some (M:=gmap string) k h Hl). }
  rewrite suitableCallbacks_snoc. unfold add_suitable.
  assert (Hweak : forall m', m' ∈ ms -> m' ∈ ms ++ [m]) by (intros; rewrite elem_of_app; auto).
  assert (Hm : m ∈ ms ++ [m]) by (rewrite elem_of_app, list_elem_of_singleton; auto).
  destruct (suitable rcvr m) as [|k' h'|k' h'] eqn:E; simpl; split;
    rewrite ?lookup_insert_Some; naive_solver.
Qed.

(** With distinct formatted names, every suitable method is registered. *)
Lemma suitableCallbacks_complete rcvr ms m k h :
  NoDup (formatName ∘ m_Name <$> ms) -> m ∈ ms ->
  (suitable rcvr m = SuitCallback k h -> (suitableCallbacks rcvr ms).1 !! k = Some h) /\
  (suitable rcvr m = SuitSubscription k h -> (suitableCallbacks rcvr ms).2 !! k = Some h).
Proof.
  induction ms as [|m' ms IH] using rev_ind; [by intros _ ?%elem_of_nil|].
  rewrite fmap_app, NoDup_app. intros (Hnd & Hdisj & _).
  rewrite elem_of_app, list_elem_of_singleton, suitableCallbacks_snoc. unfold add_suitable.
  intros [Hm| ->].
  - assert (Hne : formatName (m_Name m) <> formatName (m_Name m')).
    { intros Heq. apply (Hdisj (formatName (m_Name m))).
      - by apply (list_elem_of_fmap_2 (formatName ∘ m_Name) ms m).
      - rewrite Heq. apply list_elem_of_singleton. done. }
    destruct (IH Hnd Hm) as [IH1 IH2]. split; intros Hs.
    + assert (k = formatName (m_Name m)) as -> by (by apply suitable_callback in Hs as (-> & _)).
      destruct (suitable rcvr m') as [|k' h'|k' h'] eqn:E; simpl; auto.
      apply suitable_callback in E as (-> & _). rewrite lookup_insert_ne; auto.
    + assert (k = formatName (m_Name m)) as -> by (by apply suitable_subscription in Hs as (-> & _)).
      destruct (suitable rcvr m') as [|k' h'|k' h'] eqn:E; simpl; auto.
      apply suitable_subscription in E as (-> & _). rewrite lookup_insert_ne; auto.
  - split; intros ->; simpl; apply lookup_insert_eq.
Qed.

Lemma suitableCallbacks_wf n ms :
  Forall has_receiver ms ->
  wf_entries wf_callback (suitableCallbacks (VReceiver n) ms).1 /\
  wf_entries wf_subscription (suitableCallbacks (VReceiver n) ms).2.
Proof.
  intros Hr. rewrite Forall_forall in Hr. split; intros k h Hk.
  - apply suitableCallbacks_sound in Hk as (m & Hm & Hs).
    split; [|eauto using suitable_callback_wf].
    by apply suitable_callback in Hs as (-> & -> & _).
  - apply suitableCallbacks_sound in Hk as (m & Hm & Hs).
    split; [|eauto using suitable_subscription_wf].
    by apply suitable_subscription in Hs as (-> & -> & _).
Qed.

(** The loop on the results, spelled out. *)
Lemma result_criteria (outs : list rtype) :
  ((length outs <= 2)%nat /\
   ((0 <= find_ErrPos 0 outs)%Z -> find_ErrPos 0 outs = (Z.of_nat (length outs) - 1)%Z) /\
   (length outs = 2%nat -> find_ErrPos 0 outs <> (-1)%Z)) <->
  (outs = [] \/ (exists t, outs = [t]) \/
   exists t1 t2, outs = [t1; t2] /\ isErrorType t1 = false /\ isErrorType t2 = true).
Proof.
  destruct outs as [|t1 [|t2 [|t3 outs]]]; simpl.
  - naive_solver lia.
  - split; [eauto|]. intros _. split; [lia|]. destruct (isErrorType t1); naive_solver lia.
  - destruct (isErrorType t1) eqn:E1, (isErrorType t2) eqn:E2; simpl;
      (split; [intros (? & ? & ?)|intros [?|[[? ?]|(? & ? & ? & ? & ?)]]]); simplify_eq;
      try lia; try congruence; eauto 10; (split; [lia|split; [lia|lia]]).
  - naive_solver lia.
Qed.

Lemma suitable_criteria rcvr m k h :
  suitable rcvr m = SuitCallback k h -> k = formatName (m_Name m) /\ callback_criteria m.
Proof.
  intros Hs. apply suitable_callback in Hs
    as (-> & _ & _ & Hp & _ & Hps & Hctx & Hargs & Ha & Ho & He & Hn & H1 & H2).
  split; [done|]. rewrite He in H1, H2. split_and!; [done|done| |done|by apply result_criteria].
  rewrite Hargs, Hctx in Ha. case_bool_decide as Hc; [|by rewrite andb_false_r in Ha].
  apply lookup_lt_Some in Hc. unfold NumIn in Ha.
  by replace (2 <=? length (m_In m))%nat with true in Ha by (symmetry; apply Nat.leb_le; lia).
Qed.

Lemma criteria_suitable rcvr m :
  callback_criteria m -> exists h, suitable rcvr m = SuitCallback (formatName (m_Name m)) h.
Proof.
  intros (Hp & Hps & Ha & Ho & Hr). apply result_criteria in Hr as (Hn & H1 & H2).
  unfold suitable. rewrite (bool_decide_eq_true_2 (m_PkgPath m = "")) by done. cbn [negb].
  rewrite Hps. unfold NumIn, NumOut. cbv zeta.
  assert (Hb : (2 <=? length (m_In m))%nat && bool_decide (m_In m !! 1%nat = Some contextType)
               = bool_decide (m_In m !! 1%nat = Some contextType)).
  { case_bool_decide as Hc; [|apply andb_false_r]. apply lookup_lt_Some in Hc.
    rewrite andb_true_r. apply Nat.leb_le. lia. }
  rewrite Hb.
  replace (forallb isExportedOrBuiltinType (drop _ _)) with true
    by (symmetry; apply forallb_forall; intros t Ht%list_elem_of_In; by eapply Forall_forall in Ha).
  replace (forallb isExportedOrBuiltinType (m_Out m)) with true
    by (symmetry; apply forallb_forall; intros t Ht%list_elem_of_In; by eapply Forall_forall in Ho).
  simpl. destruct ((0 <=? find_ErrPos 0 (m_Out m))%Z && _) eqn:E1; bool_prop; [lia|].
  replace (length (m_Out m) <=? 2)%nat with true by (symmetry; apply Nat.leb_le; lia).
  destruct ((length (m_Out m) =? 2)%nat && _) eqn:E3; bool_prop; [lia|]. eauto.
Qed.

(** Merging files the new callbacks over the old ones. *)
Lemma merge_callbacks_union P methods cs :
  wf_entries P methods -> merge_callbacks methods cs = methods ∪ cs.
Proof.
  unfold merge_callbacks. intros Hwf.
  induction methods as [|k h methods Hk Hfst IH] using map_first_key_ind.
  - by rewrite map_fold_empty, (left_id_L ∅ (∪)).
  - apply map_Forall_insert_1_1 in Hwf as Hh. apply map_Forall_insert_1_2 in Hwf; [|done].
    rewrite map_fold_insert_first_key by done.
    rewrite IH by done. destruct Hh as [<- _]. by rewrite insert_union_l.
Qed.

Lemma wf_entries_union P (m1 m2 : gmap string (Callback Data C R)) :
  wf_entries P m1 -> wf_entries P m2 -> wf_entries P (m1 ∪ m2).
Proof. apply map_Forall_union_2. Qed.

Lemma union_nonempty (m1 m2 : gmap string (Callback Data C R)) : m2 <> ∅ -> m1 ∪ m2 <> ∅.
Proof.
  intros Hne Hu. apply map_positive_l in Hu as Hm1. by rewrite Hm1, (left_id_L ∅ (∪)) in Hu.
Qed.

(** The outcome of a registration, with the two maps of the receiver. *)
Lemma RegisterName_ok Services name rcvr Services' :
  Forall has_receiver (rc_Methods rcvr) ->
  RegisterName Services name rcvr = Ok Services' ->
  let entries := suitableCallbacks (VReceiver (rc_Name rcvr)) (rc_Methods rcvr) in
  name <> "" /\ isExported (rc_Name rcvr) = true /\
  (entries.1 <> ∅ \/ entries.2 <> ∅) /\
  exists old, old = default (mkService name ∅ ∅) (Services !! name) /\
    Services' = <[name := mkService (svc_Name old) (entries.1 ∪ svc_Callbacks old)
                                    (entries.2 ∪ svc_Subscriptions old)]> Services.
Proof.
  intros Hr. unfold RegisterName. case_bool_decide as Hn; [done|].
  destruct (isExported (rc_Name rcvr)) eqn:Ex; simpl; [|done].
  destruct (suitableCallbacks_wf (rc_Name rcvr) (rc_Methods rcvr) Hr) as [Hw1 Hw2].
  destruct (suitableCallbacks _ _) as [cbs subs]. simpl in *.
  destruct ((size cbs =? 0)%nat && (size subs =? 0)%nat) eqn:Es; [by destruct (Services !! name)|].
  intros Heq. split_and!; [done|done| |].
  - apply andb_false_iff in Es as [Es|Es]; bool_prop; [left|right];
      intros ->; by rewrite map_size_empty in Es.
  - eexists. split; [done|]. destruct (Services !! name) as [regsvc|]; simplify_eq/=.
    + by rewrite !(merge_callbacks_union _ _ _ Hw1), !(merge_callbacks_union _ _ _ Hw2).
    + by rewrite !(right_id_L ∅ (∪)).
Qed.

Lemma wf_service_merge name old cbs subs :
  name <> "" -> (cbs <> ∅ \/ subs <> ∅) ->
  wf_entries wf_callback cbs -> wf_entries wf_subscription subs ->
  svc_Name old = name -> wf_entries wf_callback (svc_Callbacks old) ->
  wf_entries wf_subscription (svc_Subscriptions old) ->
  wf_service name (mkService (svc_Name old) (cbs ∪ svc_Callbacks old)
                     (subs ∪ svc_Subscriptions old)).
Proof.
  intros Hn Hne Hw1 Hw2 Hname Ho1 Ho2. unfold wf_service. simpl. split_and!; [done|done|..].
  - destruct Hne as [Hne|Hne]; [left|right]; intros Hu; by apply map_positive_l in Hu.
  - by apply wf_entries_union.
  - by apply wf_entries_union.
Qed.

Lemma RegisterName_wf Services name rcvr Services' :
  Forall has_receiver (rc_Methods rcvr) -> wf_registry Services ->
  RegisterName Services name rcvr = Ok Services' -> wf_registry Services'.
Proof.
  intros Hr Hwf Hok. destruct (RegisterName_ok _ _ _ _ Hr Hok)
    as (Hn & _ & Hne & old & Hold & ->).
  destruct (suitableCallbacks_wf (rc_Name rcvr) (rc_Methods rcvr) Hr) as [Hw1 Hw2].
  apply map_Forall_insert_2; [|done].
  assert (svc_Name old = name /\ wf_entries wf_callback (svc_Callbacks old) /\
          wf_entries wf_subscription (svc_Subscriptions old)) as (? & ? & ?).
  { destruct (Services !! name) as [svc|] eqn:E; simpl in Hold; subst old.
    - destruct (Hwf _ _ E) as (? & _ & _ & ? & ?). done.
    - split_and!; [done|apply map_Forall_empty..]. }
  by apply wf_service_merge.
Qed.

(** Registering one receiver after another, as the endpoints do; the first
    error stops. *)
Fixpoint RegisterAll (Services : gmap string (Service Data C R))
    (l : list (string * Receiver Data C R)) : result string (gmap string (Service Data C R)) :=
  match l with
  | [] => Ok Services
  | (name, rcvr) :: l' =>
      let? Services := RegisterName Services name rcvr in RegisterAll Services l'
  end.

(** ** Properties *)

(** C28: [suitableCallbacks] registers exactly the methods that meet the
    documented criteria, under their formatted names, when these are distinct:
    exported, exported or builtin argument and result types, not a
    subscription, and results that are nothing, one value, or a value and an
    error. *)
Theorem suitableCallbacks_exact rcvr ms k :
  NoDup (formatName ∘ m_Name <$> ms) ->
  (exists h, (suitableCallbacks rcvr ms).1 !! k = Some h) <->
  (exists m, m ∈ ms /\ k = formatName (m_Name m) /\ callback_criteria m).
Proof.
  intros Hnd. split.
  - intros [h Hh]. apply suitableCallbacks_sound in Hh as (m & Hm & Hs).
    exists m. split; [done|].
    by apply suitable_criteria in Hs.
  - intros (m & Hm & -> & Hc). apply criteria_suitable with (rcvr := rcvr) in Hc as [h Hh].
    exists h. by apply (suitableCallbacks_complete rcvr ms m).
Qed.

(** The registry is well formed after any sequence of registrations on an
    empty server: every service is filed under its own nonempty name with at
    least one entry, and every callback and subscription can be called with
    the arguments its [ArgTypes] announce and returns its error last. *)
Theorem RegisterAll_wf l Services :
  Forall (fun nr => Forall has_receiver (rc_Methods nr.2)) l ->
  RegisterAll ∅ l = Ok Services -> wf_registry Services.
Proof.
  intros Hl. assert (Hwf : wf_registry ∅) by apply map_Forall_empty.
  revert Hwf. generalize (∅ : gmap string (Service Data C R)) as S0.
  induction Hl as [|[name rcvr] l Hr Hl IH]; intros S0 Hwf; simpl; [by intros [= <-]|].
  destruct (RegisterName S0 name rcvr) as [S1|] eqn:E; [|done].
  intros HS. eapply IH; [|exact HS]. by eapply RegisterName_wf.
Qed.

(** What [RegisterName] does to the registry: under the name, the new
    entries take precedence over the ones already there and those stay
    otherwise; no other service changes. *)
Theorem RegisterName_lookup Services name rcvr Services' k :
  Forall has_receiver (rc_Methods rcvr) ->
  RegisterName Services name rcvr = Ok Services' ->
  (k <> name -> Services' !! k = Services !! k) /\
  exists svc, Services' !! name = Some svc /\
    forall mname,
      let '(cbs, subs) := suitableCallbacks (VReceiver (rc_Name rcvr)) (rc_Methods rcvr) in
      svc_Callbacks svc !! mname =
        match cbs !! mname with
        | Some h => Some h
        | None => Services !! name ≫= fun old => svc_Callbacks old !! mname
        end /\
      svc_Subscriptions svc !! mname =
        match subs !! mname with
        | Some h => Some h
        | None => Services !! name ≫= fun old => svc_Subscriptions old !! mname
        end.
Proof.
  intros Hr Hok. destruct (RegisterName_ok _ _ _ _ Hr Hok) as (_ & _ & _ & old & Hold & ->).
  split; [intros Hk; by rewrite lookup_insert_ne|]. eexists. split; [apply lookup_insert_eq|].
  intros mname. destruct (suitableCallbacks _ _) as [cbs subs]. simpl.
  rewrite !lookup_union.
  assert (Ho : svc_Callbacks old !! mname =
                 (Services !! name ≫= fun old => svc_Callbacks old !! mname) /\
               svc_Subscriptions old !! mname =
                 (Services !! name ≫= fun old => svc_Subscriptions old !! mname)).
  { subst old. destruct (Services !! name); simpl; [done|]. by rewrite !lookup_empty. }
  destruct Ho as [-> ->]. split.
  - destruct (cbs !! mname), (Services !! name ≫= _); done.
  - destruct (subs !! mname), (Services !! name ≫= _); done.
Qed.

End Spec.
