(* ===== verification/Server.v ===== *)
(** * pkg/server/server.go: dispatch of requests

    [readRequest] turns the requests of a codec into calls, [handle] runs one
    and builds its response, [exec] and [execBatch] write the responses and
    activate the subscriptions made. *)

From S2P Require Import Prelude GoStd RpcTypes Utf8 Notifier Register.
From Stdlib Require Import ZArith Lia.
From Stdlib Require Import Init.Byte.
From stdpp Require Import gmap strings list.

Definition serviceMethodSeparator : string := "_".
Definition unsubscribeMethodSuffix : string := "_unsubscribe".

Section Server.
Context {Data C R : Type} `{ServerCodec Data C R} {DataTy : DataTypes Data} `{UnicodeTables}.

(** [ServerRequest]; [Callb] is nil for the requests that carry an error or
    cancel a subscription. *)
Record ServerRequest := mkServerRequest {
  sr_Id : RawMessage;
  sr_Svcname : string;
  sr_Callb : option (Callback Data C R);
  sr_Args : list (gvalue Data);
  sr_IsUnsubscribe : bool;
  sr_Err : option RpcError
}.

Definition error_request (id : RawMessage) (e : RpcError) : ServerRequest :=
  mkServerRequest id "" None [] false (Some e).

(** One iteration of the loop of [readRequest]. *)
Definition resolve (Services : gmap string (Service Data C R)) (r : RpcRequest)
    : run ServerRequest :=
  match req_Err r with
  | Some e => Ret (error_request (req_Id r) e)
  | None =>
      if req_IsPubSub r && HasSuffix (req_Method r) unsubscribeMethodSuffix then
        match ParseRequestArguments [stringType] (req_Params r) with
        | Ok args => Ret (mkServerRequest (req_Id r) "" None args true None)
        | Err e => Ret (mkServerRequest (req_Id r) "" None [] true
                          (Some (InvalidParamsError (Error e))))
        end
      else
        match Services !! req_Service r with
        | None => Ret (error_request (req_Id r) (MethodNotFoundError (req_Service r) (req_Method r)))
        | Some svc =>
            if req_IsPubSub r then
              match svc_Subscriptions svc !! req_Method r with
              | Some callb =>
                  let req := fun args e =>
                    mkServerRequest (req_Id r) (svc_Name svc) (Some callb) args false e in
                  if bool_decide (req_Params r <> None) && (0 <? length (ArgTypes callb))%nat then
                    match ParseRequestArguments (stringType :: ArgTypes callb) (req_Params r) with
                    | Ok args => let! args := slice_from_1 args in Ret (req args None)
                    | Err e => Ret (req [] (Some (InvalidParamsError (Error e))))
                    end
                  else Ret (req [] None)
              | None =>
                  Ret (error_request (req_Id r)
                         (MethodNotFoundError (req_Service r) (req_Method r)))
              end
            else
              match svc_Callbacks svc !! req_Method r with
              | Some callb =>
                  let req := fun args e =>
                    mkServerRequest (req_Id r) (svc_Name svc) (Some callb) args false e in
                  if bool_decide (req_Params r <> None) && (0 <? length (ArgTypes callb))%nat then
                    match ParseRequestArguments (ArgTypes callb) (req_Params r) with
                    | Ok args => Ret (req args None)
                    | Err e => Ret (req [] (Some (InvalidParamsError (Error e))))
                    end
                  else Ret (req [] None)
              | None =>
                  Ret (error_request (req_Id r)
                         (MethodNotFoundError (req_Service r) (req_Method r)))
              end
        end
  end.

Fixpoint resolve_all (Services : gmap string (Service Data C R)) (reqs : list RpcRequest)
    : run (list ServerRequest) :=
  match reqs with
  | [] => Ret []
  | r :: reqs' =>
      let! q := resolve Services r in
      let! qs := resolve_all Services reqs' in
      Ret (q :: qs)
  end.

(** [s.readRequest(cc)]: the requests or an error, and the batch indication. *)
Definition readRequest (Services : gmap string (Service Data C R)) (w : conn Data C R)
    : run (result RpcError (list ServerRequest) * bool * conn Data C R) :=
  let '(reqs, batch, c) := ReadRequestHeaders (conn_codec w) in
  let w := set_codec c w in
  match reqs with
  | Err e => Ret (Err e, batch, w)
  | Ok reqs =>
      let! requests := resolve_all Services reqs in
      Ret (Ok requests, batch, w)
  end.

(** The closure [activateSub] captures the identifier and the service name. *)
Definition activation : Type := string * string.

(** [reply[i].Type()]: the declared type of the result. *)
Definition result_type (m : Method Data C R) (i : nat) : run rtype := index (m_Out m) i.

(** [s.createSubscription(ctx, c, req)]: the identifier or the error text. *)
Definition createSubscription (callb : Callback Data C R) (args : list (gvalue Data))
    (w : conn Data C R) : run (result string string * conn Data C R) :=
  let! (reply, w) := Call (cb_Method callb) ([Rcvr callb; VContext] ++ args) w in
  let! reply1 := index reply 1 in
  let! type1 := result_type (cb_Method callb) 1 in
  let! isnil := IsNil type1 reply1 in
  if negb isnil : bool then
    let! e := as_error type1 reply1 in Ret (Err e, w)
  else
    let! reply0 := index reply 0 in
    let! type0 := result_type (cb_Method callb) 0 in
    let! l := as_Subscription type0 reply0 in
    let! s := index (conn_subs w) l in
    Ret (Ok (sub_ID s), w).

(** [s.handle(ctx, cc, req)]: the response, and the activation if any. *)
Definition handle (req : ServerRequest) (w : conn Data C R)
    : run (R * option activation * conn Data C R) :=
  match sr_Err req with
  | Some e => Ret (CreateErrorResponse (Some (sr_Id req)) e, None, w)
  | None =>
      if sr_IsUnsubscribe req then
        match sr_Args req with
        | VString subid :: _ =>
            match NotifierFromContext w with
            | None =>
                Ret (CreateErrorResponse (Some (sr_Id req))
                       (CallbackError ErrNotificationsUnsupported), None, w)
            | Some _ =>
                let! (err, w) := unsubscribe subid w in
                match err with
                | Some e =>
                    Ret (CreateErrorResponse (Some (sr_Id req)) (CallbackError e), None, w)
                | None => Ret (CreateResponse (sr_Id req) (VBool true), None, w)
                end
            end
        | _ =>
            Ret (CreateErrorResponse (Some (sr_Id req))
                   (InvalidParamsError "Expected subscription id as first argument"), None, w)
        end
      else
        match sr_Callb req with
        | None => Panic
        | Some callb =>
            if IsSubscribe callb then
              let! (res, w) := createSubscription callb (sr_Args req) w in
              match res with
              | Err e => Ret (CreateErrorResponse (Some (sr_Id req)) (CallbackError e), None, w)
              | Ok subid =>
                  Ret (CreateResponse (sr_Id req) (VString subid),
                       Some (subid, sr_Svcname req), w)
              end
            else if negb (length (sr_Args req) =? length (ArgTypes callb))%nat then
              let rpcErr := InvalidParamsError
                (sr_Svcname req +:+ serviceMethodSeparator +:+ m_Name (cb_Method callb)
                 +:+ " expects " +:+ Itoa (Z.of_nat (length (ArgTypes callb)))
                 +:+ " parameters, got " +:+ Itoa (Z.of_nat (length (sr_Args req)))) in
              Ret (CreateErrorResponse (Some (sr_Id req)) rpcErr, None, w)
            else
              let arguments := [Rcvr callb] ++ (if HasCtx callb then [VContext] else []) in
              let arguments :=
                if (0 <? length (sr_Args req))%nat then arguments ++ sr_Args req else arguments in
              let! (reply, w) := Call (cb_Method callb) arguments w in
              if (length reply =? 0)%nat then
                Ret (CreateResponse (sr_Id req) VNil, None, w)
              else
                let success :=
                  let! reply0 := index reply 0 in
                  Ret (CreateResponse (sr_Id req) reply0, None, w) in
                if (0 <=? ErrPos callb)%Z then
                  let! e := index reply (Z.to_nat (ErrPos callb)) in
                  let! etype := result_type (cb_Method callb) (Z.to_nat (ErrPos callb)) in
                  let! isnil := IsNil etype e in
                  if negb isnil : bool then
                    let! msg := as_error etype e in
                    Ret (CreateErrorResponse (Some (sr_Id req)) (CallbackError msg), None, w)
                  else success
                else success
        end
  end.

(** The closure [activateSub]: a missing notifier is a nil pointer. *)
Definition activateSub (a : activation) (w : conn Data C R) : run (conn Data C R) :=
  activate a.1 a.2 w.

(** Writing a response, and closing the codec when that fails. *)
Definition write_or_close (m : message R) (w : conn Data C R) : conn Data C R :=
  let '(err, w) := write m w in
  match err with Some _ => close_codec w | None => w end.

(** The response to one request, as [exec] and [execBatch] compute it. *)
Definition respond (req : ServerRequest) (w : conn Data C R)
    : run (R * option activation * conn Data C R) :=
  match sr_Err req with
  | Some e => Ret (CreateErrorResponse (Some (sr_Id req)) e, None, w)
  | None => handle req w
  end.

(** [s.exec(ctx, cc, req)]. *)
Definition exec (req : ServerRequest) (w : conn Data C R) : run (conn Data C R) :=
  let! (response, callback, w) := respond req w in
  let w := write_or_close (One response) w in
  match callback with
  | Some cb => activateSub cb w
  | None => Ret w
  end.

(** The first loop of [execBatch]: the responses and the activations. *)
Fixpoint respond_all (requests : list ServerRequest) (w : conn Data C R)
    : run (list R * list activation * conn Data C R) :=
  match requests with
  | [] => Ret ([], [], w)
  | req :: requests' =>
      let! (response, callback, w) := respond req w in
      let! (responses, callbacks, w) := respond_all requests' w in
      Ret (response :: responses, option_list callback ++ callbacks, w)
  end.

Fixpoint activate_all (callbacks : list activation) (w : conn Data C R)
    : run (conn Data C R) :=
  match callbacks with
  | [] => Ret w
  | cb :: callbacks' => let! w := activateSub cb w in activate_all callbacks' w
  end.

(** [s.execBatch(ctx, cc, requests)]. *)
Definition execBatch (requests : list ServerRequest) (w : conn Data C R)
    : run (conn Data C R) :=
  let! (responses, callbacks, w) := respond_all requests w in
  let w := write_or_close (Many responses) w in
  activate_all callbacks w.

End Server.
Arguments ServerRequest Data C R : clear implicits.

(** ** The contract with user code

    A method body is not part of the repository.  [well_behaved] is what is
    asked of it: called with arguments of its parameter types it returns, with
    as many results as its type says, its results of an error type are nil or
    errors, and it acts on the connection only through [CreateSubscription] and
    [Notify]; a subscription method that reports no error returns a subscription
    it made.  [plain_results] is asked of its type: the registration accepts more
    result types than [handle] can take apart ([value_subscription_panics],
    [error_type_panics]). *)

Section Contract.
Context {Data C R : Type} `{ServerCodec Data C R} {DataTy : DataTypes Data} `{UnicodeTables}.
Implicit Types (w : conn Data C R).

Inductive user_step : conn Data C R -> conn Data C R -> Prop :=
| user_create id l w w' : CreateSubscription id w = Ret (l, w') -> user_step w w'
| user_notify id data e w w' : Notify id data w = Ret (e, w') -> user_step w w'.

Definition nil_or_error (v : gvalue Data) : Prop := v = VNil \/ exists msg, v = VError msg.

(** The results of a call that left the connection in [w]. *)
Definition results_fit (m : Method Data C R) (outs : list (gvalue Data)) w : Prop :=
  length outs = NumOut m /\
  (forall i t v, m_Out m !! i = Some t -> isErrorType t = true -> outs !! i = Some v ->
     nil_or_error v) /\
  (isPubSub m = true -> outs !! 1%nat = Some VNil ->
     exists l s n, outs !! 0%nat = Some (VSubscription l) /\ conn_subs w !! l = Some s /\
       conn_notifier w = Some n).

Definition well_behaved (m : Method Data C R) : Prop :=
  forall args w, call_fits args (m_In m) = true -> wf_conn w ->
  exists outs w', m_Func m args w = Ret (outs, w') /\ rtc user_step w w' /\ results_fit m outs w'.

(** A result of an error type has a nil and implements [error] itself (the
    registration looks through pointers), and a subscription is returned by a
    pointer. *)
Definition plain_results (m : Method Data C R) : bool :=
  forallb (fun t => negb (isErrorType t) || (nilable t && type_Implements_error t)) (m_Out m) &&
  (negb (isPubSub m) || bool_decide (m_Out m !! 0%nat = Some (ptr_to subscriptionType))).

Definition method_contract (m : Method Data C R) : Prop :=
  well_behaved m /\ plain_results m = true.

(** The context of a subscription method is a [context.Context] by value. *)
Definition context_by_value (m : Method Data C R) : Prop :=
  forall t, m_In m !! 1%nat = Some t -> isContextType t = true -> t = contextType.

Definition good_entries (cs : gmap string (Callback Data C R)) : Prop :=
  map_Forall (fun _ h => method_contract (cb_Method h) /\
    (IsSubscribe h = true -> HasCtx h = true)) cs.

(** A registry whose entries are well formed and whose methods keep the
    contract. *)
Definition good_registry (Services : gmap string (Service Data C R)) : Prop :=
  wf_registry Services /\
  map_Forall (fun _ svc => good_entries (svc_Callbacks svc) /\
    good_entries (svc_Subscriptions svc)) Services.

(** Arguments that are as many as the method asks for have its types. *)
Definition args_match (callb : Callback Data C R) (args : list (gvalue Data)) : Prop :=
  length args = length (ArgTypes callb) -> assignable_all args (ArgTypes callb) = true.

(** A resolved request that can be executed: an error, a cancellation, or a
    callback with its arguments. *)
Definition executable (req : ServerRequest Data C R) : Prop :=
  sr_Err req <> None \/ sr_IsUnsubscribe req = true \/
  exists callb, sr_Callb req = Some callb /\ method_contract (cb_Method callb) /\
    args_match callb (sr_Args req) /\
    (wf_callback callb \/
     wf_subscription callb /\ HasCtx callb = true /\
     length (sr_Args req) = length (ArgTypes callb)).

End Contract.

Section Proofs.
Context {Data C R : Type} `{ServerCodec Data C R} {DataTy : DataTypes Data} `{UnicodeTables}.
Context `{!ServerCodecLaws Data C R}.
Implicit Types (w : conn Data C R) (req : ServerRequest Data C R).

Lemma user_step_notifier_step w w' : user_step w w' -> notifier_step w w'.
Proof. intros []; [eapply step_create|eapply step_notify]; eauto. Qed.

Lemma user_steps_wf w w' : rtc user_step w w' -> wf_conn w -> wf_conn w'.
Proof.
  apply rtc_preserves. intros w1 w2 Hwf Hs. eapply notifier_step_wf; [|done].
  by apply user_step_notifier_step.
Qed.

(** A call of user code only appends notifications to the log. *)
Definition only_notifies (l : list (event Data R)) : Prop :=
  Forall (fun e => exists id ns d err, e = EvNotify id ns d err) l.

Lemma user_step_log w w' :
  user_step w w' -> exists l, conn_log w' = conn_log w ++ l /\ only_notifies l.
Proof.
  intros [id l w1 w2 Hc|id data e w1 w2 Hn].
  - unfold CreateSubscription in Hc. destruct (conn_notifier w1); simplify_eq/=.
    exists []. rewrite app_nil_r. split; [done|constructor].
  - unfold Notify in Hn. destruct (conn_notifier w1) as [n|]; [|done].
    destruct (active n !! id); [|simplify_eq; exists []; rewrite app_nil_r; split; [done|constructor]].
    destruct (conn_subs w1 !! _) as [s|]; [|done].
    destruct (Write _ _) as [[err|] c]; simplify_eq/=; eexists; (split; [done|]);
      repeat constructor; eauto.
Qed.

Lemma user_steps_log w w' :
  rtc user_step w w' -> exists l, conn_log w' = conn_log w ++ l /\ only_notifies l.
Proof.
  induction 1 as [w|w1 w2 w3 Hs _ IH].
  - exists []. rewrite app_nil_r. split; [done|constructor].
  - apply user_step_log in Hs as (l1 & E1 & Hl1). destruct IH as (l2 & E2 & Hl2).
    exists (l1 ++ l2). rewrite E2, E1, app_assoc. split; [done|]. by apply Forall_app.
Qed.

Lemma good_registry_lookup Services name svc :
  good_registry Services -> Services !! name = Some svc ->
  wf_service name svc /\ good_entries (svc_Callbacks svc) /\ good_entries (svc_Subscriptions svc).
Proof. intros [Hwf Hg] Hs. split; [by apply Hwf|by apply (Hg name)]. Qed.

Lemma no_args_match (cb : Callback Data C R) : args_match cb [].
Proof. unfold args_match. by destruct (ArgTypes cb). Qed.

(** The whole argument list of a call fits the method's parameters. *)
Lemma parameters_assignable (cb : Callback Data C R) args :
  parameters_match cb -> assignable_all args (ArgTypes cb) = true ->
  call_fits (Rcvr cb :: (if HasCtx cb then [VContext] else []) ++ args) (m_In (cb_Method cb)) = true.
Proof.
  intros (n & recv & -> & ->) Ha. simpl. apply assignable_all_app; [|done].
  by destruct (HasCtx cb).
Qed.

(** Resolving never panics, and yields an executable request with the id. *)
Lemma resolve_executable Services r :
  good_registry Services -> has_params r ->
  exists req, resolve Services r = Ret req /\ executable req /\ sr_Id req = req_Id r.
Proof.
  intros Hg Hp. unfold resolve, executable, has_params in *.
  destruct (req_Err r); [eexists; naive_solver|].
  destruct (req_IsPubSub r && _).
  { destruct (ParseRequestArguments _ _); eexists; naive_solver. }
  destruct (Services !! req_Service r) as [svc|] eqn:Es; [|eexists; naive_solver].
  destruct (good_registry_lookup _ _ _ Hg Es) as ((_ & _ & _ & Hw1 & Hw2) & Hg1 & Hg2).
  destruct (req_IsPubSub r).
  - destruct (svc_Subscriptions svc !! req_Method r) as [cb|] eqn:Ec; [|eexists; naive_solver].
    destruct (Hw2 _ _ Ec) as [_ Hwf]. destruct (Hg2 _ _ Ec) as [Hwb Hctx].
    specialize (Hctx (proj1 Hwf)). rewrite bool_decide_eq_true_2 by auto. cbv zeta.
    destruct (0 <? length (ArgTypes cb)) eqn:Eb; simpl; bool_prop.
    + destruct (ParseRequestArguments _ _) as [args|e] eqn:Ep; [|eexists; naive_solver].
      apply parse_typed in Ep. destruct args as [|a args]; [done|]. simpl in Ep.
      apply andb_true_iff in Ep as [_ Ep]. apply assignable_all_length in Ep as El.
      eexists. split; [done|]. split; [|done]. right; right. eexists. split; [done|].
      split; [done|]. split; [by intros _|]. by right.
    + eexists. split; [done|]. split; [|done]. right; right. eexists. split; [done|].
      split; [done|]. split; [by apply no_args_match|]. right. simpl. auto with lia.
  - destruct (svc_Callbacks svc !! req_Method r) as [cb|] eqn:Ec; [|eexists; naive_solver].
    destruct (Hw1 _ _ Ec) as [_ Hwf]. destruct (Hg1 _ _ Ec) as [Hwb _]. cbv zeta.
    assert (Hgo : forall args, args_match cb args -> exists req,
      Ret (mkServerRequest (req_Id r) (svc_Name svc) (Some cb) args false None) = Ret req /\
      executable req /\ sr_Id req = req_Id r).
    { intros args Ha. eexists. split; [done|]. split; [|done]. right; right. exists cb. naive_solver. }
    destruct (bool_decide _ && _); [|by apply Hgo, no_args_match].
    destruct (ParseRequestArguments _ _) as [args|e] eqn:Ep; [|eexists; naive_solver].
    apply Hgo. intros _. by eapply parse_typed.
Qed.

Lemma resolve_unsubscribe Services r q :
  resolve Services r = Ret q -> sr_IsUnsubscribe q = true -> sr_Callb q = None.
Proof.
  unfold resolve, error_request. destruct (req_Err r); [by intros [= <-]|].
  destruct (req_IsPubSub r && _); [by destruct (ParseRequestArguments _ _); intros [= <-]|].
  intros Hr. repeat (case_match; simplify_eq/=; try done). all: by unfold slice_from_1 in *; go_cases_in.
Qed.

Lemma index_Some {A} (l : list A) i x : l !! i = Some x -> index l i = Ret x.
Proof. unfold index. by intros ->. Qed.

(** What [handle] and [respond] guarantee of an executable request: no panic, a
    response for its id, a well-formed connection whose log only gained
    notifications, and an activation only when there is a notifier. *)
Definition responds req w (res : run (R * option activation * conn Data C R)) : Prop :=
  exists resp act w' l, res = Ret (resp, act, w') /\
    response_id resp = Some (sr_Id req) /\ wf_conn w' /\
    conn_log w' = conn_log w ++ l /\ only_notifies l /\
    (act <> None -> conn_notifier w' <> None).

Lemma responds_now req w r :
  wf_conn w -> response_id r = Some (sr_Id req) -> responds req w (Ret (r, None, w)).
Proof.
  intros Hwf Hr. exists r, None, w, []. rewrite app_nil_r. split_and!; try done. constructor.
Qed.

Lemma unsubscribe_total id w n :
  wf_conn w -> conn_notifier w = Some n ->
  exists e w', unsubscribe id w = Ret (e, w') /\ conn_log w' = conn_log w.
Proof.
  unfold wf_conn, unsubscribe. intros Hwf Hn. rewrite Hn in *. destruct Hwf as (Ha & _ & _).
  destruct (active n !! id) as [l|] eqn:El; [|eauto].
  destruct (Ha _ _ El) as (s & Hs & _ & Hc). unfold close_err. rewrite Hs, Hc. eauto.
Qed.

Lemma handle_unsubscribe req w :
  sr_Err req = None -> sr_IsUnsubscribe req = true -> wf_conn w ->
  responds req w (handle req w).
Proof.
  intros He Hu Hwf. unfold handle. rewrite He, Hu.
  assert (Hbad : responds req w (Ret (CreateErrorResponse (Some (sr_Id req))
    (InvalidParamsError "Expected subscription id as first argument"), None, w)))
    by (apply responds_now; [done|apply response_id_err]).
  destruct (sr_Args req) as [|[] args]; try done.
  unfold NotifierFromContext. destruct (conn_notifier w) as [n|] eqn:En.
  2:{ apply responds_now; [done|apply response_id_err]. }
  destruct (unsubscribe_total s w n Hwf En) as (e & w' & E & Hlog). rewrite E.
  assert (Hwf' : wf_conn w') by (by eapply unsubscribe_wf).
  assert (Hresp : forall r, response_id r = Some (sr_Id req) ->
            responds req w (Ret (r, None, w'))).
  { intros r Hr. exists r, None, w', []. rewrite app_nil_r. split_and!; try done. constructor. }
  destruct e; apply Hresp; [apply response_id_err|apply response_id_ok].
Qed.

Lemma plain_error (m : Method Data C R) i t :
  plain_results m = true -> m_Out m !! i = Some t -> isErrorType t = true ->
  nilable t = true /\ type_Implements_error t = true.
Proof.
  unfold plain_results. rewrite andb_true_iff, forallb_forall. intros [Hp _] Ht He.
  specialize (Hp t). rewrite He in Hp. simpl in Hp. apply andb_true_iff, Hp.
  apply list_elem_of_In. by eapply list_elem_of_lookup_2.
Qed.

Lemma plain_subscription (m : Method Data C R) :
  plain_results m = true -> isPubSub m = true -> m_Out m !! 0 = Some (ptr_to subscriptionType).
Proof.
  unfold plain_results. rewrite andb_true_iff. intros [_ Hp] Hps. rewrite Hps in Hp.
  by apply bool_decide_eq_true in Hp.
Qed.

(** A nil or an error as the result of a type with both. *)
Lemma IsNil_error t v :
  nilable t = true -> nil_or_error (Data:=Data) v ->
  IsNil t v = Ret (match v with VNil => true | _ => false end).
Proof. unfold IsNil. by intros ->. Qed.

Lemma as_error_message t msg :
  type_Implements_error t = true -> as_error (Data:=Data) t (VError msg) = Ret msg.
Proof. unfold as_error. by intros ->. Qed.

Lemma isPubSub_error m :
  isPubSub (Data:=Data) (C:=C) (R:=R) m = true ->
  exists t, m_Out m !! 1 = Some t /\ isErrorType t = true.
Proof.
  unfold isPubSub. destruct (_ || _); [done|].
  destruct (m_In m !! 1), (m_Out m !! 0), (m_Out m !! 1) as [t|]; try done.
  rewrite andb_true_iff. naive_solver.
Qed.

Lemma handle_subscribe req w callb :
  sr_Err req = None -> sr_IsUnsubscribe req = false -> sr_Callb req = Some callb ->
  method_contract (cb_Method callb) -> wf_subscription callb -> HasCtx callb = true ->
  args_match callb (sr_Args req) -> length (sr_Args req) = length (ArgTypes callb) -> wf_conn w ->
  responds req w (handle req w).
Proof.
  intros He Hu Hc [Hwb Hplain] (Hsub & Hps & Hpar) Hctx Ha Hlen Hwf.
  unfold handle, createSubscription, Call. rewrite He, Hu, Hc, Hsub.
  pose proof (parameters_assignable _ _ Hpar (Ha Hlen)) as Hty. rewrite Hctx in Hty.
  change (Rcvr callb :: [VContext] ++ sr_Args req) with ([Rcvr callb; VContext] ++ sr_Args req) in Hty.
  rewrite Hty.
  destruct (Hwb ([Rcvr callb; VContext] ++ sr_Args req) w) as
    (outs & w' & -> & Hsteps & Hn & Herr & Hok); [done|done|].
  apply user_steps_wf in Hsteps as Hwf'; [|done].
  apply user_steps_log in Hsteps as (l & Hlog & Hnl).
  destruct (isPubSub_NumIn _ Hps) as [_ Hn2]. rewrite Hn2 in Hn.
  destruct (isPubSub_error _ Hps) as (t & Ht & Hterr).
  destruct (lookup_lt_is_Some_2 outs 1) as [v Hv]; [lia|].
  destruct (plain_error _ _ _ Hplain Ht Hterr) as [Hnil Himp].
  unfold result_type. rewrite (index_Some _ _ _ Hv), (index_Some _ _ _ Ht).
  rewrite (IsNil_error _ _ Hnil) by by eapply Herr.
  destruct (Herr 1 t v Ht Hterr Hv) as [->|[msg ->]]; simpl.
  - destruct (Hok Hps Hv) as (l0 & s & n & H0' & Hs & Hnot).
    rewrite (index_Some _ _ _ H0'), (index_Some _ _ _ (plain_subscription _ Hplain Hps)).
    unfold as_Subscription. rewrite bool_decide_eq_true_2 by done. rewrite (index_Some _ _ _ Hs).
    eexists _, _, w', l. split; [done|]. rewrite Hnot. split_and!; try done.
    apply response_id_ok.
  - rewrite (as_error_message _ _ Himp).
    eexists _, _, w', l. split; [done|]. split_and!; try done. apply response_id_err.
Qed.

(** The arguments as [handle] assembles them. *)
Lemma call_arguments (cb : Callback Data C R) args :
  (if 0 <? length args then ([Rcvr cb] ++ (if HasCtx cb then [VContext] else [])) ++ args
   else [Rcvr cb] ++ (if HasCtx cb then [VContext] else [])) =
  Rcvr cb :: (if HasCtx cb then [VContext] else []) ++ args.
Proof. destruct args; simpl; by rewrite ?app_nil_r. Qed.

Lemma handle_call req w callb :
  sr_Err req = None -> sr_IsUnsubscribe req = false -> sr_Callb req = Some callb ->
  method_contract (cb_Method callb) -> wf_callback callb -> args_match callb (sr_Args req) ->
  wf_conn w -> responds req w (handle req w).
Proof.
  intros He Hu Hc [Hwb Hplain] (Hsub & Hpar & Hn2 & Hpos & _) Ha Hwf.
  unfold handle, Call. rewrite He, Hu, Hc, Hsub.
  destruct (length (sr_Args req) =? length (ArgTypes callb)) eqn:El; bool_prop; simpl.
  2:{ apply responds_now; [done|apply response_id_err]. }
  set (args := if 0 <? length (sr_Args req) then _ else _).
  assert (Hl : call_fits args (m_In (cb_Method callb)) = true).
  { replace args with (Rcvr callb :: (if HasCtx callb then [VContext] else []) ++ sr_Args req)
      by (symmetry; exact (call_arguments callb (sr_Args req))).
    by apply parameters_assignable, Ha. }
  rewrite Hl. destruct (Hwb args w) as (outs & w' & -> & Hsteps & Hn & Herr & _); [done|done|].
  apply user_steps_wf in Hsteps as Hwf'; [|done].
  apply user_steps_log in Hsteps as (l & Hlog & Hnl).
  assert (Hresp : forall r, response_id r = Some (sr_Id req) ->
            responds req w (Ret (r, None, w'))).
  { intros r Hr. exists r, None, w', l. split_and!; done. }
  destruct (length outs =? 0) eqn:E0; bool_prop; [apply Hresp, response_id_ok|].
  destruct outs as [|v0 outs]; [done|].
  destruct (0 <=? ErrPos callb)%Z eqn:Ep; bool_prop; [|apply Hresp, response_id_ok].
  destruct Hpos as [Hpos|(Hpos & Hn1 & t & Ht & Hterr)]; [lia|].
  rewrite last_lookup in Ht. unfold NumOut in *.
  replace (Z.to_nat (ErrPos callb)) with (pred (length (m_Out (cb_Method callb)))) by lia.
  destruct (lookup_lt_is_Some_2 (v0 :: outs) (pred (length (m_Out (cb_Method callb))))) as [v Hv];
    [lia|].
  destruct (plain_error _ _ _ Hplain Ht Hterr) as [Hnil Himp].
  unfold result_type. rewrite (index_Some _ _ _ Hv), (index_Some _ _ _ Ht).
  rewrite (IsNil_error _ _ Hnil) by by eapply Herr.
  destruct (Herr _ t v Ht Hterr Hv) as [->|[msg ->]]; simpl;
    rewrite ?(as_error_message _ _ Himp); apply Hresp;
    [apply response_id_ok|apply response_id_err].
Qed.

Lemma respond_responds req w : executable req -> wf_conn w -> responds req w (respond req w).
Proof.
  intros Hex Hwf. unfold respond. destruct (sr_Err req) as [e|] eqn:He.
  { apply responds_now; [done|apply response_id_err]. }
  destruct (sr_IsUnsubscribe req) eqn:Hu; [by apply handle_unsubscribe|].
  destruct Hex as [?|[?|(cb & Hc & Hwb & Ha & [Hw|(Hw & Hctx & Hlen)])]]; [done|congruence|..].
  - by eapply handle_call.
  - by eapply handle_subscribe.
Qed.

Lemma write_or_close_spec (m : message R) w :
  wf_conn w ->
  wf_conn (write_or_close m w) /\
  conn_log (write_or_close m w) = conn_log w ++ [EvResponse m (Write m (conn_codec w)).1] /\
  conn_notifier (write_or_close m w) = conn_notifier w.
Proof.
  unfold write_or_close, write. intros Hwf. by destruct (Write _ _) as [[e|] c].
Qed.

Lemma activate_total id ns w :
  wf_conn w -> conn_notifier w <> None ->
  exists w', activate id ns w = Ret w' /\ wf_conn w' /\ conn_log w' = conn_log w /\
    conn_notifier w' <> None.
Proof.
  intros Hwf Hn.
  assert (exists w', activate id ns w = Ret w' /\ conn_log w' = conn_log w /\
            conn_notifier w' <> None) as (w' & E & Hl & Hn').
  { unfold activate. unfold wf_conn in Hwf. destruct (conn_notifier w) as [n|] eqn:En; [|done].
    destruct Hwf as (_ & Hi & _). destruct (inactive n !! id) as [l|] eqn:El.
    - destruct (Hi _ _ El) as (s & Hs & _). rewrite Hs. eauto.
    - eexists. rewrite En. eauto. }
  exists w'. split_and!; [done| |done..]. by eapply activate_wf.
Qed.

Lemma activate_all_total acts w :
  wf_conn w -> (acts <> [] -> conn_notifier w <> None) ->
  exists w', activate_all acts w = Ret w' /\ wf_conn w' /\ conn_log w' = conn_log w.
Proof.
  revert w. induction acts as [|a acts IH]; intros w Hwf Hn; simpl; [by exists w|].
  unfold activateSub.
  destruct (activate_total a.1 a.2 w) as (w1 & -> & Hwf1 & Hl1 & Hn1); [done|by apply Hn|].
  destruct (IH w1 Hwf1 ltac:(done)) as (w2 & -> & Hwf2 & Hl2).
  exists w2. split_and!; [done..|congruence].
Qed.

Lemma user_steps_notifier w w' :
  rtc user_step w w' -> conn_notifier w <> None -> conn_notifier w' <> None.
Proof.
  apply (rtc_preserves user_step (fun w => conn_notifier w <> None)). intros w1 w2 Hn Hs.
  destruct Hs as [id l w1 w2 Hc|id data e w1 w2 Hc].
  - unfold CreateSubscription in Hc. by destruct (conn_notifier w1); simplify_eq/=.
  - unfold Notify in Hc. destruct (conn_notifier w1) as [n|] eqn:En; [|done].
    destruct (active n !! id); [|by simplify_eq; rewrite En].
    destruct (conn_subs w1 !! _) as [s|]; [|done].
    destruct (Write _ _) as [[err|] c]; by simplify_eq/=.
Qed.

(** The notifier of a connection is never taken away by a request. *)
Lemma respond_keeps_notifier req w res :
  executable req -> wf_conn w -> respond req w = Ret res ->
  conn_notifier w <> None -> conn_notifier res.2 <> None.
Proof.
  intros Hex Hwf. unfold respond, handle. destruct (sr_Err req) eqn:He; [by intros [= <-]|].
  destruct (sr_IsUnsubscribe req) eqn:Hu.
  { destruct (sr_Args req) as [|[] args]; try by intros [= <-].
    unfold NotifierFromContext. destruct (conn_notifier w) as [n|] eqn:En; [|by intros [= <-]].
    unfold unsubscribe. rewrite En. destruct (active n !! s).
    - destruct (close_err _ _); [|done]. by intros [= <-].
    - intros [= <-]. simpl. by rewrite En. }
  destruct Hex as [?|[?|(cb & -> & [Hwb _] & _)]]; [done|congruence|].
  unfold createSubscription, Call.
  destruct (IsSubscribe cb).
  - destruct (call_fits _ _) eqn:El; [|done].
    destruct (Hwb _ w El Hwf) as (outs & w' & -> & Hsteps & _).
    intros Hr Hn. apply user_steps_notifier in Hsteps; [|done]. go_cases_in; done.
  - destruct (negb _); [by intros [= <-]|].
    destruct (call_fits _ _) eqn:El; [|done].
    destruct (Hwb _ w El Hwf) as (outs & w' & -> & Hsteps & _).
    intros Hr Hn. apply user_steps_notifier in Hsteps; [|done]. go_cases_in; done.
Qed.

Lemma resolve_all_executable Services rs :
  good_registry Services -> Forall has_params rs ->
  exists reqs, resolve_all Services rs = Ret reqs /\ Forall executable reqs /\
    sr_Id <$> reqs = req_Id <$> rs.
Proof.
  intros Hg. induction 1 as [|r rs Hp Hps IH]; simpl; [by exists []|].
  destruct (resolve_executable Services r Hg Hp) as (q & -> & Hq & Hid).
  destruct IH as (qs & -> & Hqs & Hids).
  exists (q :: qs). split_and!; [done|by constructor|]. rewrite !fmap_cons. by f_equal.
Qed.

(** The responses of a batch answer its requests in order. *)
Lemma respond_all_responds reqs w :
  Forall executable reqs -> wf_conn w ->
  exists resps acts w' l, respond_all reqs w = Ret (resps, acts, w') /\
    response_id <$> resps = (fun q => Some (sr_Id q)) <$> reqs /\ wf_conn w' /\
    conn_log w' = conn_log w ++ l /\ only_notifies l /\
    (acts <> [] -> conn_notifier w' <> None) /\
    (conn_notifier w <> None -> conn_notifier w' <> None).
Proof.
  intros Hex. revert w. induction Hex as [|q reqs Hq Hex IH]; intros w Hwf; simpl.
  { exists [], [], w, []. rewrite app_nil_r. split_and!; try done. constructor. }
  destruct (respond_responds q w Hq Hwf)
    as (r & act & w1 & l1 & Hr & Hid & Hwf1 & Hlog1 & Hl1 & Hact).
  rewrite Hr. destruct (IH w1 Hwf1)
    as (rs & acts & w2 & l2 & -> & Hids & Hwf2 & Hlog2 & Hl2 & Hacts & Hkeep).
  exists (r :: rs), (option_list act ++ acts), w2, (l1 ++ l2).
  assert (Hk1 : conn_notifier w <> None -> conn_notifier w1 <> None)
    by exact (respond_keeps_notifier q w (r, act, w1) Hq Hwf Hr).
  split_and!; [done| |done| | | |auto].
  - rewrite !fmap_cons. by f_equal.
  - by rewrite Hlog2, Hlog1, app_assoc.
  - by apply Forall_app.
  - destruct act; simpl; [intros _; apply Hkeep, Hact; done|auto].
Qed.

(** ** Registries of methods that keep the contract *)

Definition keeps_contract (m : Method Data C R) : Prop :=
  has_receiver m /\ method_contract m /\ context_by_value m.

Lemma suitableCallbacks_good rcvr ms :
  Forall keeps_contract ms ->
  good_entries (suitableCallbacks rcvr ms).1 /\ good_entries (suitableCallbacks rcvr ms).2.
Proof.
  intros Hms. rewrite Forall_forall in Hms.
  split; intros k h Hk; apply suitableCallbacks_sound in Hk as (m & Hm & Hs);
    destruct (Hms m Hm) as (_ & Hwb & Hcv).
  - apply suitable_callback in Hs as (_ & -> & _ & _ & Hsub & _). split; [done|]. by rewrite Hsub.
  - apply suitable_subscription in Hs as (_ & -> & _ & _ & _ & Hps & -> & _). split; [done|].
    intros _. destruct (isPubSub_NumIn m Hps) as [Hn _]. apply andb_true_iff.
    split; [by apply Nat.leb_le|]. apply bool_decide_eq_true_2.
    unfold isPubSub in Hps. destruct (_ || _); [done|].
    destruct (m_In m !! 1%nat) as [t|] eqn:Et; [|done].
    destruct (m_Out m !! 0%nat); [|done]. destruct (m_Out m !! 1%nat); [|done].
    rewrite !andb_true_iff in Hps. destruct Hps as [[Hc _] _]. by rewrite (Hcv t Et Hc).
Qed.

Lemma RegisterName_good Services name rcvr Services' :
  Forall keeps_contract (rc_Methods rcvr) -> good_registry Services ->
  RegisterName Services name rcvr = Ok Services' -> good_registry Services'.
Proof.
  intros Hms [Hwf Hg] Hok.
  assert (Hr : Forall has_receiver (rc_Methods rcvr)).
  { eapply Forall_impl; [exact Hms|]. by intros m [? _]. }
  split; [by eapply RegisterName_wf|].
  destruct (RegisterName_ok _ _ _ _ Hr Hok) as (_ & _ & _ & old & Hold & ->).
  destruct (suitableCallbacks_good (VReceiver (rc_Name rcvr)) _ Hms) as [H1 H2].
  apply map_Forall_insert_2; [|done]. simpl.
  assert (good_entries (svc_Callbacks old) /\ good_entries (svc_Subscriptions old)) as [H3 H4].
  { destruct (Services !! name) as [svc|] eqn:E; simpl in Hold; subst old; [by eapply Hg|].
    split; apply map_Forall_empty. }
  split; by apply map_Forall_union_2.
Qed.

Lemma RegisterAll_good_from l Services Services' :
  Forall (fun nr => Forall keeps_contract (rc_Methods nr.2)) l -> good_registry Services ->
  RegisterAll Services l = Ok Services' -> good_registry Services'.
Proof.
  intros Hl. revert Services. induction Hl as [|[name rcvr] l Hr Hl IH]; intros S0 Hg; simpl;
    [by intros [= <-]|].
  destruct (RegisterName S0 name rcvr) as [S1|] eqn:E; [|done].
  apply IH. by eapply RegisterName_good.
Qed.

Lemma good_registry_empty : good_registry (∅ : gmap string (Service Data C R)).
Proof. split; apply map_Forall_empty. Qed.

(** ** Properties *)

(** Executing a resolved request never panics, whatever the registered
    methods do within their contract: it writes exactly one response, for the
    request's id, after whatever notifications the method sent, and leaves the
    connection well formed. *)
Theorem exec_answers_once req w :
  executable req -> wf_conn w ->
  exists w' l resp err, exec req w = Ret w' /\ wf_conn w' /\
    conn_log w' = conn_log w ++ l ++ [EvResponse (One resp) err] /\ only_notifies l /\
    response_id resp = Some (sr_Id req).
Proof.
  intros Hex Hwf. destruct (respond_responds req w Hex Hwf)
    as (r & act & w1 & l & Hr & Hid & Hwf1 & Hlog & Hl & Hact).
  unfold exec. rewrite Hr.
  destruct (write_or_close_spec (One r) w1 Hwf1) as (Hwf2 & Hlog2 & Hn2).
  rewrite Hlog, <-app_assoc in Hlog2. destruct act as [a|].
  - unfold activateSub. destruct (activate_total a.1 a.2 (write_or_close (One r) w1))
      as (w3 & -> & Hwf3 & Hlog3 & _); [done|rewrite Hn2; by apply Hact|].
    exists w3, l, r. eexists. split_and!; [done..|rewrite Hlog3; exact Hlog2|done|done].
  - eexists _, l, r, _. split_and!; done.
Qed.

(** Executing a batch writes one message with one response per request, in
    the order of the requests, and panics no more than its requests do. *)
Theorem execBatch_answers_each reqs w :
  Forall executable reqs -> wf_conn w ->
  exists w' l resps err, execBatch reqs w = Ret w' /\ wf_conn w' /\
    conn_log w' = conn_log w ++ l ++ [EvResponse (Many resps) err] /\ only_notifies l /\
    response_id <$> resps = (fun q => Some (sr_Id q)) <$> reqs.
Proof.
  intros Hex Hwf. destruct (respond_all_responds reqs w Hex Hwf)
    as (rs & acts & w1 & l & Hr & Hids & Hwf1 & Hlog & Hl & Hacts & _).
  unfold execBatch. rewrite Hr.
  destruct (write_or_close_spec (Many rs) w1 Hwf1) as (Hwf2 & Hlog2 & Hn2).
  rewrite Hlog, <-app_assoc in Hlog2.
  destruct (activate_all_total acts (write_or_close (Many rs) w1) Hwf2)
    as (w3 & -> & Hwf3 & Hlog3); [rewrite Hn2; done|].
  exists w3, l, rs. eexists. split_and!; [done..|rewrite Hlog3; exact Hlog2|done|done].
Qed.

(** [ReadRequest] on a registry of well-behaved services never panics; the
    requests it returns are executable and keep the ids and the order the
    codec gave, and outside a batch there is exactly one. *)
Theorem readRequest_total Services w :
  good_registry Services ->
  exists res batch w', readRequest Services w = Ret (res, batch, w') /\
    match (ReadRequestHeaders (conn_codec w)).1.1, res with
    | Err e, Err e' => e' = e
    | Ok rs, Ok reqs =>
        Forall executable reqs /\ sr_Id <$> reqs = req_Id <$> rs /\
        (batch = false -> exists req, reqs = [req])
    | _, _ => False
    end.
Proof.
  intros Hg. unfold readRequest.
  destruct (ReadRequestHeaders (conn_codec w)) as [[[rs|e] batch] c] eqn:E; simpl.
  2:{ eexists _, _, _. split; [done|]. done. }
  destruct (resolve_all_executable Services rs Hg) as (reqs & -> & Hex & Hids).
  { by eapply read_params. }
  eexists _, _, _. split; [done|]. simpl. split_and!; [done..|]. intros ->.
  apply read_single in E. apply (f_equal length) in Hids. rewrite !length_fmap in Hids.
  destruct reqs as [|q [|? ?]]; simpl in *; [lia|eauto|lia].
Qed.

(** The response to a call, from the registry to the result. *)
Lemma call_responds Services r svc cb params args w outs w' :
  good_registry Services ->
  req_Err r = None -> req_IsPubSub r = false -> req_Params r = Some params ->
  Services !! req_Service r = Some svc -> svc_Callbacks svc !! req_Method r = Some cb ->
  ParseRequestArguments (ArgTypes cb) (Some params) = Ok args ->
  m_Func (cb_Method cb) (Rcvr cb :: (if HasCtx cb then [VContext] else []) ++ args) w
    = Ret (outs, w') ->
  length outs = NumOut (cb_Method cb) ->
  (0 <= ErrPos cb -> exists v, last outs = Some v /\ nil_or_error v)%Z ->
  (let! q := resolve Services r in respond q w) =
  Ret (match outs with
       | [] => CreateResponse (req_Id r) VNil
       | v0 :: _ =>
           match last outs with
           | Some (VError msg) =>
               if (0 <=? ErrPos cb)%Z
               then CreateErrorResponse (Some (req_Id r)) (CallbackError msg)
               else CreateResponse (req_Id r) v0
           | _ => CreateResponse (req_Id r) v0
           end
       end, None, w').
Proof.
  intros Hg He Hps Hpar Hsvc Hcb Hargs Hrun Hout Herr.
  destruct (good_registry_lookup _ _ _ Hg Hsvc) as ((_ & _ & _ & Hw1 & _) & Hg1 & _).
  destruct (Hw1 _ _ Hcb) as (_ & Hsub & Hmatch & _ & Hpos & _).
  destruct (Hg1 _ _ Hcb) as [[_ Hplain] _].
  apply parse_typed in Hargs as Hty. apply assignable_all_length in Hty as Hpl.
  assert (Hres : resolve Services r = Ret (mkServerRequest (req_Id r) (svc_Name svc) (Some cb)
                   args false None)).
  { unfold resolve. rewrite He, Hps, Hsvc, Hcb, Hpar. simpl.
    destruct (0 <? length (ArgTypes cb)) eqn:E; bool_prop; [by rewrite Hargs|].
    destruct args; [done|]. simpl in Hpl. lia. }
  rewrite Hres. unfold respond, handle, Call.
  cbn [sr_Err sr_IsUnsubscribe sr_Callb sr_Args sr_Id].
  rewrite Hsub, Hpl, Nat.eqb_refl. cbn [negb]. rewrite <-Hpl.
  rewrite call_arguments, (parameters_assignable _ _ Hmatch Hty), Hrun. destruct outs as [|v0 outs]; simpl; [done|].
  destruct (0 <=? ErrPos cb)%Z eqn:Ep; bool_prop.
  2:{ by destruct (last (v0 :: outs)) as [[]|]. }
  destruct (Herr Ep) as (v & Hv & Hnoe). simpl in Hv. simpl. rewrite Hv.
  destruct Hpos as [Hpos|(Hpos & Hn1 & t & Ht & Hterr)]; [lia|].
  rewrite last_lookup in Ht. unfold NumOut in *.
  replace (pred (length (m_Out (cb_Method cb)))) with (Z.to_nat (ErrPos cb)) in Ht by lia.
  destruct (plain_error _ _ _ Hplain Ht Hterr) as [Hnil Himp].
  assert (Hidx : (v0 :: outs) !! Z.to_nat (ErrPos cb) = Some v).
  { rewrite <-Hv. change (match outs with [] => Some v0 | _ => last outs end)
      with (last (v0 :: outs)). rewrite last_lookup. f_equal. simpl in *. lia. }
  unfold result_type. rewrite (index_Some _ _ _ Hidx), (index_Some _ _ _ Ht).
  rewrite (IsNil_error _ _ Hnil) by done.
  destruct Hnoe as [->|[msg ->]]; simpl; [done|]. by rewrite (as_error_message _ _ Himp).
Qed.

(** C16: in a registry of methods that keep the contract, a call of a
    registered method runs that method, on the receiver it was
    registered with, with the context when it takes one and the arguments
    parsed at its types, and answers with its first result, its error as a
    callback error, or null when it returns nothing. *)
Theorem call_reaches_method Services r svc cb params args w outs w' :
  good_registry Services ->
  req_Err r = None -> req_IsPubSub r = false -> req_Params r = Some params ->
  Services !! req_Service r = Some svc -> svc_Callbacks svc !! req_Method r = Some cb ->
  ParseRequestArguments (ArgTypes cb) (Some params) = Ok args ->
  m_Func (cb_Method cb) (Rcvr cb :: (if HasCtx cb then [VContext] else []) ++ args) w
    = Ret (outs, w') ->
  length outs = NumOut (cb_Method cb) ->
  (0 <= ErrPos cb -> exists v, last outs = Some v /\ nil_or_error v)%Z ->
  (let! q := resolve Services r in respond q w) =
  Ret (match outs with
       | [] => CreateResponse (req_Id r) VNil
       | v0 :: _ =>
           match last outs with
           | Some (VError msg) =>
               if (0 <=? ErrPos cb)%Z
               then CreateErrorResponse (Some (req_Id r)) (CallbackError msg)
               else CreateResponse (req_Id r) v0
           | _ => CreateResponse (req_Id r) v0
           end
       end, None, w').
Proof. apply call_responds. Qed.

(** The request for a method with another body of the same type. *)
Definition with_body (req : ServerRequest Data C R)
    (f : list (gvalue Data) -> conn Data C R -> run (list (gvalue Data) * conn Data C R)) :
    ServerRequest Data C R :=
  mkServerRequest (sr_Id req) (sr_Svcname req)
    ((fun cb =>
        let m := cb_Method cb in
        mkCallback (Rcvr cb) (mkMethod (m_Name m) (m_PkgPath m) (m_In m) (m_Out m) f)
          (ArgTypes cb) (HasCtx cb) (ErrPos cb) (IsSubscribe cb)) <$> sr_Callb req)
    (sr_Args req) (sr_IsUnsubscribe req) (sr_Err req).

(** The arguments a method is called with. *)
Definition parameters (cb : Callback Data C R) (args : list (gvalue Data)) : list (gvalue Data) :=
  Rcvr cb :: (if HasCtx cb then [VContext] else []) ++ args.

(** A request for a registered method, ready to be handled: no error, no
    cancellation, as many arguments as the method has parameters for. *)
Record ready (req : ServerRequest Data C R) (cb : Callback Data C R) : Prop := {
  ready_Err : sr_Err req = None;
  ready_Unsubscribe : sr_IsUnsubscribe req = false;
  ready_Callb : sr_Callb req = Some cb;
  ready_plain : plain_results (cb_Method cb) = true;
  ready_arity : length (sr_Args req) = length (ArgTypes cb);
  ready_fits : call_fits (parameters cb (sr_Args req)) (m_In (cb_Method cb)) = true;
  ready_wf : wf_callback cb \/ wf_subscription cb /\ HasCtx cb = true;
}.

(** [handle] calls the body on exactly these arguments, and returns with the
    connection that the call left. *)
Lemma handle_calls req cb f w :
  ready req cb ->
  (f (parameters cb (sr_Args req)) w = Panic -> handle (with_body req f) w = Panic) /\
  (forall outs w', f (parameters cb (sr_Args req)) w = Ret (outs, w') ->
     results_fit (cb_Method cb) outs w' ->
     exists resp act, handle (with_body req f) w = Ret (resp, act, w') /\
       response_id resp = Some (sr_Id req)).
Proof.
  intros [He Hu Hc Hplain Hlen Hfit Hw]. unfold handle, with_body.
  cbn [sr_Err sr_IsUnsubscribe sr_Callb sr_Args sr_Id sr_Svcname]. rewrite He, Hu, Hc.
  cbn [fmap option_fmap option_map cb_Method IsSubscribe ArgTypes ErrPos].
  destruct Hw as [(Hsub & _ & _ & Hpos & _)|[(Hsub & Hps & _) Hctx]]; rewrite Hsub.
  - rewrite Hlen, Nat.eqb_refl, <-Hlen. cbn [negb Rcvr HasCtx].
    rewrite call_arguments. unfold Call. cbn [m_In m_Func]. unfold parameters in *. rewrite Hfit.
    split; [by intros ->|]. intros outs w' -> (Hn & Herr & _).
    assert (Hresp : forall r : R, response_id r = Some (sr_Id req) ->
      exists resp (act : option activation), Ret (r, None, w') = Ret (resp, act, w') /\ response_id resp = Some (sr_Id req)) by eauto.
    destruct outs as [|v0 outs]; [apply Hresp, response_id_ok|]. cbn [length Nat.eqb].
    destruct (0 <=? ErrPos cb)%Z eqn:Ep; bool_prop; [|apply Hresp, response_id_ok].
    destruct Hpos as [Hpos|(Hpos & Hn1 & t & Ht & Hterr)]; [lia|].
    rewrite last_lookup in Ht. unfold NumOut in *.
    replace (pred (length (m_Out (cb_Method cb)))) with (Z.to_nat (ErrPos cb)) in Ht by lia.
    destruct (lookup_lt_is_Some_2 (v0 :: outs) (Z.to_nat (ErrPos cb))) as [v Hv]; [lia|].
    destruct (plain_error _ _ _ Hplain Ht Hterr) as [Hnil Himp].
    pose proof (Herr _ t v Ht Hterr Hv) as Hne. unfold result_type. cbn [m_Out].
    rewrite (index_Some _ _ _ Hv), (index_Some _ _ _ Ht), (IsNil_error _ _ Hnil Hne).
    destruct Hne as [->|[msg ->]]; simpl; rewrite ?(as_error_message _ _ Himp); apply Hresp;
      [apply response_id_ok|apply response_id_err].
  - unfold createSubscription, Call, result_type. cbn [cb_Method Rcvr m_In m_Out m_Func].
    unfold parameters in *. rewrite Hctx in *. cbn [app] in *. rewrite Hfit.
    split; [by intros ->|]. intros outs w' -> (Hn & Herr & Hok).
    destruct (isPubSub_NumIn _ Hps) as [_ Hn2]. rewrite Hn2 in Hn.
    destruct (isPubSub_error _ Hps) as (t & Ht & Hterr).
    destruct (lookup_lt_is_Some_2 outs 1) as [v Hv]; [lia|].
    destruct (plain_error _ _ _ Hplain Ht Hterr) as [Hnil Himp].
    pose proof (Herr _ t v Ht Hterr Hv) as Hne.
    rewrite (index_Some _ _ _ Hv), (index_Some _ _ _ Ht), (IsNil_error _ _ Hnil Hne).
    destruct Hne as [->|[msg ->]]; simpl.
    + destruct (Hok Hps Hv) as (l0 & s & n & H0' & Hs & Hnot).
      rewrite (index_Some _ _ _ H0'), (index_Some _ _ _ (plain_subscription _ Hplain Hps)).
      unfold as_Subscription. rewrite bool_decide_eq_true_2 by done.
      rewrite (index_Some _ _ _ Hs). do 2 eexists. split; [done|]. apply response_id_ok.
    + rewrite (as_error_message _ _ Himp). do 2 eexists. split; [done|]. apply response_id_err.
Qed.

(** The number of arguments is looked at before the call. *)
Lemma handle_arity req cb f w :
  sr_Err req = None -> sr_IsUnsubscribe req = false -> sr_Callb req = Some cb ->
  IsSubscribe cb = false -> length (sr_Args req) <> length (ArgTypes cb) ->
  exists e, handle (with_body req f) w = Ret (CreateErrorResponse (Some (sr_Id req)) e, None, w) /\
    ErrorCode e = (-32602)%Z.
Proof.
  intros He Hu Hc Hs Hl. unfold handle, with_body.
  cbn [sr_Err sr_IsUnsubscribe sr_Callb sr_Args sr_Id]. rewrite He, Hu, Hc.
  cbn [fmap option_fmap option_map IsSubscribe ArgTypes]. rewrite Hs.
  apply Nat.eqb_neq in Hl. rewrite Hl. simpl. eexists. split; done.
Qed.

(** C6: what a resolved request for a method comes to, in a registry of methods
    that keep the contract.  If it has as many arguments as the method asks
    for, the receiver, the context where there is one and the arguments have the
    types of the method's parameters, and [handle] calls the method on exactly
    these: whatever the body does, a panic of it on them is [handle]'s, and where
    it returns results of its types [handle] returns a response for the request,
    with the connection as the call left it.  If it has another number of
    arguments it is a plain call, and [handle] answers with an error of code
    -32602 and leaves the connection alone, whatever the body: it does not run.
    A subscription has the context and all its arguments. *)
Theorem resolved_call_fits Services r q cb :
  good_registry Services -> has_params r -> resolve Services r = Ret q ->
  sr_Err q = None -> sr_Callb q = Some cb ->
  let params := Rcvr cb :: (if HasCtx cb then [VContext] else []) ++ sr_Args q in
  (length (sr_Args q) = length (ArgTypes cb) ->
     call_fits params (m_In (cb_Method cb)) = true /\
     forall f w,
       (f params w = Panic -> handle (with_body q f) w = Panic) /\
       (forall outs w', f params w = Ret (outs, w') -> results_fit (cb_Method cb) outs w' ->
          exists resp act, handle (with_body q f) w = Ret (resp, act, w') /\
            response_id resp = Some (sr_Id q))) /\
  (length (sr_Args q) <> length (ArgTypes cb) ->
     IsSubscribe cb = false /\
     forall f w, exists e,
       handle (with_body q f) w = Ret (CreateErrorResponse (Some (sr_Id q)) e, None, w) /\
       ErrorCode e = (-32602)%Z) /\
  (IsSubscribe cb = true -> HasCtx cb = true /\ length (sr_Args q) = length (ArgTypes cb)).
Proof.
  intros Hg Hp Hr He Hc params. destruct (resolve_executable Services r Hg Hp) as (q' & Hr' & Hex & _).
  rewrite Hr in Hr'. injection Hr' as <-.
  assert (Hu : sr_IsUnsubscribe q = false).
  { apply not_true_iff_false. intros Hu%(resolve_unsubscribe _ _ _ Hr). congruence. }
  destruct Hex as [?|[Hu'|(cb' & Hc' & [_ Hplain] & Ha & Hw)]]; [done|congruence|].
  rewrite Hc in Hc'. injection Hc' as <-.
  assert (Hsub : IsSubscribe cb = true -> HasCtx cb = true /\ length (sr_Args q) = length (ArgTypes cb)).
  { intros Hs. destruct Hw as [(Hs' & _)|(_ & Hctx & Hl)]; [congruence|done]. }
  split_and!; [| |exact Hsub].
  - intros Hl. assert (Hfit : call_fits params (m_In (cb_Method cb)) = true).
    { apply parameters_assignable; [|by apply Ha].
      destruct Hw as [(_ & Hm & _)|((_ & _ & Hm) & _)]; done. }
    split; [exact Hfit|]. intros f w. apply handle_calls. split; try done. naive_solver.
  - intros Hl. assert (Hs : IsSubscribe cb = false).
    { apply not_true_iff_false. intros [_ ?]%Hsub. done. }
    split; [exact Hs|]. intros f w. by apply (handle_arity q cb).
Qed.

(** A call with the wrong number of arguments does not reach the method:
    the connection is untouched and the error has code -32602. *)
Theorem wrong_arity_rejected req cb w :
  sr_Err req = None -> sr_IsUnsubscribe req = false -> sr_Callb req = Some cb ->
  IsSubscribe cb = false -> length (sr_Args req) <> length (ArgTypes cb) ->
  exists e, respond req w = Ret (CreateErrorResponse (Some (sr_Id req)) e, None, w) /\
    ErrorCode e = (-32602)%Z.
Proof.
  intros He Hu Hc Hs Hl. unfold respond, handle. rewrite He, Hu, Hc, Hs.
  apply Nat.eqb_neq in Hl. rewrite Hl. simpl. eexists. split; done.
Qed.

(** A subscription method whose context comes through a pointer passes
    [isPubSub] and is registered, but calling it always panics: the pointer is
    taken for an argument as well as for the context. *)
Theorem pointer_context_panics rcvr m k cb id name args w :
  has_receiver m -> suitable rcvr m = SuitSubscription k cb ->
  m_In m !! 1%nat <> Some contextType ->
  length args = length (ArgTypes cb) ->
  handle (mkServerRequest id name (Some cb) args false None) w = Panic.
Proof.
  intros Hr Hs Hptr Hl. unfold handle, createSubscription, Call.
  cbn [sr_Err sr_IsUnsubscribe sr_Callb sr_Args].
  apply suitable_subscription in Hs as (_ & Hm & _ & _ & Hsub & Hps & Hctx & Hargs & _).
  rewrite (bool_decide_eq_false_2 _ Hptr), andb_false_r in Hctx.
  rewrite Hsub, Hm. rewrite Hctx in Hargs.
  destruct (call_fits _ _) eqn:E; [|done]. apply call_fits_length in E.
  simpl in E. rewrite Hl, Hargs, length_drop in E. unfold has_receiver, NumIn in *. lia.
Qed.

(** Result types that the registration accepts and [handle] cannot take apart.
    A subscription method that returns the structure instead of a pointer to it
    (or a pointer to a pointer): every call that succeeds panics. *)
Theorem value_subscription_panics rcvr m k cb id name args w outs w' :
  suitable rcvr m = SuitSubscription k cb -> m_Out m !! 0 <> Some (ptr_to subscriptionType) ->
  m_Func m ([rcvr; VContext] ++ args) w = Ret (outs, w') -> outs !! 1 = Some VNil ->
  handle (mkServerRequest id name (Some cb) args false None) w = Panic.
Proof.
  intros Hs Hout Hf H1. apply suitable_subscription in Hs as (_ & Hm & Hrc & _ & Hsub & _).
  unfold handle, createSubscription, Call, result_type, as_Subscription.
  cbn [sr_Err sr_IsUnsubscribe sr_Callb sr_Args]. rewrite Hsub, Hm, Hrc.
  destruct (call_fits _ _); [|done]. rewrite Hf, (index_Some _ _ _ H1).
  destruct (index (m_Out m) 1) as [t1|]; [|done]. unfold IsNil.
  destruct (nilable t1); [simpl|done].
  destruct (index outs 0); [|done]. unfold index.
  destruct (m_Out m !! 0) as [t0|]; [|done]. rewrite bool_decide_eq_false_2; congruence.
Qed.

(** A method whose error type has no nil, a structure with an [Error] method
    say: every call that returns panics.  So does every call that returns an
    error of a type that only implements [error] behind its pointers. *)
Theorem error_type_panics rcvr m k cb id name args w outs w' t :
  suitable rcvr m = SuitCallback k cb -> last (m_Out m) = Some t -> isErrorType t = true ->
  nilable t = false \/ type_Implements_error t = false /\ last outs <> Some VNil ->
  length args = length (ArgTypes cb) ->
  m_Func m (rcvr :: (if HasCtx cb then [VContext] else []) ++ args) w = Ret (outs, w') ->
  length outs = NumOut m ->
  handle (mkServerRequest id name (Some cb) args false None) w = Panic.
Proof.
  intros Hs Hlast Herr Hbad Hlen Hf Hn.
  destruct (suitable_error_position _ _ _ _ _ Hs Hlast Herr) as (Hm & Hrc & Hsub & Hpos).
  unfold handle, Call, result_type. cbn [sr_Err sr_IsUnsubscribe sr_Callb sr_Args].
  rewrite Hsub, Hlen, Nat.eqb_refl, <-Hlen. cbn [negb]. rewrite call_arguments, Hm, Hrc.
  destruct (call_fits _ _); [|done]. rewrite Hf.
  rewrite last_lookup in Hlast. rewrite (last_lookup outs) in Hbad. pose proof (lookup_lt_Some _ _ _ Hlast) as Hlt. unfold NumOut in *.
  replace (length outs =? 0) with false by (symmetry; apply Nat.eqb_neq; lia).
  replace (0 <=? ErrPos cb)%Z with true by (symmetry; apply Z.leb_le; lia).
  rewrite Hn in Hbad. replace (Z.to_nat (ErrPos cb)) with (pred (length (m_Out m))) by lia.
  rewrite (index_Some _ _ _ Hlast).
  destruct (lookup_lt_is_Some_2 outs (pred (length (m_Out m)))) as [v Hv]; [lia|].
  rewrite (index_Some _ _ _ Hv). unfold IsNil, as_error. rewrite Hv in Hbad.
  destruct Hbad as [->|[-> Hne]]; [done|]. by destruct (nilable t), v.
Qed.

End Proofs.
