(* ===== verification/Session.v ===== *)
(** * pkg/server/server.go: serving a connection

    [serveRequest] and its goroutines as a step relation, with [Stop], the
    shutdown paths and the calls of user code interleaved at any point.  A
    task is one run of [exec] or [execBatch], taken apart at its effects on the
    connection: computing a response, writing, activating. *)

From S2P Require Import Prelude GoStd RpcTypes Utf8 Notifier Register Server.
From Stdlib Require Import ZArith Lia.
From Stdlib Require Import Init.Byte.
From stdpp Require Import gmap strings list relations.

(** [CodecOption], and the test of the options for notifications. *)
Definition OptionMethodInvocation : Z := 1.
Definition OptionSubscriptions : Z := 2.
Definition has_subscriptions (options : Z) : bool :=
  (Z.land options OptionSubscriptions =? OptionSubscriptions)%Z.

Section Session.
Context {Data C R : Type} `{ServerCodec Data C R} {DataTy : DataTypes Data} `{UnicodeTables}.

(** A goroutine that serves requests: the requests left with the responses
    and activations so far, or the activations left after the write. *)
Inductive task :=
| TRun (batch : bool) (todo : list (ServerRequest Data C R)) (resps : list R)
    (acts : list activation)
| TAct (acts : list activation).

(** The message a goroutine writes. *)
Definition task_message (batch : bool) (resps : list R) : option (message R) :=
  if batch then Some (Many resps)
  else match resps with r :: _ => Some (One r) | [] => None end.

(** A step of a goroutine on the connection. *)
Inductive task_step : task -> conn Data C R -> task -> conn Data C R -> Prop :=
| ts_respond batch q todo resps acts w r act w' :
    respond q w = Ret (r, act, w') ->
    task_step (TRun batch (q :: todo) resps acts) w
              (TRun batch todo (resps ++ [r]) (acts ++ option_list act)) w'
| ts_write batch resps acts m w :
    task_message batch resps = Some m ->
    task_step (TRun batch [] resps acts) w (TAct acts) (write_or_close m w)
| ts_activate a acts w w' :
    activateSub a w = Ret w' ->
    task_step (TAct (a :: acts)) w (TAct acts) w'.

(** [s.exec(ctx, cc, reqs[0])] or [s.execBatch(ctx, cc, reqs)] about to run;
    [reqs[0]] panics on no request. *)
Definition start_task (reqs : list (ServerRequest Data C R)) (batch : bool) : option task :=
  if batch then Some (TRun true reqs [] [])
  else match reqs with q :: _ => Some (TRun false [q] [] []) | [] => None end.

(** [exec] of the only request, or [execBatch], in one piece. *)
Definition run_requests (reqs : list (ServerRequest Data C R)) (batch : bool)
    (w : conn Data C R) : run (conn Data C R) :=
  if batch then execBatch reqs w
  else match reqs with q :: _ => exec q w | [] => Panic end.

Definition task_steps : relation (task * conn Data C R) :=
  rtc (fun a b => task_step a.1 a.2 b.1 b.2).

(** What is left of a task, in one piece. *)
Definition complete (t : task) (w : conn Data C R) : run (conn Data C R) :=
  match t with
  | TRun batch todo resps acts =>
      let! (rs, cbs, w) := respond_all todo w in
      match task_message batch (resps ++ rs) with
      | Some m => activate_all (acts ++ cbs) (write_or_close m w)
      | None => Panic
      end
  | TAct acts => activate_all acts w
  end.

(** Where [serveRequest] is: before the registration of the codec, at the loop
    condition, in [readRequest], after a successful read, waiting for the
    pending requests, executing inline (single shot), at the deferred function
    with the error it returns, returned, or returned with the codec closed by
    [ServeCodec]. *)
Inductive pc :=
| PStart
| PLoop
| PReading
| PRead (reqs : list (ServerRequest Data C R)) (batch : bool)
| PWait
| PInline (t : task)
| PReturn (err : option RpcError)
| PDone (err : option RpcError)
| PClosed.

(** The server, for this connection: [Run] is 1; [Stop] has swapped it to 0; and
    it has come to this connection's codec, if it does ([Multi] has the server
    with all its connections). *)
Inductive runstate := Running | Stopping | Stopped.

#[export] Instance runstate_eq_dec : EqDecision runstate.
Proof. solve_decision. Defined.

(** [ss_run] is the state of the server, [ss_registered] whether the codec is
    in [Codecs], [ss_tasks] the goroutines counted by [pend]. *)
Record session := mkSession {
  ss_run : runstate;
  ss_registered : bool;
  ss_pc : pc;
  ss_tasks : list task;
  ss_conn : conn Data C R
}.

(** The write of a read error, whose own error is ignored, unless it is EOF. *)
Definition write_read_error (e : RpcError) (w : conn Data C R) : conn Data C R :=
  if bool_decide (Error e = "EOF") then w
  else (write (One (CreateErrorResponse None e)) w).2.

(** The write of the shutdown error for requests read too late. *)
Definition write_shutdown (reqs : list (ServerRequest Data C R)) (batch : bool)
    (w : conn Data C R) : option (conn Data C R) :=
  let resp := fun q => CreateErrorResponse (Some (sr_Id q)) ShutdownError in
  if batch then Some (write (Many (resp <$> reqs)) w).2
  else match reqs with
       | q :: _ => Some (write (One (resp q)) w).2
       | [] => None
       end.

Variable Services : gmap string (Service Data C R).
Variable singleShot : bool.

Inductive server_step : session -> session -> Prop :=
| st_stop reg p ts w :
    server_step (mkSession Running reg p ts w) (mkSession Stopping reg p ts w)
| st_stop_close reg p ts w :
    server_step (mkSession Stopping reg p ts w)
                (mkSession Stopped reg p ts (if reg : bool then close_codec w else w))
| st_register reg ts w :
    server_step (mkSession Running reg PStart ts w) (mkSession Running true PLoop ts w)
| st_refused run reg ts w :
    run <> Running ->
    server_step (mkSession run reg PStart ts w)
                (mkSession run reg (PReturn (Some ShutdownError)) ts w)
| st_exit run reg ts w :
    run <> Running ->
    server_step (mkSession run reg PLoop ts w) (mkSession run reg (PReturn None) ts w)
| st_enter reg ts w :
    server_step (mkSession Running reg PLoop ts w) (mkSession Running reg PReading ts w)
| st_read_error run reg ts w e batch w' :
    readRequest Services w = Ret (Err e, batch, w') ->
    server_step (mkSession run reg PReading ts w)
                (mkSession run reg PWait ts (write_read_error e w'))
| st_read run reg ts w reqs batch w' :
    readRequest Services w = Ret (Ok reqs, batch, w') ->
    server_step (mkSession run reg PReading ts w) (mkSession run reg (PRead reqs batch) ts w')
| st_waited run reg w :
    server_step (mkSession run reg PWait [] w) (mkSession run reg (PReturn None) [] w)
| st_shutdown run reg reqs batch ts w w' :
    run <> Running -> write_shutdown reqs batch w = Some w' ->
    server_step (mkSession run reg (PRead reqs batch) ts w)
                (mkSession run reg (PReturn None) ts w')
| st_inline reg reqs batch ts w t :
    singleShot = true -> start_task reqs batch = Some t ->
    server_step (mkSession Running reg (PRead reqs batch) ts w)
                (mkSession Running reg (PInline t) ts w)
| st_spawn reg reqs batch ts w t :
    singleShot = false -> start_task reqs batch = Some t ->
    server_step (mkSession Running reg (PRead reqs batch) ts w)
                (mkSession Running reg PLoop (ts ++ [t]) w)
| st_inline_step run reg t t' ts w w' :
    task_step t w t' w' ->
    server_step (mkSession run reg (PInline t) ts w) (mkSession run reg (PInline t') ts w')
| st_inline_done run reg ts w :
    server_step (mkSession run reg (PInline (TAct [])) ts w)
                (mkSession run reg (PReturn None) ts w)
| st_return run reg err ts w :
    server_step (mkSession run reg (PReturn err) ts w) (mkSession run false (PDone err) ts w)
| st_task run reg p ts1 t t' ts2 w w' :
    task_step t w t' w' ->
    server_step (mkSession run reg p (ts1 ++ t :: ts2) w)
                (mkSession run reg p (ts1 ++ t' :: ts2) w')
| st_task_done run reg p ts1 ts2 w :
    server_step (mkSession run reg p (ts1 ++ TAct [] :: ts2) w)
                (mkSession run reg p (ts1 ++ ts2) w)
| st_close run reg err ts w :
    singleShot = false ->
    server_step (mkSession run reg (PDone err) ts w)
                (mkSession run reg PClosed ts (close_codec w)).

(** A step of the program: of the server, or of user code that holds the
    notifier. *)
Inductive session_step : session -> session -> Prop :=
| ss_server s s' : server_step s s' -> session_step s s'
| ss_user run reg p ts w w' :
    user_step w w' ->
    session_step (mkSession run reg p ts w) (mkSession run reg p ts w').

(** [ServeCodec] or [ServeSingleRequest] about to run on a codec; the context
    carries a new notifier if the options include [OptionSubscriptions]. *)
Definition initial (run : runstate) (subscriptions : bool) (c : C) : session :=
  mkSession run false PStart []
    (mkConn c [] [] (if subscriptions then Some newNotifier else None)).

(** ** Invariants *)

(** The identifier was sent to the client: a response carries it.  Or it was
    not: the write of the response failed. *)
Definition told (id : string) (log : list (event Data R)) : Prop :=
  exists m rid, EvResponse m None ∈ log /\ CreateResponse rid (VString id) ∈ message_list m.

Definition untold (id : string) (log : list (event Data R)) : Prop :=
  exists m rid e, EvResponse m (Some e) ∈ log /\ CreateResponse rid (VString id) ∈ message_list m.

Definition answered (id : string) (log : list (event Data R)) (closed : bool) : Prop :=
  told id log \/ untold id log /\ closed = true.

Definition task_ok (w : conn Data C R) (t : task) : Prop :=
  match t with
  | TRun batch todo resps acts =>
      Forall executable todo /\
      (batch = false -> length todo + length resps = 1) /\
      (acts <> [] -> conn_notifier w <> None) /\
      forall a, a ∈ acts -> exists rid, CreateResponse rid (VString a.1) ∈ resps
  | TAct acts =>
      (acts <> [] -> conn_notifier w <> None) /\
      forall a, a ∈ acts -> answered a.1 (conn_log w) (Closed (conn_codec w))
  end.

Definition pc_tasks (p : pc) : list task := match p with PInline t => [t] | _ => [] end.

(** Every active subscription was announced, every activation to come too, and
    every notification came after the announcement; where the announcement could
    not be written the codec is closed. *)
Definition announced (w : conn Data C R) : Prop :=
  (forall n id, conn_notifier w = Some n -> is_Some (active n !! id) ->
     answered id (conn_log w) (Closed (conn_codec w))) /\
  (forall pre post id ns d err, conn_log w = pre ++ EvNotify id ns d err :: post ->
     answered id pre (Closed (conn_codec w))).

Definition pc_ok (p : pc) : Prop :=
  match p with
  | PRead reqs batch => Forall executable reqs /\ (batch = false -> length reqs = 1)
  | _ => True
  end.

Definition session_ok (s : session) : Prop :=
  wf_conn (ss_conn s) /\ announced (ss_conn s) /\ pc_ok (ss_pc s) /\
  Forall (task_ok (ss_conn s)) (pc_tasks (ss_pc s) ++ ss_tasks s).

(** Whether the codec is in [Codecs] at each point. *)
Definition registered_at (p : pc) : bool :=
  match p with
  | PStart | PDone _ | PClosed => false
  | PLoop | PReading | PRead _ _ | PWait | PInline _ => true
  | PReturn err => bool_decide (err = None)
  end.

(** The steps left to the server once it is stopped. *)
Definition task_weight (t : task) : nat :=
  match t with
  | TRun _ todo _ acts => 2 * length todo + length acts + 3
  | TAct acts => length acts + 1
  end.

Definition pc_weight (p : pc) : nat :=
  match p with
  | PReading => 4
  | PStart | PLoop | PRead _ _ | PWait => 3
  | PInline t => 3 + task_weight t
  | PReturn _ => 2
  | PDone _ => 1
  | PClosed => 0
  end.

Definition run_weight (r : runstate) : nat :=
  match r with Running => 2 | Stopping => 1 | Stopped => 0 end.

Definition weight (s : session) : nat :=
  run_weight (ss_run s) + pc_weight (ss_pc s) + sum_list (task_weight <$> ss_tasks s).

(** [serveRequest] has returned and no goroutine is left. *)
Definition finished (s : session) : Prop :=
  match ss_pc s with
  | PClosed => ss_tasks s = []
  | PDone _ => singleShot = true /\ ss_tasks s = []
  | _ => False
  end.

End Session.
Arguments task Data C R : clear implicits.
Arguments session Data C R : clear implicits.
Arguments pc Data C R : clear implicits.

(** Once closed a codec stays closed. *)
Definition closes {Data C R} `{ServerCodec Data C R} (w w' : conn Data C R) : Prop :=
  Closed (conn_codec w) = true -> Closed (conn_codec w') = true.

(** What a step keeps: the log grows, the notifier stays, and so does the codec
    that is closed. *)
Definition extends {Data C R} `{ServerCodec Data C R} (w w' : conn Data C R) : Prop :=
  (exists l, conn_log w' = conn_log w ++ l) /\
  (conn_notifier w <> None -> conn_notifier w' <> None) /\ closes w w'.

#[export] Instance extends_preorder {Data C R} `{ServerCodec Data C R} : PreOrder (@extends Data C R _).
Proof.
  split.
  - intros w. unfold extends, closes. split; [exists []; by rewrite app_nil_r|auto].
  - intros w1 w2 w3. unfold extends, closes. intros ([l1 E1] & N1 & C1) ([l2 E2] & N2 & C2).
    split; [|auto]. exists (l1 ++ l2). by rewrite E2, E1, app_assoc.
Qed.

Lemma extends_same {Data C R} `{ServerCodec Data C R} (w w' : conn Data C R) :
  conn_log w' = conn_log w -> conn_notifier w' = conn_notifier w -> closes w w' -> extends w w'.
Proof. intros El En Hc. split; [exists []; by rewrite app_nil_r|]. by rewrite En. Qed.

Section Proofs.
Context {Data C R : Type} `{ServerCodec Data C R} {DataTy : DataTypes Data} `{UnicodeTables}.
Context `{!ServerCodecLaws Data C R}.
Implicit Types (w : conn Data C R) (s : session Data C R) (t : task Data C R).

(** ** The codec is never opened again *)

Lemma write_closed' (m : message R) (w : conn Data C R) e w' :
  write m w = (e, w') -> Closed (conn_codec w') = Closed (conn_codec w).
Proof.
  unfold write. pose proof (write_closed m (conn_codec w)) as Hc.
  destruct (Write _ _). by intros [= <- <-].
Qed.

Lemma user_step_closes w w' : user_step w w' -> closes w w'.
Proof.
  unfold closes. intros [id l w1 w2 Hc|id data e w1 w2 Hc] Hcl.
  - unfold CreateSubscription in Hc. by destruct (conn_notifier w1); simplify_eq/=.
  - unfold Notify in Hc. destruct (conn_notifier w1) as [n|] eqn:En; [|done].
    destruct (active n !! id) as [l|]; [|by simplify_eq].
    destruct (conn_subs w1 !! _) as [sub|]; [|done].
    match goal with _ : context [Write ?m ?c] |- _ => pose proof (write_closed m c) as Hw end.
    destruct (Write _ _) as [[err|] c]; simplify_eq/=; [apply close_closed|congruence].
Qed.

Lemma user_steps_closes w w' : rtc user_step w w' -> closes w w'.
Proof.
  unfold closes. apply (rtc_preserves user_step (fun w => Closed (conn_codec w) = true)).
  intros w1 w2 Hc Hs. by apply (user_step_closes w1 w2 Hs).
Qed.

Lemma unsubscribe_codec id e w w' : unsubscribe id w = Ret (e, w') -> conn_codec w' = conn_codec w.
Proof.
  unfold unsubscribe, close_err. destruct (conn_notifier w); [|done].
  destruct (active _ !! id); [|by intros [= <- <-]].
  destruct (conn_subs w !! _); [|done]. destruct (sub_err_closed _); [done|]. by intros [= <- <-].
Qed.

Lemma write_or_close_closes m w : closes w (write_or_close m w).
Proof.
  unfold closes, write_or_close. destruct (write m w) as [e w'] eqn:E.
  apply write_closed' in E. destruct e; simpl; [intros; apply close_closed|by rewrite E].
Qed.

(** A write that fails closes it. *)
Lemma write_or_close_fails m w e :
  (Write m (conn_codec w)).1 = Some e -> Closed (conn_codec (write_or_close m w)) = true.
Proof. unfold write_or_close, write. destruct (Write _ _). simpl. intros ->. apply close_closed. Qed.

Lemma activateSub_codec a w w' : activateSub a w = Ret w' -> conn_codec w' = conn_codec w.
Proof.
  unfold activateSub, activate. destruct (conn_notifier w); [|done].
  destruct (inactive _ !! a.1); [|by intros [= <-]].
  destruct (conn_subs w !! _); [|done]. by intros [= <-].
Qed.

(** ** What a response does to the connection *)

Lemma respond_effect q w r act w' :
  executable q -> wf_conn w -> respond q w = Ret (r, act, w') ->
  (rtc user_step w w' \/ exists id e, unsubscribe id w = Ret (e, w')) /\
  (forall a, act = Some a -> exists rid, r = CreateResponse rid (VString a.1)).
Proof.
  intros Hex Hwf. unfold respond, handle. destruct (sr_Err q) eqn:He.
  { intros [= <- <- <-]. split; [by left|done]. }
  destruct (sr_IsUnsubscribe q) eqn:Hu.
  { destruct (sr_Args q) as [|[] args]; try (intros [= <- <- <-]; split; [by left|done]).
    destruct (NotifierFromContext w); [|intros [= <- <- <-]; split; [by left|done]].
    destruct (unsubscribe s w) as [[e w1]|] eqn:E; [|done].
    destruct e; intros [= <- <- <-]; (split; [eauto|done]). }
  destruct Hex as [?|[?|(cb & -> & [Hwb _] & _)]]; [done|congruence|].
  unfold createSubscription, Call. destruct (IsSubscribe cb).
  - destruct (call_fits _ _) eqn:El; [|done].
    destruct (Hwb _ w El Hwf) as (outs & w1 & -> & Hsteps & _). clear El.
    intros Hr. split.
    + left. go_cases_in; done.
    + intros a ->. go_cases_in. eauto.
  - destruct (negb _); [intros [= <- <- <-]; split; [by left|done]|].
    destruct (call_fits _ _) eqn:El; [|done].
    destruct (Hwb _ w El Hwf) as (outs & w1 & -> & Hsteps & _). clear El.
    intros Hr. split.
    + left. go_cases_in; done.
    + intros a ->. go_cases_in; done.
Qed.

Lemma respond_extends q w r act w' :
  executable q -> wf_conn w -> respond q w = Ret (r, act, w') ->
  wf_conn w' /\ extends w w' /\ (act <> None -> conn_notifier w' <> None).
Proof.
  intros Hex Hwf Hr. destruct (respond_responds q w Hex Hwf)
    as (r' & act' & w'' & l & Hr' & _ & Hwf' & Hl & _ & Hact).
  rewrite Hr in Hr'. simplify_eq. split_and!; [done| |done]. split; [eauto|]. split.
  - intros Hn. exact (respond_keeps_notifier q w _ Hex Hwf Hr Hn).
  - destruct (respond_effect _ _ _ _ _ Hex Hwf Hr) as [[Hs|(id & e & Hu)] _].
    + by apply user_steps_closes.
    + unfold closes. by rewrite (unsubscribe_codec _ _ _ _ Hu).
Qed.

(** ** Logs *)

Lemma answered_app id (log l : list (event Data R)) b b' :
  answered id log b -> (b = true -> b' = true) -> answered id (log ++ l) b'.
Proof.
  intros [(m & rid & Hm & Hr)|[(m & rid & e & Hm & Hr) ->]] Hb.
  - left. exists m, rid. rewrite elem_of_app. eauto.
  - right. split; [|auto]. exists m, rid, e. rewrite elem_of_app. eauto.
Qed.

Lemma answered_closed id (log : list (event Data R)) b b' :
  answered id log b -> (b = true -> b' = true) -> answered id log b'.
Proof. intros Ha Hb. rewrite <-(app_nil_r log). by eapply answered_app. Qed.

Lemma snoc_split {A} (l : list A) e pre x post :
  l ++ [e] = pre ++ x :: post ->
  (exists post', post = post' ++ [e] /\ l = pre ++ x :: post') \/ (post = [] /\ l = pre /\ e = x).
Proof.
  destruct post as [|y post _] using rev_ind; intros Heq.
  - right. apply app_inj_tail in Heq as [-> ->]. done.
  - left. rewrite app_comm_cons, app_assoc in Heq. apply app_inj_tail in Heq as [-> ->]. eauto.
Qed.

Lemma announced_active w w' :
  announced w -> conn_log w' = conn_log w -> closes w w' ->
  (forall n' id, conn_notifier w' = Some n' -> is_Some (active n' !! id) ->
     exists n, conn_notifier w = Some n /\ is_Some (active n !! id)) ->
  announced w'.
Proof.
  intros [H1 H2] Hlog Hcl Hact. split; rewrite Hlog.
  - intros n' id Hn' Hid. destruct (Hact _ _ Hn' Hid) as (n & Hn & Hid').
    eapply answered_closed; [by eapply H1|exact Hcl].
  - intros pre post id ns d err E. eapply answered_closed; [by eapply H2|exact Hcl].
Qed.

Lemma announced_same w w' :
  announced w -> conn_log w' = conn_log w -> conn_notifier w' = conn_notifier w -> closes w w' ->
  announced w'.
Proof. intros Ha Hl Hn Hc. eapply announced_active; [done..|]. rewrite Hn. eauto. Qed.

Lemma announced_response w w' m err :
  announced w -> conn_log w' = conn_log w ++ [EvResponse m err] ->
  conn_notifier w' = conn_notifier w -> closes w w' -> announced w'.
Proof.
  intros [H1 H2] Hlog Hn Hcl. split; rewrite Hlog.
  - intros n id. rewrite Hn. intros ??. eapply answered_app; [by eapply H1|exact Hcl].
  - intros pre post id ns d e Heq. apply snoc_split in Heq as [(post' & -> & Heq)|(_ & _ & ?)]; [|done].
    eapply answered_closed; [by eapply H2|exact Hcl].
Qed.

Lemma announced_user w w' : announced w -> user_step w w' -> announced w'.
Proof.
  intros Ha Hs. pose proof (user_step_closes _ _ Hs) as Hcl. revert Ha Hcl.
  destruct Hs as [id l w1 w2 Hc|id data e w1 w2 Hc]; intros Ha Hcl.
  - unfold CreateSubscription in Hc. destruct (conn_notifier w1) as [n|] eqn:En; [|done].
    injection Hc as <- <-. eapply announced_active; [exact Ha|done|exact Hcl|]. simpl. intros n' id' [= <-]. eauto.
  - unfold Notify in Hc. destruct (conn_notifier w1) as [n|] eqn:En; [|done].
    destruct (active n !! id) as [l|] eqn:El; [|by simplify_eq].
    destruct (conn_subs w1 !! _) as [s|]; [|done].
    assert (Hgen : forall w' err, conn_log w' = conn_log w1 ++ [EvNotify id (sub_namespace s) data err] ->
      conn_notifier w' = Some n -> closes w1 w' -> announced w').
    { destruct Ha as [H1 H2]. clear Hcl. intros w' err Hlog Hn' Hcl. split; rewrite Hlog.
      - intros n' id'. rewrite Hn'. intros [= <-] ?. eapply answered_app; [by eapply H1|exact Hcl].
      - intros pre post id' ns d err' Heq.
        apply snoc_split in Heq as [(post' & -> & Heq)|(_ & <- & ?)].
        + eapply answered_closed; [by eapply H2|exact Hcl].
        + simplify_eq. eapply answered_closed; [eapply H1; eauto|exact Hcl]. }
    destruct (Write _ _) as [[err|] c]; simplify_eq/=; by eapply Hgen.
Qed.

Lemma announced_users w w' : rtc user_step w w' -> announced w -> announced w'.
Proof. apply rtc_preserves. intros; eauto using announced_user. Qed.

Lemma announced_unsubscribe id e w w' :
  announced w -> unsubscribe id w = Ret (e, w') -> announced w'.
Proof.
  intros Ha Hu. pose proof (unsubscribe_codec _ _ _ _ Hu) as Hcod. revert Hu. unfold unsubscribe.
  destruct (conn_notifier w) as [n|] eqn:En; [|done].
  destruct (active n !! id) as [l|] eqn:El; [|by intros [= <- <-]].
  unfold close_err. destruct (conn_subs w !! l); [|done]. destruct (sub_err_closed _); [done|].
  intros [= <- <-]. eapply announced_active; [exact Ha|done|by unfold closes|]. simpl.
  intros n' id' [= <-] [l' Hl']. cbn [active] in Hl'. apply lookup_delete_Some in Hl' as [_ Hl']. eauto.
Qed.

Lemma announced_activate a w w' :
  announced w -> answered a.1 (conn_log w) (Closed (conn_codec w)) -> activateSub a w = Ret w' ->
  announced w' /\ conn_log w' = conn_log w /\ conn_codec w' = conn_codec w.
Proof.
  intros [H1 H2] Hans Ha. pose proof (activateSub_codec _ _ _ Ha) as Hcod. revert Ha.
  unfold activateSub, activate.
  destruct (conn_notifier w) as [n|] eqn:En; [|done].
  destruct (inactive n !! a.1) as [l|] eqn:El;
    [|intros [= <-]; split; [split; [by rewrite En|done]|done]].
  destruct (conn_subs w !! l) as [sub|]; [|done]. intros [= <-]. simpl.
  split; [|done]. split; simpl; [|done]. intros n' id' [= <-] [l' Hl']. simpl in Hl'.
  apply lookup_insert_Some in Hl' as [[<- _]|[_ Hl']]; eauto.
Qed.

(** ** The invariant *)

Lemma task_ok_extends w w' t : extends w w' -> task_ok w t -> task_ok w' t.
Proof.
  intros ([l El] & Hn & Hc). destruct t; simpl; [naive_solver|]. rewrite El.
  intros [H1 H2]. split; [auto|]. eauto using answered_app.
Qed.

Lemma tasks_ok_extends w w' ts : extends w w' -> Forall (task_ok w) ts -> Forall (task_ok w') ts.
Proof. intros He Hf. eapply Forall_impl; [exact Hf|]. intros t. by apply task_ok_extends. Qed.

(** A step of a task keeps the connection and the task in order. *)
Lemma task_step_ok t w t' w' :
  task_step t w t' w' -> wf_conn w -> announced w -> task_ok w t ->
  wf_conn w' /\ announced w' /\ task_ok w' t' /\ extends w w'.
Proof.
  intros [batch q todo resps acts w1 r act w2 Hr|batch resps acts m w1 Hm|a acts w1 w2 Ha] Hwf Han.
  - intros (Hex & Hlen & Hn & Hacts). apply Forall_cons in Hex as [Hq Hex].
    destruct (respond_extends _ _ _ _ _ Hq Hwf Hr) as (Hwf' & Hext & Hnact).
    destruct (respond_effect _ _ _ _ _ Hq Hwf Hr) as [Heff Hact].
    split; [done|]. split; [|split; [|done]].
    + destruct Heff as [Hs|(id & e & Hu)]; eauto using announced_users, announced_unsubscribe.
    + simpl. split_and!; [done| | |].
      * intros Hb. specialize (Hlen Hb). rewrite length_app. simpl in *. lia.
      * destruct act; simpl; [intros _; by apply Hnact|]. rewrite app_nil_r. intros Hne.
        apply Hext, Hn, Hne.
      * intros a. rewrite elem_of_app. intros [Hin|Hin].
        -- destruct (Hacts a Hin) as [rid ?]. exists rid. rewrite elem_of_app. auto.
        -- destruct act as [a'|]; simpl in Hin; [|by apply not_elem_of_nil in Hin].
           apply list_elem_of_singleton in Hin as ->. destruct (Hact a' eq_refl) as [rid ->].
           exists rid. rewrite elem_of_app, list_elem_of_singleton. auto.
  - intros (_ & Hlen & Hn & Hacts).
    destruct (write_or_close_spec m w1 Hwf) as (Hwf' & Hlog & Hn').
    pose proof (write_or_close_closes m w1) as Hcl.
    split; [done|]. split; [by eapply announced_response|].
    split; [|split; [eauto|by rewrite Hn']]. simpl. rewrite Hn'. split; [done|].
    intros a Ha. destruct (Hacts a Ha) as [rid Hrid].
    assert (Hin : CreateResponse rid (VString a.1) ∈ message_list m).
    { destruct batch; simpl in Hm; [by simplify_eq|].
      specialize (Hlen eq_refl). destruct resps as [|r0 [|]]; simplify_eq/=; done || lia. }
    rewrite Hlog. destruct (Write m (conn_codec w1)).1 as [e|] eqn:Ew; [right|left].
    + split; [|by eapply write_or_close_fails]. exists m, rid, e.
      split; [rewrite elem_of_app, list_elem_of_singleton; auto|done].
    + exists m, rid. split; [rewrite elem_of_app, list_elem_of_singleton; auto|done].
  - intros [Hn Hok]. assert (Hans : answered a.1 (conn_log w1) (Closed (conn_codec w1))) by (apply Hok; left).
    destruct (announced_activate _ _ _ Han Hans Ha) as (Han' & Hlog & Hcod).
    assert (Hwf' : wf_conn w2) by (by eapply activate_wf).
    destruct (activate_total a.1 a.2 w1 Hwf ltac:(by apply Hn)) as (w3 & Ha' & _ & _ & Hn3).
    unfold activateSub in Ha. rewrite Ha in Ha'. simplify_eq.
    split; [done|]. split; [done|]. simpl. rewrite Hlog, Hcod. split.
    + split; [done|]. intros a' Ha'. apply Hok. by right.
    + split; [exists []; by rewrite app_nil_r|]. split; [done|]. unfold closes. by rewrite Hcod.
Qed.

Lemma start_task_ok w reqs batch t :
  Forall executable reqs -> start_task reqs batch = Some t -> task_ok w t.
Proof.
  unfold start_task, task_ok. intros Hex.
  assert (Hnil : forall (a : activation) (P : Prop), a ∈ [] -> P)
    by (intros ? ? ?%not_elem_of_nil; done).
  destruct batch.
  { intros [= <-]. split_and!; [done|done|done|intros ??; by eapply Hnil]. }
  destruct reqs as [|q reqs]; [done|]. intros [= <-]. apply Forall_cons in Hex as [Hq _].
  split_and!; [by constructor|done|done|intros ??; by eapply Hnil].
Qed.

Lemma readRequest_ok Services w res batch w' :
  good_registry Services -> wf_conn w -> announced w ->
  readRequest Services w = Ret (res, batch, w') ->
  wf_conn w' /\ announced w' /\ extends w w' /\
  Closed (conn_codec w') = Closed (conn_codec w) /\
  match res with
  | Ok reqs => Forall executable reqs /\ (batch = false -> length reqs = 1)
  | Err _ => True
  end.
Proof.
  intros Hg Hwf Han. unfold readRequest.
  pose proof (read_closed (conn_codec w)) as Hc.
  destruct (ReadRequestHeaders (conn_codec w)) as [[[rs|e] b] c] eqn:E; simpl in *;
    assert (Hcl : closes w (set_codec c w)) by (unfold closes; simpl; congruence).
  2:{ intros [= <- <- <-]. split_and!; try done; [by apply (announced_same w)|by apply extends_same]. }
  destruct (resolve_all_executable Services rs Hg) as (reqs & -> & Hex & Hids).
  { by eapply read_params. }
  intros [= <- <- <-]. split_and!; try done; [by apply (announced_same w)|by apply extends_same|]. intros ->.
  apply read_single in E. apply (f_equal length) in Hids. rewrite !length_fmap in Hids. lia.
Qed.

(** A write whose result is ignored. *)
Lemma write_ok m w :
  wf_conn w -> announced w ->
  wf_conn (write m w).2 /\ announced (write m w).2 /\ extends w (write m w).2 /\
  Closed (conn_codec (write m w).2) = Closed (conn_codec w).
Proof.
  unfold write. intros Hwf Han. pose proof (write_closed m (conn_codec w)) as Hc.
  destruct (Write _ _) as [e c]. simpl in *.
  assert (Hcl : closes w (mkConn c (conn_log w ++ [EvResponse m e]) (conn_subs w) (conn_notifier w)))
    by (unfold closes; simpl; congruence).
  split; [done|]. split; [by eapply announced_response|].
  split; [|done]. split; [eauto|done].
Qed.

Lemma write_read_error_ok e w :
  wf_conn w -> announced w ->
  wf_conn (write_read_error e w) /\ announced (write_read_error e w) /\
  extends w (write_read_error e w) /\
  Closed (conn_codec (write_read_error e w)) = Closed (conn_codec w).
Proof.
  unfold write_read_error. intros Hwf Han. case_bool_decide; [done|]. by apply write_ok.
Qed.

Lemma write_shutdown_ok reqs batch w w' :
  wf_conn w -> announced w -> write_shutdown reqs batch w = Some w' ->
  wf_conn w' /\ announced w' /\ extends w w' /\
  Closed (conn_codec w') = Closed (conn_codec w).
Proof.
  unfold write_shutdown. intros Hwf Han Hw.
  assert (exists m, w' = (write m w).2) as [m ->]
    by (destruct batch; [|destruct reqs]; naive_solver).
  by apply write_ok.
Qed.

Lemma close_codec_ok w : announced w -> announced (close_codec w) /\ extends w (close_codec w).
Proof.
  intros Han. assert (closes w (close_codec w)) by (intros _; apply close_closed).
  split; [by apply (announced_same w)|by apply extends_same].
Qed.

Lemma server_step_ok Services single s s' :
  good_registry Services -> session_ok s -> server_step Services single s s' -> session_ok s'.
Proof.
  intros Hg (Hwf & Han & Hpc & Hts) Hs. destruct Hs; simpl in *; unfold session_ok; simpl.
  - done.
  - destruct reg; [|done]. destruct (close_codec_ok w Han) as [? ?]. split_and!; try done.
    by eapply tasks_ok_extends.
  - done.
  - done.
  - done.
  - done.
  - destruct (readRequest_ok _ _ _ _ _ Hg Hwf Han H1) as (Hwf' & Han' & He & _).
    destruct (write_read_error_ok e w' Hwf' Han') as (? & ? & He' & _). split_and!; [done..|].
    eapply tasks_ok_extends; [etransitivity; [exact He|exact He']|done].
  - destruct (readRequest_ok _ _ _ _ _ Hg Hwf Han H1) as (Hwf' & Han' & He & _ & Hr1 & Hr2).
    split_and!; [done..|]. by eapply tasks_ok_extends.
  - done.
  - destruct (write_shutdown_ok _ _ _ _ Hwf Han H2) as (? & ? & He & _). split_and!; [done..|].
    by eapply tasks_ok_extends.
  - split_and!; [done..|]. constructor; [|done]. eapply start_task_ok; [|done]. apply Hpc.
  - split_and!; [done..|]. apply Forall_app. split; [done|]. constructor; [|done].
    eapply start_task_ok; [|done]. apply Hpc.
  - apply Forall_cons in Hts as [Ht Hts].
    destruct (task_step_ok _ _ _ _ H1 Hwf Han Ht) as (? & ? & ? & He). split_and!; [done..|].
    constructor; [done|]. by eapply tasks_ok_extends.
  - split_and!; [done..|]. by apply Forall_cons in Hts as [_ Hts].
  - done.
  - rewrite !Forall_app, Forall_cons in Hts. destruct Hts as (Hp & H2 & Ht & H3).
    destruct (task_step_ok _ _ _ _ H1 Hwf Han Ht) as (? & ? & ? & He). split_and!; [done..|].
    rewrite !Forall_app, Forall_cons.
    split_and!; try done; by eapply tasks_ok_extends.
  - split_and!; [done..|]. rewrite !Forall_app, Forall_cons in Hts. rewrite !Forall_app. naive_solver.
  - destruct (close_codec_ok w Han) as [? ?]. split_and!; try done. by eapply tasks_ok_extends.
Qed.

Lemma user_step_extends w w' : user_step w w' -> extends w w'.
Proof.
  intros Hu. assert (Hrtc : rtc user_step w w') by by apply rtc_once.
  destruct (user_steps_log _ _ Hrtc) as (l & Hl & _). split; [eauto|].
  split; [by apply user_steps_notifier|by apply user_step_closes].
Qed.

Lemma session_step_ok Services single s s' :
  good_registry Services -> session_ok s -> session_step Services single s s' -> session_ok s'.
Proof.
  intros Hg Hok Hs. revert Hok. destruct Hs as [s1 s2 Hs|run reg p ts w w' Hu]; intros Hok.
  { by eapply server_step_ok. }
  destruct Hok as (Hwf & Han & Hpc & Hts). simpl in *. unfold session_ok. simpl.
  split; [eapply user_steps_wf; [by apply rtc_once|done]|].
  split; [by eapply announced_user|]. split; [done|].
  eapply tasks_ok_extends; [by apply user_step_extends|done].
Qed.

Lemma initial_ok run subs c : session_ok (initial (Data:=Data) (R:=R) run subs c).
Proof.
  unfold initial, session_ok. simpl. split_and!; [|split|done|constructor].
  - destruct subs; [apply wf_newNotifier|done].
  - simpl. destruct subs; [|done]. intros n id [= <-] [l Hl]. simpl in Hl.
    cbn [active newNotifier] in Hl. by rewrite lookup_empty in Hl.
  - simpl. intros pre post id ns d err Heq. by destruct pre.
Qed.

(** Every reachable state satisfies the invariant. *)
Lemma reachable_ok Services single run subs c s :
  good_registry Services -> rtc (session_step Services single) (initial run subs c) s ->
  session_ok s.
Proof.
  intros Hg Hr. eapply (rtc_preserves (session_step Services single)); [|exact Hr|apply initial_ok].
  eauto using session_step_ok.
Qed.

(** ** Goroutines and [exec] *)

Lemma task_step_complete t w t' w' : task_step t w t' w' -> complete t w = complete t' w'.
Proof.
  intros [batch q todo resps acts w1 r act w2 Hr|batch resps acts m w1 Hm|a acts w1 w2 Ha]; simpl.
  - rewrite Hr. destruct (respond_all todo w2) as [[[rs cbs] w3]|]; [|done].
    by rewrite <-!app_assoc.
  - by rewrite !app_nil_r, Hm.
  - by rewrite Ha.
Qed.

Lemma complete_acts acts w w' :
  activate_all acts w = Ret w' -> task_steps (TAct acts, w) (TAct [], w').
Proof.
  revert w. induction acts as [|a acts IH]; intros w; simpl; [intros [= ->]; by left|].
  destruct (activateSub a w) as [w1|] eqn:Ha; [|done]. intros Hall.
  eapply rtc_l; [|by apply IH]. by constructor.
Qed.

Lemma complete_steps t w w' : complete t w = Ret w' -> task_steps (t, w) (TAct [], w').
Proof.
  destruct t as [batch todo resps acts|acts]; [|apply complete_acts].
  revert resps acts w. induction todo as [|q todo IH]; intros resps acts w; simpl.
  - rewrite !app_nil_r. destruct (task_message batch resps) as [m|] eqn:Hm; [|done].
    intros Ha. eapply rtc_l; [|by apply complete_acts]. by constructor.
  - destruct (respond q w) as [[[r act] w1]|] eqn:Hr; [|done].
    destruct (respond_all todo w1) as [[[rs cbs] w2]|] eqn:Hrs; [|done]. intros Hm.
    apply (rtc_l _ _ (TRun batch todo (resps ++ [r]) (acts ++ option_list act), w1));
      [by constructor|].
    apply IH. simpl. rewrite Hrs. by rewrite <-!app_assoc.
Qed.

Lemma start_complete reqs batch t w :
  start_task reqs batch = Some t -> run_requests reqs batch w = complete t w.
Proof.
  unfold start_task, run_requests. destruct batch.
  - intros [= <-]. unfold execBatch. simpl. by destruct (respond_all reqs w) as [[[]]|].
  - destruct reqs as [|q reqs]; [done|]. intros [= <-]. unfold exec. simpl.
    destruct (respond q w) as [[[r act] w1]|]; simpl; [|done].
    destruct act as [a|]; simpl; [|done]. by destruct (activateSub a _).
Qed.

(** A task that keeps the invariant is finished or can go on. *)
Lemma task_progress t w :
  wf_conn w -> task_ok w t -> t = TAct [] \/ exists t' w', task_step t w t' w'.
Proof.
  intros Hwf. destruct t as [batch [|q todo] resps acts|[|a acts]]; simpl.
  - intros (_ & Hlen & _). right.
    assert (exists m, task_message batch resps = Some m) as [m Hm].
    { destruct batch; simpl; [eauto|]. specialize (Hlen eq_refl).
      destruct resps; simpl in *; [lia|eauto]. }
    eexists _, _. by constructor.
  - intros (Hex & _). right. apply Forall_cons in Hex as [Hq _].
    destruct (respond_responds q w Hq Hwf) as (r & act & w' & l & Hr & _).
    eexists _, _. by constructor.
  - by left.
  - intros [Hn _]. right.
    destruct (activate_total a.1 a.2 w Hwf) as (w' & Ha & _); [by apply Hn|].
    eexists _, _. by constructor.
Qed.

(** ** Termination after [Stop] *)

Lemma task_step_weight t w t' w' : task_step t w t' w' -> task_weight t' < task_weight t.
Proof.
  intros [batch q todo resps acts w1 r act w2 Hr|batch resps acts m w1 Hm|a acts w1 w2 Ha];
    simpl; rewrite ?length_app; try lia. destruct act; simpl; lia.
Qed.

Lemma server_step_weight Services single s s' :
  server_step Services single s s' -> ss_run s <> Running ->
  weight s' < weight s /\ ss_run s' <> Running /\
  length (ss_tasks s') <= length (ss_tasks s).
Proof.
  intros Hs. destruct Hs; unfold weight; simpl; intros Hrun; try done;
    try match goal with Ht : task_step _ _ _ _ |- _ => apply task_step_weight in Ht end;
    rewrite ?fmap_app, ?fmap_cons, ?sum_list_with_app, ?length_app; simpl;
    split_and!; try done; try lia.
Qed.

Lemma session_step_stopped Services single s s' :
  session_step Services single s s' -> ss_run s <> Running ->
  ss_run s' <> Running /\ length (ss_tasks s') <= length (ss_tasks s).
Proof.
  intros [s1 s2 Hs|]; [|done]. intros Hr. by apply server_step_weight in Hs as (_ & ? & ?).
Qed.

Lemma readRequest_returns Services w :
  good_registry Services -> exists res batch w', readRequest Services w = Ret (res, batch, w').
Proof.
  intros Hg. unfold readRequest.
  destruct (ReadRequestHeaders (conn_codec w)) as [[[rs|e] b] c'] eqn:E; [|eauto].
  destruct (resolve_all_executable Services rs Hg) as (reqs & -> & _); [|eauto].
  by eapply read_params.
Qed.

Lemma start_task_total (reqs : list (ServerRequest Data C R)) batch :
  (batch = false -> length reqs = 1) -> exists t, start_task reqs batch = Some t.
Proof.
  unfold start_task. destruct batch; [eauto|]. intros Hlen.
  destruct reqs; [by specialize (Hlen eq_refl)|eauto].
Qed.

Lemma write_shutdown_total reqs batch w :
  (batch = false -> length reqs = 1) -> exists w', write_shutdown reqs batch w = Some w'.
Proof.
  unfold write_shutdown. destruct batch; [eauto|]. intros Hlen.
  destruct reqs; [by specialize (Hlen eq_refl)|eauto].
Qed.

(** [serveRequest] can go on unless it waits for the goroutines or has ended. *)
Lemma serve_progress Services (single : bool) run reg p ts w :
  good_registry Services -> session_ok (mkSession run reg p ts w) ->
  (p = PWait /\ ts <> []) \/ p = PClosed \/ (exists err, p = PDone err /\ single = true) \/
  exists s', server_step Services single (mkSession run reg p ts w) s' /\ ss_run s' = run.
Proof.
  intros Hg (Hwf & _ & Hpc & Hts). cbn in *.
  destruct p as [| | |reqs batch| |t|err|err|].
  - do 3 right. destruct (decide (run = Running)) as [->|]; eexists;
      (split; [first [apply st_register | by apply st_refused]|done]).
  - do 3 right. destruct (decide (run = Running)) as [->|]; eexists;
      (split; [first [apply st_enter | by apply st_exit]|done]).
  - do 3 right. destruct (readRequest_returns Services w Hg) as ([reqs|e] & batch & w' & Hr); eexists;
      (split; [first [by eapply st_read | by eapply st_read_error]|done]).
  - do 3 right. destruct (decide (run = Running)) as [->|].
    + destruct (start_task_total reqs batch) as [t Ht]; [by apply Hpc|].
      destruct single; eexists; (split; [first [by eapply st_inline | by eapply st_spawn]|done]).
    + destruct (write_shutdown_total reqs batch w) as [w' Hw]; [by apply Hpc|].
      eexists. split; [by eapply st_shutdown|done].
  - destruct ts; [|by left]. do 3 right. eexists. split; [apply st_waited|done].
  - do 3 right. apply Forall_cons in Hts as [Ht _].
    destruct (task_progress t w Hwf Ht) as [->|(t' & w' & Hstep)]; eexists;
      (split; [first [apply st_inline_done | by apply st_inline_step]|done]).
  - do 3 right. eexists. split; [apply st_return|done].
  - destruct single; [right; right; left; eauto|]. do 3 right. eexists. split; [by apply st_close|done].
  - right. by left.
Qed.

(** The server can go on before it has finished, without a step of [Stop]. *)
Lemma server_progress Services (single : bool) s :
  good_registry Services -> session_ok s ->
  finished single s \/ exists s', server_step Services single s s' /\ ss_run s' = ss_run s.
Proof.
  destruct s as [run reg p ts w]. intros Hg Hok.
  destruct ts as [|t ts].
  - destruct (serve_progress Services single _ _ _ _ _ Hg Hok) as [[_ ?]|[->|[(err & -> & ->)|?]]];
      [done|by left|by left|by right].
  - right. destruct Hok as (Hwf & _ & _ & Hts). cbn in *.
    apply Forall_app in Hts as [_ Hts]. apply Forall_cons in Hts as [Ht _].
    destruct (task_progress t w Hwf Ht) as [->|(t' & w' & Hstep)]; eexists.
    + split; [apply (st_task_done _ _ run reg p [])|done].
    + split; [by apply (st_task _ _ run reg p [])|done].
Qed.

(** ** The codec *)

Lemma task_step_closes t w t' w' :
  task_step t w t' w' -> wf_conn w -> task_ok w t -> closes w w'.
Proof.
  intros [batch q todo resps acts w1 r act w2 Hr|batch resps acts m w1 Hm|a acts w1 w2 Ha] Hwf Hok.
  - destruct Hok as [Hex _]. apply Forall_cons in Hex as [Hq _].
    by apply (respond_extends _ _ _ _ _ Hq Hwf Hr).
  - apply write_or_close_closes.
  - unfold closes. by rewrite (activateSub_codec _ _ _ Ha).
Qed.

Definition codec_ok s : Prop :=
  ss_registered s = registered_at (ss_pc s) /\
  (ss_run s = Stopped -> ss_registered s = true -> Closed (conn_codec (ss_conn s)) = true) /\
  (ss_pc s = PClosed -> Closed (conn_codec (ss_conn s)) = true).

Lemma codec_ok_conn run reg p ts ts' w w' p' :
  codec_ok (mkSession run reg p ts w) -> closes w w' ->
  registered_at p' = registered_at p -> (p' = PClosed -> p = PClosed) ->
  codec_ok (mkSession run reg p' ts' w').
Proof. unfold codec_ok, closes. simpl. intuition congruence. Qed.

Lemma codec_ok_same run reg p ts ts' w p' :
  codec_ok (mkSession run reg p ts w) ->
  registered_at p' = registered_at p -> (p' = PClosed -> p = PClosed) ->
  codec_ok (mkSession run reg p' ts' w).
Proof. intros Hc. apply (codec_ok_conn _ _ _ _ _ _ _ _ Hc). by unfold closes. Qed.

Lemma server_step_codec Services single s s' :
  good_registry Services -> session_ok s -> codec_ok s ->
  server_step Services single s s' -> codec_ok s'.
Proof.
  intros Hg (Hwf & Han & Hpc & Hts) Hc Hs. destruct Hs; simpl in *.
  - destruct Hc as (? & _ & ?). by split_and!.
  - destruct Hc as (Hr & _ & Hcl). split_and!; simpl in *; [done| |].
    + intros _ ->. apply close_closed.
    + intros Hp. destruct reg; [apply close_closed|by apply Hcl].
  - by split_and!.
  - by eapply codec_ok_same.
  - by eapply codec_ok_same.
  - by eapply codec_ok_same.
  - destruct (readRequest_ok _ _ _ _ _ Hg Hwf Han H1) as (Hwf' & Han' & _ & E & _).
    destruct (write_read_error_ok e w' Hwf' Han') as (_ & _ & _ & E').
    eapply codec_ok_conn; [exact Hc|unfold closes; congruence|done..].
  - destruct (readRequest_ok _ _ _ _ _ Hg Hwf Han H1) as (_ & _ & _ & E & _).
    eapply codec_ok_conn; [exact Hc|unfold closes; congruence|done..].
  - by eapply codec_ok_same.
  - destruct (write_shutdown_ok _ _ _ _ Hwf Han H2) as (_ & _ & _ & E).
    eapply codec_ok_conn; [exact Hc|unfold closes; congruence|done..].
  - by eapply codec_ok_same.
  - by eapply codec_ok_same.
  - apply Forall_cons in Hts as [Ht _].
    eapply codec_ok_conn; [exact Hc|by eapply task_step_closes|done..].
  - by eapply codec_ok_same.
  - by split_and!.
  - apply Forall_app in Hts as [_ Hts]. rewrite Forall_app, Forall_cons in Hts.
    eapply codec_ok_conn; [exact Hc|eapply task_step_closes; naive_solver|done..].
  - by eapply codec_ok_same.
  - destruct Hc as (Hr & _). simpl in Hr. subst reg. split_and!; simpl; intros; try done; apply close_closed.
Qed.

Lemma session_step_codec Services single s s' :
  good_registry Services -> session_ok s -> codec_ok s ->
  session_step Services single s s' -> codec_ok s'.
Proof.
  intros Hg Hok Hc Hs. destruct Hs as [s1 s2 Hs|run reg p ts w w' Hu].
  - by eapply server_step_codec.
  - eapply codec_ok_conn; [exact Hc|by apply user_step_closes|done..].
Qed.

(** The invariants of a reachable state. *)
Lemma reachable_codec Services single run subs c s :
  good_registry Services -> rtc (session_step Services single) (initial run subs c) s ->
  session_ok s /\ codec_ok s.
Proof.
  intros Hg Hr.
  eapply (rtc_preserves (session_step Services single) (fun s => session_ok s /\ codec_ok s));
    [|exact Hr|].
  - intros s1 s2 [Hok Hc] Hs. eauto using session_step_ok, session_step_codec.
  - split; [apply initial_ok|]. by split_and!.
Qed.

(** ** Properties *)

(** C7: over a registry of methods that keep the contract, along every
    interleaving of the reads, the goroutines, the calls of
    user code and [Stop], a notification is handed to the codec only after a
    response that carries its subscription identifier was, and a subscription
    is active only after that as well: with a response that [Write] took without
    an error, or, where [Write] failed on that response, with the codec closed.
    In the second case the server activates the subscription all the same, and
    its notifications are still written, though the client was never told the
    identifier. *)
Theorem notification_follows_answer Services single run subs c s :
  good_registry Services -> rtc (session_step Services single) (initial run subs c) s ->
  (forall pre id ns data err post, conn_log (ss_conn s) = pre ++ EvNotify id ns data err :: post ->
     (exists m rid, EvResponse m None ∈ pre /\ CreateResponse rid (VString id) ∈ message_list m) \/
     ((exists m rid e, EvResponse m (Some e) ∈ pre /\ CreateResponse rid (VString id) ∈ message_list m) /\
      Closed (conn_codec (ss_conn s)) = true)) /\
  (forall n id, conn_notifier (ss_conn s) = Some n -> is_Some (active n !! id) ->
     (exists m rid, EvResponse m None ∈ conn_log (ss_conn s) /\
        CreateResponse rid (VString id) ∈ message_list m) \/
     ((exists m rid e, EvResponse m (Some e) ∈ conn_log (ss_conn s) /\
         CreateResponse rid (VString id) ∈ message_list m) /\
      Closed (conn_codec (ss_conn s)) = true)).
Proof.
  intros Hg Hr. destruct (reachable_ok _ _ _ _ _ _ Hg Hr) as (_ & [Hact Han] & _).
  split; [|exact Hact]. intros pre id ns data err post Hlog. by eapply Han.
Qed.

(** C10: on a registry of methods that keep the contract no goroutine of the
    server panics: in every reachable state, each of them has finished or can
    take its next step.  The contract is asked of the registered methods: a
    body that is called with arguments of its types returns results of its
    types, does not panic, and acts on the connection through the notifier only
    ([well_behaved]); its error results have a nil and implement [error] and a
    subscription is returned by a pointer ([plain_results]), which the
    registration does not check; and the context of a subscription is not
    behind a pointer.  Without the last two [handle] does panic
    ([error_type_panics], [value_subscription_panics], [pointer_context_panics]). *)
Theorem goroutines_never_panic Services single run subs c s t :
  good_registry Services -> rtc (session_step Services single) (initial run subs c) s ->
  t ∈ pc_tasks (ss_pc s) ++ ss_tasks s ->
  t = TAct [] \/ exists t' w', task_step t (ss_conn s) t' w'.
Proof.
  intros Hg Hr Ht. destruct (reachable_ok _ _ _ _ _ _ Hg Hr) as (Hwf & _ & _ & Hts).
  rewrite Forall_forall in Hts. by apply task_progress, Hts.
Qed.

(** C23: a goroutine taken step by step does what [exec], for a single request,
    or [execBatch] does in one piece: its complete runs without interference
    are exactly the results of these functions. *)
Theorem goroutine_refines_exec reqs batch t w w' :
  start_task reqs batch = Some t ->
  run_requests reqs batch w = Ret w' <-> task_steps (t, w) (TAct [], w').
Proof.
  intros Ht. rewrite (start_complete _ _ _ w Ht). split; [apply complete_steps|].
  intros Hs. change (complete (t, w).1 (t, w).2 = Ret w').
  remember (@TAct Data C R [], w') as tw eqn:E.
  induction Hs as [|[t1 w1] [t2 w2] [t3 w3] Hs _ IH]; [by subst|].
  simpl in *. rewrite (task_step_complete _ _ _ _ Hs). by apply IH.
Qed.

(** Once [Stop] has cleared [Run] no request is started any more, the
    server takes at most [weight] further steps, and as long as reads return it
    cannot get stuck before [serveRequest] has returned and all goroutines have
    ended. *)
Theorem stop_terminates Services single run subs c s :
  good_registry Services -> rtc (session_step Services single) (initial run subs c) s ->
  ss_run s <> Running ->
  (forall n s', nsteps (server_step Services single) n s s' -> n <= weight s) /\
  (forall s', rtc (session_step Services single) s s' ->
     length (ss_tasks s') <= length (ss_tasks s) /\
     (finished single s' \/ exists s'', server_step Services single s' s'')).
Proof.
  intros Hg Hr Hrun. split.
  - intros n s' Hn. clear Hr. induction Hn as [s|n s s1 s2 Hs _ IH]; [lia|].
    apply server_step_weight in Hs as (Hw & Hrun' & _); [|done]. specialize (IH Hrun'). lia.
  - intros s' Hs.
    destruct (rtc_preserves (session_step Services single)
      (fun s' => ss_run s' <> Running /\ length (ss_tasks s') <= length (ss_tasks s))
      ltac:(intros s1 s2 [H1 H2] Hs12; apply session_step_stopped in Hs12 as [? ?]; [split; [done|lia]|done])
      s s' Hs ltac:(done)) as [Hrun' Hlen].
    split; [done|].
    destruct (server_progress Services single s') as [?|(s'' & ? & _)]; [done| |by left|eauto].
    eapply reachable_ok; [done|]. by etransitivity.
Qed.

(** The codec is in [Codecs] exactly from its registration to the deferred
    function of [serveRequest]; when [Stop] has come to a codec found there it is
    closed, and so is the codec when [ServeCodec] returns. *)
Theorem codec_lifecycle Services single run subs c s :
  good_registry Services -> rtc (session_step Services single) (initial run subs c) s ->
  ss_registered s = registered_at (ss_pc s) /\
  (ss_run s = Stopped -> ss_registered s = true -> Closed (conn_codec (ss_conn s)) = true) /\
  (ss_pc s = PClosed -> Closed (conn_codec (ss_conn s)) = true).
Proof. intros Hg Hr. by destruct (reachable_codec _ _ _ _ _ _ Hg Hr) as [_ Hc]. Qed.

End Proofs.
