(* ===== verification/Effects.v ===== *)
(** * pkg/server/server.go: what a session does to its codec

    Every step of a session acts on the codec and the log of a connection
    through a few operations: a read, a message or a notification written, a
    close.  What these operations keep, a session keeps. *)

From S2P Require Import Prelude GoStd RpcTypes Utf8 Notifier Register Server Session.
From Stdlib Require Import ZArith Lia.
From stdpp Require Import gmap strings list relations.

Section Effects.
Context {Data C R : Type} `{ServerCodec Data C R} {DataTy : DataTypes Data} `{UnicodeTables}.
Implicit Types (w : conn Data C R) (s : session Data C R) (t : task Data C R).

(** The message an event hands to the codec. *)
Definition event_message (e : event Data R) : message R :=
  match e with
  | EvResponse m _ => m
  | EvNotify id ns d _ => One (CreateNotification id ns d)
  end.

(** The error [Write] returned for it. *)
Definition event_err (e : event Data R) : option string :=
  match e with EvResponse _ err | EvNotify _ _ _ err => err end.

(** The operations but reading. *)
Inductive write_op : conn Data C R -> conn Data C R -> Prop :=
| op_event e w :
    event_err e = (Write (event_message e) (conn_codec w)).1 ->
    write_op w (mkConn (Write (event_message e) (conn_codec w)).2 (conn_log w ++ [e])
                  (conn_subs w) (conn_notifier w))
| op_close w : write_op w (close_codec w)
| op_other c log subs n subs' n' : write_op (mkConn c log subs n) (mkConn c log subs' n').

Definition codec_op w w' : Prop :=
  write_op w w' \/ w' = set_codec (ReadRequestHeaders (conn_codec w)).2 w.

Lemma write_ops m w : rtc write_op w (write m w).2.
Proof.
  pose proof (op_event (EvResponse m (Write m (conn_codec w)).1) w eq_refl) as Ho. unfold write.
  cbn [event_message] in Ho. destruct (Write _ _). by apply rtc_once.
Qed.

Lemma write_or_close_ops m w : rtc write_op w (write_or_close m w).
Proof.
  unfold write_or_close. pose proof (write_ops m w) as Hw. destruct (write m w) as [[e|] w'] eqn:E.
  - cbn in *. eapply rtc_r; [exact Hw|constructor].
  - exact Hw.
Qed.

Lemma same_codec_ops w w' :
  conn_codec w' = conn_codec w -> conn_log w' = conn_log w -> rtc write_op w w'.
Proof. destruct w, w'. cbn. intros -> ->. apply rtc_once. constructor. Qed.

Lemma user_step_ops w w' : user_step w w' -> rtc write_op w w'.
Proof.
  intros [id l w1 w2 Hc|id data e w1 w2 Hc].
  - unfold CreateSubscription in Hc. destruct (conn_notifier w1); simplify_eq. by apply same_codec_ops.
  - unfold Notify in Hc. destruct (conn_notifier w1) as [n|] eqn:En; [|done].
    destruct (active n !! id) as [l|]; [|by simplify_eq].
    destruct (conn_subs w1 !! _) as [sub|]; [|done].
    pose proof (op_event (EvNotify id (sub_namespace sub) data
      (Write (One (CreateNotification id (sub_namespace sub) data)) (conn_codec w1)).1) w1 eq_refl) as Ho.
    cbn [event_message] in Ho. rewrite <-En in Hc.
    destruct (Write _ _) as [[err|] c]; simplify_eq; [|by apply rtc_once].
    eapply rtc_l; [exact Ho|]. apply rtc_once, op_close.
Qed.

Lemma user_steps_ops w w' : rtc user_step w w' -> rtc write_op w w'.
Proof. induction 1 as [|w1 w2 w3 Hs _ IH]; [done|]. etransitivity; [by apply user_step_ops|done]. Qed.

Lemma unsubscribe_ops id e w w' : unsubscribe id w = Ret (e, w') -> rtc write_op w w'.
Proof.
  intros Hu. apply same_codec_ops; [by eapply unsubscribe_codec|]. revert Hu. unfold unsubscribe, close_err.
  destruct (conn_notifier w); [|done]. destruct (active _ !! id); [|by intros [= <- <-]].
  destruct (conn_subs w !! _); [|done]. destruct (sub_err_closed _); [done|]. by intros [= <- <-].
Qed.

Lemma activateSub_ops a w w' : activateSub a w = Ret w' -> rtc write_op w w'.
Proof.
  unfold activateSub, activate. intros Ha. destruct (conn_notifier w); [|done].
  destruct (inactive _ !! a.1); [|by simplify_eq].
  destruct (conn_subs w !! _); simplify_eq; by apply same_codec_ops.
Qed.

Lemma write_shutdown_ops reqs batch w w' : write_shutdown reqs batch w = Some w' -> rtc write_op w w'.
Proof.
  unfold write_shutdown. intros Hw.
  assert (exists m, w' = (write m w).2) as [m ->] by (destruct batch; [|destruct reqs]; naive_solver).
  apply write_ops.
Qed.

Lemma write_read_error_ops e w : rtc write_op w (write_read_error e w).
Proof. unfold write_read_error. case_bool_decide; [done|]. apply write_ops. Qed.

Lemma readRequest_op Services w res batch w' :
  readRequest Services w = Ret (res, batch, w') ->
  w' = set_codec (ReadRequestHeaders (conn_codec w)).2 w.
Proof.
  unfold readRequest. destruct (ReadRequestHeaders (conn_codec w)) as [[[rs|e] b] c]; cbn.
  - destruct (resolve_all Services rs); [|done]. by intros [= _ _ <-].
  - by intros [= _ _ <-].
Qed.

Section Laws.
Context `{!ServerCodecLaws Data C R}.

Lemma task_step_ops t w t' w' :
  wf_conn w -> task_ok w t -> task_step t w t' w' -> rtc write_op w w'.
Proof.
  intros Hwf Hok Ht. revert Hwf Hok.
  destruct Ht as [batch q todo resps acts w1 r act w2 Hr|batch resps acts m w1 Hm|a acts w1 w2 Ha];
    intros Hwf Hok; [|apply write_or_close_ops|by eapply activateSub_ops].
  destruct Hok as [Hex _]. apply Forall_cons in Hex as [Hq _].
  destruct (respond_effect _ _ _ _ _ Hq Hwf Hr) as [[Hs|(id & e & Hu)] _];
    [by apply user_steps_ops|by eapply unsubscribe_ops].
Qed.

(** The steps that do not read. *)
Lemma server_step_ops Services single s s' :
  session_ok s -> server_step Services single s s' ->
  rtc write_op (ss_conn s) (ss_conn s') \/
  (ss_pc s = PReading /\
   rtc write_op (set_codec (ReadRequestHeaders (conn_codec (ss_conn s))).2 (ss_conn s)) (ss_conn s')).
Proof.
  intros (Hwf & _ & _ & Hts) Hs. destruct Hs; cbn [ss_conn ss_pc ss_tasks pc_tasks app] in *; try (by left).
  - left. destruct reg; [apply rtc_once, op_close|done].
  - right. split; [done|]. match goal with Hr : readRequest _ _ = _ |- _ => apply readRequest_op in Hr; subst end.
    apply write_read_error_ops.
  - right. split; [done|]. match goal with Hr : readRequest _ _ = _ |- _ => apply readRequest_op in Hr; subst end.
    done.
  - left. by eapply write_shutdown_ops.
  - left. apply Forall_cons in Hts as [Hok _]. by eapply task_step_ops.
  - left. rewrite !Forall_app, Forall_cons in Hts. destruct Hts as (_ & _ & Hok & _). by eapply task_step_ops.
  - left. apply rtc_once, op_close.
Qed.

(** What the operations keep, a session keeps. *)
Lemma session_ops (P : conn Data C R -> Prop) Services single s s' :
  (forall w w', P w -> write_op w w' -> P w') ->
  (forall w, P w -> P (set_codec (ReadRequestHeaders (conn_codec w)).2 w)) ->
  session_ok s -> session_step Services single s s' -> P (ss_conn s) -> P (ss_conn s').
Proof.
  intros Hop Hread Hok Hs Hp.
  assert (Hops : forall w w', rtc write_op w w' -> P w -> P w').
  { intros w w' Hr. apply (rtc_preserves write_op P); [|done]. eauto. }
  destruct Hs as [s s' Hs|run reg p ts w w' Hu].
  - destruct (server_step_ops _ _ _ _ Hok Hs) as [Ho|[_ Ho]]; eauto.
  - eapply Hops; [by apply user_step_ops|done].
Qed.

Lemma reachable_ops (P : conn Data C R -> Prop) Services single s s' :
  (forall w w', P w -> write_op w w' -> P w') ->
  (forall w, P w -> P (set_codec (ReadRequestHeaders (conn_codec w)).2 w)) ->
  good_registry Services -> session_ok s -> rtc (session_step Services single) s s' ->
  P (ss_conn s) -> P (ss_conn s').
Proof.
  intros Hop Hread Hg Hok Hr Hp.
  enough (session_ok s' /\ P (ss_conn s')) by tauto.
  eapply (rtc_preserves (session_step Services single) (fun s => session_ok s /\ P (ss_conn s))); eauto.
  intros s1 s2 [Hok1 Hp1] Hs. split; [by eapply session_step_ok|by eapply session_ops].
Qed.
End Laws.
End Effects.
