(* ===== verification/Multi.v ===== *)
(** * pkg/server/server.go: the server with all its connections

    Connections that share [Run], [Codecs] and the mutex of [Codecs], each a
    session of [Session], and [Stop] walking over the set of codecs.  Every
    connection behaves as a session does, whatever the others do; and [Stop]
    ends them all, although it closes one codec only. *)

From S2P Require Import Prelude GoStd RpcTypes Utf8 Notifier Register Server Session.
From Stdlib Require Import ZArith Lia.
From stdpp Require Import gmap strings list relations.

(** golang-set: the elements [Each] hands to a callback, in order, by what the
    callback returns. *)
Class GolangSet := { set_each : gset nat -> (nat -> bool) -> list nat -> Prop }.

(** A walk that ends at the first element the callback returns true for. *)
Fixpoint until (f : nat -> bool) (order : list nat) : list nat :=
  match order with
  | [] => []
  | x :: order => x :: if f x then [] else until f order
  end.

(** The documentation: Each executes the function against each element; if the
    function returns true, the iteration stops there.  The order is any. *)
Class GolangSetLaws `{GolangSet} := {
  each_stops : forall S f l, set_each S f l -> exists order, order ≡ₚ elements S /\ l = until f order;
  each_walks : forall S f, exists l, set_each S f l
}.

(** What the callback of [Stop] returns once it has closed the codec. *)
Definition stop_callback (c : nat) : bool := true.

Lemma sum_imap_le {A} (f g : nat -> A -> nat) (l k : list A) :
  length l = length k ->
  (forall j x y, l !! j = Some x -> k !! j = Some y -> f j x <= g j y) ->
  sum_list (imap f l) <= sum_list (imap g k).
Proof.
  revert f g k. induction l as [|x l IH]; intros f g [|y k]; cbn; try done. intros [= Hl] Hle.
  pose proof (Hle 0 x y eq_refl eq_refl). specialize (IH (f ∘ S) (g ∘ S) k Hl (fun j => Hle (S j))). lia.
Qed.

Lemma sum_imap_lt {A} (f g : nat -> A -> nat) (l k : list A) i x y :
  length l = length k ->
  (forall j x y, l !! j = Some x -> k !! j = Some y -> f j x <= g j y) ->
  l !! i = Some x -> k !! i = Some y -> f i x < g i y ->
  sum_list (imap f l) < sum_list (imap g k).
Proof.
  revert f g k i. induction l as [|x' l IH]; intros f g [|y' k] i; cbn; try done. intros [= Hl] Hle Hx Hy Hlt.
  pose proof (Hle 0 x' y' eq_refl eq_refl). destruct i as [|i]; cbn in Hx, Hy.
  - simplify_eq. pose proof (sum_imap_le (f ∘ S) (g ∘ S) l k Hl (fun j => Hle (S j))). lia.
  - specialize (IH (f ∘ S) (g ∘ S) k i Hl (fun j => Hle (S j)) Hx Hy Hlt). lia.
Qed.

(** All elements have a property, unless one gives something else. *)
Lemma list_all_or {A} (P : nat -> A -> Prop) (Q : Prop) (l : list A) :
  (forall i x, l !! i = Some x -> P i x \/ Q) -> (forall i x, l !! i = Some x -> P i x) \/ Q.
Proof.
  revert P. induction l as [|y l IH]; intros P Hl; [by left|].
  destruct (Hl 0 y eq_refl) as [Hy|]; [|by right].
  destruct (IH (fun i => P (S i)) (fun i => Hl (S i))) as [Hall|]; [left|by right].
  intros [|i] x Hx; [by injection Hx as <-|by apply Hall].
Qed.

Section Multi.
Context {Data C R : Type} `{ServerCodec Data C R} {DataTy : DataTypes Data} `{UnicodeTables} `{GolangSet}.

(** A connection: what a session has of its own. *)
Record client := mkClient {
  cl_single : bool;
  cl_pc : pc Data C R;
  cl_tasks : list (task Data C R);
  cl_conn : conn Data C R
}.

(** [Stop]: not called; [Run] is 0; [CodecsMu] is held, with the codecs still to
    be closed; returned. *)
Inductive stopping := SServing | SSwapped | SLocked (todo : list nat) | SOver.

(** A codec is known by the number of its connection; [sv_closed] lists the
    codecs [Stop] has closed. *)
Record server := mkServer {
  sv_stop : stopping;
  sv_closed : list nat;
  sv_Codecs : gset nat;
  sv_clients : list client
}.

Definition NewServer : server := mkServer SServing [] ∅ [].

(** The server as connection [i] sees it. *)
Definition run_of (sv : server) (i : nat) : runstate :=
  match sv_stop sv with
  | SServing => Running
  | _ => if decide (i ∈ sv_closed sv) then Stopped else Stopping
  end.

Definition view (sv : server) (i : nat) (cl : client) : session Data C R :=
  mkSession (run_of sv i) (bool_decide (i ∈ sv_Codecs sv)) (cl_pc cl) (cl_tasks cl) (cl_conn cl).

Definition client_of (single : bool) (s : session Data C R) : client :=
  mkClient single (ss_pc s) (ss_tasks s) (ss_conn s).

(** What a step of connection [i] leaves. *)
Definition update (sv : server) (i : nat) (single : bool) (s : session Data C R) : server :=
  mkServer (sv_stop sv) (sv_closed sv)
    (if ss_registered s then {[i]} ∪ sv_Codecs sv else sv_Codecs sv ∖ {[i]})
    (<[i := client_of single s]> (sv_clients sv)).

Definition close_client (cl : client) : client :=
  mkClient (cl_single cl) (cl_pc cl) (cl_tasks cl) (close_codec (cl_conn cl)).

(** The critical sections of [serveRequest]: the registration, and the deferred
    removal. *)
Definition takes_lock (p p' : pc Data C R) : bool :=
  match p, p' with
  | PStart, PStart => false
  | PStart, _ => true
  | PReturn _, PDone _ => true
  | _, _ => false
  end.

Definition locked (sv : server) : bool := match sv_stop sv with SLocked _ => true | _ => false end.

(** [Stop]: the swap of [Run], the lock, the walk over [Codecs], the unlock. *)
Inductive stop_step : server -> server -> Prop :=
| sp_swap closed cs cls :
    stop_step (mkServer SServing closed cs cls) (mkServer SSwapped closed cs cls)
| sp_lock closed cs cls todo :
    set_each cs stop_callback todo ->
    stop_step (mkServer SSwapped closed cs cls) (mkServer (SLocked todo) closed cs cls)
| sp_close i todo closed cs cls :
    stop_step (mkServer (SLocked (i :: todo)) closed cs cls)
              (mkServer (SLocked todo) (closed ++ [i]) cs (alter close_client i cls))
| sp_unlock closed cs cls :
    stop_step (mkServer (SLocked []) closed cs cls) (mkServer SOver closed cs cls).

Variable Services : gmap string (Service Data C R).

(** A step of the connections' goroutines; one that takes the mutex waits for
    [Stop] to release it. *)
Inductive serve_step : server -> server -> Prop :=
| sv_serve sv i cl s :
    sv_clients sv !! i = Some cl ->
    server_step Services (cl_single cl) (view sv i cl) s ->
    ss_run s = run_of sv i ->
    (takes_lock (cl_pc cl) (ss_pc s) = true -> locked sv = false) ->
    serve_step sv (update sv i (cl_single cl) s).

(** A step of the server. *)
Definition server_moves (sv sv' : server) : Prop := stop_step sv sv' \/ serve_step sv sv'.

(** A step of the program: of the server, of user code that holds the notifier
    of a connection, or a call of [ServeCodec] or [ServeSingleRequest] on a new
    codec. *)
Inductive program_step : server -> server -> Prop :=
| pr_server sv sv' : server_moves sv sv' -> program_step sv sv'
| pr_user sv i cl w' :
    sv_clients sv !! i = Some cl -> user_step (cl_conn cl) w' ->
    program_step sv (mkServer (sv_stop sv) (sv_closed sv) (sv_Codecs sv)
      (<[i := mkClient (cl_single cl) (cl_pc cl) (cl_tasks cl) w']> (sv_clients sv)))
| pr_accept sv single subs c :
    program_step sv (mkServer (sv_stop sv) (sv_closed sv) (sv_Codecs sv)
      (sv_clients sv ++ [client_of single (initial Running subs c)])).

Definition reachable (sv : server) : Prop := rtc program_step NewServer sv.

(** ** The invariant *)

(** The connection is one of the sessions of [Session]. *)
Definition is_session (sv : server) (i : nat) (cl : client) : Prop :=
  exists run subs c, rtc (session_step Services (cl_single cl)) (initial run subs c) (view sv i cl).

Definition stop_ok (sv : server) : Prop :=
  match sv_stop sv with
  | SServing | SSwapped => sv_closed sv = []
  | SLocked todo => NoDup (sv_closed sv ++ todo) /\ forall i, i ∈ todo -> i ∈ sv_Codecs sv
  | SOver => True
  end.

Definition server_ok (sv : server) : Prop :=
  (forall i, i ∈ sv_Codecs sv -> i < length (sv_clients sv)) /\ stop_ok sv /\
  forall i cl, sv_clients sv !! i = Some cl -> is_session sv i cl.

(** *** The walk *)

Lemma until_prefix f order : exists rest, order = until f order ++ rest.
Proof.
  induction order as [|x order [rest IH]]; cbn; [by exists []|].
  destruct (f x); [by exists order|]. exists rest. cbn. by rewrite <-IH.
Qed.

Lemma each_within `{!GolangSetLaws} S f l : set_each S f l -> NoDup l /\ forall i, i ∈ l -> i ∈ S.
Proof.
  intros (order & Ho & ->)%each_stops. destruct (until_prefix f order) as [rest E]. split.
  - assert (NoDup order) as Hnd by (rewrite Ho; apply NoDup_elements).
    rewrite E in Hnd. by apply NoDup_app in Hnd as [? _].
  - intros i Hi. apply elem_of_elements. rewrite <-Ho, E, elem_of_app. by left.
Qed.

Lemma stop_walk `{!GolangSetLaws} S l :
  set_each S stop_callback l -> (l = [] /\ S = ∅) \/ exists i, l = [i] /\ i ∈ S.
Proof.
  intros Hl. destruct (each_within _ _ _ Hl) as [_ Hin].
  apply each_stops in Hl as (order & Ho & ->). destruct order as [|i order]; cbn in *.
  - left. split; [done|]. apply Permutation_nil_l in Ho. by apply leibniz_equiv, elements_empty_inv.
  - right. exists i. split; [done|]. apply Hin. by left.
Qed.

(** *** What the other connections see *)

Lemma run_of_stop sv sv' i :
  sv_stop sv = sv_stop sv' -> sv_closed sv = sv_closed sv' -> run_of sv i = run_of sv' i.
Proof. unfold run_of. by intros -> ->. Qed.

Lemma update_other sv i single s j cl :
  j <> i -> view (update sv i single s) j cl = view sv j cl.
Proof.
  intros Hj. unfold view. f_equal. apply bool_decide_ext. cbn. destruct (ss_registered s); set_solver.
Qed.

Lemma update_self sv i single s :
  ss_run s = run_of sv i -> view (update sv i single s) i (client_of single s) = s.
Proof.
  intros Hr. unfold view. change (run_of (update sv i single s) i) with (run_of sv i). rewrite <-Hr.
  destruct s as [run reg p ts w]. cbn. f_equal.
  destruct reg; [rewrite bool_decide_eq_true_2|rewrite bool_decide_eq_false_2]; set_solver.
Qed.

Lemma view_other sv sv' i cl :
  run_of sv i = run_of sv' i -> (i ∈ sv_Codecs sv <-> i ∈ sv_Codecs sv') -> view sv i cl = view sv' i cl.
Proof. unfold view. intros -> Hc. f_equal. by apply bool_decide_ext. Qed.

Lemma is_session_same sv sv' i cl : view sv i cl = view sv' i cl -> is_session sv i cl -> is_session sv' i cl.
Proof. unfold is_session. by intros ->. Qed.

Lemma is_session_step sv sv' i cl cl' :
  cl_single cl' = cl_single cl -> session_step Services (cl_single cl) (view sv i cl) (view sv' i cl') ->
  is_session sv i cl -> is_session sv' i cl'.
Proof. unfold is_session. intros -> Hs (run & subs & c & Hr). exists run, subs, c. by eapply rtc_r. Qed.

(** *** Preservation *)

Lemma stop_step_ok `{!GolangSetLaws} sv sv' : server_ok sv -> stop_step sv sv' -> server_ok sv'.
Proof.
  intros (Hcs & Hstop & Hcls) Hs.
  destruct Hs as [closed cs cls|closed cs cls todo Hset|i todo closed cs cls|closed cs cls];
    unfold server_ok, stop_ok in *; cbn [sv_stop sv_closed sv_Codecs sv_clients] in *.
  - split_and!; [done|done|]. intros i cl Hcl. eapply (is_session_step _ _ _ cl); [done| |by apply Hcls].
    subst closed. unfold view, run_of. cbn. apply ss_server, st_stop.
  - destruct (each_within _ _ _ Hset) as [Hnd Hin]. split_and!; [done|by rewrite Hstop|done|].
    intros i cl Hcl. eapply is_session_same; [|by apply Hcls]. done.
  - destruct Hstop as [Hnd Hin]. split_and!; [by intros j; rewrite length_alter; apply Hcs| | |].
    + by rewrite <-app_assoc.
    + intros j Hj. apply Hin. by right.
    + assert (Hi : i ∉ closed).
      { rewrite NoDup_app in Hnd. destruct Hnd as (_ & Hd & _). intros Hc. apply (Hd i Hc). left. }
      intros j cl Hcl. destruct (decide (j = i)) as [->|Hj].
      * rewrite list_lookup_alter_eq in Hcl. destruct (cls !! i) as [cl0|] eqn:E; [|done].
        injection Hcl as <-. eapply (is_session_step _ _ _ cl0); [done| |by apply Hcls].
        unfold view, run_of. cbn. rewrite decide_False, decide_True by set_solver.
        rewrite bool_decide_eq_true_2 by (apply Hin; left). apply ss_server.
        exact (st_stop_close _ _ true _ _ _).
      * rewrite list_lookup_alter_ne in Hcl by done. eapply is_session_same; [|by apply Hcls].
        apply view_other; [|done]. unfold run_of. cbn. repeat case_decide; set_solver.
  - split_and!; [done|done|]. intros i cl Hcl. eapply is_session_same; [|by apply Hcls]. done.
Qed.

Lemma clients_insert sv sv' i cl cl' :
  sv_clients sv !! i = Some cl -> sv_clients sv' = <[i := cl']> (sv_clients sv) ->
  (forall j c, j <> i -> view sv' j c = view sv j c) -> is_session sv' i cl' ->
  (forall j c, sv_clients sv !! j = Some c -> is_session sv j c) ->
  forall j c, sv_clients sv' !! j = Some c -> is_session sv' j c.
Proof.
  intros Hi E Hv Hs Hall j c. rewrite E, list_lookup_insert_Some. intros [(-> & <- & _)|[Hj Hc]]; [done|].
  eapply is_session_same; [|by apply Hall]. by rewrite Hv.
Qed.

(** The codec leaves [Codecs] under the mutex. *)
Lemma leaves_under_lock single (s s' : session Data C R) :
  server_step Services single s s' -> ss_registered s = true -> ss_registered s' = false ->
  takes_lock (ss_pc s) (ss_pc s') = true.
Proof. intros []; cbn; congruence. Qed.

Lemma serve_step_ok sv sv' : server_ok sv -> serve_step sv sv' -> server_ok sv'.
Proof.
  intros (Hcs & Hstop & Hcls) Hs. destruct Hs as [sv i cl s Hcl Hs Hrun Hlock].
  pose proof (lookup_lt_Some _ _ _ Hcl) as Hi. split_and!.
  - intros j. cbn. rewrite length_insert. destruct (ss_registered s); set_solver.
  - unfold stop_ok in *. cbn. destruct (sv_stop sv) as [| |todo|] eqn:E; try done.
    destruct Hstop as [Hnd Hin]. split; [done|]. intros j Hj%Hin. destruct (ss_registered s) eqn:Er; [set_solver|].
    enough (i ∉ sv_Codecs sv) by set_solver. intros Hreg.
    assert (takes_lock (cl_pc cl) (ss_pc s) = true) as Ht.
    { apply (leaves_under_lock _ _ _ Hs); [|done]. cbn. by apply bool_decide_eq_true_2. }
    specialize (Hlock Ht). unfold locked in Hlock. by rewrite E in Hlock.
  - eapply clients_insert; [done|done| | |done].
    + intros j c Hj. by apply update_other.
    + eapply (is_session_step _ _ _ cl); [done| |by apply Hcls].
      rewrite update_self by done. by apply ss_server.
Qed.

Lemma program_step_ok `{!GolangSetLaws} sv sv' : server_ok sv -> program_step sv sv' -> server_ok sv'.
Proof.
  intros Hok Hs. destruct Hs as [sv sv' [Hs|Hs]|sv i cl w' Hcl Hu|sv single subs c].
  - by eapply stop_step_ok.
  - by eapply serve_step_ok.
  - destruct Hok as (Hcs & Hstop & Hcls). split_and!; [by intros j; cbn; rewrite length_insert; apply Hcs|done|].
    eapply clients_insert; [done|done|done| |done].
    eapply (is_session_step _ _ _ cl); [done| |by apply Hcls]. by apply ss_user.
  - destruct Hok as (Hcs & Hstop & Hcls).
    split_and!; [intros j Hj%Hcs; cbn; rewrite length_app; lia|done|].
    intros j cl [Hj|[Hj Hcl]]%lookup_app_Some; [eapply is_session_same; [|by apply Hcls]; done|].
    apply list_lookup_singleton_Some in Hcl as [Hn <-].
    exists (run_of sv j), subs, c. unfold view. cbn [cl_single client_of cl_pc cl_tasks cl_conn].
    rewrite bool_decide_eq_false_2; [done|]. cbn. intros Hin%Hcs. lia.
Qed.

Lemma reachable_server_ok `{!GolangSetLaws} sv : reachable sv -> server_ok sv.
Proof.
  intros Hr. apply (rtc_preserves program_step server_ok) in Hr; [done|by intros; eapply program_step_ok|].
  split_and!; [|done|done]. intros i Hi. set_solver.
Qed.

(** C8: every connection of the server is a session.  With any number of
    connections that share the run flag, the set of codecs and its mutex,
    whatever the others do and wherever [Stop] is, what a connection goes
    through is a run of [Session]: the properties of the sessions hold for each
    connection of the server. *)
Theorem connections_refine_sessions `{!GolangSetLaws} sv i cl :
  reachable sv -> sv_clients sv !! i = Some cl ->
  exists run subs c, rtc (session_step Services (cl_single cl)) (initial run subs c) (view sv i cl).
Proof. intros (_ & _ & Hcls)%reachable_server_ok Hcl. by apply Hcls. Qed.

(** ** Stop closes one codec *)

Definition closes_one (sv sv' : server) : Prop :=
  (sv_Codecs sv = ∅ /\ sv_clients sv' = sv_clients sv) \/
  exists i, i ∈ sv_Codecs sv /\ sv_clients sv' = alter close_client i (sv_clients sv).

Lemma stop_over sv sv' : rtc stop_step sv sv' -> sv_stop sv = SOver -> sv' = sv.
Proof. intros [sv1|sv1 sv2 sv3 Hs _] E; [done|]. by destruct Hs. Qed.

Lemma stop_from_lock `{!GolangSetLaws} todo closed cs cls sv' :
  rtc stop_step (mkServer (SLocked todo) closed cs cls) sv' -> sv_stop sv' = SOver ->
  sv_clients sv' = foldl (fun cls i => alter close_client i cls) cls todo.
Proof.
  revert closed cls. induction todo as [|i todo IH]; intros closed cls Hr Hover.
  - apply rtc_inv in Hr as [<-|(sv1 & Hs & Hr)]; [done|]. inversion Hs; subst.
    by apply stop_over in Hr as ->.
  - apply rtc_inv in Hr as [<-|(sv1 & Hs & Hr)]; [done|]. inversion Hs; subst. by apply IH in Hr.
Qed.

Lemma stop_from_swap `{!GolangSetLaws} sv sv' :
  sv_stop sv = SSwapped -> rtc stop_step sv sv' -> sv_stop sv' = SOver -> closes_one sv sv'.
Proof.
  intros E [<-|(sv1 & Hs & Hr)]%rtc_inv Hover; [congruence|].
  destruct Hs as [|closed cs cls todo Hset| |]; try done.
  apply stop_from_lock in Hr; [|done]. unfold closes_one. rewrite Hr. cbn.
  destruct (stop_walk _ _ Hset) as [[-> ->]|(i & -> & Hi)]; [by left|right; by exists i].
Qed.

Lemma closed_at_most_one `{!GolangSetLaws} sv :
  reachable sv -> length (sv_closed sv) +
    match sv_stop sv with SLocked todo => length todo | SServing | SSwapped => 1 | SOver => 0 end <= 1.
Proof.
  intros Hr. apply (rtc_preserves program_step (fun sv => length (sv_closed sv) +
    match sv_stop sv with SLocked todo => length todo | SServing | SSwapped => 1 | SOver => 0 end <= 1)) in Hr;
    [done| |done].
  intros sv1 sv2 Hle Hs. destruct Hs as [sv1 sv2 [Hs|[]]| |]; try done.
  destruct Hs as [|closed cs cls todo Hset| |]; cbn in *; rewrite ?length_app; try (simpl; lia).
  destruct (stop_walk _ _ Hset) as [[-> _]|(i & -> & _)]; cbn; lia.
Qed.

(** C13: [Stop] closes one codec.  Of the codecs in [Codecs] when [Stop] takes the
    mutex it closes one, if there are any, and leaves all the others open: its
    callback returns true, which ends the walk.  In no run of the program does
    it close more than one. *)
Theorem stop_closes_one_codec `{!GolangSetLaws} sv :
  reachable sv ->
  length (sv_closed sv) <= 1 /\
  (sv_stop sv = SSwapped -> forall sv', rtc stop_step sv sv' -> sv_stop sv' = SOver -> closes_one sv sv').
Proof.
  intros Hr. split; [pose proof (closed_at_most_one sv Hr); lia|]. intros E sv'. by apply stop_from_swap.
Qed.

(** ** Stop ends every connection *)

Definition stop_weight (p : stopping) : nat :=
  match p with SServing => 3 | SSwapped => 2 | SLocked _ => 1 | SOver => 0 end.

Definition server_weight (sv : server) : nat :=
  stop_weight (sv_stop sv) + sum_list (imap (fun i cl => weight (view sv i cl)) (sv_clients sv)).

Lemma run_of_stopped sv i : sv_stop sv <> SServing -> run_of sv i <> Running.
Proof. unfold run_of. destruct (sv_stop sv); [done|..]; by case_decide. Qed.

Lemma close_weight i todo closed cs cls cl :
  i ∉ closed -> cls !! i = Some cl ->
  sum_list (imap (fun j cl => weight (view (mkServer (SLocked todo) (closed ++ [i]) cs (alter close_client i cls)) j cl))
    (alter close_client i cls)) <
  sum_list (imap (fun j cl => weight (view (mkServer (SLocked (i :: todo)) closed cs cls) j cl)) cls).
Proof.
  intros Hi Hcl. eapply (sum_imap_lt _ _ _ _ i (close_client cl) cl); [by rewrite length_alter| | |done|].
  - intros j x y Hx Hy. destruct (decide (j = i)) as [->|Hj].
    + rewrite list_lookup_alter_eq, Hy in Hx. injection Hx as <-.
      unfold weight, view, run_of. cbn. repeat case_decide; cbn; try lia. set_solver.
    + rewrite list_lookup_alter_ne, Hy in Hx by done. injection Hx as <-.
      unfold weight, view, run_of. cbn. repeat case_decide; cbn; try lia. set_solver.
  - by rewrite list_lookup_alter_eq, Hcl.
  - unfold weight, view, run_of. cbn. rewrite decide_True, decide_False by set_solver. cbn. lia.
Qed.

Lemma server_moves_weight `{!GolangSetLaws} sv sv' :
  server_ok sv -> sv_stop sv <> SServing -> server_moves sv sv' ->
  server_weight sv' < server_weight sv /\ sv_stop sv' <> SServing.
Proof.
  intros (Hcs & Hstop & Hcls) Hne [Hs|Hs].
  - destruct Hs as [|closed cs cls todo Hset|i todo closed cs cls|closed cs cls]; [done|..];
      (split; [|done]); unfold server_weight; cbn [sv_stop sv_clients stop_weight].
    + apply Nat.add_lt_le_mono; [lia|]. done.
    + destruct Hstop as [Hnd Hin]. cbn in *.
      destruct (lookup_lt_is_Some_2 cls i) as [cl Hcl]; [apply Hcs, Hin; left|].
      assert (Hi : i ∉ closed).
      { rewrite NoDup_app in Hnd. destruct Hnd as (_ & Hd & _). intros Hc. apply (Hd i Hc). left. }
      pose proof (close_weight i todo closed cs cls cl Hi Hcl). lia.
    + apply Nat.add_lt_le_mono; [lia|]. done.
  - destruct Hs as [sv i cl s Hcl Hs Hrun _]. split; [|done].
    pose proof (server_step_weight _ _ _ _ Hs (run_of_stopped sv i Hne)) as (Hw & _).
    unfold server_weight. apply Nat.add_le_lt_mono; [done|].
    eapply (sum_imap_lt _ _ _ _ i (client_of (cl_single cl) s) cl); [by cbn; rewrite length_insert| | |done|].
    + intros j x y. cbn. rewrite list_lookup_insert_Some. intros [(-> & <- & _)|[Hj Hx]] Hy.
      * rewrite update_self by done. simplify_eq. lia.
      * rewrite update_other by done. by simplify_eq.
    + cbn. apply list_lookup_insert_eq. by eapply lookup_lt_Some.
    + by rewrite update_self.
Qed.

Lemma server_moves_ok `{!GolangSetLaws} sv sv' : server_ok sv -> server_moves sv sv' -> server_ok sv'.
Proof. intros Hok Hs. eapply program_step_ok; [exact Hok|by constructor]. Qed.

Lemma stays_stopped sv sv' : sv_stop sv <> SServing -> program_step sv sv' -> sv_stop sv' <> SServing.
Proof. intros Hne Hs. revert Hne. by destruct Hs as [sv1 sv2 [[]|[]]| |]. Qed.

(** All connections have ended. *)
Definition all_finished (sv : server) : Prop :=
  sv_stop sv = SOver /\ forall i cl, sv_clients sv !! i = Some cl -> finished (cl_single cl) (view sv i cl).

Context `{!ServerCodecLaws Data C R}.

Lemma server_can_move `{!GolangSetLaws} sv :
  good_registry Services -> server_ok sv -> sv_stop sv <> SServing ->
  all_finished sv \/ exists sv', server_moves sv sv'.
Proof.
  intros Hg (Hcs & Hstop & Hcls) Hne. destruct sv as [[| |[|i todo]|] closed cs cls]; [done|..].
  - right. destruct (each_walks cs stop_callback) as [todo Ht]. eexists. left. by eapply sp_lock.
  - right. eexists. left. apply sp_unlock.
  - right. eexists. left. apply sp_close.
  - set (sv := mkServer SOver closed cs cls).
    destruct (list_all_or (fun i cl => finished (cl_single cl) (view sv i cl)) (exists sv', server_moves sv sv') cls)
      as [Hall|Hmove]; [|by left|by right].
    intros i cl Hcl. destruct (Hcls i cl Hcl) as (run & subs & c & Hr).
    destruct (server_progress Services (cl_single cl) (view sv i cl) Hg) as [Hf|(s & Hs & Hrun)].
    + by eapply reachable_ok.
    + by left.
    + right. eexists. right. eapply sv_serve; [exact Hcl|exact Hs|exact Hrun|done].
Qed.

(** C4: [Stop] ends the server.  Once [Run] is cleared, with any number of
    connections in any state, the goroutines of the server and [Stop] have at
    most [server_weight] steps left; and whatever user code does and however
    many connections still arrive, as long as reads return they can take one
    until [Stop] has returned, every [serveRequest] has, and no goroutine is
    left: they do not wait for each other on the mutex. *)
Theorem stop_ends_server `{!GolangSetLaws} sv :
  good_registry Services -> reachable sv -> sv_stop sv <> SServing ->
  (forall n sv', nsteps server_moves n sv sv' -> n <= server_weight sv) /\
  (forall sv', rtc program_step sv sv' -> all_finished sv' \/ exists sv'', server_moves sv' sv'').
Proof.
  intros Hg Hr Hne. apply reachable_server_ok in Hr as Hok. split.
  - intros n sv' Hn. clear Hr. induction Hn as [sv|n sv sv1 sv2 Hs _ IH]; [lia|].
    destruct (server_moves_weight _ _ Hok Hne Hs) as [Hw Hne'].
    assert (n <= server_weight sv1) by (apply IH; [done|by eapply server_moves_ok]). lia.
  - intros sv' Hs. destruct (rtc_preserves program_step (fun sv => server_ok sv /\ sv_stop sv <> SServing)
      ltac:(intros sv1 sv2 [H1' H2'] H3'; split; [by eapply program_step_ok|by eapply stays_stopped])
      sv sv' Hs ltac:(done)) as [Hok' Hne'].
    by apply server_can_move.
Qed.
End Multi.
