(* ===== verification/Demo.v ===== *)
(** * A concrete server

    One service with a plain method, a method that takes the context and can
    fail, and a subscription, behind the JSON codec on a transport that is a
    list of messages.  It instantiates the hypotheses of the theorems on the
    registry, the dispatch and the session. *)

From S2P Require Import Prelude GoStd HexUtil RpcTypes Utf8 Json Codec Notifier Register Server Session.
From Stdlib Require Import ZArith Lia.
From Stdlib Require Import Init.Byte.
From stdpp Require Import gmap strings list relations.

#[export] Existing Instance latin1_tables.

Definition intType : rtype := TBase KNumber "int" "" "int" false.
Definition calcType : rtype := ptr_to (TBase KStruct "Calculator" "demo" "demo.Calculator" false).

(** The transport: messages to read; everything written is accepted. *)
Definition demo_decode (t : list (list byte)) : result string (list byte) * list (list byte) :=
  match t with
  | [] => (Err "EOF", [])
  | m :: t' => (Ok m, t')
  end.

Definition demo_unmarshal (t : rtype) (raw : list byte) : result string (gvalue string) :=
  match parse raw with
  | Some (JNumber r) =>
      if bool_decide (t = intType) then Ok (VData false (go_string r)) else Err "not a number type"
  | Some JNull =>
      if is_ptr t then Ok VNil
      else if bool_decide (t = intType) then Ok (VData false "0") else Err "not a number type"
  | _ => Err "cannot unmarshal"
  end.

#[export] Instance demo_env : JsonEnv string (list (list byte)) := {|
  jc_decode := demo_decode;
  jc_encode := fun _ t => (None, t);
  unmarshal_value := demo_unmarshal;
  json_error := fun _ => "invalid JSON"
|}.

#[export] Instance demo_types : DataTypes string := fun _ => intType.

#[export] Instance demo_env_laws : JsonEnvLaws string (list (list byte)).
Proof.
  constructor. intros t raw v. simpl. unfold demo_unmarshal.
  destruct (parse raw) as [[]|]; try done.
  - destruct (is_ptr t) eqn:Ep; [intros [= <-]; by destruct t|].
    case_bool_decide as Ht; [|done]. intros [= <-]. by rewrite Ht.
  - case_bool_decide as Ht; [|done]. intros [= <-]. by rewrite Ht.
Qed.

Notation dconn := (conn string (JsonCodec (list (list byte))) (JsonMessage string)).
Notation dmethod := (Method string (JsonCodec (list (list byte))) (JsonMessage string)).

(** ** The methods *)

Definition Echo : dmethod := mkMethod "Echo" "" [calcType; intType] [intType]
  (fun args w => match args with [_; VData b d] => Ret ([VData b d], w) | _ => Panic end).

Definition Div : dmethod := mkMethod "Div" "" [calcType; contextType; intType] [intType; errorType]
  (fun args w =>
     match args with
     | [_; _; VData _ "0"] => Ret ([VData false "0"; VError "division by zero"], w)
     | [_; _; v] => Ret ([v; VNil], w)
     | _ => Panic
     end).

Definition Ticks : dmethod :=
  mkMethod "Ticks" "" [calcType; contextType] [ptr_to subscriptionType; errorType]
  (fun args w =>
     match NotifierFromContext w with
     | None => Ret ([VNil; VError ErrNotificationsUnsupported], w)
     | Some _ =>
         let! (l, w) := CreateSubscription (NewID 1 2 3) w in
         Ret ([VSubscription l; VNil], w)
     end).

Definition Calculator : Receiver string (JsonCodec (list (list byte))) (JsonMessage string) :=
  mkReceiver "Calculator" "*demo.Calculator" [Echo; Div; Ticks].

Lemma Echo_contract : keeps_contract Echo.
Proof.
  split; [unfold has_receiver, NumIn; simpl; lia|]. split; [split; [|reflexivity]|].
  - intros args w Hl Hwf. apply call_fits_length in Hl as Hlen.
    destruct args as [|[] [|[] [|]]]; try done; try (by vm_compute in Hl).
    eexists _, w. split; [reflexivity|].
    unfold results_fit. split_and!; [done|done| |done].
    intros [|[]] t v' Ht He Hv; simplify_eq/=; done.
  - intros t Ht. by simplify_eq/=.
Qed.

Lemma Div_contract : keeps_contract Div.
Proof.
  split; [unfold has_receiver, NumIn; simpl; lia|]. split; [split; [|reflexivity]|].
  - intros args w Hl Hwf. apply call_fits_length in Hl.
    destruct args as [|a [|b [|v [|]]]]; try done.
    assert (exists o e, m_Func Div [a; b; v] w = Ret ([o; e], w) /\ nil_or_error e) as (o & e & -> & He).
    { unfold nil_or_error. simpl. repeat case_match; eauto 10. }
    eexists _, w. split; [reflexivity|]. unfold results_fit. split_and!; [done|done| |done].
    intros [|[|]] t v' Ht Hterr Hv; simplify_eq/=; done.
  - intros t Ht. by simplify_eq/=.
Qed.

Lemma Ticks_contract : keeps_contract Ticks.
Proof.
  split; [unfold has_receiver, NumIn; simpl; lia|]. split; [split; [|reflexivity]|].
  - intros args w Hl Hwf. simpl. unfold NotifierFromContext.
    destruct (conn_notifier w) as [n|] eqn:En.
    + destruct (CreateSubscription (NewID 1 2 3) w) as [[l w']|] eqn:Ec.
      2:{ unfold CreateSubscription in Ec. by rewrite En in Ec. }
      exists [VSubscription l; VNil], w'. split; [done|]. unfold results_fit. split_and!; [|done| |].
      * apply rtc_once. by econstructor.
      * intros [|[|]] t v' Ht Hterr Hv; simplify_eq/=; by left.
      * intros _ _. unfold CreateSubscription in Ec. rewrite En in Ec. simplify_eq/=.
        eexists _, _, _. split; [done|]. split; [by apply list_lookup_middle|done].
    + eexists _, w. split; [reflexivity|]. unfold results_fit. split_and!; [done|done| |done].
      intros [|[|]] t v' Ht Hterr Hv; simplify_eq/=; right; eauto.
  - intros t Ht. by simplify_eq/=.
Qed.

Lemma Calculator_contract : Forall keeps_contract (rc_Methods Calculator).
Proof. repeat constructor; (apply Echo_contract || apply Div_contract || apply Ticks_contract). Qed.

(** ** The registry *)

Definition demo_services : list (string * Receiver string _ _) := [("calc", Calculator)].

Definition demoServices : gmap string (Service string (JsonCodec (list (list byte))) (JsonMessage string)) :=
  match RegisterAll ∅ demo_services with Ok s => s | Err _ => ∅ end.

Lemma demo_registered : RegisterAll ∅ demo_services = Ok demoServices.
Proof. reflexivity. Qed.

Lemma demo_good : good_registry demoServices.
Proof.
  eapply RegisterAll_good_from; [|apply good_registry_empty|apply demo_registered].
  apply Forall_singleton, Calculator_contract.
Qed.

(** ** Requests *)

Definition call_text (method : string) (params : list (list byte)) : list byte :=
  request_text (go_bytes "1") method (array_text params).

Definition demo_conn (msgs : list (list byte)) : dconn :=
  mkConn (NewCodec msgs) [] [] (Some newNotifier).

Definition echo_conn : dconn := demo_conn [call_text "calc_echo" [go_bytes "5"]].
Definition ticks_conn : dconn := demo_conn [call_text "calc_subscribe" [quoted (go_bytes "ticks")]].

(** The requests a connection reads first. *)
Definition demo_read (w : dconn) :=
  match readRequest demoServices w with
  | Ret (Ok reqs, batch, w') => (reqs, batch, w')
  | _ => ([], true, w)
  end.

Lemma echo_read : readRequest demoServices echo_conn
  = Ret (Ok (demo_read echo_conn).1.1, false, (demo_read echo_conn).2).
Proof. vm_compute. reflexivity. Qed.

Lemma ticks_read : readRequest demoServices ticks_conn
  = Ret (Ok (demo_read ticks_conn).1.1, false, (demo_read ticks_conn).2).
Proof. vm_compute. reflexivity. Qed.

(** The whole exchange: the call is answered with its argument. *)
Example echo_answered :
  match demo_read echo_conn with
  | ([q], _, w) => match exec q w with Ret w' => conn_log w' | Panic => [] end
  | _ => []
  end = [EvResponse (One (json_CreateResponse (go_bytes "1") (VData false "5"))) None].
Proof. vm_compute. reflexivity. Qed.

(** ** A subscription, from the request to the first notification *)

Definition ticks_w1 : dconn := (demo_read ticks_conn).2.
Definition ticks_reqs := (demo_read ticks_conn).1.1.
Definition ticks_q := match ticks_reqs with q :: _ => q | [] => error_request [] ShutdownError end.
Definition ticks_id : string := NewID 1 2 3.

(** The run of a computation that does not panic. *)
Definition ret_or {A} (d : A) (x : run A) : A := match x with Ret a => a | Panic => d end.

Definition ticks_answer : JsonMessage string := json_CreateResponse (go_bytes "1") (VString ticks_id).
Definition ticks_w2 : dconn := (ret_or (ticks_answer, None, ticks_w1) (respond ticks_q ticks_w1)).2.
Definition ticks_w3 : dconn := write_or_close (One ticks_answer) ticks_w2.
Definition ticks_w4 : dconn := ret_or ticks_w3 (activateSub (ticks_id, "calc") ticks_w3).
Definition ticks_w5 : dconn := (ret_or (None, ticks_w4) (Notify ticks_id "tick" ticks_w4)).2.

Lemma ticks_respond :
  respond ticks_q ticks_w1 = Ret (ticks_answer, Some (ticks_id, "calc"), ticks_w2).
Proof. vm_compute. reflexivity. Qed.
Lemma ticks_activate : activateSub (ticks_id, "calc") ticks_w3 = Ret ticks_w4.
Proof. vm_compute. reflexivity. Qed.
Lemma ticks_notify : Notify ticks_id "tick" ticks_w4 = Ret (None, ticks_w5).
Proof. vm_compute. reflexivity. Qed.

Definition ticks_start : session string (JsonCodec (list (list byte))) (JsonMessage string) :=
  initial Running true (NewCodec [call_text "calc_subscribe" [quoted (go_bytes "ticks")]]).
Definition ticks_session (p : pc _ _ _) (ts : list (task _ _ _)) (w : dconn) :=
  mkSession Running true p ts w.

Lemma ticks_spawned :
  rtc (session_step demoServices false) ticks_start
    (ticks_session PLoop [TRun false [ticks_q] [] []] ticks_w1).
Proof.
  eapply rtc_l; [apply ss_server, st_register|].
  eapply rtc_l; [apply ss_server, st_enter|].
  eapply rtc_l; [apply ss_server, st_read; apply ticks_read|].
  apply rtc_once, ss_server.
  refine (st_spawn demoServices false true ticks_reqs false [] ticks_w1
            (TRun false [ticks_q] [] []) eq_refl _).
  vm_compute. reflexivity.
Qed.

Lemma ticks_active :
  rtc (session_step demoServices false) ticks_start (ticks_session PLoop [TAct []] ticks_w4).
Proof.
  etransitivity; [apply ticks_spawned|].
  eapply rtc_l; [apply ss_server, (st_task _ _ Running true PLoop []), ts_respond, ticks_respond|].
  eapply rtc_l; [apply ss_server, (st_task _ _ Running true PLoop []), (ts_write _ _ _ (One ticks_answer));
    reflexivity|].
  apply rtc_once, ss_server, (st_task _ _ Running true PLoop []), ts_activate, ticks_activate.
Qed.

Lemma ticks_notified :
  rtc (session_step demoServices false) ticks_start (ticks_session PLoop [TAct []] ticks_w5).
Proof.
  etransitivity; [apply ticks_active|]. apply rtc_once, ss_user.
  eapply user_notify, ticks_notify.
Qed.

(** The same connection stopped while the request is about to run. *)
Lemma ticks_stopped :
  rtc (session_step demoServices false) ticks_start
    (mkSession Stopped true PLoop [TRun false [ticks_q] [] []] (close_codec ticks_w1)).
Proof.
  etransitivity; [apply ticks_spawned|].
  eapply rtc_l; [apply ss_server, st_stop|]. apply rtc_once, ss_server.
  exact (st_stop_close _ _ true PLoop _ ticks_w1).
Qed.

(** ** Witnesses: the codec *)

Lemma one_text : value_text (go_bytes "1") (JNumber (go_bytes "1")).
Proof. by vm_compute. Qed.
Lemma null_text : value_text (go_bytes "null") JNull.
Proof. by vm_compute. Qed.

Lemma checkReqId_accepts_witness : checkReqId (go_bytes "1") = None.
Proof. apply (checkReqId_accepts _ _ one_text). vm_compute. reflexivity. Defined.

Lemma parseRequest_encoded_witness :
  parseRequest (request_text (go_bytes "1") "calc_echo" (array_text [go_bytes "5"])) =
  (Ok [mkRpcRequest "calc" "echo" (go_bytes "1") false (Some (array_text [go_bytes "5"])) None], false).
Proof.
  apply (parseRequest_encoded (go_bytes "1") (JNumber (go_bytes "1")) "calc" "echo"
    (array_text [go_bytes "5"]) (JArray [(go_bytes "5", JNumber (go_bytes "5"))]) one_text);
    try (vm_compute; reflexivity); try done.
  all: first [by split; vm_compute | by repeat constructor
    | intros Hin; repeat (apply elem_of_cons in Hin as [Hin|Hin]; [done|]);
      by apply not_elem_of_nil in Hin].
Defined.

(** A batch of a call and of a method without a service. *)
Definition batch_raws : list (list byte) :=
  [call_text "calc_echo" [go_bytes "5"]; call_text "echo" []].

Lemma batch_raws_text :
  Forall2 value_text batch_raws (default JNull ∘ parse <$> batch_raws).
Proof. repeat constructor; vm_compute; reflexivity. Qed.

Lemma batch_agrees_with_single_witness :
  exists q1 q2, Forall2 batch_entry batch_raws [q1; q2] /\
    req_Err q1 = None /\ req_Err q2 = Some (MethodNotFoundError "echo" "").
Proof.
  eexists _, _. split.
  - apply (batch_agrees_with_single _ _ _ batch_raws_text). vm_compute. reflexivity.
  - split; reflexivity.
Defined.

Lemma args_text : Forall2 value_text [go_bytes "5"; go_bytes "null"] [JNumber (go_bytes "5"); JNull].
Proof. repeat constructor; vm_compute; reflexivity. Qed.

Lemma parsePositionalArguments_spec_witness :
  parsePositionalArguments (array_text [go_bytes "5"; go_bytes "null"]) [intType; calcType; calcType]
  = Ok [VData false "5"; VNil; VNil].
Proof.
  rewrite (parsePositionalArguments_spec _ _ [intType; calcType; calcType] args_text).
  vm_compute. reflexivity.
Defined.

Lemma null_argument_accepted_witness :
  json_ParseRequestArguments [intType] (Some (go_bytes "[null]")) = Ok [VData false "0"].
Proof.
  apply (proj2 (null_argument_accepted (Data:=string) (T:=list (list byte)))); [done|].
  vm_compute. reflexivity.
Defined.

(** ** Witnesses: subscriptions *)

Definition sub_w1 : dconn :=
  (ret_or (0, demo_conn []) (CreateSubscription ticks_id (demo_conn []))).2.
Definition sub_w2 : dconn := ret_or sub_w1 (activate ticks_id "calc" sub_w1).

Lemma sub_created : CreateSubscription ticks_id (demo_conn []) = Ret (0, sub_w1).
Proof. reflexivity. Qed.
Lemma sub_activated : activate ticks_id "calc" sub_w1 = Ret sub_w2.
Proof. vm_compute. reflexivity. Qed.

Lemma sub_reached : rtc notifier_step (demo_conn []) sub_w2.
Proof.
  eapply rtc_l; [eapply step_create, sub_created|]. apply rtc_once. eapply step_activate, sub_activated.
Qed.

Lemma notifier_never_panics_witness : exists e w', unsubscribe ticks_id sub_w2 = Ret (e, w').
Proof.
  destruct (notifier_never_panics _ _ _ ticks_id "calc" "tick" sub_reached) as (_ & _ & _ & H & _).
  exact H.
Defined.

Lemma demo_conn_wf msgs : wf_conn (demo_conn msgs).
Proof. apply wf_newNotifier. Qed.

Lemma subscription_lifecycle_witness :
  exists w2 w3, activate ticks_id "calc" sub_w1 = Ret w2 /\
    unsubscribe ticks_id w2 = Ret (None, w3) /\
    unsubscribe ticks_id w3 = Ret (Some ErrSubscriptionNotFound, w3).
Proof.
  destruct (subscription_lifecycle ticks_id "calc" "tick" (demo_conn []) 0 sub_w1)
    as (_ & w2 & Ha & _ & _ & w3 & Hu & _ & _ & Hu').
  - apply demo_conn_wf.
  - intros n [= <-]. reflexivity.
  - apply sub_created.
  - exists w2, w3. split; [exact Ha|split; [exact Hu|exact Hu']].
Defined.

(** ** Witnesses: the registry *)

Lemma Calculator_receivers : Forall has_receiver (rc_Methods Calculator).
Proof. repeat constructor. Qed.

Lemma suitableCallbacks_exact_witness :
  exists h, (suitableCallbacks (VReceiver "Calculator") [Echo; Div; Ticks]).1 !! "div" = Some h.
Proof.
  apply (suitableCallbacks_exact (VReceiver "Calculator") [Echo; Div; Ticks] "div").
  - vm_compute. repeat constructor; set_solver.
  - exists Div. split; [right; left|]. split; [reflexivity|]. split; [reflexivity|].
    split; [reflexivity|]. split; [repeat constructor|]. split; [repeat constructor|].
    right. right. exists intType, errorType. repeat split.
Defined.

Lemma RegisterAll_wf_witness : wf_registry demoServices.
Proof.
  apply (RegisterAll_wf demo_services); [|apply demo_registered].
  apply Forall_singleton, Calculator_receivers.
Defined.

Lemma demo_RegisterName : RegisterName ∅ "calc" Calculator = Ok demoServices.
Proof. reflexivity. Qed.

Lemma RegisterName_lookup_witness :
  exists svc, demoServices !! "calc" = Some svc /\ is_Some (svc_Subscriptions svc !! "ticks").
Proof.
  destruct (RegisterName_lookup ∅ "calc" Calculator demoServices "calc" Calculator_receivers
    demo_RegisterName) as (_ & svc & Hsvc & Hl).
  exists svc. split; [exact Hsvc|]. specialize (Hl "ticks"). simpl in Hl.
  destruct Hl as [_ ->]. eexists. vm_compute. reflexivity.
Defined.

(** ** Witnesses: the dispatch *)

Lemma ticks_w1_wf : wf_conn ticks_w1.
Proof. apply wf_newNotifier. Qed.

Lemma demo_conn_announced msgs : announced (demo_conn msgs).
Proof. apply (initial_ok Running true (NewCodec msgs)). Qed.

Lemma ticks_reqs_one : ticks_reqs = [ticks_q].
Proof. vm_compute. reflexivity. Qed.

Lemma ticks_q_executable : executable ticks_q.
Proof.
  destruct (readRequest_ok demoServices ticks_conn (Ok ticks_reqs) false ticks_w1 demo_good
    (demo_conn_wf _) (demo_conn_announced _) ticks_read) as (_ & _ & _ & _ & Hex & _).
  rewrite ticks_reqs_one in Hex. by apply Forall_cons in Hex as [Hex _].
Qed.

Lemma exec_answers_once_witness :
  exists w' l resp err, exec ticks_q ticks_w1 = Ret w' /\
    conn_log w' = conn_log ticks_w1 ++ l ++ [EvResponse (One resp) err] /\
    response_id resp = Some (sr_Id ticks_q).
Proof.
  destruct (exec_answers_once ticks_q ticks_w1 ticks_q_executable ticks_w1_wf)
    as (w' & l & resp & err & He & _ & Hlog & _ & Hid).
  exists w', l, resp, err. split; [exact He|]. split; [exact Hlog|exact Hid].
Defined.

Lemma execBatch_answers_each_witness :
  exists w' resps, execBatch [ticks_q; error_request [] ShutdownError] ticks_w1 = Ret w' /\
    response_id <$> resps = [Some (sr_Id ticks_q); Some []].
Proof.
  destruct (execBatch_answers_each [ticks_q; error_request [] ShutdownError] ticks_w1)
    as (w' & l & resps & err & He & _ & _ & _ & Hids).
  - constructor; [apply ticks_q_executable|]. constructor; [left; discriminate|constructor].
  - apply ticks_w1_wf.
  - exists w', resps. split; [exact He|exact Hids].
Defined.

Lemma readRequest_total_witness :
  exists res batch w', readRequest demoServices echo_conn = Ret (res, batch, w').
Proof.
  destruct (readRequest_total demoServices echo_conn demo_good) as (res & batch & w' & H & _).
  exists res, batch, w'. exact H.
Defined.

Lemma demo_calc_service : exists svc cb,
  demoServices !! "calc" = Some svc /\ svc_Callbacks svc !! "div" = Some cb /\
  cb_Method cb = Div /\ ArgTypes cb = [intType] /\ HasCtx cb = true /\
  Rcvr cb = VReceiver "Calculator" /\ ErrPos cb = 1%Z.
Proof. eexists _, _. split; [reflexivity|]. split; [reflexivity|]. repeat split. Qed.

Definition div_request (arg : string) : RpcRequest :=
  mkRpcRequest "calc" "div" (go_bytes "1") false (Some (array_text [go_bytes arg])) None.

Lemma div_resolved : exists cb,
  resolve demoServices (div_request "7") =
    Ret (mkServerRequest (go_bytes "1") "calc" (Some cb) [VData false "7"] false None) /\
  m_In (cb_Method cb) = m_In Div /\ ArgTypes cb = [intType] /\ HasCtx cb = true /\
  Rcvr cb = VReceiver "Calculator".
Proof. eexists. split; [vm_compute; reflexivity|]. repeat split. Qed.

Lemma resolved_call_fits_witness :
  call_fits [VReceiver "Calculator"; VContext; VData false "7"] (m_In Div) = true.
Proof.
  destruct div_resolved as (cb & Hr & Hm & Hargs & Hctx & Hrcvr).
  destruct (resolved_call_fits demoServices (div_request "7") _ cb demo_good ltac:(discriminate)
    Hr eq_refl eq_refl) as [H _].
  simpl in H. rewrite Hargs, Hm, Hctx, Hrcvr in H. apply H. reflexivity.
Defined.

Lemma call_reaches_method_witness :
  (let! q := resolve demoServices (div_request "0") in respond q echo_conn) =
  Ret (json_CreateErrorResponse (Some (go_bytes "1")) (CallbackError "division by zero"),
       None, echo_conn).
Proof.
  destruct demo_calc_service as (svc & cb & Hsvc & Hcb & Hm & Hargs & Hctx & Hrcvr & Herr).
  rewrite (call_reaches_method demoServices (div_request "0") svc cb (array_text [go_bytes "0"])
    [VData false "0"] echo_conn [VData false "0"; VError "division by zero"] echo_conn demo_good);
    try reflexivity; try assumption.
  - rewrite Herr. reflexivity.
  - rewrite Hargs. vm_compute. reflexivity.
  - rewrite Hm, Hctx, Hrcvr. reflexivity.
  - rewrite Hm. reflexivity.
  - intros _. exists (VError "division by zero"). split; [reflexivity|right; eauto].
Defined.

Lemma wrong_arity_rejected_witness :
  exists cb e,
    respond (mkServerRequest (go_bytes "1") "calc" (Some cb) [] false None) echo_conn =
    Ret (json_CreateErrorResponse (Some (go_bytes "1")) e, None, echo_conn) /\
    ErrorCode e = (-32602)%Z.
Proof.
  set (cb := mkCallback (VReceiver "Calculator") Div [intType] true 1 false).
  destruct (wrong_arity_rejected (mkServerRequest (go_bytes "1") "calc" (Some cb) [] false None)
    cb echo_conn) as (e & Hr & He); [reflexivity..|discriminate|].
  exists cb, e. split; [exact Hr|exact He].
Defined.

(** A subscription method whose context comes through a pointer. *)
Definition PtrTicks : dmethod :=
  mkMethod "Ticks" "" [calcType; ptr_to contextType] [ptr_to subscriptionType; errorType] (m_Func Ticks).

Definition ptr_cb : Callback string (JsonCodec (list (list byte))) (JsonMessage string) :=
  mkCallback (VReceiver "Calculator") PtrTicks [ptr_to contextType] false (-1) true.

Lemma ptr_suitable : suitable (VReceiver "Calculator") PtrTicks = SuitSubscription "ticks" ptr_cb.
Proof. vm_compute. reflexivity. Qed.

Lemma pointer_context_panics_witness :
  suitable (VReceiver "Calculator") PtrTicks = SuitSubscription "ticks" ptr_cb /\
  handle (mkServerRequest (go_bytes "1") "calc" (Some ptr_cb) [VNil] false None) ticks_conn = Panic.
Proof.
  split; [exact ptr_suitable|].
  apply (pointer_context_panics (VReceiver "Calculator") PtrTicks "ticks" ptr_cb).
  - unfold has_receiver, NumIn. simpl. lia.
  - exact ptr_suitable.
  - discriminate.
  - reflexivity.
Defined.

(** The same with the subscription by value: it is registered, and its answer
    ends the goroutine. *)
Definition ValueTicks : dmethod :=
  mkMethod "Ticks" "" [calcType; contextType] [subscriptionType; errorType] (m_Func Ticks).

Definition value_cb : Callback string (JsonCodec (list (list byte))) (JsonMessage string) :=
  mkCallback (VReceiver "Calculator") ValueTicks [] true (-1) true.

Lemma value_subscription_panics_witness :
  suitable (VReceiver "Calculator") ValueTicks = SuitSubscription "ticks" value_cb /\
  handle (mkServerRequest (go_bytes "1") "calc" (Some value_cb) [] false None) ticks_conn = Panic.
Proof.
  assert (Hs : suitable (VReceiver "Calculator") ValueTicks = SuitSubscription "ticks" value_cb)
    by (vm_compute; reflexivity).
  split; [exact Hs|].
  refine (value_subscription_panics _ ValueTicks _ value_cb _ _ [] ticks_conn
    [VSubscription 0; VNil] _ Hs _ _ _).
  - discriminate.
  - vm_compute. reflexivity.
  - reflexivity.
Defined.

(** A method whose error is a structure. *)
Definition failureType : rtype := TBase KStruct "Failure" "demo" "demo.Failure" true.

Definition Fails : dmethod := mkMethod "Fails" "" [calcType] [failureType]
  (fun args w => Ret ([VError "failed"], w)).

Definition fails_cb : Callback string (JsonCodec (list (list byte))) (JsonMessage string) :=
  mkCallback (VReceiver "Calculator") Fails [] false 0 false.

Lemma error_type_panics_witness :
  suitable (VReceiver "Calculator") Fails = SuitCallback "fails" fails_cb /\
  handle (mkServerRequest (go_bytes "1") "calc" (Some fails_cb) [] false None) echo_conn = Panic.
Proof.
  assert (Hs : suitable (VReceiver "Calculator") Fails = SuitCallback "fails" fails_cb)
    by (vm_compute; reflexivity).
  split; [exact Hs|].
  refine (error_type_panics _ Fails _ fails_cb _ _ [] echo_conn [VError "failed"] _ failureType
    Hs _ _ _ _ _ _); try reflexivity. left. reflexivity.
Defined.

(** ** Witnesses: the session *)

Lemma notification_follows_answer_witness :
  exists m rid, EvResponse m None ∈ [EvResponse (Data:=string) (One ticks_answer) None] /\
    CreateResponse rid (VString ticks_id) ∈ message_list m.
Proof.
  destruct (notification_follows_answer demoServices false Running true _ _ demo_good ticks_notified)
    as [H _].
  destruct (H [EvResponse (One ticks_answer) None] ticks_id "calc" "tick" None []) as [Ht|[_ Hc]].
  - vm_compute. reflexivity.
  - exact Ht.
  - vm_compute in Hc. discriminate Hc.
Defined.

Lemma goroutines_never_panic_witness :
  exists t' w', task_step (TRun false [ticks_q] [] []) ticks_w1 t' w'.
Proof.
  destruct (goroutines_never_panic demoServices false Running true _ _
    (TRun false [ticks_q] [] []) demo_good ticks_spawned) as [H|H].
  - left.
  - discriminate.
  - exact H.
Defined.

Lemma goroutine_refines_exec_witness :
  exists w', exec ticks_q ticks_w1 = Ret w' /\
    task_steps (TRun false [ticks_q] [] [], ticks_w1) (TAct [], w').
Proof.
  exists ticks_w4. assert (He : exec ticks_q ticks_w1 = Ret ticks_w4) by (vm_compute; reflexivity).
  split; [exact He|].
  apply (goroutine_refines_exec [ticks_q] false (TRun false [ticks_q] [] []) ticks_w1 ticks_w4 eq_refl).
  exact He.
Defined.

Lemma stop_terminates_witness :
  exists s, server_step demoServices false
    (mkSession Stopped true PLoop [TRun false [ticks_q] [] []] (close_codec ticks_w1)) s.
Proof.
  destruct (stop_terminates demoServices false Running true _ _ demo_good ticks_stopped) as [_ H].
  - discriminate.
  - destruct (H _ (rtc_refl _ _)) as [_ [Hf|Hs]]; [destruct Hf|exact Hs].
Defined.

Lemma codec_lifecycle_witness : Closed (conn_codec (close_codec ticks_w1)) = true.
Proof.
  destruct (codec_lifecycle demoServices false Running true _ _ demo_good ticks_stopped)
    as (_ & H & _).
  apply H; reflexivity.
Defined.
