(* ===== verification/DemoMulti.v ===== *)
(** * The concrete server with two connections

    Two connections of [Demo] wait for requests when the server is stopped: one
    of their codecs is closed, the other stays open, and both end. *)

From S2P Require Import Prelude GoStd HexUtil RpcTypes Utf8 Json Codec Notifier Register.
From S2P Require Import Server Session Demo Multi.
From Stdlib Require Import ZArith Lia.
From Stdlib Require Import Init.Byte.
From stdpp Require Import gmap strings list relations.

(** A set as golang-set walks over it. *)
#[export] Instance demo_set : GolangSet := {|
  set_each := fun S f l => exists order, order ≡ₚ elements S /\ l = until f order
|}.

#[export] Instance demo_set_laws : GolangSetLaws.
Proof. split; [done|]. intros S f. by exists (until f (elements S)), (elements S). Qed.

Notation dclient := (client (Data := string) (C := JsonCodec (list (list byte))) (R := JsonMessage string)).
Notation dserver := (server (Data := string) (C := JsonCodec (list (list byte))) (R := JsonMessage string)).

Definition idle_codec : JsonCodec (list (list byte)) := NewCodec [].
Definition waiting (p : pc string (JsonCodec (list (list byte))) (JsonMessage string)) : dclient :=
  mkClient false p [] (mkConn idle_codec [] [] None).

Definition both_accepted : dserver := mkServer SServing [] ∅ [waiting PStart; waiting PStart].
Definition both_waiting : dserver := mkServer SServing [] {[1; 0]} [waiting PReading; waiting PReading].
Definition both_swapped : dserver := mkServer SSwapped [] {[1; 0]} [waiting PReading; waiting PReading].
Definition one_closed : dserver := mkServer SOver [0] {[1; 0]} [close_client (waiting PReading); waiting PReading].

Lemma serve_to (sv sv' : dserver) i cl s :
  sv_clients sv !! i = Some cl -> server_step demoServices (cl_single cl) (view sv i cl) s ->
  ss_run s = run_of sv i -> locked sv = false -> update sv i (cl_single cl) s = sv' ->
  program_step demoServices sv sv'.
Proof. intros Hcl Hs Hr Hl <-. constructor. right. by econstructor. Qed.

Lemma both_registered : rtc (program_step demoServices) NewServer both_waiting.
Proof.
  eapply rtc_l; [apply (pr_accept _ _ false false idle_codec)|].
  eapply rtc_l; [apply (pr_accept _ _ false false idle_codec)|].
  eapply rtc_l; [eapply (serve_to _ _ 0); [reflexivity|apply st_register|reflexivity|reflexivity|reflexivity]|].
  eapply rtc_l; [eapply (serve_to _ _ 0); [reflexivity|apply st_enter|reflexivity|reflexivity|reflexivity]|].
  eapply rtc_l; [eapply (serve_to _ _ 1); [reflexivity|apply st_register|reflexivity|reflexivity|reflexivity]|].
  apply rtc_once. eapply (serve_to _ _ 1); [reflexivity|apply st_enter|reflexivity|reflexivity|].
  vm_compute. reflexivity.
Qed.

Lemma both_stopping : reachable demoServices both_swapped.
Proof. eapply rtc_r; [apply both_registered|]. constructor. left. apply sp_swap. Qed.

Lemma stop_walks : rtc stop_step both_swapped one_closed.
Proof.
  eapply rtc_l. { apply (sp_lock _ _ _ [0]). exists [0; 1]. split; [|reflexivity].
    replace (elements _) with [1; 0] by (vm_compute; reflexivity). apply perm_swap. }
  eapply rtc_l; [apply sp_close|]. apply rtc_once. apply sp_unlock.
Qed.

Lemma one_closed_reachable : reachable demoServices one_closed.
Proof.
  unfold reachable. etransitivity; [apply both_stopping|]. eapply rtc_subrel; [|apply stop_walks].
  intros sv sv' Hs. constructor. by left.
Qed.

Lemma connections_refine_sessions_witness :
  exists run subs c, rtc (session_step demoServices false) (initial run subs c) (view one_closed 1 (waiting PReading)).
Proof. exact (connections_refine_sessions demoServices one_closed 1 (waiting PReading) one_closed_reachable eq_refl). Defined.

Lemma stop_closes_one_codec_witness :
  closes_one both_swapped one_closed /\
  (fun cl : dclient => Closed (conn_codec (cl_conn cl))) <$> sv_clients one_closed = [true; false].
Proof.
  split; [|reflexivity].
  destruct (stop_closes_one_codec demoServices both_swapped both_stopping) as [_ H].
  exact (H eq_refl one_closed stop_walks eq_refl).
Defined.

Lemma stop_ends_server_witness : exists sv, server_moves demoServices one_closed sv.
Proof.
  destruct (stop_ends_server demoServices one_closed demo_good one_closed_reachable) as [_ H]; [discriminate|].
  destruct (H one_closed (rtc_refl _ _)) as [[_ Hf]|Hm]; [|exact Hm].
  destruct (Hf 1 (waiting PReading) eq_refl).
Defined.
