(* ===== verification/SingleShot.v ===== *)
(** * pkg/server/server.go: ServeSingleRequest

    The sessions of [Session] with [singleShot] set and without a notifier, as
    [ServeSingleRequest] runs them for the HTTP transport: one read, one
    message, and an end. *)

From S2P Require Import Prelude GoStd RpcTypes Utf8 Notifier Register Server Session.
From Stdlib Require Import ZArith Lia.
From stdpp Require Import gmap strings list relations.

Section SingleShot.
Context {Data C R : Type} `{ServerCodec Data C R} {DataTy : DataTypes Data} `{UnicodeTables}.
Context `{!ServerCodecLaws Data C R}.
Implicit Types (w : conn Data C R) (s : session Data C R) (log : list (event Data R)).

(** What the client of codec [c] is sent: one response per request, in one
    message and in order; or the error of the read, unless the input ended. *)
Definition answered_once (c : C) log : Prop :=
  match (ReadRequestHeaders c).1 with
  | (Ok rs, batch) =>
      exists m err, log = [EvResponse m err] /\
        response_id <$> message_list m = (fun r => Some (req_Id r)) <$> rs /\
        (batch = true <-> exists resps, m = Many resps)
  | (Err e, _) =>
      if bool_decide (Error e = "EOF") then log = []
      else exists err, log = [EvResponse (One (CreateErrorResponse None e)) err]
  end.

(** The codec [c] as it was read: [Stop] may have closed it before. *)
Definition codec_of (c : C) (run : runstate) (c' : C) : Prop := c' = c \/ (run = Stopped /\ c' = Close c).

(** The requests read from [c]. *)
Definition read_from (c : C) (ids : list RawMessage) (batch : bool) : Prop :=
  exists rs, (ReadRequestHeaders c).1 = (Ok rs, batch) /\ req_Id <$> rs = ids.

Definition task_inv (c : C) log (t : task Data C R) : Prop :=
  match t with
  | TRun batch todo resps acts =>
      acts = [] /\ log = [] /\ exists ids, read_from c ids batch /\
        Some <$> ids = (response_id <$> resps) ++ ((fun q => Some (sr_Id q)) <$> todo)
  | TAct acts => acts = [] /\ answered_once c log
  end.

Definition pc_inv (c : C) s : Prop :=
  let log := conn_log (ss_conn s) in
  match ss_pc s with
  | PStart | PLoop | PReading => log = [] /\ conn_codec (ss_conn s) = c
  | PRead reqs batch => log = [] /\ read_from c (sr_Id <$> reqs) batch
  | PWait => answered_once c log
  | PInline t => task_inv c log t
  | PReturn _ | PDone _ => (ss_run s <> Running /\ log = []) \/ answered_once c log
  | PClosed => False
  end.

Definition single_inv (c : C) s : Prop :=
  conn_notifier (ss_conn s) = None /\ ss_tasks s = [] /\
  exists c', codec_of c (ss_run s) c' /\ pc_inv c' s.

(** Without a notifier, user code and cancellations cannot act on the
    connection. *)
Lemma user_step_none w w' : conn_notifier w = None -> ~ user_step w w'.
Proof.
  intros Hn Hu. revert Hn. destruct Hu as [id l w1 w2 Hc|id d e w1 w2 Hc]; intros Hn;
    [unfold CreateSubscription in Hc|unfold Notify in Hc]; by rewrite Hn in Hc.
Qed.

Lemma respond_none q w r act w' :
  conn_notifier w = None -> wf_conn w -> executable q -> respond q w = Ret (r, act, w') ->
  w' = w /\ act = None /\ response_id r = Some (sr_Id q).
Proof.
  intros Hn Hwf Hq Hr. destruct (respond_effect _ _ _ _ _ Hq Hwf Hr) as [Heff _].
  destruct (respond_responds q w Hq Hwf) as (r' & act' & w'' & l & Hr' & Hid & _ & _ & _ & Hact).
  rewrite Hr in Hr'. simplify_eq.
  assert (w'' = w) as ->.
  { destruct Heff as [Hs|(id & e & Hu)].
    - destruct Hs as [|? ? ? Hs _]; [done|]. by apply user_step_none in Hs.
    - unfold unsubscribe in Hu. by rewrite Hn in Hu. }
  split_and!; [done| |done]. destruct act'; [|done]. by destruct Hact.
Qed.

(** The message of a task that has no requests left. *)
Lemma message_answers c batch ids resps m err :
  read_from c ids batch -> Some <$> ids = response_id <$> resps ->
  (batch = false -> length resps = 1) -> task_message batch resps = Some m ->
  answered_once c [EvResponse m err].
Proof.
  unfold answered_once. intros (rs & -> & <-) Hids Hlen Hm. exists m, err. split; [done|].
  rewrite <-list_fmap_compose in Hids.
  change ((fun r => Some (req_Id r)) <$> rs) with (Some ∘ req_Id <$> rs). rewrite Hids. split.
  - destruct batch; cbn in Hm; [by injection Hm as <-|].
    specialize (Hlen eq_refl). destruct resps as [|r [|]]; [done| |done]. by injection Hm as <-.
  - destruct batch; cbn in Hm; [injection Hm as <-; naive_solver|].
    destruct resps; [done|]. injection Hm as <-. naive_solver.
Qed.

Lemma task_step_single c t w t' w' :
  conn_notifier w = None -> wf_conn w -> task_ok w t -> task_step t w t' w' ->
  task_inv c (conn_log w) t -> conn_notifier w' = None /\ task_inv c (conn_log w') t'.
Proof.
  intros Hn Hwf Hok Ht. revert Hn Hwf Hok.
  destruct Ht as [batch q todo resps acts w1 r act w2 Hr|batch resps acts m w1 Hm|a acts w1 w2 Ha];
    intros Hn Hwf Hok Hinv.
  - destruct Hok as (Hex & _). apply Forall_cons in Hex as [Hq _].
    destruct (respond_none _ _ _ _ _ Hn Hwf Hq Hr) as (-> & -> & Hid).
    destruct Hinv as (-> & Hlog & ids & Hread & Hids). split; [done|].
    split_and!; [done|done|]. exists ids. split; [done|].
    rewrite Hids, fmap_app, fmap_cons, <-app_assoc. cbn. by rewrite Hid.
  - destruct Hok as (_ & Hlen & _). destruct Hinv as (-> & Hlog & ids & Hread & Hids).
    destruct (write_or_close_spec m w1 Hwf) as (_ & Hlog' & Hn').
    split; [congruence|]. split; [done|]. rewrite Hlog', Hlog.
    cbn in Hids. rewrite app_nil_r in Hids.
    eapply message_answers; [exact Hread|done| |done]. intros Hb. specialize (Hlen Hb). simpl in Hlen. lia.
  - by destruct Hinv as [? _].
Qed.

Lemma readRequest_from Services w res batch w' :
  good_registry Services -> readRequest Services w = Ret (res, batch, w') ->
  conn_log w' = conn_log w /\ conn_notifier w' = conn_notifier w /\
  match res with
  | Ok reqs => read_from (conn_codec w) (sr_Id <$> reqs) batch
  | Err e => (ReadRequestHeaders (conn_codec w)).1 = (Err e, batch)
  end.
Proof.
  intros Hg. unfold readRequest, read_from.
  destruct (ReadRequestHeaders (conn_codec w)) as [[[rs|e] b] c] eqn:E; cbn.
  2:{ by intros [= <- <- <-]. }
  destruct (resolve_all_executable Services rs Hg) as (reqs & -> & _ & Hids).
  { by eapply read_params. }
  intros [= <- <- <-]. split_and!; [done|done|]. by exists rs.
Qed.

Lemma write_read_error_once c e batch w :
  (ReadRequestHeaders c).1 = (Err e, batch) -> conn_log w = [] ->
  answered_once c (conn_log (write_read_error e w)) /\
  conn_notifier (write_read_error e w) = conn_notifier w.
Proof.
  unfold answered_once, write_read_error, write. intros -> Hlog.
  case_bool_decide; [done|]. destruct (Write _ _) as [err c']. cbn. rewrite Hlog. split; [by exists err|done].
Qed.

Lemma write_shutdown_once c reqs batch w w' :
  read_from c (sr_Id <$> reqs) batch -> conn_log w = [] ->
  write_shutdown reqs batch w = Some w' ->
  (batch = false -> length reqs = 1) ->
  answered_once c (conn_log w') /\ conn_notifier w' = conn_notifier w.
Proof.
  intros (rs & E & Hids) Hlog Hw Hlen.
  assert (Hm : exists m, w' = (write m w).2 /\
    response_id <$> message_list m = (fun q => Some (sr_Id q)) <$> reqs /\
    (batch = true <-> exists resps, m = Many resps)).
  { unfold write_shutdown in Hw. destruct batch.
    - injection Hw as <-. eexists. split_and!; [done| |naive_solver].
      cbn. rewrite <-list_fmap_compose. apply list_fmap_ext. intros ? q _. apply response_id_err.
    - specialize (Hlen eq_refl). destruct reqs as [|q [|]]; simplify_eq/=.
      eexists. split_and!; [done| |naive_solver]. cbn. by rewrite response_id_err. }
  destruct Hm as (m & -> & Hm & Hb). unfold write. destruct (Write m _) as [err c']. cbn. split; [|done].
  rewrite Hlog. unfold answered_once. rewrite E. exists m, err. split_and!; [done| |done].
  rewrite Hm. change (fun q : ServerRequest Data C R => Some (sr_Id q)) with (Some ∘ @sr_Id Data C R).
  by rewrite list_fmap_compose, <-Hids, <-list_fmap_compose.
Qed.

Lemma start_task_single c reqs batch t :
  (batch = false -> length reqs = 1) -> read_from c (sr_Id <$> reqs) batch ->
  start_task reqs batch = Some t -> task_inv c [] t.
Proof.
  intros Hlen Hread. unfold start_task.
  assert (Hgo : task_inv c [] (TRun batch reqs [] [])).
  { split_and!; [done|done|]. eexists. split; [exact Hread|]. cbn.
    by rewrite <-list_fmap_compose. }
  destruct batch; [by intros [= <-]|]. specialize (Hlen eq_refl).
  destruct reqs as [|q [|]]; [done| |done]. by intros [= <-].
Qed.

Lemma pc_inv_run c run run' reg p ts w :
  (run' = Running -> run = Running) ->
  pc_inv c (mkSession run reg p ts w) -> pc_inv c (mkSession run' reg p ts w).
Proof. intros Hr. unfold pc_inv. cbn. destruct p; naive_solver. Qed.

(** [Stop] closes the codec before or after it was read. *)
Lemma pc_inv_close c reg p ts w :
  pc_inv c (mkSession Stopping reg p ts w) ->
  exists c', codec_of c Stopped c' /\ pc_inv c' (mkSession Stopped reg p ts (close_codec w)).
Proof.
  unfold pc_inv, codec_of. cbn.
  destruct p; intros Hi; first [by exists c; naive_solver | by exists (Close c); destruct Hi as [? ->]; eauto].
Qed.

Lemma server_step_single Services c s s' :
  good_registry Services -> session_ok s -> single_inv c s ->
  server_step Services true s s' -> single_inv c s'.
Proof.
  intros Hg (Hwf & _ & Hpc & Hts) (Hn & Htasks & c' & Hc & Hinv) Hs.
  destruct Hs as [reg p ts w|reg p ts w|reg ts w|run reg ts w Hrun|run reg ts w Hrun|reg ts w
    |run reg ts w e batch w' Hread|run reg ts w reqs batch w' Hread|run reg w
    |run reg reqs batch ts w w' Hrun Hw|reg reqs batch ts w t _ Ht|reg reqs batch ts w t ? _
    |run reg t t' ts w w' Ht|run reg ts w|run reg err ts w|run reg p ts1 t t' ts2 w w' Ht|run reg p ts1 ts2 w
    |run reg err ts w ?]; cbn [ss_conn ss_tasks ss_pc ss_run] in *; try done.
  - split_and!; [done|done|]. exists c'. split; [left; by destruct Hc as [?|[? _]]|].
    by apply (pc_inv_run c' Running).
  - destruct Hc as [->|[? _]]; [|done]. split_and!; [by destruct reg|done|]. destruct reg; cbn [ss_conn ss_run].
    + by apply pc_inv_close.
    + exists c. split; [by left|]. by apply (pc_inv_run c Stopping).
  - split_and!; [done|done|]. by exists c'.
  - split_and!; [done|done|]. exists c'. split; [done|]. destruct Hinv as [Hlog _]. by left.
  - split_and!; [done|done|]. exists c'. split; [done|]. destruct Hinv as [Hlog _]. by left.
  - split_and!; [done|done|]. by exists c'.
  - destruct (readRequest_from _ _ _ _ _ Hg Hread) as (Hl & Hn' & E).
    destruct Hinv as [Hlog Hw]. cbn in Hlog, Hw. rewrite Hw in E.
    destruct (write_read_error_once _ _ _ w' E) as [? Hn'']; [congruence|].
    split_and!; [cbn; congruence|done|by exists c'].
  - destruct (readRequest_from _ _ _ _ _ Hg Hread) as (Hl & Hn' & E).
    destruct Hinv as [Hlog Hw]. cbn in Hlog, Hw. rewrite Hw in E.
    split_and!; cbn; [congruence|done|]. exists c'. split; [done|]. split; [cbn; congruence|done].
  - split_and!; [done|done|]. exists c'. split; [done|]. by right.
  - destruct Hinv as [Hlog Hread].
    destruct (write_shutdown_once c' reqs batch w w' Hread Hlog Hw (proj2 Hpc)) as [? Hn'].
    split_and!; cbn; [congruence|done|]. exists c'. split; [done|]. by right.
  - split_and!; [done|done|]. exists c'. split; [done|]. destruct Hinv as [Hlog Hread].
    unfold pc_inv. cbn in *. rewrite Hlog. eapply start_task_single; [by apply Hpc|done|done].
  - apply Forall_cons in Hts as [Hok _].
    destruct (task_step_single c' _ _ _ _ Hn Hwf Hok Ht Hinv) as [? ?]. split_and!; [done|done|by exists c'].
  - split_and!; [done|done|]. exists c'. split; [done|]. right. by destruct Hinv as [_ ?].
  - split_and!; [done|done|]. by exists c'.
  - by destruct ts1.
  - by destruct ts1.
Qed.

Lemma session_step_single Services c s s' :
  good_registry Services -> session_ok s -> single_inv c s ->
  session_step Services true s s' -> single_inv c s'.
Proof.
  intros Hg Hok Hinv Hs. destruct Hs as [s s' Hs|run reg p ts w w' Hu].
  - by eapply server_step_single.
  - destruct Hinv as [Hn _]. by apply user_step_none in Hu.
Qed.

Lemma reachable_single Services run c s :
  good_registry Services -> rtc (session_step Services true) (initial run false c) s ->
  session_ok s /\ single_inv c s.
Proof.
  intros Hg Hr.
  eapply (rtc_preserves (session_step Services true) (fun s => session_ok s /\ single_inv c s));
    [|exact Hr|].
  - intros s1 s2 [Hok Hi] Hs. eauto using session_step_ok, session_step_single.
  - split; [apply initial_ok|]. split_and!; [done|done|]. exists c. split; [by left|done].
Qed.

(** ** The steps that are left *)

Definition requests_of (c : C) : nat :=
  match (ReadRequestHeaders c).1 with (Ok rs, _) => length rs | (Err _, _) => 0 end.

Definition single_weight (c : C) s : nat :=
  let more n := if decide (ss_run s = Running) then n else 0 in
  run_weight (ss_run s) +
  match ss_pc s with
  | PStart => 2 + more (2 * requests_of c + 6)
  | PLoop => 2 + more (2 * requests_of c + 5)
  | PReading => 3 + more (2 * requests_of c + 3)
  | PRead reqs _ => 2 + more (2 * length reqs + 3)
  | PInline t => 1 + task_weight t
  | PWait => 2
  | PReturn _ => 1
  | PDone _ | PClosed => 0
  end.

Lemma start_task_weight (reqs : list (ServerRequest Data C R)) batch t :
  start_task reqs batch = Some t -> task_weight t <= 2 * length reqs + 3.
Proof.
  unfold start_task. destruct batch; [intros [= <-]; simpl; lia|].
  destruct reqs as [|q reqs]; [done|]. intros [= <-]. simpl. lia.
Qed.

Lemma read_from_requests (c : C) (reqs : list (ServerRequest Data C R)) batch :
  read_from c (sr_Id <$> reqs) batch -> requests_of c = length reqs.
Proof.
  intros (rs & E & Hids). unfold requests_of. rewrite E.
  apply (f_equal length) in Hids. by rewrite !length_fmap in Hids.
Qed.

Lemma server_step_single_weight Services c s s' :
  good_registry Services -> single_inv c s -> server_step Services true s s' ->
  single_weight c s' < single_weight c s.
Proof.
  intros Hg (_ & Htasks & c' & Hc & Hinv) Hs.
  destruct Hs; unfold single_weight; cbn [ss_run ss_pc ss_conn ss_tasks run_weight] in *;
    repeat case_decide; try done;
    try (match goal with Ht : task_step _ _ _ _ |- _ => apply task_step_weight in Ht; lia end);
    try (match goal with Ht : start_task _ _ = _ |- _ => apply start_task_weight in Ht; lia end);
    try (by destruct ts1); try (destruct p; lia); try (simpl; lia).
  match goal with Hr : readRequest _ _ = _ |- _ => apply readRequest_from in Hr as (_ & _ & Hr); [|done] end.
  destruct Hinv as [_ Hw], Hc as [->|[? _]]; [|by subst]. cbn in Hw. rewrite Hw in *.
  erewrite read_from_requests by done. lia.
Qed.

Lemma server_steps_single_weight Services c n s s' :
  good_registry Services -> session_ok s -> single_inv c s ->
  nsteps (server_step Services true) n s s' -> n <= single_weight c s.
Proof.
  intros Hg Hok Hinv Hn. induction Hn as [s|n s s1 s2 Hs _ IH]; [lia|].
  pose proof (server_step_single_weight _ _ _ _ Hg Hinv Hs).
  assert (n <= single_weight c s1); [|lia].
  apply IH; [by eapply server_step_ok|by eapply server_step_single].
Qed.

Lemma single_progress Services c s :
  good_registry Services -> session_ok s -> single_inv c s ->
  (exists err, ss_pc s = PDone err) \/ exists s', server_step Services true s s'.
Proof.
  intros Hg Hok (_ & _ & c' & _ & Hinv).
  destruct (server_progress Services true s Hg Hok) as [Hf|(s' & Hs & _)]; [left|right; eauto].
  unfold finished, pc_inv in *. destruct (ss_pc s); naive_solver.
Qed.

(** From a state on, serving ends and has answered once when it has ended. *)
Definition ends_and_answers (Services : gmap string (Service Data C R)) (c : C) s : Prop :=
  (forall n s', nsteps (server_step Services true) n s s' -> n <= single_weight c s) /\
  ((exists err, ss_pc s = PDone err) \/ exists s', server_step Services true s s') /\
  (forall err, ss_pc s = PDone err ->
     (ss_run s <> Running /\ conn_log (ss_conn s) = []) \/
     exists c', codec_of c (ss_run s) c' /\ answered_once c' (conn_log (ss_conn s))).

Lemma reachable_ends_and_answers Services run c s :
  good_registry Services -> rtc (session_step Services true) (initial run false c) s ->
  ends_and_answers Services c s.
Proof.
  intros Hg Hr. destruct (reachable_single _ _ _ _ Hg Hr) as [Hok Hinv]. split_and!.
  - intros n s'. by apply server_steps_single_weight.
  - by apply (single_progress Services c).
  - intros err Hpc. destruct Hinv as (_ & _ & c' & Hc & Hinv). unfold pc_inv in Hinv. rewrite Hpc in Hinv. naive_solver.
Qed.

(** C18: [ServeSingleRequest] ends and answers once: in every interleaving with
    [Stop] and user code, the server takes at most [single_weight] further
    steps and is not stuck before it has returned; and when it has returned
    the codec was sent exactly one message with one response per request read,
    in order and under its identifier, or the error of the read (nothing if
    the input had ended), or nothing because the server was stopped first.
    What is read is what the codec has, or has after [Stop] closed it. *)
Theorem single_request_one_response Services run c s :
  good_registry Services -> rtc (session_step Services true) (initial run false c) s ->
  (forall n s', nsteps (server_step Services true) n s s' -> n <= single_weight c s) /\
  ((exists err, ss_pc s = PDone err) \/ exists s', server_step Services true s s') /\
  (forall err, ss_pc s = PDone err ->
     (ss_run s <> Running /\ conn_log (ss_conn s) = []) \/
     exists c', codec_of c (ss_run s) c' /\ answered_once c' (conn_log (ss_conn s))).
Proof. apply reachable_ends_and_answers. Qed.

End SingleShot.
