(* ===== verification/Serving.v ===== *)
(** * pkg/server/server.go: every request of a connection is answered

    The sessions of [Session] with what was read from the codec: whatever the
    goroutines, user code and [Stop] do, the messages read, the messages
    written and the work in flight account for each other. *)

From S2P Require Import Prelude GoStd RpcTypes Utf8 Notifier Register Server Session Effects SingleShot.
From Stdlib Require Import ZArith Lia.
From stdpp Require Import gmap strings list relations.

Section Serving.
Context {Data C R : Type} `{ServerCodec Data C R} {DataTy : DataTypes Data} `{UnicodeTables}.
Context `{!ServerCodecLaws Data C R}.
Implicit Types (w : conn Data C R) (s : session Data C R) (t : task Data C R) (log : list (event Data R)).

(** ** The accounts *)

(** The identifiers of the requests a step reads, if it is a read. *)
Definition reads_of s s' : list (list RawMessage) :=
  match ss_pc s, ss_pc s' with
  | PReading, PRead _ _ =>
      match (ReadRequestHeaders (conn_codec (ss_conn s))).1 with
      | (Ok rs, _) => [req_Id <$> rs]
      | (Err _, _) => []
      end
  | _, _ => []
  end.

(** The runs of the program from a start, with the messages read. *)
Inductive history (Services : gmap string (Service Data C R)) (single : bool) (start : session Data C R) :
    list (list RawMessage) -> session Data C R -> Prop :=
| h_start : history Services single start [] start
| h_step reads s s' :
    history Services single start reads s -> session_step Services single s s' ->
    history Services single start (reads ++ reads_of s s') s'.

(** The responses handed to the codec, message by message, by the identifiers they carry. *)
Definition message_ids (m : message R) : list (option RawMessage) := response_id <$> message_list m.

Definition sent log : list (list (option RawMessage)) :=
  omap (fun e => match e with EvResponse m _ => Some (message_ids m) | EvNotify _ _ _ _ => None end) log.

(** The identifiers the answers to what was read carry. *)
Definition answers (reads : list (list RawMessage)) : list (list (option RawMessage)) :=
  (fun ids : list RawMessage => Some <$> ids) <$> reads.

(** The messages read and not answered yet. *)
Definition task_pending t : list (list (option RawMessage)) :=
  match t with
  | TRun _ todo resps _ => [(response_id <$> resps) ++ ((fun q => Some (sr_Id q)) <$> todo)]
  | TAct _ => []
  end.

Definition pc_pending (p : pc Data C R) : list (list (option RawMessage)) :=
  match p with
  | PRead reqs _ => [(fun q => Some (sr_Id q)) <$> reqs]
  | PInline t => task_pending t
  | _ => []
  end.

Definition pending s : list (list (option RawMessage)) :=
  pc_pending (ss_pc s) ++ concat (task_pending <$> ss_tasks s).

(** The answer to the input that could not be read; the loop has ended. *)
Definition read_error_sent (p : pc Data C R) (err : list (list (option RawMessage))) : Prop :=
  err = [] \/ err = [[None]] /\ match p with PWait | PReturn _ | PDone _ | PClosed => True | _ => False end.

Definition accounts (reads : list (list RawMessage)) s : Prop :=
  exists err, read_error_sent (ss_pc s) err /\
    sent (conn_log (ss_conn s)) ++ pending s ≡ₚ answers reads ++ err.

(** ** The effects of a step on the accounts *)

Lemma sent_app log1 log2 : sent (log1 ++ log2) = sent log1 ++ sent log2.
Proof. apply omap_app. Qed.

Lemma sent_notifies log : only_notifies log -> sent log = [].
Proof. induction 1 as [|e log (id & ns & d & err & ->) Hl IH]; [done|]. exact IH. Qed.

Lemma sent_extends w w' l :
  conn_log w' = conn_log w ++ l -> only_notifies l -> sent (conn_log w') = sent (conn_log w).
Proof. intros -> Hl. by rewrite sent_app, (sent_notifies l Hl), app_nil_r. Qed.

Lemma sent_response w w' m err :
  conn_log w' = conn_log w ++ [EvResponse m err] ->
  sent (conn_log w') = sent (conn_log w) ++ [message_ids m].
Proof. intros ->. apply sent_app. Qed.

(** A step of a task moves its message from the pending to the sent ones. *)
Lemma task_step_accounts t w t' w' :
  wf_conn w -> task_ok w t -> task_step t w t' w' ->
  sent (conn_log w') ++ task_pending t' ≡ₚ sent (conn_log w) ++ task_pending t.
Proof.
  intros Hwf Hok Ht. revert Hwf Hok.
  destruct Ht as [batch q todo resps acts w1 r act w2 Hr|batch resps acts m w1 Hm|a acts w1 w2 Ha];
    intros Hwf Hok; cbn [task_pending].
  - destruct Hok as (Hex & _). apply Forall_cons in Hex as [Hq _].
    destruct (respond_responds q w1 Hq Hwf) as (r' & act' & w'' & l & Hr' & Hid & _ & Hl & Hno & _).
    rewrite Hr in Hr'. simplify_eq. rewrite (sent_extends _ _ _ Hl Hno).
    rewrite fmap_app, fmap_cons, <-app_assoc. cbn. by rewrite Hid.
  - destruct Hok as (_ & Hlen & _). destruct (write_or_close_spec m w1 Hwf) as (_ & Hl & _).
    rewrite (sent_response _ _ _ _ Hl). cbn [fmap list_fmap]. rewrite !app_nil_r.
    assert (message_ids m = response_id <$> resps) as ->; [|done].
    unfold message_ids. destruct batch; cbn in Hm; [by simplify_eq|].
    specialize (Hlen eq_refl). destruct resps as [|r0 [|]]; simplify_eq/=; done || lia.
  - destruct Hok as [Hn _].
    destruct (activate_total a.1 a.2 w1 Hwf ltac:(by apply Hn)) as (w3 & Ha' & _ & Hl & _).
    unfold activateSub in Ha. rewrite Ha in Ha'. simplify_eq. by rewrite Hl.
Qed.

Lemma start_task_pending reqs batch t :
  (batch = false -> length reqs = 1) -> start_task reqs batch = Some t ->
  task_pending t = pc_pending (PRead (Data:=Data) (C:=C) (R:=R) reqs batch).
Proof.
  unfold start_task. destruct batch; [by intros _ [= <-]|].
  intros Hlen. specialize (Hlen eq_refl). destruct reqs as [|q [|]]; [done| |done]. by intros [= <-].
Qed.

Lemma write_shutdown_sent reqs batch w w' :
  (batch = false -> length reqs = 1) -> write_shutdown reqs batch w = Some w' ->
  sent (conn_log w') = sent (conn_log w) ++ pc_pending (PRead (Data:=Data) (C:=C) (R:=R) reqs batch).
Proof.
  unfold write_shutdown, write. intros Hlen. destruct batch.
  - destruct (Write _ _) as [e c]. intros [= <-]. cbn [snd conn_log]. rewrite sent_app. f_equal. cbn. f_equal.
    unfold message_ids. cbn. rewrite <-list_fmap_compose. apply list_fmap_ext. intros ? q _. apply response_id_err.
  - specialize (Hlen eq_refl). destruct reqs as [|q [|]]; [done| |done].
    destruct (Write _ _) as [e c]. intros [= <-]. cbn [snd conn_log]. rewrite sent_app. f_equal. cbn.
    unfold message_ids. cbn. by rewrite response_id_err.
Qed.

Lemma write_read_error_sent e w :
  exists err, (err = [] \/ err = [[None]]) /\
    sent (conn_log (write_read_error e w)) = sent (conn_log w) ++ err.
Proof.
  unfold write_read_error, write. case_bool_decide.
  - exists []. rewrite app_nil_r. split; [by left|done].
  - exists [[None]]. split; [by right|]. destruct (Write _ _). cbn.
    rewrite sent_app. cbn. unfold message_ids. cbn. by rewrite response_id_err.
Qed.

(** A task in the middle of the goroutines. *)
Lemma pending_task run reg (p : pc Data C R) ts1 t ts2 w :
  pending (mkSession run reg p (ts1 ++ t :: ts2) w) ≡ₚ
  task_pending t ++ pending (mkSession run reg p (ts1 ++ ts2) w).
Proof.
  unfold pending. cbn [ss_pc ss_tasks]. rewrite !fmap_app, fmap_cons, !concat_app. cbn [concat].
  rewrite (Permutation_app_swap_app (concat (task_pending <$> ts1))).
  apply Permutation_app_swap_app.
Qed.

(** The accounts of a state depend on the log and on what is pending. *)
Lemma accounts_same reads s s' :
  accounts reads s ->
  (forall err, read_error_sent (ss_pc s) err -> read_error_sent (ss_pc s') err) ->
  sent (conn_log (ss_conn s')) ++ pending s' ≡ₚ sent (conn_log (ss_conn s)) ++ pending s ->
  accounts reads s'.
Proof. intros (err & Herr & Hp) He Hs. exists err. split; [auto|]. by rewrite Hs. Qed.

Lemma accounts_loop reads s :
  (match ss_pc s with PWait | PReturn _ | PDone _ | PClosed => False | _ => True end) -> accounts reads s ->
  sent (conn_log (ss_conn s)) ++ pending s ≡ₚ answers reads.
Proof.
  intros Hp (err & [->|[-> He]] & Hs); [by rewrite app_nil_r in Hs|]. by destruct (ss_pc s).
Qed.

Lemma reads_of_same s s' : ss_pc s' = ss_pc s -> reads_of s s' = [].
Proof. unfold reads_of. intros ->. by destruct (ss_pc s). Qed.

(** A step that reads nothing and keeps the sum. *)
Lemma accounts_keep reads s s' :
  accounts reads s -> reads_of s s' = [] ->
  (forall err, read_error_sent (ss_pc s) err -> read_error_sent (ss_pc s') err) ->
  sent (conn_log (ss_conn s')) ++ pending s' ≡ₚ sent (conn_log (ss_conn s)) ++ pending s ->
  accounts (reads ++ reads_of s s') s'.
Proof. intros Ha -> He Hs. rewrite app_nil_r. by eapply accounts_same. Qed.

Lemma read_accounts Services reads run reg ts w reqs batch w' :
  good_registry Services -> readRequest Services w = Ret (Ok reqs, batch, w') ->
  let s := mkSession run reg PReading ts w in
  let s' := mkSession run reg (PRead reqs batch) ts w' in
  accounts reads s -> accounts (reads ++ reads_of s s') s'.
Proof.
  intros Hg Hread s s' Ha. destruct (readRequest_from _ _ _ _ _ Hg Hread) as (Hl & _ & rs & E & Hids).
  exists []. split; [by left|]. apply (accounts_loop reads s I) in Ha. rewrite app_nil_r.
  unfold reads_of. cbn. rewrite E. unfold answers in *. rewrite fmap_app, <-Ha. cbn [fmap list_fmap].
  unfold s, s', pending. cbn [ss_pc ss_tasks ss_conn pc_pending app]. rewrite Hl, Hids, <-list_fmap_compose.
  rewrite <-app_assoc. apply Permutation_app_head, Permutation_cons_append.
Qed.

Lemma read_error_accounts Services reads run reg ts w e batch w' :
  good_registry Services -> readRequest Services w = Ret (Err e, batch, w') ->
  let s := mkSession run reg PReading ts w in
  let s' := mkSession run reg PWait ts (write_read_error e w') in
  accounts reads s -> accounts (reads ++ reads_of s s') s'.
Proof.
  intros Hg Hread s s' Ha. destruct (readRequest_from _ _ _ _ _ Hg Hread) as (Hl & _ & _).
  apply (accounts_loop reads s I) in Ha. destruct (write_read_error_sent e w') as (err & Herr & Hs).
  exists err. split; [destruct Herr as [->| ->]; [by left|by right]|].
  unfold reads_of. cbn [ss_pc s s']. rewrite app_nil_r, <-Ha.
  unfold s, s', pending. cbn [ss_pc ss_tasks ss_conn pc_pending app]. rewrite Hs, Hl, <-!app_assoc.
  apply Permutation_app_head, Permutation_app_comm.
Qed.

Lemma server_step_accounts Services single reads s s' :
  good_registry Services -> session_ok s -> accounts reads s ->
  server_step Services single s s' -> accounts (reads ++ reads_of s s') s'.
Proof.
  intros Hg (Hwf & _ & Hpc & Hts) Ha Hs.
  destruct Hs as [reg p ts w|reg p ts w|reg ts w|run reg ts w Hrun|run reg ts w Hrun|reg ts w
    |run reg ts w e batch w' Hread|run reg ts w reqs batch w' Hread|run reg w
    |run reg reqs batch ts w w' Hrun Hw|reg reqs batch ts w t _ Ht|reg reqs batch ts w t ? Ht
    |run reg t t' ts w w' Ht|run reg ts w|run reg err ts w|run reg p ts1 t t' ts2 w w' Ht|run reg p ts1 ts2 w
    |run reg err ts w ?]; cbn [ss_conn ss_tasks ss_pc] in *;
    try (by eapply read_error_accounts); try (by eapply read_accounts);
    (apply (accounts_keep _ _ _ Ha); [by (done || apply reads_of_same)|first [done|intros ? [->|[-> Hp]]; [by left|by right]]|]).
  - done.
  - by destruct reg.
  - done.
  - done.
  - done.
  - done.
  - done.
  - cbn [ss_conn]. rewrite (write_shutdown_sent _ _ _ _ (proj2 Hpc) Hw). by rewrite <-app_assoc.
  - unfold pending. cbn. by rewrite (start_task_pending _ _ _ (proj2 Hpc) Ht).
  - unfold pending. cbn [ss_pc ss_tasks ss_conn]. rewrite <-(start_task_pending _ _ _ (proj2 Hpc) Ht).
    rewrite fmap_app, concat_app. cbn. rewrite app_nil_r. apply Permutation_app_head, Permutation_app_comm.
  - apply Forall_cons in Hts as [Hok _]. unfold pending. cbn [ss_pc ss_tasks ss_conn pc_pending].
    rewrite !app_assoc. by rewrite (task_step_accounts _ _ _ _ Hwf Hok Ht).
  - done.
  - done.
  - rewrite !Forall_app, Forall_cons in Hts. destruct Hts as (_ & _ & Hok & _).
    rewrite !pending_task. cbn [ss_conn]. rewrite !app_assoc.
    by rewrite (task_step_accounts _ _ _ _ Hwf Hok Ht).
  - by rewrite pending_task.
  - done.
Qed.

Lemma history_reachable Services single start reads s :
  history Services single start reads s -> rtc (session_step Services single) start s.
Proof. induction 1 as [|reads s s' _ IH Hs]; [done|]. by eapply rtc_r. Qed.

Lemma reachable_history Services single start s :
  rtc (session_step Services single) start s -> exists reads, history Services single start reads s.
Proof.
  revert s. apply rtc_ind_r; [by exists []; constructor|]. intros s s' _ Hs [reads IH].
  eexists. by econstructor.
Qed.

Lemma history_accounts Services single run subs c reads s :
  good_registry Services -> history Services single (initial run subs c) reads s -> session_ok s /\ accounts reads s.
Proof.
  intros Hg Hh. remember (initial run subs c) as start eqn:E.
  induction Hh as [|reads s s' _ [Hok Ha] Hs].
  { subst. split; [apply initial_ok|]. exists []. split; [by left|done]. }
  split; [by eapply session_step_ok|]. destruct Hs as [s s' Hs|run' reg p ts w w' Hu].
  { by eapply server_step_accounts. }
  destruct (user_step_log _ _ Hu) as (l & Hl & Hno).
  apply (accounts_keep _ _ _ Ha); [by apply reads_of_same|done|].
  cbn [ss_conn]. by rewrite (sent_extends _ _ _ Hl Hno).
Qed.

Lemma finished_pending single s : finished single s -> pending s = [].
Proof. unfold finished, pending. destruct (ss_pc s); try done; [intros [_ ->]|intros ->]; done. Qed.

Lemma accounts_finished single reads s :
  accounts reads s -> finished single s ->
  exists err, (err = [] \/ err = [[None]]) /\ sent (conn_log (ss_conn s)) ≡ₚ answers reads ++ err.
Proof.
  intros (err & Herr & Hp) Hf. exists err. split; [destruct Herr as [->|[-> _]]; auto|].
  by rewrite (finished_pending _ _ Hf), app_nil_r in Hp.
Qed.

(** C2: every request of a connection is answered exactly once.  At any moment,
    under any interleaving of the goroutines, user code and [Stop], the
    messages handed to the codec and those still being worked on are, up to
    order, one message for each message read, with one response for each of
    its requests, in its order and under its identifier; beyond them there is
    at most the answer to an input that could not be read.  When the session
    has ended nothing is left in the works. *)
Theorem every_request_answered Services single run subs c reads s :
  good_registry Services -> history Services single (initial run subs c) reads s ->
  exists err, (err = [] \/ err = [[None]]) /\
    sent (conn_log (ss_conn s)) ++ pending s ≡ₚ answers reads ++ err /\
    (finished single s -> pending s = []).
Proof.
  intros Hg Hh. destruct (history_accounts _ _ _ _ _ _ _ Hg Hh) as [_ (err & Herr & Hp)].
  exists err. split_and!; [destruct Herr as [->|[-> _]]; auto|done|apply finished_pending].
Qed.

(** ** A connection whose input ends *)

Section Finite.

(** How much input a codec has left: reading a message of [n] requests takes
    [n]+1 of it, and nothing adds to it. *)
Variable remaining : C -> nat.
Hypothesis read_consumes : forall c rs batch c',
  ReadRequestHeaders c = ((Ok rs, batch), c') -> remaining c' + length rs + 1 <= remaining c.
Hypothesis read_fails : forall c e batch c',
  ReadRequestHeaders c = ((Err e, batch), c') -> remaining c' <= remaining c.
Hypothesis write_keeps : forall m c, remaining (Write m c).2 <= remaining c.
Hypothesis close_keeps : forall c, remaining (Close c) <= remaining c.

Definition left_over w : nat := remaining (conn_codec w).

Lemma write_ops_left w w' : rtc write_op w w' -> left_over w' <= left_over w.
Proof.
  unfold left_over. induction 1 as [|w1 w2 w3 Ho _ IH]; [done|]. etransitivity; [exact IH|].
  destruct Ho; [apply write_keeps|apply close_keeps|done].
Qed.

Lemma readRequest_left Services w res batch w' :
  good_registry Services -> readRequest Services w = Ret (res, batch, w') ->
  left_over w' + match res with Ok reqs => length reqs + 1 | Err _ => 0 end <= left_over w.
Proof.
  intros Hg. unfold readRequest, left_over.
  destruct (ReadRequestHeaders (conn_codec w)) as [[[rs|e] b] c] eqn:E; cbn.
  2:{ intros [= <- <- <-]. cbn. apply read_fails in E. lia. }
  destruct (resolve_all_executable Services rs Hg) as (reqs & -> & _ & Hids).
  { by eapply read_params. }
  intros [= <- <- <-]. cbn. apply (f_equal length) in Hids. rewrite !length_fmap in Hids.
  apply read_consumes in E. lia.
Qed.

(** A bound on the steps that are left. *)
Definition serving_pc (p : pc Data C R) : nat :=
  match p with
  | PStart => 6
  | PLoop => 5
  | PReading => 4
  | PRead reqs _ => 2 * length reqs + 9
  | PWait => 3
  | PInline t => 3 + task_weight t
  | PReturn _ => 2
  | PDone _ => 1
  | PClosed => 0
  end.

Definition serving_weight s : nat :=
  run_weight (ss_run s) + serving_pc (ss_pc s) + 6 * left_over (ss_conn s) +
  sum_list (task_weight <$> ss_tasks s).

Lemma start_task_size reqs batch t :
  (batch = false -> length reqs = 1) -> start_task (Data:=Data) (C:=C) (R:=R) reqs batch = Some t ->
  task_weight t = 2 * length reqs + 3.
Proof.
  unfold start_task. destruct batch; [intros _ [= <-]; cbn; lia|].
  intros Hlen. specialize (Hlen eq_refl). destruct reqs as [|q [|]]; [done| |done]. intros [= <-]. done.
Qed.

Lemma task_step_serving t w t' w' :
  wf_conn w -> task_ok w t -> task_step t w t' w' ->
  left_over w' <= left_over w /\ task_weight t' < task_weight t.
Proof.
  intros Hwf Hok Ht. split; [by eapply write_ops_left, task_step_ops|by eapply task_step_weight].
Qed.

Lemma server_step_serving Services single s s' :
  good_registry Services -> session_ok s -> server_step Services single s s' ->
  serving_weight s' < serving_weight s.
Proof.
  intros Hg (Hwf & _ & Hpc & Hts) Hs.
  destruct Hs as [reg p ts w|reg p ts w|reg ts w|run reg ts w Hrun|run reg ts w Hrun|reg ts w
    |run reg ts w e batch w' Hread|run reg ts w reqs batch w' Hread|run reg w
    |run reg reqs batch ts w w' Hrun Hw|reg reqs batch ts w t _ Ht|reg reqs batch ts w t ? Ht
    |run reg t t' ts w w' Ht|run reg ts w|run reg err ts w|run reg p ts1 t t' ts2 w w' Ht|run reg p ts1 ts2 w
    |run reg err ts w ?]; unfold serving_weight;
    cbn [ss_run ss_pc ss_conn ss_tasks serving_pc run_weight pc_tasks app] in *;
    rewrite ?fmap_app, ?fmap_cons, ?sum_list_with_app; simpl; try lia;
    try (pose proof (close_keeps (conn_codec w)); unfold left_over; try destruct reg; simpl; lia);
    try (apply start_task_size in Ht; [lia|by apply Hpc]).
  - apply readRequest_left in Hread; [|done]. pose proof (write_ops_left _ _ (write_read_error_ops e w')). lia.
  - apply readRequest_left in Hread; [|done]. lia.
  - apply write_shutdown_ops, write_ops_left in Hw. lia.
  - apply Forall_cons in Hts as [Hok _]. destruct (task_step_serving _ _ _ _ Hwf Hok Ht). lia.
  - rewrite !Forall_app, Forall_cons in Hts. destruct Hts as (_ & _ & Hok & _).
    destruct (task_step_serving _ _ _ _ Hwf Hok Ht). lia.
Qed.

Lemma server_steps_serving Services single n s s' :
  good_registry Services -> session_ok s -> nsteps (server_step Services single) n s s' ->
  n <= serving_weight s.
Proof.
  intros Hg Hok Hn. induction Hn as [s|n s s1 s2 Hs _ IH]; [lia|].
  pose proof (server_step_serving _ _ _ _ Hg Hok Hs).
  assert (n <= serving_weight s1); [|lia]. apply IH. by eapply server_step_ok.
Qed.

(** A connection whose input ends is served to the end.  If reading consumes
    the input of the codec, then whatever the goroutines, user code and [Stop]
    have done, the server has at most [serving_weight] steps left and can take
    one until it has finished; and when it has finished, the messages sent
    are, up to order, one answer for each message read, with at most the
    answer to an input that could not be read. *)
Lemma finite_connection_served Services single run subs c reads s :
  good_registry Services -> history Services single (initial run subs c) reads s ->
  (forall n s', nsteps (server_step Services single) n s s' -> n <= serving_weight s) /\
  (finished single s \/ exists s', server_step Services single s s') /\
  (finished single s -> exists err, (err = [] \/ err = [[None]]) /\
     sent (conn_log (ss_conn s)) ≡ₚ answers reads ++ err).
Proof.
  intros Hg Hh. destruct (history_accounts _ _ _ _ _ _ _ Hg Hh) as [Hok Ha]. split_and!.
  - intros n s'. by apply server_steps_serving.
  - destruct (server_progress Services single s Hg Hok) as [?|(s' & ? & _)]; [by left|eauto].
  - by apply accounts_finished.
Qed.

End Finite.
End Serving.
