(* ===== verification/Recover.v ===== *)
(** * pkg/server/server.go: panics in the methods served

    [Session] has no step for a method that panics, since methods that keep
    their contract do not ([goroutines_never_panic]).  Here the methods may: the
    deferred [recover] of [serveRequest] catches a panic of its own goroutine,
    that is of a request served on its own; the goroutines of a connection have
    no [recover], and a panic in one ends the process. *)

From S2P Require Import Prelude GoStd RpcTypes Utf8 Notifier Register Server Session SingleShot.
From Stdlib Require Import ZArith Lia.
From stdpp Require Import gmap strings list relations.

Section Recover.
Context {Data C R : Type} `{ServerCodec Data C R} {DataTy : DataTypes Data} `{UnicodeTables}.
Implicit Types (w : conn Data C R) (s : session Data C R) (t : task Data C R) (log : list (event Data R)).

(** The next step of a task panics. *)
Definition task_panics t w : Prop :=
  match t with
  | TRun _ (q :: _) _ _ => respond q w = Panic
  | TRun batch [] resps _ => task_message batch resps = None
  | TAct (a :: _) => activateSub a w = Panic
  | TAct [] => False
  end.

Section Steps.
Variable Services : gmap string (Service Data C R).

(** The goroutine of [serveRequest] panics. *)
Definition serve_panics (run : runstate) (p : pc Data C R) w : Prop :=
  match p with
  | PReading => readRequest Services w = Panic
  | PRead reqs batch =>
      if decide (run = Running) then start_task (Data:=Data) (C:=C) (R:=R) reqs batch = None
      else write_shutdown reqs batch w = None
  | PInline t => task_panics t w
  | _ => False
  end.

(** The steps of [ServeSingleRequest] and user code, where a panic is recovered:
    the method may have created subscriptions and sent notifications before;
    the deferred function removes the codec, and nil is returned. *)
Inductive recovered_step : session Data C R -> session Data C R -> Prop :=
| rc_step s s' : session_step Services true s s' -> recovered_step s s'
| rc_panic run reg p ts w w' :
    serve_panics run p w -> rtc user_step w w' ->
    recovered_step (mkSession run reg p ts w) (mkSession run false (PDone None) ts w').

(** A goroutine of a connection that is about to panic, which nothing recovers. *)
Definition crashes s : Prop := exists t, t ∈ ss_tasks s /\ task_panics t (ss_conn s).

(** ** The weaker contract: methods act on the connection through the notifier
    only.  They may panic, and return what they like. *)

Definition polite (cb : Callback Data C R) : Prop :=
  forall args w outs w', m_Func (cb_Method cb) args w = Ret (outs, w') -> rtc user_step w w'.

Definition polite_registry : Prop :=
  map_Forall (fun _ svc => map_Forall (fun _ => polite) (svc_Callbacks svc) /\
    map_Forall (fun _ => polite) (svc_Subscriptions svc)) Services.

Definition polite_request (q : ServerRequest Data C R) : Prop :=
  forall cb, sr_Callb q = Some cb -> polite cb.

Lemma resolve_polite r q : polite_registry -> resolve Services r = Ret q -> polite_request q.
Proof.
  intros Hp. unfold resolve, polite_request. intros Hq cb Hcb.
  repeat case_match; simplify_eq/=; try done;
    unfold slice_from_1 in *; repeat case_match; simplify_eq/=;
    match goal with Hs : Services !! _ = Some _ |- _ => destruct (Hp _ _ Hs) as [Hcs Hss] end; eauto.
Qed.

Lemma resolve_all_polite rs qs :
  polite_registry -> resolve_all Services rs = Ret qs -> Forall polite_request qs /\ length qs = length rs.
Proof.
  intros Hp. revert qs. induction rs as [|r rs IH]; cbn; intros qs; [by intros [= <-]|].
  destruct (resolve Services r) as [q|] eqn:Eq; [|done]. cbn.
  destruct (resolve_all Services rs) as [qs'|] eqn:Eqs; [|done]. intros [= <-].
  destruct (IH _ eq_refl) as [? <-]. split; [|done]. constructor; [by eapply resolve_polite|done].
Qed.

(** ** What a request can do without a notifier *)

Lemma user_steps_none w w' : conn_notifier w = None -> rtc user_step w w' -> w' = w.
Proof. intros Hn [->|(w1 & Hs & _)]%rtc_inv; [done|]. by apply user_step_none in Hs. Qed.

Lemma Call_polite cb args w outs w' :
  polite cb -> conn_notifier w = None -> Call (cb_Method cb) args w = Ret (outs, w') -> w' = w.
Proof.
  unfold Call. destruct (call_fits _ _); [|done]. intros Hp Hn Hc. eapply user_steps_none; [done|by eapply Hp].
Qed.

Lemma respond_polite q w r act w' :
  polite_request q -> conn_notifier w = None -> respond q w = Ret (r, act, w') -> w' = w.
Proof.
  intros Hp Hn. unfold respond, handle, createSubscription, NotifierFromContext. rewrite Hn.
  destruct (sr_Err q); [by intros [= _ _ <-]|].
  destruct (sr_IsUnsubscribe q); [by destruct (sr_Args q) as [|[] ?]; intros [= _ _ <-]|].
  destruct (sr_Callb q) as [cb|] eqn:Ecb; [|done]. pose proof (Hp cb Ecb) as Hcb.
  destruct (IsSubscribe cb); [|destruct (negb _); [by intros [= _ _ <-]|]];
    destruct (Call _ _ w) as [[outs w1]|] eqn:Ec; try done;
    apply Call_polite in Ec as ->; try done; intros Hr; go_cases_in; done.
Qed.

Lemma activateSub_none a w : conn_notifier w = None -> activateSub a w = Panic.
Proof. unfold activateSub, activate. by intros ->. Qed.

(** ** The invariant: nothing is written before the request is computed, and
    one message after *)

Definition task_clean log t : Prop :=
  match t with
  | TRun batch todo resps _ =>
      log = [] /\ Forall polite_request todo /\ (batch = false -> length todo + length resps = 1)
  | TAct _ => length log <= 1
  end.

Definition pc_clean s : Prop :=
  let log := conn_log (ss_conn s) in
  match ss_pc s with
  | PStart | PLoop | PReading => log = []
  | PRead reqs batch => log = [] /\ Forall polite_request reqs
  | PInline t => task_clean log t
  | PWait | PReturn _ => length log <= 1
  | PDone _ => length log <= 1 /\ ss_registered s = false
  | PClosed => False
  end.

Definition clean s : Prop := conn_notifier (ss_conn s) = None /\ ss_tasks s = [] /\ pc_clean s.

Lemma task_step_clean t w t' w' :
  conn_notifier w = None -> task_step t w t' w' -> task_clean (conn_log w) t ->
  conn_notifier w' = None /\ task_clean (conn_log w') t'.
Proof.
  intros Hn Ht. revert Hn.
  destruct Ht as [batch q todo resps acts w1 r act w2 Hr|batch resps acts m w1 Hm|a acts w1 w2 Ha];
    intros Hn Hc.
  - destruct Hc as (Hl & [Hq Hqs]%Forall_cons & Hlen).
    apply (respond_polite _ _ _ _ _ Hq Hn) in Hr as ->. split; [done|]. split_and!; [done|done|].
    intros Hb. specialize (Hlen Hb). rewrite length_app. simpl in *. lia.
  - destruct Hc as (Hl & _). unfold write_or_close, write. destruct (Write _ _) as [[e|] c]; cbn;
      (split; [done|]); by rewrite Hl.
  - by rewrite activateSub_none in Ha.
Qed.

Lemma pc_clean_run run run' reg p ts w w' :
  conn_log w' = conn_log w -> pc_clean (mkSession run reg p ts w) -> pc_clean (mkSession run' reg p ts w').
Proof. intros Hl. unfold pc_clean. cbn. by rewrite Hl. Qed.

Lemma read_clean w res batch w' :
  polite_registry -> readRequest Services w = Ret (res, batch, w') ->
  conn_log w' = conn_log w /\ conn_notifier w' = conn_notifier w /\
  match res with
  | Ok reqs => Forall polite_request reqs /\ length reqs = requests_of (conn_codec w)
  | Err _ => True
  end.
Proof.
  intros Hp. unfold readRequest, requests_of.
  destruct (ReadRequestHeaders (conn_codec w)) as [[[rs|e] b] c]; cbn; [|by intros [= <- <- <-]].
  destruct (resolve_all Services rs) as [qs|] eqn:E; [|done]. intros [= <- <- <-].
  split; [done|]. split; [done|]. by eapply resolve_all_polite.
Qed.

Lemma write_log m w : conn_log (write m w).2 = conn_log w ++ [EvResponse m (Write m (conn_codec w)).1] /\
  conn_notifier (write m w).2 = conn_notifier w.
Proof. unfold write. by destruct (Write _ _). Qed.

Lemma write_shutdown_log reqs batch w w' :
  write_shutdown (Data:=Data) (C:=C) (R:=R) reqs batch w = Some w' -> conn_log w = [] ->
  length (conn_log w') = 1 /\ conn_notifier w' = conn_notifier w.
Proof.
  unfold write_shutdown. intros Hw Hl.
  assert (exists m, w' = (write m w).2) as [m ->] by (destruct batch; [|destruct reqs]; naive_solver).
  destruct (write_log m w) as [-> ->]. by rewrite Hl.
Qed.

Lemma write_read_error_log e w : conn_log w = [] ->
  length (conn_log (write_read_error e w)) <= 1 /\
  conn_notifier (write_read_error e w) = conn_notifier w.
Proof.
  unfold write_read_error. intros Hl. case_bool_decide; [rewrite Hl; simpl; auto|].
  destruct (write_log (One (CreateErrorResponse None e)) w) as [-> ->]. by rewrite Hl.
Qed.

Lemma start_task_clean reqs batch t :
  start_task reqs batch = Some t -> Forall polite_request reqs -> task_clean [] t.
Proof.
  unfold start_task. destruct batch; [by intros [= <-]|]. destruct reqs as [|q reqs]; [done|].
  intros [= <-] [Hq _]%Forall_cons. split_and!; [done|by constructor|done].
Qed.

Lemma server_step_clean s s' :
  polite_registry -> clean s -> server_step Services true s s' -> clean s'.
Proof.
  intros Hp (Hn & Htasks & Hinv) Hs.
  destruct Hs as [reg p ts w|reg p ts w|reg ts w|run reg ts w Hrun|run reg ts w Hrun|reg ts w
    |run reg ts w e batch w' Hread|run reg ts w reqs batch w' Hread|run reg w
    |run reg reqs batch ts w w' Hrun Hw|reg reqs batch ts w t _ Ht|reg reqs batch ts w t ? _
    |run reg t t' ts w w' Ht|run reg ts w|run reg err ts w|run reg p ts1 t t' ts2 w w' Ht|run reg p ts1 ts2 w
    |run reg err ts w ?]; cbn [ss_conn ss_tasks] in *; subst; try done.
  - split_and!; [by destruct reg|done|]. apply (pc_clean_run Stopping _ _ _ _ w); [by destruct reg|exact Hinv].
  - split_and!; [done|done|]. cbn in *. rewrite Hinv. auto.
  - split_and!; [done|done|]. cbn in *. rewrite Hinv. simpl. lia.
  - destruct (read_clean _ _ _ _ Hp Hread) as (Hl & Hn' & _). cbn in Hinv. rewrite Hinv in Hl.
    destruct (write_read_error_log e w' Hl) as [? Hn'']. split_and!; cbn; [congruence|done|done].
  - destruct (read_clean _ _ _ _ Hp Hread) as (Hl & Hn' & Hq & _). cbn in Hinv.
    split_and!; cbn; [congruence|done|]. split; [congruence|done].
  - destruct Hinv as [Hl Hq]. destruct (write_shutdown_log _ _ _ _ Hw Hl) as [Hl' Hn'].
    split_and!; cbn; [congruence|done|]. lia.
  - destruct Hinv as [Hl Hq]. split_and!; cbn; [done|done|]. cbn in Hl. rewrite Hl.
    by eapply start_task_clean.
  - destruct (task_step_clean _ _ _ _ Hn Ht Hinv) as [? ?]. by split_and!.
  - by destruct ts1.
  - by destruct ts1.
Qed.

Lemma recovered_step_clean s s' :
  polite_registry -> clean s -> recovered_step s s' -> clean s'.
Proof.
  intros Hp Hc Hs. destruct Hs as [s s' [s1 s2 Hs|run reg p ts w w' Hu]|run reg p ts w w' Hpan Hu].
  - by eapply server_step_clean.
  - destruct Hc as [Hn _]. by apply user_step_none in Hu.
  - destruct Hc as (Hn & Ht & Hi). apply (user_steps_none _ _ Hn) in Hu as ->.
    split_and!; [done|done|]. unfold pc_clean, serve_panics in *. cbn in *. split; [|done].
    destruct p as [| | |reqs batch| |[batch todo resps acts|acts]| | |]; try done.
    + rewrite Hi. auto.
    + destruct Hi as [-> _]. auto.
    + destruct Hi as [-> _]. auto.
Qed.

Lemma reachable_clean run c s :
  polite_registry -> rtc recovered_step (initial run false c) s -> clean s.
Proof.
  intros Hp Hr. apply (rtc_preserves recovered_step clean) in Hr; [done| |by split_and!].
  intros s1 s2 Hc Hs. by eapply recovered_step_clean.
Qed.

(** ** The steps that are left *)

Definition recovered_weight s : nat :=
  let more n := if decide (ss_run s = Running) then n else 0 in
  let requests := requests_of (conn_codec (ss_conn s)) in
  run_weight (ss_run s) +
  match ss_pc s with
  | PStart => 2 + more (2 * requests + 6)
  | PLoop => 2 + more (2 * requests + 5)
  | PReading => 3 + more (2 * requests + 3)
  | PRead reqs _ => 2 + more (2 * length reqs + 3)
  | PInline t => 1 + task_weight t
  | PWait => 2
  | PReturn _ => 1
  | PDone _ | PClosed => 0
  end.

Lemma server_step_recovered_weight s s' :
  polite_registry -> ss_tasks s = [] -> server_step Services true s s' ->
  recovered_weight s' < recovered_weight s.
Proof.
  intros Hp Htasks Hs.
  destruct Hs; unfold recovered_weight; cbn [ss_run ss_pc ss_conn ss_tasks run_weight] in *;
    repeat case_decide; try done;
    try (match goal with Ht : task_step _ _ _ _ |- _ => apply task_step_weight in Ht; lia end);
    try (match goal with Ht : start_task _ _ = _ |- _ => apply start_task_weight in Ht; lia end);
    try (match goal with Hr : readRequest _ _ = _ |- _ => apply read_clean in Hr as (_ & _ & Hr); [|done] end);
    try (destruct p; lia); try (by destruct ts1); simpl; try lia.
Qed.

Lemma recovered_step_weight s s' :
  polite_registry -> clean s -> recovered_step s s' -> recovered_weight s' < recovered_weight s.
Proof.
  intros Hp (Hn & Ht & _) Hs. destruct Hs as [s s' [s1 s2 Hs|run reg p ts w w' Hu]|run reg p ts w w' Hpan Hu].
  - by eapply server_step_recovered_weight.
  - by apply user_step_none in Hu.
  - unfold recovered_weight, serve_panics in *. cbn in *.
    destruct p as [| | |reqs batch| |[]| | |]; try done; cbn; lia.
Qed.

Lemma recovered_steps_weight n s s' :
  polite_registry -> clean s -> nsteps recovered_step n s s' -> n <= recovered_weight s.
Proof.
  intros Hp Hc Hn. induction Hn as [s|n s s1 s2 Hs _ IH]; [lia|].
  pose proof (recovered_step_weight _ _ Hp Hc Hs).
  assert (n <= recovered_weight s1); [|lia]. apply IH. by eapply recovered_step_clean.
Qed.

(** ** Progress *)

Lemma task_progress_or_panic t w :
  t = TAct [] \/ task_panics t w \/ exists t' w', task_step t w t' w'.
Proof.
  destruct t as [batch [|q todo] resps acts|[|a acts]]; cbn; [..|by left|].
  - right. destruct (task_message batch resps) eqn:E; [|by left]. right. eexists _, _. by constructor.
  - right. destruct (respond q w) as [[[r act] w']|] eqn:E; [|by left]. right. eexists _, _. by constructor.
  - right. destruct (activateSub a w) as [w'|] eqn:E; [|by left]. right. eexists _, _. by constructor.
Qed.

Lemma recovered_progress s :
  clean s -> (exists err, ss_pc s = PDone err) \/ exists s', recovered_step s s'.
Proof.
  destruct s as [run reg p ts w]. intros (_ & Ht & Hi). cbn in *. subst ts.
  assert (Hgo : (exists s', server_step Services true (mkSession run reg p [] w) s') \/ serve_panics run p w ->
    exists s', recovered_step (mkSession run reg p [] w) s').
  { intros [[s' Hs]|Hpan]; eexists; [by apply rc_step, ss_server|by apply rc_panic]. }
  destruct p as [| | |reqs batch| |t|err|err|]; [..|left; eauto|done]; right; apply Hgo; clear Hgo.
  - left. destruct (decide (run = Running)) as [->|]; eexists; [apply st_register|by apply st_refused].
  - left. destruct (decide (run = Running)) as [->|]; eexists; [apply st_enter|by apply st_exit].
  - destruct (readRequest Services w) as [[[[reqs|e] b] w']|] eqn:E; [..|by right]; left; eexists;
      [by eapply st_read|by eapply st_read_error].
  - cbn. case_decide as Hr; [subst|].
    + destruct (start_task reqs batch) eqn:E; [|by right]. left. eexists. by eapply st_inline.
    + destruct (write_shutdown reqs batch w) eqn:E; [|by right]. left. eexists. by eapply st_shutdown.
  - left. eexists. apply st_waited.
  - destruct (task_progress_or_panic t w) as [->|[Hpan|(t' & w' & Hs)]]; [|by right|];
      left; eexists; [apply st_inline_done|by apply st_inline_step].
  - left. eexists. apply st_return.
Qed.

(** C22: a panic in a method is contained when the request is served on its own.
    Whatever the methods return and wherever they panic, as long as they act on
    the connection only through the notifier, [ServeSingleRequest] takes at most
    [recovered_weight] further steps and is never stuck before it has returned;
    when it has returned the codec is not registered any more, no goroutine is
    left, and at most one message was written. *)
Theorem panic_is_contained run c s :
  polite_registry -> rtc recovered_step (initial run false c) s ->
  (forall n s', nsteps recovered_step n s s' -> n <= recovered_weight s) /\
  ((exists err, ss_pc s = PDone err) \/ exists s', recovered_step s s') /\
  (forall err, ss_pc s = PDone err ->
     ss_registered s = false /\ ss_tasks s = [] /\ length (conn_log (ss_conn s)) <= 1).
Proof.
  intros Hp Hr. pose proof (reachable_clean _ _ _ Hp Hr) as Hc. split_and!.
  - intros n s'. by apply recovered_steps_weight.
  - by apply recovered_progress.
  - intros err Hd. destruct Hc as (_ & Ht & Hi). unfold pc_clean in Hi. rewrite Hd in Hi. by destruct Hi.
Qed.

End Steps.
End Recover.
