(* ===== verification/Transport.v ===== *)
(** * pkg/server/http.go, websocket.go, endpoint.go: the transports

    What the repository adds to net/http and x/net/websocket: the checks of a
    request, the codec opened on its body, the origin test of a websocket
    handshake, and the start of an endpoint with the APIs its whitelist
    selects.  A transport's connection is the parameter [T] of the JSON codec;
    [HttpBody] opens one on the bytes that may be read from a body. *)

From S2P Require Import Prelude GoStd GoNet RpcTypes Utf8 GoMime Codec Notifier Register Server.
From S2P Require Import Session SingleShot.
From Stdlib Require Import ZArith Lia.
From Stdlib Require Import Init.Byte.
From stdpp Require Import gmap strings list relations.
Open Scope Z_scope.

(** ** http.go *)

Definition contentType : string := "application/json".
Definition maxRequestContentLength : Z := 1024 * 128.

(** What the handler reads of an [*http.Request]; [ContentLength] is -1 where
    the client did not give it. *)
Record HttpRequest := mkHttpRequest {
  rq_Method : string;
  rq_ContentLength : Z;
  rq_RawQuery : string;
  rq_ContentType : string;
  rq_Body : list byte;
}.

Definition StatusMethodNotAllowed : Z := 405.
Definition StatusRequestEntityTooLarge : Z := 413.
Definition StatusUnsupportedMediaType : Z := 415.

Definition validateRequest `{UnicodeTables} (r : HttpRequest) : Z * option string :=
  if bool_decide (rq_Method r = "PUT") || bool_decide (rq_Method r = "DELETE")
  then (StatusMethodNotAllowed, Some "method not allowed"%string)
  else if maxRequestContentLength <? rq_ContentLength r
  then (StatusRequestEntityTooLarge,
        Some ("content length too large (" +:+ Itoa (rq_ContentLength r) +:+ ">"
              +:+ Itoa maxRequestContentLength +:+ ")"))
  else
    let mt := ParseMediaType (rq_ContentType r) in
    if negb (bool_decide (rq_Method r = "OPTIONS")) && negb (bool_decide (mt = Some contentType))
    then (StatusUnsupportedMediaType,
          Some ("invalid content type, only " +:+ contentType +:+ " is supported"))
    else (0, None).

(** [httpReadWriteNopCloser] of the bytes of a body and the response writer. *)
Class HttpBody (T : Type) := open_body : list byte -> T.

Section Http.
Context {Data T : Type} `{JsonEnv Data T} `{HttpBody T} {DataTy : DataTypes Data} `{UnicodeTables}.

(** What a request comes to: nothing, an error, or a session of
    [ServeSingleRequest] whose messages go to the response. *)
Inductive http_response :=
| REmpty
| RError (code : Z) (text : string)
| RServed (content_type : string) (start : session Data (JsonCodec T) (JsonMessage Data)).

(** [io.LimitReader(r.Body, maxRequestContentLength)]. *)
Definition limited_body (r : HttpRequest) : list byte :=
  take (Z.to_nat maxRequestContentLength) (rq_Body r).

(** [srv.ServeHTTP(w, r)] on a server in state [run]. *)
Definition ServeHTTP (run : runstate) (r : HttpRequest) : http_response :=
  if bool_decide (rq_Method r = "GET") && (rq_ContentLength r =? 0) && bool_decide (rq_RawQuery r = "")
  then REmpty
  else
    match validateRequest r with
    | (code, Some err) => RError code err
    | (_, None) => RServed contentType (initial run (has_subscriptions OptionMethodInvocation) (NewCodec (open_body (limited_body r))))
    end.

End Http.
Arguments http_response Data T : clear implicits.

(** The options of [cors.New] and the handlers; nanoseconds and seconds. *)
Record CorsOptions := mkCorsOptions {
  co_AllowedOrigins : list string;
  co_AllowedMethods : list string;
  co_MaxAge : Z;
  co_AllowedHeaders : list string;
}.

(** The server itself, its [WebsocketHandler], or one behind rs/cors. *)
Inductive handler :=
| HServer
| HWebsocket (allowedOrigins : list string)
| HCors (options : CorsOptions) (next : handler).

Definition newCorsHandler (srv : handler) (allowedOrigins : list string) : handler :=
  if (length allowedOrigins =? 0)%nat then srv
  else HCors (mkCorsOptions allowedOrigins ["POST"; "GET"] 600 ["*"]) srv.

Record http_Server := mkHttpServer {
  hs_Handler : handler;
  hs_ReadTimeout : Z;
  hs_WriteTimeout : Z;
  hs_IdleTimeout : Z;
}.

Definition NewHTTPServer (cors : list string) (srv : handler) : http_Server :=
  mkHttpServer (newCorsHandler srv cors) (5 * Second) (10 * Second) (120 * Second).

(** No timeouts for websockets. *)
Definition NewWSServer (allowedOrigins : list string) : http_Server :=
  mkHttpServer (HWebsocket allowedOrigins) 0 0 0.

(** ** websocket.go *)

Section Websocket.
Context `{UnicodeTables}.

(** The loop over the allowed origins: the set and whether all are allowed. *)
Fixpoint add_origins (allowedOrigins : list string) (origins : gset string) (all : bool) :
    gset string * bool :=
  match allowedOrigins with
  | [] => (origins, all)
  | origin :: rest =>
      let all := if bool_decide (origin = "*") then true else all in
      let origins := if bool_decide (origin = "") then origins
                     else {[strings_ToLower origin]} ∪ origins in
      add_origins rest origins all
  end.

(** [wsHandshakeValidator(allowedOrigins)] on the [Origin] header of a request;
    [hostname] is what [os.Hostname()] returns. *)
Definition wsHandshakeValidator (hostname : option string) (allowedOrigins : list string)
    (header : string) : option string :=
  let '(origins, allowAllOrigins) := add_origins allowedOrigins ∅ false in
  let origins :=
    if (size origins =? 0)%nat then
      {["http://localhost"%string]} ∪
      match hostname with
      | Some hostname => {["http://" +:+ strings_ToLower hostname]} ∪ origins
      | None => origins
      end
    else origins in
  let origin := strings_ToLower header in
  if allowAllOrigins || bool_decide (origin ∈ origins) then None
  else Some ("origin " +:+ origin +:+ " not allowed").

(** [srv.WebsocketHandler(allowedOrigins)] on a request: the error of the
    handshake, or the session of [ServeCodec] with methods and subscriptions. *)
Definition WebsocketHandler {Data T : Type} `{JsonEnv Data T} {DataTy : DataTypes Data}
    (hostname : option string) (allowedOrigins : list string) (run : runstate)
    (header : string) (conn : T) : string + session Data (JsonCodec T) (JsonMessage Data) :=
  match wsHandshakeValidator hostname allowedOrigins header with
  | Some err => inl err
  | None =>
      inr (initial run (has_subscriptions (Z.lor OptionMethodInvocation OptionSubscriptions)) (NewCodec conn))
  end.

(** *** The origins collected *)

Definition origin_allowed (allowedOrigins : list string) (o : string) : Prop :=
  exists a, a ∈ allowedOrigins /\ a <> "" /\ strings_ToLower a = o.

Lemma origin_allowed_cons a l o :
  origin_allowed (a :: l) o <-> (a <> "" /\ strings_ToLower a = o) \/ origin_allowed l o.
Proof. unfold origin_allowed. setoid_rewrite elem_of_cons. naive_solver. Qed.

Lemma add_origins_spec l origins all :
  (forall o, o ∈ (add_origins l origins all).1 <-> o ∈ origins \/ origin_allowed l o) /\
  ((add_origins l origins all).2 = true <-> all = true \/ "*"%string ∈ l).
Proof.
  revert origins all. induction l as [|a l IH]; intros origins all; cbn [add_origins].
  { split; [intros o|]; cbn; [|rewrite elem_of_nil; tauto].
    split; [by left|]. intros [?|(a & Ha & _)]; [done|]. by apply elem_of_nil in Ha. }
  destruct (IH (if bool_decide (a = "") then origins else {[strings_ToLower a]} ∪ origins)
    (if bool_decide (a = "*") then true else all)) as [H1 H2].
  split.
  - intros o. rewrite H1, origin_allowed_cons. case_bool_decide as Ha; [naive_solver|].
    rewrite elem_of_union, elem_of_singleton. naive_solver.
  - rewrite H2, elem_of_cons. destruct (bool_decide_reflect (a = "*")) as [Ha|Ha].
    + rewrite Ha. split; intros _; [right; left|left]; reflexivity.
    + assert (Ha' : "*"%string <> a) by congruence. tauto.
Qed.

Lemma EncodeRune_nonnil r : EncodeRune r <> [].
Proof. unfold EncodeRune. repeat case_match; done. Qed.

Lemma strings_ToLower_nonempty s : s <> "" -> strings_ToLower s <> "".
Proof.
  intros Hs E. apply (f_equal go_bytes) in E. unfold strings_ToLower, bytes_ToLower in E.
  rewrite go_bytes_string in E. destruct s as [|c s]; [done|].
  unfold runes in E. cbn [go_bytes String.list_byte_of_string] in E.
  change (go_bytes (String c s)) with (Ascii.byte_of_ascii c :: go_bytes s) in E.
  cbn [length decode_runes] in E. destruct (DecodeRune _) as [r w]. cbn in E.
  by apply app_eq_nil in E as [E%EncodeRune_nonnil _].
Qed.

(** The origin test of the websocket handshake accepts a request exactly if
    the list names ["*"], or the origin in lower case, or names nothing and the
    origin is this host; a request without origin passes only under ["*"]. *)
Theorem handshake_accepts hostname allowed header :
  let origin := strings_ToLower header in
  (wsHandshakeValidator hostname allowed header = None <->
   "*"%string ∈ allowed \/ origin_allowed allowed origin \/
   (Forall (eq ""%string) allowed /\
    (origin = "http://localhost" \/
     exists h, hostname = Some h /\ origin = "http://" +:+ strings_ToLower h))) /\
  (header = "" -> wsHandshakeValidator hostname allowed header = None -> "*"%string ∈ allowed).
Proof.
  intros origin.
  assert (Hiff : wsHandshakeValidator hostname allowed header = None <->
   "*"%string ∈ allowed \/ origin_allowed allowed origin \/
   (Forall (eq ""%string) allowed /\
    (origin = "http://localhost" \/
     exists h, hostname = Some h /\ origin = "http://" +:+ strings_ToLower h))).
  { unfold wsHandshakeValidator. destruct (add_origins_spec allowed ∅ false) as [Hin Hall].
    destruct (add_origins allowed ∅ false) as [origins all]. cbn [fst snd] in Hin, Hall.
    fold origin.
    assert (Hempty : size origins = 0%nat <-> Forall (eq ""%string) allowed).
    { rewrite size_empty_iff, elem_of_equiv_empty, Forall_forall. setoid_rewrite Hin. split.
      - intros Hno a Ha. destruct (decide (a = "")) as [->|Hne]; [done|].
        destruct (Hno (strings_ToLower a)). right. by exists a.
      - intros Hall' o [Ho|(a & Ha & Hne & _)]; [set_solver|]. by destruct Hne; rewrite (Hall' a). }
    transitivity (all = true \/ origin ∈ (if (size origins =? 0)%nat
      then {["http://localhost"%string]} ∪
        match hostname with
        | Some hostname => {["http://" +:+ strings_ToLower hostname]} ∪ origins
        | None => origins
        end
      else origins)).
    { destruct all; cbn [orb]; [naive_solver|]. case_bool_decide; naive_solver. }
    rewrite Hall. destruct (size origins =? 0)%nat eqn:Es; bool_prop.
    - apply Hempty in Es as Hnil. apply size_empty_iff in Es.
      assert (Hor : origin ∉ origins) by set_solver.
      rewrite Hin in Hor. destruct hostname as [h|]; rewrite !elem_of_union, !elem_of_singleton, ?Hin;
        naive_solver.
    - rewrite Hin. rewrite elem_of_empty. naive_solver. }
  split; [exact Hiff|]. intros -> [?|[(a & _ & Hne & Ha)|(_ & [Ha|(h & _ & Ha)])]]%Hiff;
    [done| |done|done].
  by apply strings_ToLower_nonempty in Ha.
Qed.

End Websocket.

(** ** The HTTP gate *)

Section HttpProofs.
Context {Data T : Type} {JE : JsonEnv Data T} {HB : HttpBody T} {DataTy : DataTypes Data}
  {UT : UnicodeTables} {JL : JsonEnvLaws Data T}.

(** C19: what becomes of an HTTP request over a good registry.  A GET of
    declared length 0 without a query, and no other request, gets an empty
    answer and is not served; a refused one gets 405 for PUT and DELETE, 413
    for a declared length beyond 128 KB, 415 for another media type than
    application/json (OPTIONS apart), and never reaches the dispatcher; any
    other is served as a single request read from the first 128 KB of the body,
    which ends and answers once. *)
Theorem ServeHTTP_gate Services run r :
  good_registry Services ->
  let health := rq_Method r = "GET" /\ rq_ContentLength r = 0 /\ rq_RawQuery r = "" in
  let accepted := rq_Method r <> "PUT" /\ rq_Method r <> "DELETE" /\
    rq_ContentLength r <= maxRequestContentLength /\
    (rq_Method r = "OPTIONS" \/ ParseMediaType (rq_ContentType r) = Some contentType) in
  (ServeHTTP (Data := Data) (T := T) run r = REmpty <-> health) /\
  match ServeHTTP run r with
  | REmpty => health
  | RError code _ => ~ health /\ ~ accepted /\
      (code = 405 <-> rq_Method r = "PUT" \/ rq_Method r = "DELETE") /\
      (code = 413 <-> ~ (rq_Method r = "PUT" \/ rq_Method r = "DELETE") /\
                      maxRequestContentLength < rq_ContentLength r) /\
      (code = 405 \/ code = 413 \/ code = 415)
  | RServed ct start => ~ health /\ accepted /\ ct = "application/json" /\
      forall s, rtc (session_step Services true) start s ->
        ends_and_answers Services (NewCodec (open_body (limited_body r))) s
  end.
Proof.
  intros Hg health accepted. unfold ServeHTTP. destruct (_ && _ && _) eqn:E.
  { assert health by (bool_prop; by split_and!). done. }
  assert (Hh : ~ health).
  { intros (Em & El & Eq). by rewrite Em, El, Eq in E. }
  clear E. unfold validateRequest.
  unfold StatusMethodNotAllowed, StatusRequestEntityTooLarge, StatusUnsupportedMediaType.
  destruct (bool_decide _ || _) eqn:E1.
  { apply orb_true_iff in E1. rewrite !bool_decide_eq_true in E1. split; [by split|].
    split_and!; [done|intros (? & ? & _); by destruct E1|by split|split; [done|by intros [? _]]|by left]. }
  bool_prop. assert (Hm : ~ (rq_Method r = "PUT" \/ rq_Method r = "DELETE")) by (by intros [?|?]).
  destruct (maxRequestContentLength <? rq_ContentLength r) eqn:E2; bool_prop.
  { split; [by split|].
    split_and!; [done|intros (_ & _ & ? & _); lia|by split|by split|by right; left]. }
  destruct (_ && _) eqn:E3.
  { apply andb_true_iff in E3 as [E3 E4]. apply negb_true_iff, bool_decide_eq_false in E3, E4.
    split; [by split|]. split_and!; [done|intros (_ & _ & _ & [Ho|Ho]); [exact (E3 Ho)|exact (E4 Ho)]
      |by split|split; [done|lia]|by right; right]. }
  split; [by split|].
  split_and!; [done|split_and!; [by intros ?; apply Hm; left|by intros ?; apply Hm; right|lia|]|done|].
  - apply andb_false_iff in E3. rewrite !negb_false_iff, !bool_decide_eq_true in E3. exact E3.
  - intros s Hs. exact (reachable_ends_and_answers Services run _ s Hg Hs).
Qed.

End HttpProofs.

(** ** endpoint.go *)

(** An API of a service: its namespace and the receiver of its methods. *)
Section Endpoint.
Context {Data C R : Type} `{ServerCodec Data C R} {DataTy : DataTypes Data} `{UnicodeTables}.

Record API := mkAPI {
  api_Namespace : string;
  api_Version : string;
  api_Service : Receiver Data C R;
  api_Public : bool;
}.

(** The listener of [net.Listen("tcp", endpoint)]. *)
Class Network (L : Type) := net_Listen : string -> result string L.

Definition whitelisted (modules : list string) (api : API) : bool :=
  let whitelist := list_to_set (C := gset string) modules in
  bool_decide (api_Namespace api ∈ whitelist) || ((size whitelist =? 0)%nat && api_Public api).

(** The loop that registers the selected APIs, up to the first error. *)
Fixpoint register_apis (modules : list string) (apis : list API)
    (handler : gmap string (Service Data C R)) : result string (gmap string (Service Data C R)) :=
  match apis with
  | [] => Ok handler
  | api :: apis =>
      if whitelisted modules api then
        let? handler := RegisterName handler (api_Namespace api) (api_Service api) in
        register_apis modules apis handler
      else register_apis modules apis handler
  end.

(** [StartHTTPEndpoint] and [StartWSEndpoint]: the listener, the registry of
    the new server, and what serves the listener. *)
Definition StartHTTPEndpoint {L} `{Network L} (RPCService : Receiver Data C R) (endpoint : string)
    (apis : list API) (modules cors : list string) :
    result string (L * gmap string (Service Data C R) * http_Server) :=
  let? handler := register_apis modules apis (NewServer_Services RPCService) in
  let? listener := net_Listen endpoint in
  Ok (listener, handler, NewHTTPServer cors HServer).

Definition StartWSEndpoint {L} `{Network L} (RPCService : Receiver Data C R) (endpoint : string)
    (apis : list API) (modules wsOrigins : list string) :
    result string (L * gmap string (Service Data C R) * http_Server) :=
  let? handler := register_apis modules apis (NewServer_Services RPCService) in
  let? listener := net_Listen endpoint in
  Ok (listener, handler, NewWSServer wsOrigins).

End Endpoint.
Arguments API Data C R : clear implicits.

Section EndpointProofs.
Context {Data C R : Type} {SC : ServerCodec Data C R} {DataTy : DataTypes Data} {UT : UnicodeTables}.
Context {SL : ServerCodecLaws Data C R} {L : Type} {N : Network L}.
Implicit Types (apis : list (API Data C R)).

(** An API is selected by the modules named, or where none is named if it is
    public. *)
Definition selected (modules : list string) (api : API Data C R) : Prop :=
  api_Namespace api ∈ modules \/ (modules = [] /\ api_Public api = true).

Lemma whitelisted_selected modules api : whitelisted modules api = true <-> selected modules api.
Proof.
  unfold whitelisted, selected. rewrite orb_true_iff, andb_true_iff, bool_decide_eq_true, Nat.eqb_eq.
  rewrite elem_of_list_to_set, size_empty_iff. apply or_iff_compat_l, and_iff_compat_r.
  split; [|by intros ->]. intros He. destruct modules as [|m ms]; [done|].
  cbn in He. set_solver.
Qed.

Lemma RegisterName_services services name rcvr services' k :
  Forall keeps_contract (rc_Methods rcvr) ->
  RegisterName (Data:=Data) (C:=C) (R:=R) services name rcvr = Ok services' ->
  is_Some (services' !! k) <-> k = name \/ is_Some (services !! k).
Proof.
  intros Hk Hok.
  assert (Hr : Forall has_receiver (rc_Methods rcvr))
    by (eapply Forall_impl; [exact Hk|]; by intros m [? _]).
  destruct (RegisterName_ok _ _ _ _ Hr Hok) as (_ & _ & _ & old & _ & ->).
  rewrite lookup_insert_is_Some'. split; intros [?|?]; auto.
Qed.

Lemma register_apis_spec modules apis services services' :
  Forall (fun api => Forall keeps_contract (rc_Methods (api_Service api))) apis ->
  good_registry services -> register_apis modules apis services = Ok services' ->
  good_registry services' /\
  forall k, is_Some (services' !! k) <->
    is_Some (services !! k) \/ exists api, api ∈ apis /\ selected modules api /\ api_Namespace api = k.
Proof.
  intros Hapis. revert services. induction Hapis as [|api apis Ha Hapis IH]; intros services Hg;
    cbn [register_apis].
  { intros [= <-]. split; [done|]. intros k. split; [by left|].
    intros [?|(api & Hin & _)]; [done|]. by apply elem_of_nil in Hin. }
  setoid_rewrite elem_of_cons. destruct (whitelisted modules api) eqn:E.
  - destruct (RegisterName _ _ _) as [s1|e] eqn:Er; [|done]. intros Hok.
    destruct (IH s1) as [Hg' Hs]; [by eapply RegisterName_good|done|]. split; [done|].
    apply whitelisted_selected in E. intros k.
    rewrite Hs, (RegisterName_services _ _ _ _ k Ha Er). naive_solver.
  - intros Hok. destruct (IH services Hg Hok) as [Hg' Hs]. split; [done|].
    assert (Hno : ~ selected modules api) by (rewrite <-whitelisted_selected; congruence).
    intros k. rewrite Hs. naive_solver.
Qed.


End EndpointProofs.
