(* ===== verification/DemoHttp.v ===== *)
(** * The concrete server over HTTP

    The service of [Demo] behind an endpoint: a request is served in full, and
    the hypotheses of the theorems on single requests and transports are
    discharged. *)

From S2P Require Import Prelude GoStd HexUtil RpcTypes Utf8 GoMime Json Codec Notifier Register.
From S2P Require Import Server Session Demo SingleShot Transport.
From Stdlib Require Import ZArith Lia.
From Stdlib Require Import Init.Byte.
From stdpp Require Import gmap strings list relations.

(** A body is one message; everything written is accepted. *)
#[export] Instance demo_body : HttpBody (list (list byte)) :=
  fun b => match b with [] => [] | _ => [b] end.

Definition echo_text : list byte := call_text "calc_echo" [go_bytes "5"].

Definition echo_http : HttpRequest :=
  mkHttpRequest "POST" (Z.of_nat (length echo_text)) "" "application/json; charset=utf-8" echo_text.

Definition echo_codec : JsonCodec (list (list byte)) := NewCodec [echo_text].

(** ** The request served step by step *)

Definition http_w0 : dconn := mkConn echo_codec [] [] None.
Definition http_read := demo_read http_w0.
Definition http_q := match http_read.1.1 with q :: _ => q | [] => error_request [] ShutdownError end.
Definition http_answer : JsonMessage string := json_CreateResponse (go_bytes "1") (VData false "5").

Definition http_session (p : pc _ _ _) (w : dconn) :
    session string (JsonCodec (list (list byte))) (JsonMessage string) :=
  mkSession Running true p [] w.

Definition http_done : session string (JsonCodec (list (list byte))) (JsonMessage string) :=
  mkSession Running false (PDone None) [] (write_or_close (One http_answer) http_read.2).

Lemma http_respond : respond http_q http_read.2 = Ret (http_answer, None, http_read.2).
Proof. vm_compute. reflexivity. Qed.

Lemma http_served :
  rtc (session_step demoServices true) (initial Running false echo_codec) http_done.
Proof.
  eapply rtc_l; [apply ss_server, st_register|].
  eapply rtc_l.
  { apply ss_server, st_enter. }
  eapply rtc_l.
  { apply ss_server. apply (st_read demoServices true Running true [] http_w0 [http_q] false http_read.2).
    vm_compute. reflexivity. }
  eapply rtc_l.
  { apply ss_server. apply (st_inline _ _ _ _ _ _ _ (TRun false [http_q] [] [])); reflexivity. }
  eapply rtc_l; [apply ss_server, st_inline_step, ts_respond, http_respond|].
  eapply rtc_l; [apply ss_server, st_inline_step, (ts_write _ _ _ (One http_answer)); reflexivity|].
  eapply rtc_l; [apply ss_server, st_inline_done|]. apply rtc_once, ss_server, st_return.
Qed.

(** ** Witnesses *)

Lemma single_request_one_response_witness :
  conn_log (ss_conn http_done) = [EvResponse (One http_answer) None] /\
  answered_once echo_codec (conn_log (ss_conn http_done)).
Proof.
  split; [vm_compute; reflexivity|].
  destruct (single_request_one_response demoServices Running echo_codec http_done
    demo_good http_served) as (_ & _ & H).
  destruct (H None eq_refl) as [[Hr _]|(c' & [->|[Hr _]] & Ha)]; [by destruct Hr|exact Ha|discriminate Hr].
Defined.

Lemma ServeHTTP_gate_witness :
  exists start, ServeHTTP (Data := string) (T := list (list byte)) Running echo_http = RServed "application/json" start /\
    ends_and_answers demoServices echo_codec http_done.
Proof.
  pose proof (ServeHTTP_gate demoServices Running echo_http demo_good) as H.
  exists (initial Running false echo_codec).
  assert (E : ServeHTTP (Data := string) (T := list (list byte)) Running echo_http = RServed "application/json" (initial Running false echo_codec))
    by (vm_compute; reflexivity).
  split; [exact E|]. cbv zeta in H. rewrite E in H. destruct H as (_ & _ & _ & _ & H).
  exact (H http_done http_served).
Defined.

Lemma handshake_accepts_witness :
  wsHandshakeValidator (Some "Host"%string) [] "HTTP://HOST" = None /\
  (wsHandshakeValidator None ["http://a"%string] "" = None -> "*"%string ∈ ["http://a"%string]).
Proof.
  split.
  - apply (handshake_accepts (Some "Host"%string) [] "HTTP://HOST"). right. right.
    split; [constructor|]. right. exists "Host"%string. split; [reflexivity|].
    vm_compute. reflexivity.
  - exact (proj2 (handshake_accepts None ["http://a"%string] "") eq_refl).
Defined.

(** ** The endpoint *)

#[export] Instance demo_network : Network string := fun endpoint => Ok endpoint.

(** The metadata service: [Modules] of [*RPCService]. *)
Definition ModulesMethod : dmethod :=
  mkMethod "Modules" "" [ptr_to (TBase KStruct "RPCService" "server" "server.RPCService" false)]
    [intType] (fun args w => Ret ([VData false "rpc"], w)).

Definition RPCService_demo : Receiver string (JsonCodec (list (list byte))) (JsonMessage string) :=
  mkReceiver "RPCService" "*server.RPCService" [ModulesMethod].

Lemma ModulesMethod_contract : keeps_contract ModulesMethod.
Proof.
  split; [unfold has_receiver, NumIn; simpl; lia|]. split; [split; [|reflexivity]|].
  - intros args w Hl Hwf. eexists _, w. split; [reflexivity|]. unfold results_fit. split_and!; [done|done| |done].
    intros [|[]] t v' Ht He Hv; simplify_eq/=; done.
  - intros t Ht. by simplify_eq/=.
Qed.

Definition demo_apis : list (API string (JsonCodec (list (list byte))) (JsonMessage string)) :=
  [mkAPI "calc" "1.0" Calculator true; mkAPI "admin" "1.0" Calculator false].

Definition demo_endpoint :=
  StartHTTPEndpoint (L := string) RPCService_demo "127.0.0.1:8545" demo_apis [] [].

Definition endpoint_services : gmap string (Service string (JsonCodec (list (list byte))) (JsonMessage string)) :=
  match demo_endpoint with Ok (_, s, _) => s | Err _ => ∅ end.

