(* ===== verification/Wire.v ===== *)
(** * pkg/codec/jsonc.go, pkg/server/websocket.go: messages as bytes

    The codec of [NewJSONCodec] reads values from a stream of bytes and writes
    messages to a stream; that of a websocket reads and writes frames.  Both
    are instances of [JsonEnv], the class [Codec] is written against, with
    encoding/json's reading ([Json]) and writing ([JsonText]).  What a client
    reads from the bytes is the answer the server gave. *)

From S2P Require Import Prelude GoStd RpcTypes Utf8 Json JsonText Codec Notifier Register.
From S2P Require Import Server Session Effects Transport.
From Stdlib Require Import ZArith Lia.
From Stdlib Require Import Init.Byte.
From stdpp Require Import gmap strings list relations.

(** What user code contributes: the texts of values of its types, which of
    them are nil, and decoding into its types; and the text of the library's
    syntax errors. *)
Class UserJson (Data : Type) := {
  marshal_user : gvalue Data -> result string (list byte);
  is_nil_data : Data -> bool;
  unmarshal_user : rtype -> list byte -> result string (gvalue Data);
  syntax_error : list byte -> string
}.

(** The library writes values of JSON only and decodes into the type asked for;
    no syntax error reads like the end of the input. *)
Class UserJsonLaws (Data : Type) `{UserJson Data} `{DataTypes Data} := {
  marshal_valid : forall (v : gvalue Data) raw, marshal_user v = Ok raw -> exists j, value_text raw j;
  unmarshal_user_typed : forall t raw (v : gvalue Data),
    unmarshal_user t raw = Ok v -> assignable v t = true;
  syntax_error_text : forall s, syntax_error s <> "EOF"
}.

Section Marshal.
Context {Data : Type} `{UserJson Data}.

(** ** The texts of the messages *)

Definition null_text : list byte := go_bytes "null".

(** The reply of a method, an [interface{}]. *)
Definition marshal_value (v : gvalue Data) : result string (list byte) :=
  match v with
  | VString s => Ok (json_string (go_bytes s))
  | VBool b => Ok (go_bytes (if b then "true" else "false"))
  | VNil => Ok null_text
  | _ => marshal_user v
  end.

(** An [interface{}] marked [omitempty]: left out if it is nil. *)
Definition optional (name : string) (d : Data) : result string (list (list byte * list byte)) :=
  if is_nil_data d then Ok []
  else let? raw := marshal_user (VData false d) in Ok [(go_bytes name, raw)].

Definition text_field (name s : string) : list byte * list byte := (go_bytes name, json_string (go_bytes s)).

Definition marshal_success (r : JsonSuccessResponse (Data := Data)) : result string (list byte) :=
  let? id := marshal_raw syntax_error (ok_Id r) in
  let? res := marshal_value (ok_Result r) in
  Ok (object_text [text_field "jsonrpc" (ok_Version r); (go_bytes "id", id); (go_bytes "result", res)]).

Definition marshal_error_object (e : JsonError (Data := Data)) : result string (list byte) :=
  let? data := match je_Data e with Some d => optional "data" d | None => Ok [] end in
  Ok (object_text ([(go_bytes "code", go_bytes (Itoa (je_Code e))); text_field "message" (je_Message e)] ++ data)).

Definition marshal_error (r : JsonErrResponse (Data := Data)) : result string (list byte) :=
  let? id := match er_Id r with
             | Some id => let? raw := marshal_raw syntax_error id in Ok [(go_bytes "id", raw)]
             | None => Ok []
             end in
  let? err := marshal_error_object (er_Error r) in
  Ok (object_text ([text_field "jsonrpc" (er_Version r)] ++ id ++ [(go_bytes "error", err)])).

Definition marshal_notification (n : JsonNotification (Data := Data)) : result string (list byte) :=
  let? res := optional "result" (js_Result (jn_Params n)) in
  let params := object_text ([text_field "subscription" (js_Subscription (jn_Params n))] ++ res) in
  Ok (object_text [text_field "jsonrpc" (jn_Version n); text_field "method" (jn_Method n);
                   (go_bytes "params", params)]).

Definition marshal_json (m : JsonMessage Data) : result string (list byte) :=
  match m with
  | MSuccess r => marshal_success r
  | MError r => marshal_error r
  | MNotification n => marshal_notification n
  end.

Fixpoint marshal_all (ms : list (JsonMessage Data)) : result string (list (list byte)) :=
  match ms with
  | [] => Ok []
  | m :: ms =>
      let? raw := marshal_json m in
      let? raws := marshal_all ms in
      Ok (raw :: raws)
  end.

(** [json.Marshal] of what the server hands to [Write]: a response, or the
    slice of the responses of a batch. *)
Definition marshal_message (m : message (JsonMessage Data)) : result string (list byte) :=
  match m with
  | One r => marshal_json r
  | Many rs => let? raws := marshal_all rs in Ok (array_text raws)
  end.

(** ** NewJSONCodec *)

(** A reader of the bytes still to come with the error that stopped the
    decoder; a writer with the outcomes of its coming calls (success, or the
    number of bytes it takes before it fails with an error; those after the list
    succeed), the error that stopped the encoder, and the bytes written. *)
Record stream := mkStream {
  sm_unread : list byte;
  sm_dec_err : option string;
  sm_writer : list (option (nat * string));
  sm_enc_err : option string;
  sm_written : list byte
}.

(** The first value of a text; white space is an end of the input. *)
Definition first_value (s : list byte) : result string (list byte * list byte) :=
  match skip_ws s with
  | [] => Err "EOF"
  | _ => match read_value s with
         | Some (raw, _, r) => Ok (raw, r)
         | None => Err (syntax_error s)
         end
  end.

(** [Decoder.Decode] into a raw message, and [Encoder.Encode]: a message that
    cannot be marshalled is an error of its own, a write that fails stops the
    encoder. *)
Definition stream_decode (t : stream) : result string (list byte) * stream :=
  match sm_dec_err t with
  | Some e => (Err e, t)
  | None =>
      match first_value (sm_unread t) with
      | Ok (raw, r) => (Ok raw, mkStream r None (sm_writer t) (sm_enc_err t) (sm_written t))
      | Err e => (Err e, mkStream (sm_unread t) (Some e) (sm_writer t) (sm_enc_err t) (sm_written t))
      end
  end.

Definition stream_encode (m : message (JsonMessage Data)) (t : stream) : option string * stream :=
  match sm_enc_err t with
  | Some e => (Some e, t)
  | None =>
      match marshal_message m with
      | Err e => (Some e, t)
      | Ok text =>
          match head (sm_writer t) with
          | Some (Some (n, e)) =>
              (Some e, mkStream (sm_unread t) (sm_dec_err t) (tail (sm_writer t)) (Some e)
                         (sm_written t ++ take n (text ++ [x0a])))
          | _ =>
              (None, mkStream (sm_unread t) (sm_dec_err t) (tail (sm_writer t)) None
                       (sm_written t ++ text ++ [x0a]))
          end
      end
  end.

#[export] Instance stream_env : JsonEnv Data stream := {|
  jc_decode := stream_decode;
  jc_encode := stream_encode;
  unmarshal_value := unmarshal_user;
  json_error := syntax_error
|}.

#[export] Instance stream_env_laws `{DataTypes Data} `{!UserJsonLaws Data} : JsonEnvLaws Data stream.
Proof. constructor. exact unmarshal_user_typed. Qed.

(** [NewJSONCodec(rwc)]. *)
Definition NewJSONCodec (rwc : stream) : JsonCodec stream := NewCodec rwc.

(** A body to read and a response to write to. *)
#[export] Instance http_stream : HttpBody stream := fun body => mkStream body None [] None [].

End Marshal.

(** ** websocketJSONCodec *)

(** The frames of x/net/websocket: the payload of the next one, within the
    limit the handler sets, or an error; and sending one. *)
Class WebsocketConn (T : Type) := {
  ws_receive : T -> result string (list byte) * T;
  ws_send : list byte -> T -> option string * T
}.

Section Websocket.
Context {Data T : Type} `{UserJson Data} `{WebsocketConn T}.

Definition websocketJSONCodec_Marshal (v : message (JsonMessage Data)) : result string (list byte) :=
  marshal_message v.

(** A decoder of its own for every frame: the first value of the payload. *)
Definition websocketJSONCodec_Unmarshal (msg : list byte) : result string (list byte) :=
  let? (raw, rest) := first_value msg in Ok raw.

(** [encoder] and [decoder] of the handler, by [Codec.Send] and [Codec.Receive]. *)
Definition ws_encoder (v : message (JsonMessage Data)) (conn : T) : option string * T :=
  match websocketJSONCodec_Marshal v with
  | Ok msg => ws_send msg conn
  | Err e => (Some e, conn)
  end.

Definition ws_decoder (conn : T) : result string (list byte) * T :=
  match ws_receive conn with
  | (Ok msg, conn) => (websocketJSONCodec_Unmarshal msg, conn)
  | (Err e, conn) => (Err e, conn)
  end.

Definition websocket_env : JsonEnv Data T := {|
  jc_decode := ws_decoder;
  jc_encode := ws_encoder;
  unmarshal_value := unmarshal_user;
  json_error := syntax_error
|}.

(** An empty frame reads like the end of the connection. *)
Lemma empty_frame_is_EOF conn conn' msg :
  ws_receive conn = (Ok msg, conn') -> skip_ws msg = [] -> ws_decoder conn = (Err "EOF", conn').
Proof.
  intros Hr Hs. unfold ws_decoder, websocketJSONCodec_Unmarshal, first_value. by rewrite Hr, Hs.
Qed.
End Websocket.

(** ** What a client reads *)

(** The outcome of a request: the value of its result, or the code and the
    message of its error. *)
Inductive outcome := OResult (v : json) | OError (code message : list byte).

Record answer := mkAnswer { a_id : option json; a_outcome : outcome }.

Definition get (name : string) (ms : list (list byte * (list byte * json))) : option json :=
  (fun m => m.2.2) <$> head (filter (fun m => bool_decide (m.1 = go_bytes name)) ms).

(** A response object of JSON-RPC 2.0: an error or a result. *)
Definition read_answer (v : json) : option answer :=
  match v with
  | JObject ms =>
      match get "jsonrpc" ms, get "error" ms, get "result" ms with
      | Some (JString version), Some (JObject es), None =>
          match get "code" es, get "message" es with
          | Some (JNumber code), Some (JString msg) =>
              if bool_decide (version = go_bytes "2.0") then Some (mkAnswer (get "id" ms) (OError code msg)) else None
          | _, _ => None
          end
      | Some (JString version), None, Some res =>
          if bool_decide (version = go_bytes "2.0") then Some (mkAnswer (get "id" ms) (OResult res)) else None
      | _, _, _ => None
      end
  | _ => None
  end.

(** The answers of a message; a batch is an array. *)
Definition read_answers (text : list byte) : option (message answer) :=
  match parse text with
  | Some (JArray es) => Many <$> mapM (fun e => read_answer e.2) es
  | Some v => One <$> read_answer v
  | None => None
  end.

Section ReadBack.
Context {Data : Type} `{UserJson Data} `{DataTypes Data} `{!UserJsonLaws Data}.

(** The identifier on the wire is a value. *)
Definition id_value (id : list byte) (v : json) : Prop :=
  exists raw, marshal_raw syntax_error id = Ok raw /\ value_text raw v.

(** What a response says: the identifier it answers, and the value of its
    result, or the code in decimal and the message of its error. *)
Definition says (m : JsonMessage Data) (a : answer) : Prop :=
  match m with
  | MSuccess r =>
      exists raw v idv, marshal_value (ok_Result r) = Ok raw /\ value_text raw v /\
        id_value (ok_Id r) idv /\ ok_Version r = jsonrpcVersion /\ a = mkAnswer (Some idv) (OResult v)
  | MError r =>
      er_Version r = jsonrpcVersion /\
      a_outcome a = OError (go_bytes (Itoa (je_Code (er_Error r)))) (to_valid (go_bytes (je_Message (er_Error r)))) /\
      match er_Id r with
      | Some id => exists idv, id_value id idv /\ a_id a = Some idv
      | None => a_id a = None
      end
  | MNotification _ => False
  end.

(** A response of the codec to an identifier that is a value. *)
Definition good_response (m : JsonMessage Data) : Prop :=
  match m with
  | MSuccess r => ok_Version r = jsonrpcVersion /\ exists v, id_value (ok_Id r) v
  | MError r => er_Version r = jsonrpcVersion /\ forall id, er_Id r = Some id -> exists v, id_value id v
  | MNotification _ => False
  end.

Lemma marshal_value_valid (v : gvalue Data) raw : marshal_value v = Ok raw -> exists j, value_text raw j.
Proof.
  destruct v as [s|b| |msg|l| |name|b d]; cbn; try apply marshal_valid; intros [= <-].
  - eexists. apply json_string_value.
  - destruct b; [exists (JBool true)|exists (JBool false)]; by vm_compute.
  - exists JNull. by vm_compute.
Qed.

Lemma text_field_ok name s : Forall (fun c => plain c = true) (go_bytes name) ->
  member_ok (text_field name s) (JString (to_valid (go_bytes s))).
Proof. intros Hn. split; [done|apply json_string_value]. Qed.

Lemma field_ok (name raw : list byte) v : Forall (fun c => plain c = true) name -> value_text raw v ->
  member_ok (name, raw) v.
Proof. by split. Qed.

(** The members of an object, one by one. *)
Ltac members :=
  apply object_text_value; unfold app;
  repeat (constructor;
    [first [apply text_field_ok; repeat constructor
           |apply field_ok; [repeat constructor|first [apply Itoa_value | eassumption]]]|]);
  constructor.

Lemma optional_text name d fs : optional name d = Ok fs ->
  fs = [] \/ exists raw j, fs = [(go_bytes name, raw)] /\ value_text raw j.
Proof.
  unfold optional. destruct (is_nil_data d); [intros [= <-]; by left|].
  destruct (marshal_user _) as [raw|] eqn:E; [|done]. intros [= <-].
  apply marshal_valid in E as [j Hj]. right. eauto.
Qed.

Lemma marshal_error_object_reads e text :
  marshal_error_object e = Ok text ->
  exists es, value_text text (JObject es) /\ get "code" es = Some (JNumber (go_bytes (Itoa (je_Code e)))) /\
    get "message" es = Some (JString (to_valid (go_bytes (je_Message e)))).
Proof.
  unfold marshal_error_object.
  destruct (match je_Data e with Some _ => _ | None => _ end) as [data|] eqn:E; [|done]. intros [= <-].
  assert (data = [] \/ exists raw j, data = [(go_bytes "data", raw)] /\ value_text raw j) as [->|(raw & j & -> & Hj)].
  { destruct (je_Data e); [by eapply optional_text|injection E as <-; by left]. }
  - eexists. split; [members|split; reflexivity].
  - eexists. split; [members|split; reflexivity].
Qed.

Lemma marshal_success_reads r text :
  good_response (MSuccess r) -> marshal_success r = Ok text ->
  exists ms a, value_text text (JObject ms) /\ read_answer (JObject ms) = Some a /\ says (MSuccess r) a.
Proof.
  intros (Hv & idv & idraw & Hid & Hidv). unfold marshal_success. rewrite Hid. cbn.
  destruct (marshal_value (ok_Result r)) as [raw|] eqn:Er; [|done]. intros [= <-].
  destruct (marshal_value_valid _ _ Er) as [v Hval].
  eexists _, (mkAnswer (Some idv) (OResult v)). split; [members|]. split; [by rewrite Hv|].
  exists raw, v, idv. split_and!; try done. by exists idraw.
Qed.

Lemma read_error ms es code msg :
  get "jsonrpc" ms = Some (JString (to_valid (go_bytes jsonrpcVersion))) ->
  get "error" ms = Some (JObject es) -> get "result" ms = None ->
  get "code" es = Some (JNumber code) -> get "message" es = Some (JString msg) ->
  read_answer (JObject ms) = Some (mkAnswer (get "id" ms) (OError code msg)).
Proof. unfold read_answer. by intros -> -> -> -> ->. Qed.

Lemma marshal_error_reads r text :
  good_response (MError r) -> marshal_error r = Ok text ->
  exists ms a, value_text text (JObject ms) /\ read_answer (JObject ms) = Some a /\ says (MError r) a.
Proof.
  intros (Hv & Hids). unfold marshal_error. destruct (er_Id r) as [id|] eqn:Ei.
  - destruct (Hids id eq_refl) as (idv & idraw & Hid & Hidv). rewrite Hid. cbn.
    destruct (marshal_error_object (er_Error r)) as [err|] eqn:Ee; [|done]. intros [= <-].
    destruct (marshal_error_object_reads _ _ Ee) as (es & Hes & Hcode & Hmsg).
    eexists _, (mkAnswer (Some idv) (OError _ _)). split; [members|].
    split; [rewrite Hv; by apply read_error with es|]. split_and!; [done|done|]. rewrite Ei.
    exists idv. split; [by exists idraw|done].
  - cbn. destruct (marshal_error_object (er_Error r)) as [err|] eqn:Ee; [|done]. intros [= <-].
    destruct (marshal_error_object_reads _ _ Ee) as (es & Hes & Hcode & Hmsg).
    eexists _, (mkAnswer None (OError _ _)). split; [members|].
    split; [rewrite Hv; by apply read_error with es|]. split_and!; [done|done|]. by rewrite Ei.
Qed.

Lemma marshal_json_reads m text :
  good_response m -> marshal_json m = Ok text ->
  exists ms a, value_text text (JObject ms) /\ read_answer (JObject ms) = Some a /\ says m a.
Proof.
  destruct m; [apply marshal_success_reads|apply marshal_error_reads|done].
Qed.

Lemma marshal_all_reads ms raws :
  Forall good_response ms -> marshal_all ms = Ok raws ->
  exists vs answers, Forall2 value_text raws vs /\
    mapM (fun e : list byte * json => read_answer e.2) (zip raws vs) = Some answers /\ Forall2 says ms answers.
Proof.
  intros Hms. revert raws. induction Hms as [|m ms Hm _ IH]; cbn; intros raws.
  { intros [= <-]. by exists [], []. }
  destruct (marshal_json m) as [raw|] eqn:E; [|done]. cbn.
  destruct (marshal_all ms) as [raws'|]; [|done]. intros [= <-].
  destruct (marshal_json_reads _ _ Hm E) as (os & a & Hv & Hr & Hs).
  destruct (IH _ eq_refl) as (vs & answers & Hvs & Hrs & Hss).
  exists (JObject os :: vs), (a :: answers). split; [by constructor|]. split; [|by constructor].
  cbn [zip_with mapM snd]. by rewrite Hr, Hrs.
Qed.

(** C9: what the server writes, a client reads.  The text of a message of
    responses to identifiers that are values is JSON; a single response reads
    as one answer and a batch as an array of answers in order, each with its
    identifier and the value of the result, or the code and the message of the
    error (with what is not UTF-8 replaced). *)
Theorem message_reads_back m text :
  Forall good_response (message_list m) -> marshal_message m = Ok text ->
  exists ma, read_answers text = Some ma /\ Forall2 says (message_list m) (message_list ma) /\
    ((exists r, m = One r) <-> (exists a, ma = One a)).
Proof.
  unfold read_answers. destruct m as [r|rs]; cbn.
  - intros [Hr _]%Forall_cons Hm. destruct (marshal_json_reads _ _ Hr Hm) as (ms & a & Hv & Ha & Hs).
    rewrite (value_text_parse _ _ Hv), Ha. exists (One a). split; [done|]. split; [by repeat constructor|]. naive_solver.
  - intros Hrs. destruct (marshal_all rs) as [raws|] eqn:E; [|done]. intros [= <-].
    destruct (marshal_all_reads _ _ Hrs E) as (vs & answers & Hvs & Ha & Hs).
    rewrite (value_text_parse _ _ (array_text_value _ _ Hvs)), Ha. exists (Many answers). naive_solver.
Qed.

End ReadBack.

(** ** The bytes of a session *)

Section OnWire.
Context {Data : Type} `{UserJson Data} {DataTy : DataTypes Data} `{UnicodeTables}.

(** What an event that was written comes to: its text on a line. *)
Definition event_line (e : event Data (JsonMessage Data)) : list byte :=
  match event_err e, marshal_message (event_message e) with
  | None, Ok text => text ++ [x0a]
  | _, _ => []
  end.

Definition wire (log : list (event Data (JsonMessage Data))) : list byte := concat (event_line <$> log).

(** [Write] succeeded if the message has a text, and returned the error of
    [json.Marshal] if it has none. *)
Definition as_encoded (e : event Data (JsonMessage Data)) : Prop :=
  event_err e = match marshal_message (event_message e) with Ok _ => None | Err err => Some err end.

Definition written (w : conn Data (JsonCodec stream) (JsonMessage Data)) : list byte :=
  sm_written (jc_conn (conn_codec w)).

(** How a log was cut: [log2] are the events after the writer failed, the first
    of them with its text torn after some bytes, the others not written. *)
Definition torn (outcomes : list (option (nat * string))) (log2 : list (event Data (JsonMessage Data)))
    (rest : list byte) : Prop :=
  exists e text n err, head log2 = Some e /\ marshal_message (event_message e) = Ok text /\
    Some (n, err) ∈ outcomes /\ rest = take n (text ++ [x0a]) /\
    Forall (fun e => event_err e = Some err) log2.

(** The invariant of a connection that began as the stream [t0]. *)
Definition on_wire (t0 : stream) (w : conn Data (JsonCodec stream) (JsonMessage Data)) : Prop :=
  let t := jc_conn (conn_codec w) in
  exists used log1 log2 rest,
    sm_writer t0 = used ++ sm_writer t /\ conn_log w = log1 ++ log2 /\ Forall as_encoded log1 /\
    sm_written t = sm_written t0 ++ wire log1 ++ rest /\
    match sm_enc_err t with
    | None => log2 = [] /\ rest = []
    | Some err => torn used log2 rest /\ Forall (fun e => event_err e = Some err) log2
    end.

Lemma wire_snoc log e : wire (log ++ [e]) = wire log ++ event_line e.
Proof. unfold wire. rewrite fmap_app, concat_app. cbn. by rewrite app_nil_r. Qed.

(** What [Encode] does, case by case. *)
Lemma stream_encode_spec m (t : stream) :
  exists used, sm_writer t = used ++ sm_writer (stream_encode m t).2 /\
  match sm_enc_err t, marshal_message m with
  | Some e, _ => stream_encode m t = (Some e, t)
  | None, Err e => stream_encode m t = (Some e, t)
  | None, Ok text =>
      let '(err, t') := stream_encode m t in
      sm_enc_err t' = err /\
      match err with
      | None => sm_written t' = sm_written t ++ text ++ [x0a]
      | Some e => exists n, Some (n, e) ∈ used /\ sm_written t' = sm_written t ++ take n (text ++ [x0a])
      end
  end.
Proof.
  unfold stream_encode. destruct (sm_enc_err t) as [e|]; [by exists []|].
  destruct (marshal_message m) as [text|e]; [|by exists []].
  destruct (sm_writer t) as [|[[n e]|] o] eqn:Ew; cbn [head tail].
  - by exists [].
  - exists [Some (n, e)]. cbn. split; [done|]. split; [done|]. exists n. split; [left|done].
  - by exists [None].
Qed.

Lemma decode_on_wire (t : stream) :
  sm_writer (stream_decode t).2 = sm_writer t /\ sm_enc_err (stream_decode t).2 = sm_enc_err t /\
  sm_written (stream_decode t).2 = sm_written t.
Proof. unfold stream_decode. destruct (sm_dec_err t); [done|]. by destruct (first_value _) as [[]|]. Qed.

Lemma json_Write_conn m (c : JsonCodec stream) :
  json_Write m c = ((stream_encode m (jc_conn c)).1,
                    mkJsonCodec (jc_closed c) (stream_encode m (jc_conn c)).2).
Proof. unfold json_Write. cbn. by destruct (stream_encode m (jc_conn c)). Qed.

Lemma event_on_wire t0 w e :
  on_wire t0 w -> event_err e = (stream_encode (event_message e) (jc_conn (conn_codec w))).1 ->
  on_wire t0 (mkConn (mkJsonCodec (jc_closed (conn_codec w))
                        (stream_encode (event_message e) (jc_conn (conn_codec w))).2)
                (conn_log w ++ [e]) (conn_subs w) (conn_notifier w)).
Proof.
  unfold on_wire. cbn [conn_codec conn_log jc_conn]. set (t := jc_conn (conn_codec w)).
  intros (used & log1 & log2 & rest & Hu & Hl & Hf & Hw & Hcut) He.
  destruct (stream_encode_spec (event_message e) t) as (used' & Hu' & Hspec).
  rewrite Hu, Hu', app_assoc. rewrite Hl.
  destruct (sm_enc_err t) as [err|] eqn:Eerr.
  { rewrite Hspec in *. cbn [fst snd] in *. rewrite Eerr.
    exists (used ++ used'), log1, (log2 ++ [e]), rest. split; [done|]. split; [by rewrite app_assoc|].
    split; [done|]. split; [done|]. destruct Hcut as [(e0 & text & n & err' & H1 & H2 & H3 & H4 & H5) H6].
    assert (err' = err) as ->.
    { destruct log2 as [|e1 log2]; [done|]. apply Forall_cons in H5 as [H5 _], H6 as [H6 _]. congruence. }
    split; [|by apply Forall_app; split; [|apply Forall_singleton]].
    exists e0, text, n, err. split_and!; [by destruct log2|done|by rewrite elem_of_app; left|done|].
    apply Forall_app; split; [done|by apply Forall_singleton]. }
  destruct Hcut as [-> ->]. rewrite app_nil_r in Hl, Hw.
  destruct (marshal_message (event_message e)) as [text|err] eqn:Em.
  - destruct (stream_encode (event_message e) t) as [err t']. cbn [fst snd] in *.
    destruct Hspec as [-> Hspec]. destruct err as [err|].
    + destruct Hspec as (n & Hn & ->). exists (used ++ used'), log1, [e], (take n (text ++ [x0a])).
      rewrite app_nil_r. split_and!; [done|done|done|by rewrite Hw, app_assoc| |by apply Forall_singleton].
      exists e, text, n, err. split_and!; [done|done|by rewrite elem_of_app; right|done|by apply Forall_singleton].
    + exists (used ++ used'), (log1 ++ [e]), [], []. rewrite !app_nil_r, Hspec, Hw, wire_snoc.
      split_and!; [done|done| |by unfold event_line; rewrite He, Em, <-app_assoc|done|done].
      apply Forall_app. split; [done|]. apply Forall_singleton. unfold as_encoded. by rewrite Em.
  - rewrite Hspec in *. cbn [fst snd] in *. rewrite Eerr.
    exists (used ++ used'), (log1 ++ [e]), [], []. rewrite !app_nil_r, Hw, wire_snoc.
    split_and!; [done|done| |by unfold event_line; rewrite He, app_nil_r|done|done].
    apply Forall_app. split; [done|]. apply Forall_singleton. unfold as_encoded. by rewrite Em.
Qed.

Lemma write_op_on_wire t0 w w' : on_wire t0 w -> write_op w w' -> on_wire t0 w'.
Proof.
  intros Hx Ho. destruct Ho as [e w1 He|w1|c log subs n subs' n'].
  - cbn [Write JsonServerCodec] in *. rewrite json_Write_conn in *. by apply event_on_wire.
  - unfold on_wire in *. cbn. unfold json_Close. by destruct (jc_closed _).
  - done.
Qed.

Lemma json_ReadRequestHeaders_conn (c : JsonCodec stream) :
  (json_ReadRequestHeaders c).2 = mkJsonCodec (jc_closed c) (stream_decode (jc_conn c)).2.
Proof. unfold json_ReadRequestHeaders. cbn. by destruct (stream_decode (jc_conn c)) as [[]]. Qed.

Lemma read_on_wire t0 w :
  on_wire t0 w -> on_wire t0 (set_codec (ReadRequestHeaders (conn_codec w)).2 w).
Proof.
  unfold on_wire. cbn [conn_codec conn_log set_codec ReadRequestHeaders JsonServerCodec].
  rewrite json_ReadRequestHeaders_conn. cbn [jc_conn].
  by destruct (decode_on_wire (jc_conn (conn_codec w))) as (-> & -> & ->).
Qed.

Context `{!UserJsonLaws Data}.

Lemma reachable_on_wire Services single run subs t (s : session Data (JsonCodec stream) (JsonMessage Data)) :
  good_registry Services -> sm_enc_err t = None ->
  rtc (session_step Services single) (initial run subs (NewJSONCodec t)) s ->
  on_wire t (ss_conn s).
Proof.
  intros Hg Ht Hr. eapply (reachable_ops (on_wire t)); [..|exact Hr|].
  - exact (write_op_on_wire t).
  - exact (read_on_wire t).
  - done.
  - apply initial_ok.
  - exists [], [], [], []. cbn. rewrite Ht. split_and!; try done. by rewrite app_nil_r.
Qed.

(** With a writer that works, what has a text is written, and nothing else. *)
Lemma reachable_written Services single run subs body
    (s : session Data (JsonCodec stream) (JsonMessage Data)) :
  good_registry Services ->
  rtc (session_step Services single) (initial run subs (NewJSONCodec (open_body body))) s ->
  Forall as_encoded (conn_log (ss_conn s)) /\ written (ss_conn s) = wire (conn_log (ss_conn s)).
Proof.
  intros Hg Hr. assert (Ht : sm_enc_err (open_body body) = None) by done.
  destruct (reachable_on_wire _ _ _ _ _ _ Hg Ht Hr)
    as (used & log1 & log2 & rest & Hu & Hl & Hf & Hw & Hcut).
  cbn in Hu. symmetry in Hu. apply app_nil in Hu as [-> _].
  assert (log2 = [] /\ rest = []) as [-> ->].
  { revert Hcut. case_match; [|done]. by intros [(? & ? & ? & ? & _ & _ & ?%not_elem_of_nil & _) _]. }
  rewrite app_nil_r in Hl. unfold written. rewrite Hl, Hw. by rewrite app_nil_r.
Qed.

(** C12: the bytes on the wire, against the log of what the server handed to
    [Write] and what that returned, on a stream that has not failed yet and over
    methods that keep the contract.  Whatever the interleaving of goroutines,
    user code and [Stop], and whichever writes to the connection fail, the log
    is in two parts.  In the first, [Write] succeeded for the messages that have
    a text and returned the error of [json.Marshal] for the others, which are
    not on the wire; and the bytes written are the texts of the first, a line
    each, in the order of the log: none is torn, lost or repeated.  The second
    part is there only if a write to the connection failed: its first message
    is on the wire up to the byte the writer stopped at, nothing follows, and
    [Write] returned the writer's error for every message of it. *)
Theorem bytes_are_the_log Services single run subs t
    (s : session Data (JsonCodec stream) (JsonMessage Data)) :
  good_registry Services -> sm_enc_err t = None ->
  rtc (session_step Services single) (initial run subs (NewJSONCodec t)) s ->
  exists log1 log2 rest,
    conn_log (ss_conn s) = log1 ++ log2 /\
    Forall (fun e => event_err e =
      match marshal_message (event_message e) with Ok _ => None | Err err => Some err end) log1 /\
    written (ss_conn s) = sm_written t ++ concat (event_line <$> log1) ++ rest /\
    (log2 = [] /\ rest = [] \/
     exists e text n err, head log2 = Some e /\ marshal_message (event_message e) = Ok text /\
       Some (n, err) ∈ sm_writer t /\ rest = take n (text ++ [x0a]) /\
       Forall (fun e => event_err e = Some err) log2).
Proof.
  intros Hg Ht Hr. destruct (reachable_on_wire _ _ _ _ _ _ Hg Ht Hr)
    as (used & log1 & log2 & rest & Hu & Hl & Hf & Hw & Hcut).
  exists log1, log2, rest. split_and!; [done..|]. revert Hcut. case_match; [|by left].
  intros [(e & text & n & err' & ? & ? & ? & ? & ?) _]. right.
  exists e, text, n, err'. rewrite Hu, elem_of_app. auto.
Qed.
End OnWire.
