(* ===== verification/EndToEnd.v ===== *)
(** * A call over HTTP, from the body of the request to the answer

    The components put together: the gate of the transport, the JSON codec,
    the registry, the dispatcher and [ServeSingleRequest].  The first part is
    about any codec, the second about the JSON codec behind [ServeHTTP] on any
    transport, the third about the bytes of [NewJSONCodec]. *)

From S2P Require Import Prelude GoStd RpcTypes Utf8 GoMime Json Codec Notifier Register.
From S2P Require Import Server Session Effects SingleShot Serving Transport JsonText Wire.
From Stdlib Require Import ZArith Lia.
From Stdlib Require Import Init.Byte.
From stdpp Require Import gmap strings list relations.

Section SingleCall.
Context {Data C R : Type} `{ServerCodec Data C R} {DataTy : DataTypes Data} `{UnicodeTables}.
Context `{!ServerCodecLaws Data C R}.
Implicit Types (w : conn Data C R) (s : session Data C R) (t : task Data C R).

(** The only request of codec [c], closed or not, and its response. *)
Variables (Services : gmap string (Service Data C R)) (c : C).
Variables (r : RpcRequest) (q : ServerRequest Data C R) (resp : R).
Hypothesis registry : good_registry Services.
Hypothesis read : (ReadRequestHeaders c).1 = (Ok [r], false).
Hypothesis read_closed : (ReadRequestHeaders (Close c)).1 = (Ok [r], false).
Hypothesis resolved : resolve Services r = Ret q.
Hypothesis responded : forall w, conn_notifier w = None -> respond q w = Ret (resp, None, w).

Definition call_task (log : list (event Data R)) t : Prop :=
  match t with
  | TRun batch todo resps acts =>
      batch = false /\ acts = [] /\ log = [] /\ ((todo = [q] /\ resps = []) \/ (todo = [] /\ resps = [resp]))
  | TAct acts => acts = [] /\ exists err, log = [EvResponse (One resp) err]
  end.

(** The outcomes: the answer, or a shutdown on the way. *)
Definition call_outcome (run : runstate) (log : list (event Data R)) : Prop :=
  (exists err, log = [EvResponse (One resp) err]) \/
  (run <> Running /\
   (log = [] \/
    exists err, log = [EvResponse (One (CreateErrorResponse (Some (sr_Id q)) ShutdownError)) err])).

Definition call_pc s : Prop :=
  let log := conn_log (ss_conn s) in
  match ss_pc s with
  | PStart | PLoop | PReading => log = [] /\ codec_of c (ss_run s) (conn_codec (ss_conn s))
  | PRead reqs batch => log = [] /\ reqs = [q] /\ batch = false
  | PInline t => call_task log t
  | PReturn _ | PDone _ => call_outcome (ss_run s) log
  | PWait | PClosed => False
  end.

Definition call_inv s : Prop :=
  conn_notifier (ss_conn s) = None /\ ss_tasks s = [] /\ call_pc s.

Lemma call_task_step t w t' w' :
  conn_notifier w = None -> wf_conn w -> task_step t w t' w' ->
  call_task (conn_log w) t -> conn_notifier w' = None /\ call_task (conn_log w') t'.
Proof.
  intros Hn Hwf Ht. revert Hn Hwf.
  destruct Ht as [batch q' todo resps acts w1 r' act w2 Hr|batch resps acts m w1 Hm|a acts w1 w2 Ha];
    intros Hn Hwf Hi; cbn in Hi |- *.
  - destruct Hi as (-> & -> & Hl & [[Heq ->]|[? _]]); [|done]. injection Heq as -> ->.
    rewrite (responded w1 Hn) in Hr. injection Hr as <- <- <-. split; [done|]. split_and!; auto.
  - destruct Hi as (-> & -> & Hl & [[? _]|[_ ->]]); [done|]. cbn in Hm. injection Hm as <-.
    destruct (write_or_close_spec (One resp) w1 Hwf) as (_ & Hl' & ->). rewrite Hl', Hl. eauto.
  - by destruct Hi.
Qed.

Lemma call_read run w res batch w' :
  codec_of c run (conn_codec w) -> readRequest Services w = Ret (res, batch, w') ->
  res = Ok [q] /\ batch = false /\ conn_log w' = conn_log w /\ conn_notifier w' = conn_notifier w.
Proof.
  intros Hc. assert (E : (ReadRequestHeaders (conn_codec w)).1 = (Ok [r], false)).
  { destruct Hc as [->|[_ ->]]; done. }
  unfold readRequest. destruct (ReadRequestHeaders (conn_codec w)) as [x c'].
  cbn in E. rewrite E. cbn [resolve_all]. rewrite resolved. by intros [= <- <- <-].
Qed.

Lemma call_pc_stop reg p ts w :
  call_pc (mkSession Running reg p ts w) -> call_pc (mkSession Stopping reg p ts w).
Proof. unfold call_pc, call_outcome, codec_of. cbn. destruct p; naive_solver. Qed.

Lemma call_pc_close (reg : bool) p ts w :
  call_pc (mkSession Stopping reg p ts w) ->
  call_pc (mkSession Stopped reg p ts (if reg then close_codec w else w)).
Proof. unfold call_pc, call_outcome, codec_of. destruct reg, p; cbn; naive_solver. Qed.

Lemma server_step_call s s' :
  session_ok s -> call_inv s -> server_step Services true s s' -> call_inv s'.
Proof.
  intros (Hwf & _ & Hpc & Hts) (Hn & Htasks & Hinv) Hs.
  destruct Hs as [reg p ts w|reg p ts w|reg ts w|run reg ts w Hrun|run reg ts w Hrun|reg ts w
    |run reg ts w e batch w' Hread|run reg ts w reqs batch w' Hread|run reg w
    |run reg reqs batch ts w w' Hrun Hw|reg reqs batch ts w t _ Ht|reg reqs batch ts w t ? _
    |run reg t t' ts w w' Ht|run reg ts w|run reg err ts w|run reg p ts1 t t' ts2 w w' Ht|run reg p ts1 ts2 w
    |run reg err ts w ?]; cbn [ss_conn ss_tasks ss_pc] in *; try done.
  - split_and!; [done|done|by apply call_pc_stop].
  - split_and!; [by destruct reg|done|by apply call_pc_close].
  - split_and!; [done|done|]. destruct Hinv as [Hlog _]. right. auto.
  - split_and!; [done|done|]. destruct Hinv as [Hlog _]. right. auto.
  - destruct Hinv as [_ Hc]. by destruct (call_read _ _ _ _ _ Hc Hread) as [? _].
  - destruct Hinv as [Hlog Hc]. destruct (call_read _ _ _ _ _ Hc Hread) as (Hq & -> & Hl & Hn').
    injection Hq as ->. cbn in *. split_and!; cbn; [congruence|done|]. split_and!; [|done|done]. congruence.
  - destruct Hinv as (Hlog & -> & ->). cbn in Hw, Hlog. unfold write in Hw.
    destruct (Write _ _) as [e c']. injection Hw as <-. split_and!; [done|done|].
    right. split; [done|]. right. cbn. rewrite Hlog. eauto.
  - destruct Hinv as (Hlog & -> & ->). cbn in Ht. injection Ht as <-. split_and!; [done|done|].
    cbn. split_and!; auto.
  - destruct (call_task_step _ _ _ _ Hn Hwf Ht Hinv) as [? ?]. by split_and!.
  - split_and!; [done|done|]. left. apply Hinv.
  - by destruct ts1.
  - by destruct ts1.
Qed.

Lemma reachable_call run s :
  rtc (session_step Services true) (initial run false c) s -> session_ok s /\ call_inv s.
Proof.
  intros Hr. eapply (rtc_preserves (session_step Services true) (fun s => session_ok s /\ call_inv s));
    [|exact Hr|].
  - intros s1 s2 [Hok Hi] Hs. split; [by eapply session_step_ok|].
    destruct Hs as [s1 s2 Hs|run' reg p ts w w' Hu]; [by eapply server_step_call|].
    destruct Hi as [Hn _]. by apply user_step_none in Hu.
  - split; [apply initial_ok|]. split_and!; [done|done|]. split; [done|by left].
Qed.

Lemma single_call run s err :
  rtc (session_step Services true) (initial run false c) s -> ss_pc s = PDone err ->
  call_outcome (ss_run s) (conn_log (ss_conn s)).
Proof.
  intros Hr Hp. destruct (reachable_call _ _ Hr) as (_ & _ & _ & Hi). unfold call_pc in Hi. by rewrite Hp in Hi.
Qed.
End SingleCall.

(** ** The JSON call behind HTTP *)

Section HttpCall.
Context {Data T : Type} {JE : JsonEnv Data T} {HB : HttpBody T} {DataTy : DataTypes Data}
  {UT : UnicodeTables} {JL : JsonEnvLaws Data T}.

(** The answer to a call whose method returned [outs]. *)
Definition call_answer (id : list byte) (cb : Callback Data (JsonCodec T) (JsonMessage Data))
    (outs : list (gvalue Data)) : JsonMessage Data :=
  match outs with
  | [] => json_CreateResponse id VNil
  | v0 :: _ =>
      match last outs with
      | Some (VError msg) =>
          if (0 <=? ErrPos cb)%Z
          then json_CreateErrorResponse (Some id) (CallbackError msg)
          else json_CreateResponse id v0
      | _ => json_CreateResponse id v0
      end
  end.

(** A POST request the gate lets through, its body delivered whole. *)
Definition posts (rq : HttpRequest) (body : list byte) : Prop :=
  rq_Method rq = "POST" /\ rq_Body rq = body /\ rq_ContentLength rq = Z.of_nat (length body) /\
  (Z.of_nat (length body) <= maxRequestContentLength)%Z /\
  ParseMediaType (rq_ContentType rq) = Some contentType /\
  (jc_decode (open_body (T := T) body)).1 = Ok body.

Lemma ServeHTTP_post run rq body :
  posts rq body ->
  ServeHTTP (Data := Data) (T := T) run rq = RServed contentType (initial run false (NewCodec (open_body body))).
Proof.
  intros (Hm & Hb & Hl & Hlen & Hct & _). unfold ServeHTTP, validateRequest, limited_body.
  rewrite Hm, Hct, Hb, Hl. rewrite (proj2 (Z.ltb_ge _ _)) by done.
  rewrite (take_ge body) by lia. reflexivity.
Qed.

Lemma request_text_not_batch id method params : isBatch (request_text id method params) = false.
Proof. reflexivity. Qed.

(** The method [name] of [service], with its parameters. *)
Definition registered (Services : gmap string (Service Data (JsonCodec T) (JsonMessage Data)))
    (service name : string) (cb : Callback Data (JsonCodec T) (JsonMessage Data)) : Prop :=
  exists svc, Services !! service = Some svc /\ svc_Callbacks svc !! name = Some cb.

(** The method gives [outs] on the arguments, on any connection without a
    notifier, which it cannot change. *)
Definition returns (cb : Callback Data (JsonCodec T) (JsonMessage Data)) (args outs : list (gvalue Data)) : Prop :=
  (forall w, conn_notifier w = None ->
     m_Func (cb_Method cb) (Rcvr cb :: (if HasCtx cb then [VContext] else []) ++ args) w = Ret (outs, w)) /\
  length outs = NumOut (cb_Method cb) /\
  ((0 <= ErrPos cb)%Z -> exists v, last outs = Some v /\ nil_or_error v).

Lemma call_reads id idv service name params pv body :
  value_text id idv -> checkReqId id = None -> value_text params pv ->
  plain_text service -> plain_text name -> no_separator service -> no_separator name ->
  name <> "subscribe" -> name <> "unsubscribe" ->
  (jc_decode (open_body (T := T) body)).1 = Ok body ->
  body = request_text id (service +:+ "_" +:+ name) params ->
  forall closed, (ReadRequestHeaders (Data := Data) (R := JsonMessage Data)
    (mkJsonCodec closed (open_body (T := T) body))).1 = (Ok [mkRpcRequest service name id false (Some params) None], false).
Proof.
  intros Hid Hck Hpv Hs Hn Hss Hsn Hsub Hunsub Hd Hb closed. cbn. unfold json_ReadRequestHeaders. cbn.
  destruct (jc_decode (open_body body)) as [msg rw]. cbn in Hd. subst msg. cbn.
  rewrite Hb, request_text_not_batch. by eapply parseRequest_text.
Qed.

(** A JSON-RPC call over HTTP, for any transport.  A POST of the text of a call of
    a registered method, with arguments that parse at its types, is served;
    whatever [Stop] does meanwhile, serving takes a bounded number of steps and
    is never stuck before it has returned; and what is handed to the codec is one
    message: the method's result, or its error, under the request's identifier.
    Only for a server that was stopped on the way it is nothing or the shutdown
    error instead. *)
Lemma http_call_answered Services rq id idv service name params pv args outs cb :
  good_registry Services ->
  posts rq (request_text id (service +:+ "_" +:+ name) params) ->
  value_text id idv -> checkReqId id = None -> value_text params pv ->
  plain_text service -> plain_text name -> no_separator service -> no_separator name ->
  name <> "subscribe" -> name <> "unsubscribe" ->
  registered Services service name cb ->
  json_ParseRequestArguments (ArgTypes cb) (Some params) = Ok args ->
  returns cb args outs ->
  exists start c, ServeHTTP (Data := Data) (T := T) Running rq = RServed contentType start /\
    forall s, rtc (session_step Services true) start s ->
      (forall n s', nsteps (server_step Services true) n s s' -> n <= single_weight c s) /\
      ((exists err, ss_pc s = PDone err) \/ exists s', server_step Services true s s') /\
      (forall err, ss_pc s = PDone err ->
         (exists e, conn_log (ss_conn s) = [EvResponse (One (call_answer id cb outs)) e]) \/
         (ss_run s <> Running /\
          (conn_log (ss_conn s) = [] \/
           exists e, conn_log (ss_conn s) =
             [EvResponse (One (json_CreateErrorResponse (Some id) ShutdownError)) e]))).
Proof.
  intros Hg Hpost Hid Hck Hpv Hs Hn Hss Hsn Hsub Hunsub (svc & Hsvc & Hcb) Hargs (Hf & Hlen & Herr).
  set (body := request_text id (service +:+ "_" +:+ name) params) in *.
  set (c := NewCodec (open_body (T := T) body)).
  set (r := mkRpcRequest service name id false (Some params) None).
  exists (initial Running false c), c. split; [by apply ServeHTTP_post|]. intros s Hr.
  destruct (reachable_ends_and_answers _ _ _ _ Hg Hr) as (H1 & H2 & _). split_and!; [done|done|].
  assert (Hread : forall closed, (ReadRequestHeaders (Data := Data) (R := JsonMessage Data)
    (mkJsonCodec closed (jc_conn c))).1 = (Ok [r], false)).
  { eapply call_reads; done || apply Hpost. }
  assert (Hcall : forall w, conn_notifier w = None ->
    (let! q := resolve Services r in respond q w) = Ret (call_answer id cb outs, None, w)).
  { intros w Hw. by apply (call_responds Services r svc cb params args w outs w Hg eq_refl eq_refl eq_refl
      Hsvc Hcb Hargs (Hf w Hw) Hlen Herr). }
  destruct (resolve_executable Services r Hg) as (q & Hq & _ & Hqid); [by intros|].
  intros err Hp. rewrite Hq in Hcall.
  pose proof (single_call Services c r q (call_answer id cb outs) Hg (Hread false) (Hread true) Hq Hcall Running s err Hr Hp) as Ho.
  unfold call_outcome in Ho. by rewrite Hqid in Ho.
Qed.
End HttpCall.

(** ** From bytes to bytes *)

Section HttpBytes.
Context {Data : Type} `{UserJson Data} {DataTy : DataTypes Data} `{UnicodeTables} `{!UserJsonLaws Data}.

(** A POST request with these bytes. *)
Definition posts_bytes (rq : HttpRequest) (body : list byte) : Prop :=
  rq_Method rq = "POST" /\ rq_Body rq = body /\ rq_ContentLength rq = Z.of_nat (length body) /\
  (Z.of_nat (length body) <= maxRequestContentLength)%Z /\
  ParseMediaType (rq_ContentType rq) = Some contentType.

Lemma first_value_text raw v : value_text raw v -> first_value raw = Ok (raw, []).
Proof.
  intros [E Hs]. unfold first_value, read_value. rewrite E, Hs. unfold consumed.
  rewrite Nat.sub_0_r, firstn_all. by destruct raw.
Qed.

Lemma call_text_value id idv service name params pv :
  value_text id idv -> value_text params pv -> plain_text service -> plain_text name ->
  exists v, value_text (request_text id (service +:+ "_" +:+ name) params) v.
Proof.
  intros Hid Hp Hs Hn. eexists. apply request_text_value; try done.
  unfold plain_text in *. rewrite !go_bytes_app. repeat apply Forall_app_2; try done. repeat constructor.
Qed.

Lemma read_answers_line text v : value_text text v -> read_answers (text ++ [x0a]) = read_answers text.
Proof.
  intros Hv. unfold read_answers. rewrite (value_text_parse _ _ Hv).
  destruct (value_text_app text v [x0a] (parse_fuel (text ++ [x0a])) Hv) as [Hp _]; [done| |].
  { unfold parse_fuel. rewrite length_app. lia. }
  unfold parse. by rewrite Hp.
Qed.

(** The shutdown error can always be written. *)
Lemma shutdown_text id idv :
  value_text id idv -> Forall (fun c => stable c = true) id ->
  exists text, marshal_json (Data := Data) (json_CreateErrorResponse (Some id) ShutdownError) = Ok text.
Proof.
  intros Hv Hs. cbn. unfold marshal_error. cbn.
  rewrite (marshal_raw_stable syntax_error id idv) by done. cbn. eauto.
Qed.

(** The bytes of a log of one message, by whether it has a text. *)
Lemma wire_one (m : JsonMessage Data) err :
  Forall as_encoded [EvResponse (One m) err] ->
  wire [EvResponse (One m) err] = match marshal_json m with Ok text => text ++ [x0a] | Err _ => [] end.
Proof.
  intros [He _]%Forall_cons. unfold as_encoded in He. cbn in He. subst err.
  unfold wire. cbn. unfold event_line. cbn. by destruct (marshal_json m); rewrite ?app_nil_r.
Qed.

Lemma call_answer_good id idv cb outs :
  value_text id idv -> Forall (fun c => stable c = true) id ->
  good_response (call_answer (T := stream) (Data := Data) id cb outs).
Proof.
  intros Hv Hs. assert (Hid : exists v, id_value id v).
  { exists idv, id. split; [by eapply marshal_raw_stable|done]. }
  unfold call_answer. repeat case_match; (split; [done|]); try done; by intros ? [= <-].
Qed.

(** C3: a JSON-RPC call over HTTP, from bytes to bytes, over a writer that works.
    Over a registry of methods that keep the contract, a POST of at most 128 KB
    with the text of a call of a registered method is served, where the
    parameters parse at the method's types, service and method have plain names
    without an underscore (and the method is not called subscribe or
    unsubscribe), the identifier is a value that marshalling leaves as it is, and
    the method gives the same results on every connection without a notifier.
    Whatever [Stop] does meanwhile, serving takes a bounded number of steps and
    is never stuck before it has returned.  Then, if
    the server was not stopped on the way: where the method's answer, its result
    or its error, can be encoded, the body of the response is its text on a
    line, from which a client reads the answer under its own identifier; where
    [json.Marshal] refuses it, the body is empty.  A server stopped on the way
    may instead write nothing, or the shutdown error on a line. *)
Theorem http_bytes_answered Services rq id idv service name params pv args outs cb :
  good_registry Services ->
  posts_bytes rq (request_text id (service +:+ "_" +:+ name) params) ->
  value_text id idv -> checkReqId id = None -> Forall (fun c => stable c = true) id ->
  value_text params pv ->
  plain_text service -> plain_text name -> no_separator service -> no_separator name ->
  name <> "subscribe" -> name <> "unsubscribe" ->
  registered Services service name cb ->
  json_ParseRequestArguments (ArgTypes cb) (Some params) = Ok args ->
  returns cb args outs ->
  let reply := call_answer id cb outs in
  exists start bound, ServeHTTP (Data := Data) (T := stream) Running rq = RServed contentType start /\
    (forall s, rtc (session_step Services true) start s ->
      (forall n s', nsteps (server_step Services true) n s s' -> n <= bound s) /\
      ((exists err, ss_pc s = PDone err) \/ exists s', server_step Services true s s') /\
      (forall err, ss_pc s = PDone err ->
         match marshal_json reply with
         | Ok text => written (ss_conn s) = text ++ [x0a] /\
             exists a, read_answers (text ++ [x0a]) = Some (One a) /\ says reply a
         | Err _ => written (ss_conn s) = []
         end \/
         (ss_run s <> Running /\
          (written (ss_conn s) = [] \/
           exists text, marshal_json (json_CreateErrorResponse (Some id) ShutdownError) = Ok text /\
             written (ss_conn s) = text ++ [x0a])))).
Proof.
  intros Hg (Hm & Hb & Hl & Hlen & Hct) Hid Hck Hst Hpv Hs Hn Hss Hsn Hsub Hunsub Hreg Hargs Hret reply.
  set (body := request_text id (service +:+ "_" +:+ name) params) in *.
  destruct (call_text_value id idv service name params pv) as [bv Hbv]; try done.
  assert (Hpost : posts (T := stream) rq body).
  { split_and!; try done. cbn. unfold stream_decode. cbn. by rewrite (first_value_text body bv Hbv). }
  destruct (http_call_answered Services rq id idv service name params pv args outs cb Hg Hpost
    Hid Hck Hpv Hs Hn Hss Hsn Hsub Hunsub Hreg Hargs Hret) as (start & c & E & Hstart).
  exists start, (single_weight c). split; [exact E|].
  rewrite (ServeHTTP_post _ _ _ Hpost) in E. injection E as <-.
  intros s Hr. destruct (Hstart s Hr) as (H1 & H2 & H3). split; [done|]. split; [done|].
  destruct (reachable_written _ _ _ _ _ _ Hg Hr) as [Hf Hw]. intros err Hd. rewrite Hw.
  destruct (H3 err Hd) as [[e Hlog]|(Hrun & [Hlog|[e Hlog]])]; rewrite Hlog in *.
  - left. rewrite (wire_one _ _ Hf). fold reply. destruct (marshal_json reply) as [text|] eqn:Ht; [|done].
    split; [done|]. destruct (marshal_json_reads reply text) as (ms & a & Hv & Ha & Hsay);
      [by eapply call_answer_good|done|].
    exists a. split; [|done]. rewrite (read_answers_line text _ Hv). unfold read_answers.
    by rewrite (value_text_parse _ _ Hv), Ha.
  - right. split; [done|]. by left.
  - right. split; [done|]. right. destruct (shutdown_text id idv Hid Hst) as [text Ht].
    exists text. rewrite (wire_one _ _ Hf), Ht. done.
Qed.
End HttpBytes.

(** ** A connection, from bytes to bytes *)

Section Stream.
Context {Data : Type} `{UserJson Data} {DataTy : DataTypes Data} `{UnicodeTables} `{!UserJsonLaws Data}.

(** The input left: every request read takes a part of it. *)
Definition unread (c : JsonCodec stream) : nat := 3 * length (sm_unread (jc_conn c)).

Lemma first_value_length s raw r :
  first_value s = Ok (raw, r) -> length raw + length r <= length s /\ length r < length s.
Proof.
  unfold first_value, read_value. destruct (skip_ws s) as [|b s'] eqn:Es; [done|].
  destruct (parse_value _ s) as [[v r']|] eqn:E; [|done]. intros [= <- ->].
  apply parse_length_all in E. pose proof (skip_ws_length s) as Hs. rewrite Es in Hs.
  unfold consumed. rewrite length_take. lia.
Qed.

Lemma read_consumes_stream (c : JsonCodec stream) rs batch c' :
  ReadRequestHeaders (ServerCodec := JsonServerCodec (Data := Data)) c = ((Ok rs, batch), c') ->
  unread c' + length rs + 1 <= unread c.
Proof.
  intros (msg & E & Hl)%read_requests_count. unfold unread. revert E. cbn. unfold stream_decode.
  destruct (sm_dec_err _); [done|].
  destruct (first_value _) as [[raw r]|] eqn:Ef; [|done]. intros [= -> <-]. cbn.
  apply first_value_length in Ef. lia.
Qed.

Lemma read_fails_stream (c : JsonCodec stream) e batch c' :
  ReadRequestHeaders (ServerCodec := JsonServerCodec (Data := Data)) c = ((Err e, batch), c') ->
  unread c' <= unread c.
Proof.
  intros E. apply (f_equal snd) in E. cbn in E. rewrite json_ReadRequestHeaders_conn in E. subst c'.
  unfold unread, stream_decode. cbn. destruct (sm_dec_err _); [done|].
  destruct (first_value _) as [[raw r]|] eqn:Ef; [|done]. cbn. apply first_value_length in Ef. lia.
Qed.

Lemma write_keeps_stream (m : message (JsonMessage Data)) (c : JsonCodec stream) :
  unread (Write m c).2 <= unread c.
Proof.
  cbn [Write JsonServerCodec]. rewrite json_Write_conn. unfold unread, stream_encode. cbn.
  destruct (sm_enc_err _); [done|]. destruct (marshal_message m); [|done].
  by destruct (sm_writer _) as [|[[]|]].
Qed.

Lemma close_keeps_stream (c : JsonCodec stream) :
  unread (Close (ServerCodec := JsonServerCodec (Data := Data)) c) <= unread c.
Proof. cbn. unfold json_Close. by destruct (jc_closed c). Qed.

(** C5: a connection of [NewJSONCodec] is served to the end, over a registry of
    methods that keep the contract.  On any bytes, with
    or without subscriptions, whatever the goroutines, user code and [Stop]
    have done, the server has at most [serving_weight] steps left and can take
    one until it has finished; when it has finished, the messages sent are, up
    to order, one answer for each message read, under the identifiers of its
    requests, with at most the answer to an input that could not be read.  Sent
    means handed to [Write]: over a writer that works, as here, [Write] succeeds
    for the messages that have a text and returns the error of [json.Marshal]
    for the others, and the bytes written are the texts of the first, line by
    line and in order; a message without a text is not on the wire. *)
Theorem stream_served Services single run subs body s :
  good_registry Services ->
  rtc (session_step Services single) (initial run subs (NewJSONCodec (open_body body))) s ->
  (forall n s', nsteps (server_step Services single) n s s' -> n <= serving_weight unread s) /\
  (finished single s \/ exists s', server_step Services single s s') /\
  (finished single s -> exists reads err,
     history Services single (initial run subs (NewJSONCodec (open_body body))) reads s /\
     (err = [] \/ err = [[None]]) /\
     sent (conn_log (ss_conn s)) ≡ₚ answers reads ++ err /\
     Forall (fun e => event_err e =
       match marshal_message (event_message e) with Ok _ => None | Err x => Some x end)
       (conn_log (ss_conn s)) /\
     written (ss_conn s) = concat (event_line <$> conn_log (ss_conn s))).
Proof.
  intros Hg Hr. destruct (reachable_history _ _ _ _ Hr) as [reads Hh].
  destruct (finite_connection_served unread read_consumes_stream read_fails_stream write_keeps_stream
    close_keeps_stream Services single _ _ _ reads s Hg Hh) as (H1 & H2 & H3).
  split_and!; [done|done|]. intros (err & Herr & Hs)%H3.
  exists reads, err. destruct (reachable_written _ _ _ _ _ _ Hg Hr) as [Hf Hw]. by split_and!.
Qed.
End Stream.
