(* ===== verification/DemoServing.v ===== *)
(** * The concrete server, two requests at a time

    Two calls on one connection of [Demo], answered out of order until the input
    ends, and the call
    over HTTP of [DemoHttp] from end to end: the hypotheses of [Serving] and
    [EndToEnd] are discharged. *)

From S2P Require Import Prelude GoStd HexUtil RpcTypes Utf8 GoMime Json Codec Notifier Register.
From S2P Require Import Server Session Demo SingleShot Transport DemoHttp Serving EndToEnd.
From Stdlib Require Import ZArith Lia.
From Stdlib Require Import Init.Byte.
From stdpp Require Import gmap strings list relations.

Definition text_of (id : string) : list byte :=
  request_text (go_bytes id) "calc_echo" (array_text [go_bytes "5"]).

Definition two_codec : JsonCodec (list (list byte)) := NewCodec [text_of "1"; text_of "2"].

Definition two_w0 : dconn := mkConn two_codec [] [] None.
Definition two_w1 : dconn := (demo_read two_w0).2.
Definition two_w2 : dconn := (demo_read two_w1).2.
Definition first_q w := match (demo_read w).1.1 with q :: _ => q | [] => error_request [] ShutdownError end.
Definition two_q1 := first_q two_w0.
Definition two_q2 := first_q two_w1.
Definition two_answer (id : string) : JsonMessage string := json_CreateResponse (go_bytes id) (VData false "5").
Definition two_w3 : dconn := write_or_close (One (two_answer "2")) two_w2.
Definition two_w4 : dconn := write_or_close (One (two_answer "1")) two_w3.

Definition two_session p ts w : session string (JsonCodec (list (list byte))) (JsonMessage string) :=
  mkSession Running true p ts w.

Lemma two_read1 : readRequest demoServices two_w0 = Ret (Ok [two_q1], false, two_w1).
Proof. vm_compute. reflexivity. Qed.
Lemma two_read2 : readRequest demoServices two_w1 = Ret (Ok [two_q2], false, two_w2).
Proof. vm_compute. reflexivity. Qed.
Lemma two_respond1 : respond two_q1 two_w3 = Ret (two_answer "1", None, two_w3).
Proof. vm_compute. reflexivity. Qed.
Lemma two_respond2 : respond two_q2 two_w2 = Ret (two_answer "2", None, two_w2).
Proof. vm_compute. reflexivity. Qed.

(** Both are read, the second is answered first. *)
Lemma two_history :
  history demoServices false (initial Running false two_codec) [[go_bytes "1"]; [go_bytes "2"]]
    (two_session PLoop [TAct []; TAct []] two_w4).
Proof.
  pose proof (h_start demoServices false (initial Running false two_codec)) as Hh.
  eapply h_step in Hh; [|apply ss_server, st_register].
  eapply h_step in Hh; [|apply ss_server, st_enter].
  eapply h_step in Hh; [|apply ss_server, st_read, two_read1].
  eapply h_step in Hh; [|apply ss_server; exact (st_spawn _ _ true [two_q1] false [] two_w1
    (TRun false [two_q1] [] []) eq_refl eq_refl)].
  eapply h_step in Hh; [|apply ss_server, st_enter].
  eapply h_step in Hh; [|apply ss_server, st_read, two_read2].
  eapply h_step in Hh; [|apply ss_server; exact (st_spawn _ _ true [two_q2] false _ two_w2
    (TRun false [two_q2] [] []) eq_refl eq_refl)].
  eapply h_step in Hh; [|apply ss_server, (st_task _ _ Running true PLoop [TRun false [two_q1] [] []]),
    ts_respond, two_respond2].
  eapply h_step in Hh; [|apply ss_server, (st_task _ _ Running true PLoop [TRun false [two_q1] [] []]),
    (ts_write false _ _ (One (two_answer "2"))); reflexivity].
  eapply h_step in Hh; [|apply ss_server, (st_task _ _ Running true PLoop []), ts_respond, two_respond1].
  eapply h_step in Hh; [|apply ss_server, (st_task _ _ Running true PLoop []),
    (ts_write false _ _ (One (two_answer "1"))); reflexivity].
  exact Hh.
Qed.

Lemma every_request_answered_witness :
  sent (conn_log two_w4) = [[Some (go_bytes "2")]; [Some (go_bytes "1")]] /\
  exists err, sent (conn_log two_w4) ++ pending (two_session PLoop [TAct []; TAct []] two_w4) ≡ₚ
    answers [[go_bytes "1"]; [go_bytes "2"]] ++ err.
Proof.
  split; [vm_compute; reflexivity|].
  destruct (every_request_answered demoServices false _ _ _ _ _ demo_good two_history) as (err & _ & H & _).
  exists err. exact H.
Defined.

(** *** Until the input ends *)

Definition input_left (c : JsonCodec (list (list byte))) : nat :=
  sum_list ((fun m => length m + 2) <$> jc_conn c).

Lemma input_consumed c rs batch c' :
  ReadRequestHeaders (ServerCodec := JsonServerCodec (Data := string)) c = ((Ok rs, batch), c') ->
  input_left c' + length rs + 1 <= input_left c.
Proof.
  intros (msg & E & Hl)%read_requests_count. unfold input_left. revert E. cbn. unfold demo_decode.
  destruct (jc_conn c) as [|m ms]; [done|]. intros [= -> ->]. rewrite fmap_cons. cbn. lia.
Qed.

Lemma input_failed c e batch c' :
  ReadRequestHeaders (ServerCodec := JsonServerCodec (Data := string)) c = ((Err e, batch), c') ->
  input_left c' <= input_left c.
Proof.
  cbn. unfold json_ReadRequestHeaders, input_left. cbn. unfold demo_decode.
  destruct (jc_conn c) as [|m ms]; [by intros [= _ _ <-]|]. intros [= _ <-]. rewrite fmap_cons. cbn. lia.
Qed.

Lemma input_written (m : message (JsonMessage string)) (c : JsonCodec (list (list byte))) :
  input_left (Write m c).2 <= input_left c.
Proof. done. Qed.

Lemma input_closed (c : JsonCodec (list (list byte))) : input_left (Close c) <= input_left c.
Proof. unfold input_left. cbn. unfold json_Close. by destruct (jc_closed c). Qed.

Definition two_w5 : dconn := (demo_read two_w4).2.
Definition two_end := mkSession Running false PClosed [] (close_codec two_w5).

Lemma two_eof : readRequest demoServices two_w4 = Ret (Err (InvalidRequestError "EOF"), false, two_w5).
Proof. vm_compute. reflexivity. Qed.

(** The input ends, the goroutines return and the codec is closed. *)
Lemma two_ended : history demoServices false (initial Running false two_codec) [[go_bytes "1"]; [go_bytes "2"]] two_end.
Proof.
  pose proof two_history as Hh.
  eapply h_step in Hh; [|apply ss_server, st_enter].
  eapply h_step in Hh; [|eapply ss_server, st_read_error, two_eof].
  eapply h_step in Hh; [|apply ss_server, (st_task_done _ _ Running true PWait [])].
  eapply h_step in Hh; [|apply ss_server, (st_task_done _ _ Running true PWait [])].
  eapply h_step in Hh; [|apply ss_server, st_waited].
  eapply h_step in Hh; [|apply ss_server, st_return].
  eapply h_step in Hh; [|by apply ss_server, st_close].
  exact Hh.
Qed.

Lemma finite_connection_served_witness :
  finished false two_end /\
  exists err, (err = [] \/ err = [[None]]) /\
    sent (conn_log (ss_conn two_end)) ≡ₚ answers [[go_bytes "1"]; [go_bytes "2"]] ++ err.
Proof.
  split; [reflexivity|].
  destruct (finite_connection_served input_left input_consumed input_failed input_written input_closed
    demoServices false _ _ _ _ _ demo_good two_ended) as (_ & _ & H).
  apply H. reflexivity.
Defined.

(** ** The call over HTTP *)

Definition echo_cb : Callback string (JsonCodec (list (list byte))) (JsonMessage string) :=
  mkCallback (VReceiver "Calculator") Echo [intType] false (-1) false.

Lemma echo_posted : posts (Data := string) (T := list (list byte)) echo_http echo_text.
Proof. split_and!; vm_compute; done. Qed.

Lemma echo_registered : registered demoServices "calc" "echo" echo_cb.
Proof. eexists. split; [vm_compute; reflexivity|]. vm_compute. reflexivity. Qed.

Lemma echo_returns : returns echo_cb [VData false "5"] [VData false "5"].
Proof. split; [reflexivity|]. split; [reflexivity|]. intros Hp. by vm_compute in Hp. Qed.

Lemma word_plain w : forallb (fun c => Json.plain c) (go_bytes w) = true -> plain_text w.
Proof. unfold plain_text. rewrite forallb_forall, Forall_forall. intros Hw c Hc%list_elem_of_In. auto. Qed.

Lemma word_no_separator w : forallb (fun c => bool_decide (c <> chr "_")) (go_bytes w) = true -> no_separator w.
Proof. rewrite forallb_forall. intros Hw Hin%list_elem_of_In%Hw. by bool_prop. Qed.

Lemma array_5 : value_text (array_text [go_bytes "5"]) (JArray [(go_bytes "5", JNumber (go_bytes "5"))]).
Proof. by vm_compute. Qed.

Lemma echo_served :
  ServeHTTP (Data := string) (T := list (list byte)) Running echo_http =
  RServed contentType (initial Running false echo_codec).
Proof. vm_compute. reflexivity. Qed.

Lemma http_call_answered_witness :
  exists e, conn_log (ss_conn http_done) =
    [EvResponse (One (call_answer (go_bytes "1") echo_cb [VData false "5"])) e].
Proof.
  destruct (http_call_answered demoServices echo_http (go_bytes "1") (JNumber (go_bytes "1")) "calc" "echo"
    (array_text [go_bytes "5"]) (JArray [(go_bytes "5", JNumber (go_bytes "5"))])
    [VData false "5"] [VData false "5"] echo_cb demo_good echo_posted one_text
    ltac:(vm_compute; reflexivity) array_5 (word_plain "calc" eq_refl) (word_plain "echo" eq_refl)
    (word_no_separator "calc" eq_refl) (word_no_separator "echo" eq_refl)
    ltac:(done) ltac:(done) echo_registered ltac:(vm_compute; reflexivity) echo_returns) as (start & c & E & Hs).
  rewrite echo_served in E. injection E as <-. destruct (Hs _ http_served) as (_ & _ & Hd).
  destruct (Hd None eq_refl) as [H|[H _]]; [exact H|]. by destruct H.
Defined.
