(* ===== verification/DemoWire.v ===== *)
(** * The concrete server, as bytes

    The service of [Demo] on the codec of [NewJSONCodec]: a call over HTTP and
    on a connection, from the bytes read to the bytes of the response. *)

From S2P Require Import Prelude GoStd HexUtil RpcTypes Utf8 GoMime Json JsonText Codec Notifier Register.
From S2P Require Import Server Session Effects Demo SingleShot Serving Transport DemoHttp Wire EndToEnd DemoServing.
From Stdlib Require Import ZArith Lia.
From Stdlib Require Import Init.Byte.
From stdpp Require Import gmap strings list relations.

(** User values are texts of JSON. *)
Definition demo_marshal (v : gvalue string) : result string (list byte) :=
  match v with
  | VData _ d =>
      let raw := go_bytes d in
      match parse_value (parse_fuel raw) raw with
      | Some (_, []) => if bool_decide (skip_ws raw = raw) then Ok raw else Err "unsupported value"
      | _ => Err "unsupported value"
      end
  | _ => Err "unsupported type"
  end.

#[export] Instance demo_user : UserJson string := {|
  marshal_user := demo_marshal;
  is_nil_data := fun _ => false;
  unmarshal_user := demo_unmarshal;
  syntax_error := fun _ => "invalid JSON"
|}.

#[export] Instance demo_user_laws : UserJsonLaws string.
Proof.
  constructor.
  - intros v raw. cbn. unfold demo_marshal. destruct v as [| | | | | | |b d]; try done.
    destruct (parse_value _ (go_bytes d)) as [[j [|]]|] eqn:E; try done.
    case_bool_decide; [|done]. intros [= <-]. by exists j.
  - intros t raw v. exact (unmarshal_typed (T := list (list byte)) t raw v).
  - done.
Qed.

Notation wmethod := (Method string (JsonCodec stream) (JsonMessage string)).

Definition EchoW : wmethod := mkMethod "Echo" "" [calcType; intType] [intType]
  (fun args w => match args with [_; VData b d] => Ret ([VData b d], w) | _ => Panic end).

Lemma EchoW_contract : keeps_contract EchoW.
Proof.
  split; [unfold has_receiver, NumIn; simpl; lia|]. split; [split; [|reflexivity]|].
  - intros args w Hl Hwf. apply call_fits_length in Hl as Hlen.
    destruct args as [|[] [|[] [|]]]; try done; try (by vm_compute in Hl).
    eexists _, w. split; [reflexivity|].
    unfold results_fit. split_and!; [done|done| |done].
    intros [|[]] t v' Ht He Hv; simplify_eq/=; done.
  - intros t Ht. by simplify_eq/=.
Qed.

Definition CalcW : Receiver string (JsonCodec stream) (JsonMessage string) :=
  mkReceiver "Calculator" "*demo.Calculator" [EchoW].

Definition echoW_cb : Callback string (JsonCodec stream) (JsonMessage string) :=
  mkCallback (VReceiver "Calculator") EchoW [intType] false (-1) false.

Definition wireServices : gmap string (Service string (JsonCodec stream) (JsonMessage string)) :=
  {["calc" := mkService "calc" {["echo" := echoW_cb]} ∅]}.

Lemma wire_registered : RegisterAll ∅ [("calc", CalcW)] = Ok wireServices.
Proof. vm_compute. reflexivity. Qed.

Lemma wire_good : good_registry wireServices.
Proof.
  eapply RegisterAll_good_from; [|apply good_registry_empty|apply wire_registered].
  apply Forall_singleton, Forall_singleton, EchoW_contract.
Qed.

(** ** The call, step by step *)

Definition wire_w0 : conn string (JsonCodec stream) (JsonMessage string) :=
  mkConn (NewJSONCodec (open_body echo_text)) [] [] None.
Definition wire_read := match readRequest wireServices wire_w0 with
  | Ret (Ok [q], _, w) => (q, w)
  | _ => (error_request [] ShutdownError, wire_w0)
  end.
Definition wire_q := wire_read.1.
Definition wire_w1 := wire_read.2.
Definition wire_answer : JsonMessage string := json_CreateResponse (go_bytes "1") (VData false "5").

Lemma wire_reads : readRequest wireServices wire_w0 = Ret (Ok [wire_q], false, wire_w1).
Proof. vm_compute. reflexivity. Qed.

Lemma wire_responds : respond wire_q wire_w1 = Ret (wire_answer, None, wire_w1).
Proof. vm_compute. reflexivity. Qed.

Definition wire_done : session string (JsonCodec stream) (JsonMessage string) :=
  mkSession Running false (PDone None) [] (write_or_close (One wire_answer) wire_w1).

Lemma wire_served :
  rtc (session_step wireServices true) (initial Running false (NewJSONCodec (open_body echo_text))) wire_done.
Proof.
  eapply rtc_l; [apply ss_server, st_register|].
  eapply rtc_l; [apply ss_server, st_enter|].
  eapply rtc_l; [eapply ss_server, st_read, wire_reads|].
  eapply rtc_l; [apply ss_server;
    exact (st_inline wireServices true true [wire_q] false [] wire_w1 (TRun false [wire_q] [] []) eq_refl eq_refl)|].
  eapply rtc_l; [apply ss_server, st_inline_step, ts_respond, wire_responds|].
  eapply rtc_l; [apply ss_server, st_inline_step, (ts_write _ _ _ (One wire_answer)); reflexivity|].
  eapply rtc_l; [apply ss_server, st_inline_done|]. apply rtc_once, ss_server, st_return.
Qed.

(** The response, as bytes. *)
Definition echo_response : list byte :=
  object_text [(go_bytes "jsonrpc", quoted (go_bytes "2.0")); (go_bytes "id", go_bytes "1");
               (go_bytes "result", go_bytes "5")].

Lemma wire_answer_text : marshal_message (One wire_answer) = Ok echo_response.
Proof. vm_compute. reflexivity. Qed.

Lemma id_one : id_value (Data := string) (go_bytes "1") (JNumber (go_bytes "1")).
Proof. exists (go_bytes "1"). split; by vm_compute. Qed.

Lemma message_reads_back_witness :
  exists ma, read_answers echo_response = Some ma /\ Forall2 says [wire_answer] (message_list ma).
Proof.
  destruct (message_reads_back (One wire_answer) echo_response) as (ma & Hr & Hs & _).
  - apply Forall_singleton. split; [reflexivity|]. eexists. exact id_one.
  - exact wire_answer_text.
  - exists ma. split; [exact Hr|exact Hs].
Defined.

(** A writer that takes ten bytes and fails: the same exchange, torn. *)
Definition torn_stream : stream := mkStream echo_text None [Some (10%nat, "broken pipe"%string)] None [].
Definition torn_w0 : conn string (JsonCodec stream) (JsonMessage string) :=
  mkConn (NewJSONCodec torn_stream) [] [] None.
Definition torn_w1 := match readRequest wireServices torn_w0 with Ret (_, _, w) => w | Panic => torn_w0 end.

Definition torn_done : session string (JsonCodec stream) (JsonMessage string) :=
  mkSession Running false (PDone None) [] (write_or_close (One wire_answer) torn_w1).

Lemma torn_served :
  rtc (session_step wireServices true) (initial Running false (NewJSONCodec torn_stream)) torn_done.
Proof.
  eapply rtc_l; [apply ss_server, st_register|].
  eapply rtc_l; [apply ss_server, st_enter|].
  eapply rtc_l; [apply ss_server, (st_read _ _ _ _ _ _ [wire_q] false torn_w1); vm_compute; reflexivity|].
  eapply rtc_l; [apply ss_server;
    exact (st_inline wireServices true true [wire_q] false [] torn_w1 (TRun false [wire_q] [] []) eq_refl eq_refl)|].
  eapply rtc_l; [apply ss_server, st_inline_step, (ts_respond _ _ _ _ _ _ wire_answer None torn_w1);
    vm_compute; reflexivity|].
  eapply rtc_l; [apply ss_server, st_inline_step, (ts_write _ _ _ (One wire_answer)); reflexivity|].
  eapply rtc_l; [apply ss_server, st_inline_done|]. apply rtc_once, ss_server, st_return.
Qed.

Lemma bytes_are_the_log_witness :
  written (ss_conn torn_done) = take 10 (echo_response ++ [x0a]) /\
  exists log1 log2 rest, conn_log (ss_conn torn_done) = log1 ++ log2 /\
    written (ss_conn torn_done) = concat (event_line <$> log1) ++ rest.
Proof.
  split; [vm_compute; reflexivity|].
  destruct (bytes_are_the_log wireServices true Running false torn_stream torn_done wire_good eq_refl
    torn_served) as (log1 & log2 & rest & Hl & _ & Hw & _).
  exists log1, log2, rest. split; [exact Hl|exact Hw].
Defined.

Lemma echoW_returns : returns echoW_cb [VData false "5"] [VData false "5"].
Proof. split; [reflexivity|]. split; [reflexivity|]. intros Hp. by vm_compute in Hp. Qed.

Lemma echoW_registered : registered wireServices "calc" "echo" echoW_cb.
Proof. eexists. split; vm_compute; reflexivity. Qed.

Lemma echo_posts_bytes : posts_bytes echo_http echo_text.
Proof. split_and!; vm_compute; done. Qed.

Lemma echoW_served_start :
  ServeHTTP (Data := string) (T := stream) Running echo_http =
  RServed contentType (initial Running false (NewJSONCodec (open_body echo_text))).
Proof. vm_compute. reflexivity. Qed.

Lemma echoW_args : json_ParseRequestArguments (T := stream) (ArgTypes echoW_cb) (Some (array_text [go_bytes "5"])) = Ok [VData false "5"].
Proof. vm_compute. reflexivity. Qed.

Lemma http_bytes_answered_witness :
  written (ss_conn wire_done) = echo_response ++ [x0a] /\
  exists a, read_answers (echo_response ++ [x0a]) = Some (One a).
Proof.
  destruct (http_bytes_answered wireServices echo_http (go_bytes "1") (JNumber (go_bytes "1")) "calc" "echo"
    (array_text [go_bytes "5"]) (JArray [(go_bytes "5", JNumber (go_bytes "5"))])
    [VData false "5"] [VData false "5"] echoW_cb wire_good echo_posts_bytes one_text
    ltac:(vm_compute; reflexivity) ltac:(repeat constructor) array_5 (word_plain "calc" eq_refl)
    (word_plain "echo" eq_refl) (word_no_separator "calc" eq_refl) (word_no_separator "echo" eq_refl)
    ltac:(done) ltac:(done) echoW_registered echoW_args echoW_returns)
    as (start & bound & E & Hs).
  rewrite echoW_served_start in E. injection E as <-. destruct (Hs _ wire_served) as (_ & _ & Hd).
  destruct (Hd None eq_refl) as [Hw|[Hr _]]; [|by destruct Hr].
  assert (Et : marshal_json (call_answer (T := stream) (go_bytes "1") echoW_cb [VData false "5"]) = Ok echo_response)
    by (vm_compute; reflexivity).
  rewrite Et in Hw. destruct Hw as (Hw & a & Ha & _). split; [exact Hw|]. exists a. exact Ha.
Defined.

(** ** The same call on a connection *)

Definition wire_w2 := write_or_close (One wire_answer) wire_w1.
Definition wire_w3 := match readRequest wireServices wire_w2 with Ret (_, _, w) => w | Panic => wire_w2 end.

Lemma wire_eof : readRequest wireServices wire_w2 = Ret (Err (InvalidRequestError "EOF"), false, wire_w3).
Proof. vm_compute. reflexivity. Qed.

Definition wire_end : session string (JsonCodec stream) (JsonMessage string) :=
  mkSession Running false PClosed [] (close_codec wire_w3).

Lemma wire_ended :
  rtc (session_step wireServices false) (initial Running false (NewJSONCodec (open_body echo_text))) wire_end.
Proof.
  eapply rtc_l; [apply ss_server, st_register|].
  eapply rtc_l; [apply ss_server, st_enter|].
  eapply rtc_l; [eapply ss_server, st_read, wire_reads|].
  eapply rtc_l; [apply ss_server;
    exact (st_spawn wireServices false true [wire_q] false [] wire_w1 (TRun false [wire_q] [] []) eq_refl eq_refl)|].
  eapply rtc_l; [apply ss_server, st_enter|].
  eapply rtc_l; [apply ss_server, (st_task _ _ Running true PReading []), ts_respond, wire_responds|].
  eapply rtc_l; [apply ss_server, (st_task _ _ Running true PReading []),
    (ts_write false _ _ (One wire_answer)); reflexivity|].
  eapply rtc_l; [eapply ss_server, st_read_error, wire_eof|].
  eapply rtc_l; [apply ss_server, (st_task_done _ _ Running true PWait [])|].
  eapply rtc_l; [apply ss_server, st_waited|].
  eapply rtc_l; [apply ss_server, st_return|].
  apply rtc_once, ss_server. exact (st_close wireServices false Running false None [] wire_w3 eq_refl).
Qed.

Lemma stream_served_witness :
  written (ss_conn wire_end) = echo_response ++ [x0a] /\
  exists reads err, (err = [] \/ err = [[None]]) /\ sent (conn_log (ss_conn wire_end)) ≡ₚ answers reads ++ err.
Proof.
  split; [vm_compute; reflexivity|].
  destruct (stream_served wireServices false Running false echo_text wire_end wire_good wire_ended) as (_ & _ & H).
  destruct (H eq_refl) as (reads & err & _ & Herr & Hs & _). exists reads, err. split; [exact Herr|exact Hs].
Defined.

(** ** A subscription the client is not told of

    A batch with a subscription and a call whose result cannot be encoded:
    nothing is written and the codec is closed, but the subscription is active,
    and a notification to it is written. *)

Definition TicksW : wmethod :=
  mkMethod "Ticks" "" [calcType; contextType] [ptr_to subscriptionType; errorType]
    (fun args w =>
       match NotifierFromContext w with
       | None => Ret ([VNil; VError ErrNotificationsUnsupported], w)
       | Some _ =>
           let! (l, w) := CreateSubscription (NewID 1 2 3) w in Ret ([VSubscription l; VNil], w)
       end).

Definition OddW : wmethod := mkMethod "Odd" "" [calcType] [intType]
  (fun args w => Ret ([VData false "not a text of JSON"], w)).

Definition untoldServices : gmap string (Service string (JsonCodec stream) (JsonMessage string)) :=
  match RegisterAll ∅ [("calc"%string, mkReceiver "Calculator" "*demo.Calculator" [TicksW; OddW])] with
  | Ok s => s
  | Err _ => ∅
  end.

Definition untold_w0 : conn string (JsonCodec stream) (JsonMessage string) :=
  mkConn (NewJSONCodec (open_body (array_text
    [call_text "calc_subscribe" [quoted (go_bytes "ticks")]; call_text "calc_odd" []]))) [] [] (Some newNotifier).

Definition untold_read := match readRequest untoldServices untold_w0 with
  | Ret (Ok reqs, _, w) => (reqs, w)
  | _ => ([], untold_w0)
  end.
Definition untold_reqs := untold_read.1.
Definition untold_w1 := untold_read.2.
Definition untold_w2 := match execBatch untold_reqs untold_w1 with Ret w => w | Panic => untold_w1 end.
Definition untold_w3 := match Notify ticks_id "7" untold_w2 with Ret (_, w) => w | Panic => untold_w2 end.

Lemma untold_notification :
  readRequest untoldServices untold_w0 = Ret (Ok untold_reqs, true, untold_w1) /\
  execBatch untold_reqs untold_w1 = Ret untold_w2 /\
  written untold_w2 = [] /\ Closed (conn_codec untold_w2) = true /\
  Notify ticks_id "7" untold_w2 = Ret (None, untold_w3) /\
  conn_log untold_w3 = conn_log untold_w2 ++ [EvNotify ticks_id "calc" "7" None] /\
  0 < length (written untold_w3).
Proof. repeat (split; [vm_compute; reflexivity|]). vm_compute. lia. Qed.
