(* ===== verification/DemoRecover.v ===== *)
(** * The concrete server with a method that panics

    A subscription method that takes its context through a pointer is
    registered and panics when it is called ([pointer_context_panics]).  Served
    on its own the request is recovered; on a connection it ends the process. *)

From S2P Require Import Prelude GoStd HexUtil RpcTypes Utf8 GoMime Json Codec Notifier Register.
From S2P Require Import Server Session Demo SingleShot Recover.
From Stdlib Require Import ZArith Lia.
From Stdlib Require Import Init.Byte.
From stdpp Require Import gmap strings list relations.

Definition Faulty : Receiver string (JsonCodec (list (list byte))) (JsonMessage string) :=
  mkReceiver "Calculator" "*demo.Calculator" [Echo; PtrTicks].

Definition sum_cb : Callback string (JsonCodec (list (list byte))) (JsonMessage string) :=
  mkCallback (VReceiver "Calculator") Echo [intType] false (-1) false.

Definition faultyServices : gmap string (Service string (JsonCodec (list (list byte))) (JsonMessage string)) :=
  {["calc" := mkService "calc" {["echo" := sum_cb]} {["ticks" := ptr_cb]}]}.

Lemma faulty_registered : RegisterAll ∅ [("calc", Faulty)] = Ok faultyServices.
Proof. vm_compute. reflexivity. Qed.

Lemma faulty_polite : polite_registry faultyServices.
Proof.
  apply map_Forall_singleton. split; apply map_Forall_singleton; unfold polite; cbn.
  - intros [|? [|[] [|]]] w outs w' E; simplify_eq; done.
  - intros args w outs w'. unfold NotifierFromContext. destruct (conn_notifier w); [|by intros [= <- <-]].
    destruct (CreateSubscription _ w) as [[l w1]|] eqn:E; [|done]. intros [= <- <-].
    apply rtc_once. by econstructor.
Qed.

Definition ptr_codec : JsonCodec (list (list byte)) := NewCodec [call_text "calc_subscribe" [quoted (go_bytes "ticks")]].

Definition ptr_w0 : dconn := mkConn ptr_codec [] [] None.
Definition ptr_read := match readRequest faultyServices ptr_w0 with
  | Ret (Ok reqs, _, w) => (reqs, w)
  | _ => ([], ptr_w0)
  end.
Definition ptr_q := match ptr_read.1 with q :: _ => q | [] => error_request [] ShutdownError end.
Definition ptr_w1 : dconn := ptr_read.2.

Lemma ptr_reads : readRequest faultyServices ptr_w0 = Ret (Ok [ptr_q], false, ptr_w1).
Proof. vm_compute. reflexivity. Qed.

Lemma ptr_panics : respond ptr_q ptr_w1 = Panic.
Proof. vm_compute. reflexivity. Qed.

Definition ptr_recovered : session string (JsonCodec (list (list byte))) (JsonMessage string) :=
  mkSession Running false (PDone None) [] ptr_w1.

(** Served on its own: the panic is recovered. *)
Lemma ptr_served : rtc (recovered_step faultyServices) (initial Running false ptr_codec) ptr_recovered.
Proof.
  eapply rtc_l; [apply rc_step, ss_server, st_register|].
  eapply rtc_l; [apply rc_step, ss_server, st_enter|].
  eapply rtc_l; [eapply rc_step, ss_server, st_read, ptr_reads|].
  eapply rtc_l; [apply rc_step, ss_server;
    exact (st_inline faultyServices true true [ptr_q] false [] ptr_w1 (TRun false [ptr_q] [] []) eq_refl eq_refl)|].
  apply rtc_once, rc_panic; [exact ptr_panics|done].
Qed.

Lemma panic_is_contained_witness :
  ss_registered ptr_recovered = false /\ ss_tasks ptr_recovered = [] /\
  length (conn_log (ss_conn ptr_recovered)) <= 1.
Proof.
  destruct (panic_is_contained faultyServices Running ptr_codec ptr_recovered faulty_polite ptr_served) as (_ & _ & H).
  exact (H None eq_refl).
Defined.

(** On a connection: the request of one client ends the process. *)
Lemma request_ends_process :
  exists s, rtc (session_step faultyServices false) (initial Running false ptr_codec) s /\ crashes s.
Proof.
  exists (mkSession Running true PLoop [TRun false [ptr_q] [] []] ptr_w1). split.
  - eapply rtc_l; [apply ss_server, st_register|].
    eapply rtc_l; [apply ss_server, st_enter|].
    eapply rtc_l; [eapply ss_server, st_read, ptr_reads|].
    apply rtc_once, ss_server.
    exact (st_spawn faultyServices false true [ptr_q] false [] ptr_w1 (TRun false [ptr_q] [] []) eq_refl eq_refl).
  - exists (TRun false [ptr_q] [] []). split; [by left|exact ptr_panics].
Qed.
