(* ===== verification/Feed.v ===== *)
(** * pkg/event/feed.go: one-to-many event feeds

    [Feed] with its select cases, the inbox of new subscribers, the send lock
    and the mutex.  [Subscribe], [Unsubscribe] and [Send] run concurrently: a
    step relation interleaves them at every point where they wait for a lock,
    a channel or each other. *)

From S2P Require Import Prelude.
From Stdlib Require Import ZArith Lia.
From stdpp Require Import gmap strings list relations sorting.

(** ** Case lists *)

Section Cases.
Context {Value : Type}.

(** [reflect.SelectCase]: the receive from [removeSub], or a send on a channel
    with the value to send, when one is set. *)
Inductive SelectCase :=
| RecvCase
| SendCase (Chan : nat) (Send : option Value).

(** [firstSubSendCase]. *)
Definition firstSubSendCase : nat := 1.

Definition case_is (ch : nat) (c : SelectCase) : bool :=
  match c with SendCase ch' _ => (ch' =? ch)%nat | RecvCase => false end.

(** [cs.find(channel)]: the index or -1. *)
Fixpoint find_from (i : Z) (cs : list SelectCase) (ch : nat) : Z :=
  match cs with
  | [] => -1
  | c :: cs' => if case_is ch c then i else find_from (i + 1) cs' ch
  end.
Definition find (cs : list SelectCase) (ch : nat) : Z := find_from 0 cs ch.

(** [cs.delete(index)]; the slice expression panics out of range. *)
Definition delete_case (cs : list SelectCase) (index : Z) : run (list SelectCase) :=
  if (0 <=? index)%Z && (index <? Z.of_nat (length cs))%Z
  then Ret (take (Z.to_nat index) cs ++ drop (S (Z.to_nat index)) cs)
  else Panic.

(** [cs.deactivate(index)]: the contents of [cs] after the swap with its last
    element; the result of the method is these without the last. *)
Definition deactivate (cs : list SelectCase) (index : nat) : list SelectCase :=
  let last := length cs - 1 in
  match cs !! index, cs !! last with
  | Some ci, Some cl => <[index := cl]> (<[last := ci]> cs)
  | _, _ => cs
  end.

(** [cases[i].Send = rvalue] and [cases[i].Send = reflect.Value{}] from the
    first subscriber on. *)
Definition set_send (v : option Value) (c : SelectCase) : SelectCase :=
  match c with SendCase ch _ => SendCase ch v | RecvCase => RecvCase end.
Definition set_sends (v : option Value) (cs : list SelectCase) : list SelectCase :=
  take firstSubSendCase cs ++ (set_send v <$> drop firstSubSendCase cs).

End Cases.
Arguments SelectCase Value : clear implicits.
Arguments set_sends : simpl never.

(** ** The feed *)

Section Feed.
Context {Value : Type}.
Variable TypeOf : Value -> nat.

(** [f_inited] is [once], [f_token] whether [sendLock] holds its element,
    [f_mu] whether the mutex is held by a goroutine that will not release it.
    The types of elements are numbers. *)
Record Feed := mkFeed {
  f_inited : bool;
  f_token : bool;
  f_sendCases : list (SelectCase Value);
  f_mu : bool;
  f_inbox : list nat;
  f_etype : option nat
}.

Definition zero_feed : Feed := mkFeed false false [] false [] None.

(** [f.once.Do(f.init)]. *)
Definition init (f : Feed) : Feed :=
  if f_inited f then f else mkFeed true true [RecvCase] (f_mu f) (f_inbox f) (f_etype f).

(** [f.typecheck(typ)]: the new element type and the answer. *)
Definition typecheck (typ : nat) (etype : option nat) : option nat * bool :=
  match etype with
  | None => (Some typ, true)
  | Some t => (Some t, (t =? typ)%nat)
  end.

(** [f.Subscribe(channel)] on a channel that can be sent on, with elements of
    type [typ]: the deferred unlock releases the mutex even on a panic. *)
Definition Subscribe (ch typ : nat) (f : Feed) : run Feed :=
  let f := init f in
  let '(etype, ok) := typecheck typ (f_etype f) in
  if ok then Ret (mkFeed (f_inited f) (f_token f) (f_sendCases f) (f_mu f) (f_inbox f ++ [ch]) etype)
  else Panic.

Definition set_cases (cs : list (SelectCase Value)) (f : Feed) : Feed :=
  mkFeed (f_inited f) (f_token f) cs (f_mu f) (f_inbox f) (f_etype f).
Definition set_token (b : bool) (f : Feed) : Feed :=
  mkFeed (f_inited f) b (f_sendCases f) (f_mu f) (f_inbox f) (f_etype f).
Definition set_inbox (l : list nat) (f : Feed) : Feed :=
  mkFeed (f_inited f) (f_token f) (f_sendCases f) (f_mu f) l (f_etype f).

(** The inbox is a case list too; its entries are channels without value. *)
Definition inbox_cases (l : list nat) : list (SelectCase Value) := (fun ch => SendCase ch None) <$> l.
Definition find_inbox (l : list nat) (ch : nat) : Z := find (inbox_cases l) ch.

(** [f.sendCases = append(f.sendCases, f.inbox...); f.inbox = nil]. *)
Definition take_inbox (f : Feed) : Feed :=
  set_inbox [] (set_cases (f_sendCases f ++ inbox_cases (f_inbox f)) f).

(** A subscription: live, past the inbox and waiting to be removed from the
    cases, or removed. *)
Inductive substate := Live | Pending | Removed.

#[global] Instance substate_eq_dec : EqDecision substate.
Proof. solve_decision. Defined.

(** Where the [Send] that holds the lock is: before the mutex, in the fast loop
    at an index, or in the select. *)
Inductive phase := Locked | Fast (i : nat) | Selecting.

(** A [Send] in progress: its value, its phase, [len(cases)] and [nsent].
    [sn_targets] and [sn_dropped] record the channels it started with and the
    ones unsubscribed before it reached them, [sn_log] the length of the log
    when it started. *)
Record sending := mkSending {
  sn_value : Value;
  sn_phase : phase;
  sn_len : nat;
  sn_nsent : nat;
  sn_targets : list nat;
  sn_dropped : list nat;
  sn_log : nat
}.

(** The feed, its subscriptions, the active [Send], what the channels received
    and the counts the finished [Send]s returned with their values. *)
Record system := mkSystem {
  s_feed : Feed;
  s_subs : list (nat * substate);
  s_send : option sending;
  s_log : list (nat * Value)
}.

Definition initial_system : system := mkSystem zero_feed [] None [].

(** The channels of the cases. *)
Fixpoint chans (cs : list (SelectCase Value)) : list nat :=
  match cs with
  | [] => []
  | RecvCase :: cs' => chans cs'
  | SendCase ch _ :: cs' => ch :: chans cs'
  end.

(** [cases = cases.deactivate(i)] on the prefix of [sendCases]. *)
Definition deactivate_at (i : nat) (n : nat) (f : Feed) : Feed :=
  set_cases (deactivate (take n (f_sendCases f)) i ++ drop n (f_sendCases f)) f.

Definition delivered (a : sending) (p : phase) : sending :=
  mkSending (sn_value a) p (sn_len a - 1) (sn_nsent a + 1) (sn_targets a) (sn_dropped a) (sn_log a).
Definition set_phase (a : sending) (p : phase) : sending :=
  mkSending (sn_value a) p (sn_len a) (sn_nsent a) (sn_targets a) (sn_dropped a) (sn_log a).
Definition dropped (a : sending) (ch : nat) : sending :=
  mkSending (sn_value a) (Fast firstSubSendCase) (sn_len a - 1) (sn_nsent a) (sn_targets a)
    (sn_dropped a ++ [ch]) (sn_log a).

Inductive feed_step : system -> system -> Prop :=
(* Subscribe *)
| fs_subscribe f f' subs a log ch typ :
    f_mu f = false -> Subscribe ch typ f = Ret f' ->
    feed_step (mkSystem f subs a log) (mkSystem f' (subs ++ [(ch, Live)]) a log)
(* remove: the inbox first, under the mutex *)
| fs_remove_inbox f subs a log k ch l :
    subs !! k = Some (ch, Live) -> f_mu f = false -> find_inbox (f_inbox f) ch <> (-1)%Z ->
    delete_case (inbox_cases (f_inbox f)) (find_inbox (f_inbox f) ch) = Ret (inbox_cases l) ->
    feed_step (mkSystem f subs a log) (mkSystem (set_inbox l f) (<[k := (ch, Removed)]> subs) a log)
| fs_remove_wait f subs a log k ch :
    subs !! k = Some (ch, Live) -> f_mu f = false -> find_inbox (f_inbox f) ch = (-1)%Z ->
    feed_step (mkSystem f subs a log) (mkSystem f (<[k := (ch, Pending)]> subs) a log)
(* remove: the send lock is free *)
| fs_remove_idle f subs a log k ch cs :
    subs !! k = Some (ch, Pending) -> f_token f = true ->
    delete_case (f_sendCases f) (find (f_sendCases f) ch) = Ret cs ->
    feed_step (mkSystem f subs a log) (mkSystem (set_cases cs f) (<[k := (ch, Removed)]> subs) a log)
(* Send: take the lock, then the inbox *)
| fs_lock f subs log v :
    f_token (init f) = true ->
    feed_step (mkSystem f subs None log)
              (mkSystem (set_token false (init f)) subs
                 (Some (mkSending v Locked 0 0 [] [] (length log))) log)
| fs_begin f subs log a etype :
    sn_phase a = Locked -> f_mu f = false ->
    typecheck (TypeOf (sn_value a)) (f_etype f) = (etype, true) ->
    let f1 := take_inbox f in
    let cs := set_sends (Some (sn_value a)) (f_sendCases f1) in
    feed_step (mkSystem f subs (Some a) log)
              (mkSystem (mkFeed (f_inited f1) (f_token f1) cs (f_mu f1) (f_inbox f1) etype) subs
                 (Some (mkSending (sn_value a) (Fast firstSubSendCase) (length cs) 0 (chans cs) []
                          (length log))) log)
(* Send of another type: the lock is given back, the mutex is not *)
| fs_type_panic f subs log a etype :
    sn_phase a = Locked -> f_mu f = false ->
    typecheck (TypeOf (sn_value a)) (f_etype f) = (etype, false) ->
    let f1 := take_inbox f in
    feed_step (mkSystem f subs (Some a) log)
              (mkSystem (mkFeed (f_inited f1) true (f_sendCases f1) true (f_inbox f1) etype) subs
                 None log)
(* the fast loop: TrySend at an index *)
| fs_try_ok f subs log a i ch v :
    sn_phase a = Fast i -> (i < sn_len a)%nat -> f_sendCases f !! i = Some (SendCase ch v) ->
    feed_step (mkSystem f subs (Some a) log)
              (mkSystem (deactivate_at i (sn_len a) f) subs (Some (delivered a (Fast i)))
                 (log ++ [(ch, sn_value a)]))
| fs_try_fail f subs log a i :
    sn_phase a = Fast i -> (i < sn_len a)%nat ->
    feed_step (mkSystem f subs (Some a) log)
              (mkSystem f subs (Some (set_phase a (Fast (S i)))) log)
| fs_select f subs log a i :
    sn_phase a = Fast i -> (sn_len a <= i)%nat -> sn_len a <> firstSubSendCase ->
    feed_step (mkSystem f subs (Some a) log)
              (mkSystem f subs (Some (set_phase a Selecting)) log)
(* the select: a removal while its case is active, or no longer *)
| fs_select_remove f subs log a k ch cs :
    sn_phase a = Selecting -> subs !! k = Some (ch, Pending) ->
    delete_case (f_sendCases f) (find (f_sendCases f) ch) = Ret cs ->
    let index := find (f_sendCases f) ch in
    feed_step (mkSystem f subs (Some a) log)
              (mkSystem (set_cases cs f) (<[k := (ch, Removed)]> subs)
                 (Some (if (0 <=? index)%Z && (index <? Z.of_nat (sn_len a))%Z
                        then dropped a ch else set_phase a (Fast firstSubSendCase))) log)
(* the select: a send of the value of the case *)
| fs_select_send f subs log a i ch v :
    sn_phase a = Selecting -> (i < sn_len a)%nat ->
    f_sendCases f !! i = Some (SendCase ch (Some v)) ->
    feed_step (mkSystem f subs (Some a) log)
              (mkSystem (deactivate_at i (sn_len a) f) subs
                 (Some (delivered a (Fast firstSubSendCase))) (log ++ [(ch, v)]))
(* the end: forget the value, give the lock back and return nsent *)
| fs_finish f subs log a i :
    sn_phase a = Fast i -> (sn_len a <= i)%nat -> sn_len a = firstSubSendCase ->
    feed_step (mkSystem f subs (Some a) log)
              (mkSystem (set_token true (set_cases (set_sends None (f_sendCases f)) f)) subs None log).

End Feed.

(** ** Lemmas on case lists *)

(** How often a channel occurs. *)
Definition cnt (ch : nat) (l : list nat) : nat := count_occ Nat.eq_dec l ch.
Arguments cnt ch l : simpl never.

Section CaseLemmas.
Context {Value : Type}.
Implicit Types (cs : list (SelectCase Value)) (c : SelectCase Value).

Lemma chans_app cs1 cs2 : chans (cs1 ++ cs2) = chans cs1 ++ chans cs2.
Proof. induction cs1 as [|[|ch v] cs1 IH]; simpl; by rewrite ?IH. Qed.

Lemma chans_Permutation cs1 cs2 : cs1 ≡ₚ cs2 -> chans cs1 ≡ₚ chans cs2.
Proof.
  induction 1 as [|c cs1 cs2 _ IH|c1 c2 cs|cs1 cs2 cs3 _ IH1 _ IH2]; [done| | |by etransitivity].
  - destruct c; simpl; by rewrite ?IH.
  - destruct c1, c2; simpl; try done. apply Permutation_swap.
Qed.

Lemma chans_set_send v cs : chans (set_send v <$> cs) = chans cs.
Proof. induction cs as [|[|ch w] cs IH]; rewrite ?fmap_cons; cbn [set_send chans]; by rewrite ?IH. Qed.

Lemma chans_set_sends v cs : chans (set_sends v cs) = chans cs.
Proof. unfold set_sends. by rewrite chans_app, chans_set_send, <-chans_app, take_drop. Qed.

Lemma chans_inbox l : chans (inbox_cases (Value:=Value) l) = l.
Proof.
  induction l as [|ch l IH]; [done|].
  change (ch :: chans (inbox_cases (Value:=Value) l) = ch :: l). by rewrite IH.
Qed.

Lemma cnt_app ch l1 l2 : cnt ch (l1 ++ l2) = (cnt ch l1 + cnt ch l2)%nat.
Proof. apply count_occ_app. Qed.

Lemma cnt_Permutation ch l1 l2 : l1 ≡ₚ l2 -> cnt ch l1 = cnt ch l2.
Proof. intros Hp. by apply (Permutation_count_occ Nat.eq_dec). Qed.

#[export] Instance cnt_Proper ch : Proper ((≡ₚ) ==> (=)) (cnt ch).
Proof. intros l1 l2. apply cnt_Permutation. Qed.

#[export] Instance chans_Proper : Proper ((≡ₚ) ==> (≡ₚ)) (@chans Value).
Proof. intros cs1 cs2. apply chans_Permutation. Qed.

Lemma cnt_cons ch x l : cnt ch (x :: l) = ((if decide (x = ch) then 1 else 0) + cnt ch l)%nat.
Proof. unfold cnt. simpl. by destruct (Nat.eq_dec x ch), (decide (x = ch)). Qed.

(** [find] gives the first case of the channel, and -1 only without any. *)
Lemma find_spec cs ch :
  (find cs ch = -1 /\ cnt ch (chans cs) = 0%nat)%Z \/
  exists i v, find cs ch = Z.of_nat i /\ cs !! i = Some (SendCase ch v).
Proof.
  unfold find. assert (Hgen : forall k, (0 <= k)%Z ->
    (find_from k cs ch = -1 /\ cnt ch (chans cs) = 0%nat)%Z \/
    exists i v, find_from k cs ch = (k + Z.of_nat i)%Z /\ cs !! i = Some (SendCase ch v)).
  { induction cs as [|c cs IH]; intros k Hk; simpl; [by left|].
    destruct (case_is ch c) eqn:Ec.
    - right. destruct c as [|ch' v]; [done|]. simpl in Ec. bool_prop. subst.
      exists 0%nat, v. split; [lia|done].
    - destruct (IH (k + 1)%Z ltac:(lia)) as [[-> Hc]|(i & v & -> & Hi)].
      + left. split; [done|]. destruct c as [|ch' v]; [done|]. simpl in Ec. bool_prop.
        change (chans (SendCase ch' v :: cs)) with (ch' :: chans cs).
        rewrite cnt_cons. by rewrite decide_False.
      + right. exists (S i), v. split; [lia|done]. }
  destruct (Hgen 0%Z ltac:(lia)) as [?|(i & v & ? & ?)]; [by left|right; by exists i, v].
Qed.

Lemma delete_case_at cs i c : cs !! i = Some c ->
  delete_case cs (Z.of_nat i) = Ret (take i cs ++ drop (S i) cs).
Proof.
  intros Hi. apply lookup_lt_Some in Hi. unfold delete_case.
  replace (0 <=? Z.of_nat i)%Z with true by lia.
  replace (Z.of_nat i <? Z.of_nat (length cs))%Z with true by lia. simpl. by rewrite Nat2Z.id.
Qed.

Lemma take_drop_delete {A} (l : list A) i x : l !! i = Some x ->
  l ≡ₚ x :: take i l ++ drop (S i) l.
Proof. intros Hi. rewrite <-(take_drop_middle l i x Hi) at 1. by rewrite Permutation_middle. Qed.

(** The swap of [deactivate] puts the case last and keeps the others. *)
Lemma deactivate_spec cs i c :
  cs !! i = Some c -> (1 <= i)%nat ->
  exists d, deactivate cs i = d ++ [c] /\ d ++ [c] ≡ₚ cs /\
    length (d ++ [c]) = length cs /\ head d = head cs.
Proof.
  intros Hi H1. pose proof Hi as Hlt%lookup_lt_Some.
  assert (Hl : length (take i cs) = i) by (rewrite length_take; lia).
  pose proof (take_drop_middle cs i c Hi) as Hsplit. revert Hsplit Hl.
  generalize (take i cs) as l1. generalize (drop (S i) cs) as l2.
  intros l2 l1 <- Hl. destruct l1 as [|x l1]; [simpl in Hl; lia|].
  unfold deactivate. rewrite Hi. destruct l2 as [|y l2 _] using rev_ind.
  - assert (length ((x :: l1) ++ [c]) - 1 = i) as -> by (rewrite length_app; simpl in *; lia).
    rewrite Hi.
    exists (x :: l1). rewrite list_insert_insert_eq, list_insert_id by done. done.
  - assert (Hlast : ((x :: l1) ++ c :: l2 ++ [y]) !! (length ((x :: l1) ++ c :: l2 ++ [y]) - 1) = Some y).
    { replace ((x :: l1) ++ c :: l2 ++ [y]) with (((x :: l1) ++ c :: l2) ++ [y]) by (by rewrite <-app_assoc).
      rewrite length_app, Nat.add_sub. by apply list_lookup_middle. }
    rewrite Hlast. exists ((x :: l1) ++ y :: l2).
    assert (Hins : <[i := y]> (<[length ((x :: l1) ++ c :: l2 ++ [y]) - 1 := c]>
                     ((x :: l1) ++ c :: l2 ++ [y])) = ((x :: l1) ++ y :: l2) ++ [c]).
    { replace (length ((x :: l1) ++ c :: l2 ++ [y]) - 1) with (length ((x :: l1) ++ c :: l2) + 0)
        by (rewrite !length_app; simpl; rewrite length_app; simpl; lia).
      replace ((x :: l1) ++ c :: l2 ++ [y]) with (((x :: l1) ++ c :: l2) ++ [y])
        by (by rewrite <-app_assoc).
      rewrite insert_app_r. simpl (<[0:=_]> _).
      rewrite <-app_assoc. replace i with (length (x :: l1) + 0) by lia.
      rewrite insert_app_r. simpl (<[0:=_]> _). by rewrite <-app_assoc. }
    rewrite Hins. split_and!; [done| | |done].
    + rewrite <-app_assoc. apply Permutation_app_head. rewrite <-app_comm_cons.
      rewrite (Permutation_app_comm l2 [c]), (Permutation_app_comm l2 [y]). simpl.
      apply Permutation_swap.
    + rewrite !length_app. simpl. rewrite !length_app. simpl. lia.
Qed.

(** The receive from [removeSub] first, then sends that satisfy [P]. *)
Definition shape (P : SelectCase Value -> Prop) (cs : list (SelectCase Value)) : Prop :=
  exists l, cs = RecvCase :: l /\ Forall P l.

Definition is_send c : Prop := c <> RecvCase.
Definition sends (v : Value) c : Prop := exists ch, c = SendCase ch (Some v).

Lemma shape_send P cs i ch v : shape P cs -> cs !! i = Some (SendCase ch v) -> (1 <= i)%nat.
Proof. intros (l & -> & _). destruct i; [done|lia]. Qed.

Lemma shape_impl (P Q : SelectCase Value -> Prop) cs :
  (forall c, P c -> Q c) -> shape P cs -> shape Q cs.
Proof. intros HPQ (l & -> & Hl). exists l. split; [done|]. by eapply Forall_impl. Qed.

Lemma shape_perm P cs cs' : shape P cs -> cs' ≡ₚ cs -> head cs' = head cs -> shape P cs'.
Proof.
  intros (l & -> & Hl) Hp Hh. destruct cs' as [|c cs']; [by apply Permutation_nil_cons in Hp|].
  simpl in Hh. injection Hh as ->. exists cs'. split; [done|].
  apply Permutation_cons_inv in Hp. by rewrite Hp.
Qed.

Lemma shape_delete P cs i : shape P cs -> (1 <= i)%nat -> shape P (take i cs ++ drop (S i) cs).
Proof.
  intros (l & -> & Hl) Hi. destruct i as [|j]; [lia|]. simpl. eexists. split; [done|].
  apply Forall_app. split; [by apply Forall_take|by apply Forall_drop].
Qed.

Lemma shape_set_sends v cs : shape is_send cs -> shape (sends v) (set_sends (Some v) cs).
Proof.
  intros (l & -> & Hl). eexists. split; [done|]. simpl. rewrite drop_0. apply Forall_fmap.
  eapply Forall_impl; [exact Hl|]. intros [|ch w] Hc; [by destruct Hc|]. simpl. by eexists.
Qed.

Lemma shape_unset_sends P cs :
  shape P cs -> (forall c, P c -> is_send c) -> shape is_send (set_sends None cs).
Proof.
  intros (l & -> & Hl) HP. eexists. split; [done|]. simpl. rewrite drop_0. apply Forall_fmap.
  eapply Forall_impl; [exact Hl|]. intros [|ch w] Hc; [by apply HP in Hc|done].
Qed.

Lemma shape_app_inbox l cs : shape is_send cs -> shape is_send (cs ++ inbox_cases l).
Proof.
  intros (l' & -> & Hl). eexists. split; [done|]. apply Forall_app. split; [done|].
  unfold inbox_cases. by apply Forall_fmap, Forall_true.
Qed.

End CaseLemmas.

(** ** The invariant *)

Fixpoint undone (subs : list (nat * substate)) : list nat :=
  match subs with
  | [] => []
  | (_, Removed) :: subs' => undone subs'
  | (ch, _) :: subs' => ch :: undone subs'
  end.

Fixpoint pending (subs : list (nat * substate)) : list nat :=
  match subs with
  | [] => []
  | (ch, Pending) :: subs' => ch :: pending subs'
  | _ :: subs' => pending subs'
  end.

Section Invariant.
Context {Value : Type}.
Variable TypeOf : Value -> nat.
Implicit Types (s : system (Value:=Value)) (f : Feed (Value:=Value)) (a : sending (Value:=Value)).

(** Every subscription that was not removed has its entry in the inbox or the
    cases, and the ones that wait for removal have it in the cases. *)
Definition entries_ok (f : Feed (Value:=Value)) (subs : list (nat * substate)) : Prop :=
  forall ch,
    cnt ch (undone subs) = (cnt ch (f_inbox f) + cnt ch (chans (f_sendCases f)))%nat /\
    (cnt ch (pending subs) <= cnt ch (chans (f_sendCases f)))%nat.

(** In the select some case besides [removeSub] is left. *)
Definition phase_min (p : phase) : nat := match p with Selecting => 2 | _ => 1 end.

(** The active [Send]: what it delivered, what was dropped and what is still
    in front of [cases] make up the channels it started with. *)
Definition sending_ok (f : Feed (Value:=Value)) (log : list (nat * Value)) (a : sending) : Prop :=
  match sn_phase a with
  | Locked => shape is_send (f_sendCases f)
  | _ =>
      shape (sends (sn_value a)) (f_sendCases f) /\
      (phase_min (sn_phase a) <= sn_len a <= length (f_sendCases f))%nat /\
      exists ds, log = take (sn_log a) log ++ ((fun ch => (ch, sn_value a)) <$> ds) /\
        (sn_log a <= length log)%nat /\ sn_nsent a = length ds /\
        sn_targets a ≡ₚ ds ++ sn_dropped a ++ chans (take (sn_len a) (f_sendCases f))
  end.

Definition system_ok s : Prop :=
  let f := s_feed s in
  entries_ok f (s_subs s) /\
  (f_inited f = false ->
     f_sendCases f = [] /\ f_inbox f = [] /\ f_token f = false /\ s_send s = None) /\
  (f_inited f = true -> f_token f = bool_decide (s_send s = None)) /\
  match s_send s with
  | None => f_inited f = true -> shape is_send (f_sendCases f)
  | Some a => sending_ok f (s_log s) a
  end.

Lemma sends_is_send (v : Value) c : sends v c -> is_send c.
Proof. by intros [ch ->]. Qed.

Lemma sending_shape f log a : sending_ok f log a -> shape is_send (f_sendCases f).
Proof.
  unfold sending_ok. destruct (sn_phase a); [done|..]; intros [Hs _];
    (eapply shape_impl; [|exact Hs]); apply sends_is_send.
Qed.

Lemma list_update_split {A} (l : list A) k x y :
  l !! k = Some x -> exists l1 l2, l = l1 ++ x :: l2 /\ <[k := y]> l = l1 ++ y :: l2.
Proof.
  intros Hk. pose proof (lookup_lt_Some _ _ _ Hk) as Hlt.
  exists (take k l), (drop (S k) l). split; [by rewrite take_drop_middle|].
  by rewrite insert_take_drop.
Qed.

Lemma undone_app l1 l2 : undone (l1 ++ l2) = undone l1 ++ undone l2.
Proof. induction l1 as [|[ch []] l1 IH]; simpl; by rewrite ?IH. Qed.
Lemma pending_app l1 l2 : pending (l1 ++ l2) = pending l1 ++ pending l2.
Proof. induction l1 as [|[ch []] l1 IH]; simpl; by rewrite ?IH. Qed.

Lemma find_inbox_spec l ch :
  (find_inbox (Value:=Value) l ch = -1 /\ cnt ch l = 0%nat)%Z \/
  exists i, find_inbox (Value:=Value) l ch = Z.of_nat i /\ l !! i = Some ch.
Proof.
  unfold find_inbox. destruct (find_spec (inbox_cases (Value:=Value) l) ch) as [[H1 H2]|(i & v & H1 & H2)].
  - left. by rewrite chans_inbox in H2.
  - right. exists i. split; [done|]. unfold inbox_cases in H2.
    apply list_lookup_fmap_Some in H2 as (ch' & [= -> _] & Hl). done.
Qed.

Lemma inbox_delete l i ch l' : l !! i = Some ch ->
  delete_case (inbox_cases (Value:=Value) l) (Z.of_nat i) = Ret (inbox_cases l') ->
  l ≡ₚ ch :: l'.
Proof.
  intros Hi. assert (Hi' : inbox_cases (Value:=Value) l !! i = Some (SendCase ch None)).
  { unfold inbox_cases. rewrite list_lookup_fmap, Hi. done. }
  rewrite (delete_case_at _ _ _ Hi'). intros [= Heq].
  apply (f_equal chans) in Heq. rewrite chans_inbox in Heq. rewrite <-Heq.
  rewrite <-(chans_inbox (Value:=Value) l) at 1.
  change (ch :: chans ?x) with (chans (SendCase ch None :: x)).
  by apply chans_Permutation, take_drop_delete.
Qed.

(** Removing the entry of a pending subscription. *)
Lemma entries_remove f subs k ch cs :
  entries_ok f subs -> subs !! k = Some (ch, Pending) ->
  delete_case (f_sendCases f) (find (f_sendCases f) ch) = Ret cs ->
  exists i v, find (f_sendCases f) ch = Z.of_nat i /\ f_sendCases f !! i = Some (SendCase ch v) /\
    cs = take i (f_sendCases f) ++ drop (S i) (f_sendCases f) /\
    entries_ok (set_cases cs f) (<[k := (ch, Removed)]> subs).
Proof.
  intros He Hk Hd. destruct (find_spec (f_sendCases f) ch) as [[Hf Hc]|(i & v & Hf & Hi)].
  { rewrite Hf in Hd. unfold delete_case in Hd. done. }
  rewrite Hf, (delete_case_at _ _ _ Hi) in Hd. injection Hd as <-.
  exists i, v. split_and!; [done..|]. intros ch'. destruct (He ch') as [H1 H2].
  destruct (list_update_split subs k _ (ch, Removed) Hk) as (l1 & l2 & E1 & E2). rewrite E2.
  rewrite E1 in H1, H2. rewrite !undone_app, !pending_app, !cnt_app in *. simpl in *.
  pose proof (cnt_Permutation ch' _ _ (chans_Permutation _ _ (take_drop_delete _ _ _ Hi))) as Hp.
  simpl in Hp. rewrite ?cnt_cons in Hp. rewrite ?cnt_cons in H1, H2. case_decide; lia.
Qed.

Lemma pending_has_case f subs k ch :
  entries_ok f subs -> subs !! k = Some (ch, Pending) ->
  exists cs, delete_case (f_sendCases f) (find (f_sendCases f) ch) = Ret cs.
Proof.
  intros He Hk. destruct (find_spec (f_sendCases f) ch) as [[Hf Hc]|(i & v & Hf & Hi)].
  - exfalso. destruct (He ch) as [_ H2].
    destruct (list_update_split subs k _ (ch, Pending) Hk) as (l1 & l2 & E1 & _).
    rewrite E1, pending_app, cnt_app in H2. simpl in H2. rewrite cnt_cons, decide_True in H2 by done. lia.
  - rewrite Hf, (delete_case_at _ _ _ Hi). eauto.
Qed.

(** What both loops of a [Send] keep, with [len] cases active and [nsent] sends. *)
Definition sent_so_far (cs : list (SelectCase Value)) (log : list (nat * Value)) (a : sending)
    (len nsent : nat) : Prop :=
  shape (sends (sn_value a)) cs /\ (1 <= len <= length cs)%nat /\
  exists ds, log = take (sn_log a) log ++ ((fun ch => (ch, sn_value a)) <$> ds) /\
    (sn_log a <= length log)%nat /\ nsent = length ds /\
    sn_targets a ≡ₚ ds ++ sn_dropped a ++ chans (take len cs).

Lemma sending_so_far f log a :
  sending_ok f log a -> sn_phase a <> Locked ->
  sent_so_far (f_sendCases f) log a (sn_len a) (sn_nsent a).
Proof.
  unfold sending_ok, sent_so_far. intros Hok Hph. destruct (sn_phase a); [done|exact Hok|].
  destruct Hok as (? & ? & ?). simpl in *. split_and!; [done|lia|lia|done].
Qed.

(** A delivered case goes to the end of the active ones, which get one fewer. *)
Lemma deactivate_cases f n i ch w :
  f_sendCases f !! i = Some (SendCase ch w) -> (1 <= i)%nat -> (i < n <= length (f_sendCases f))%nat ->
  exists d, f_sendCases (deactivate_at i n f) = d ++ SendCase ch w :: drop n (f_sendCases f) /\
    length d = (n - 1)%nat /\ d ++ [SendCase ch w] ≡ₚ take n (f_sendCases f) /\
    head d = head (f_sendCases f).
Proof.
  intros Hc H1 Hi.
  destruct (deactivate_spec (take n (f_sendCases f)) i (SendCase ch w))
    as (d & Hd & Hperm & Hlen & Hhead); [rewrite lookup_take_lt; [done|lia]|done|].
  exists d. split_and!; [unfold deactivate_at; simpl; by rewrite Hd, <-app_assoc| |done|].
  - rewrite length_app, length_take in Hlen. simpl in Hlen. lia.
  - rewrite Hhead. destruct n; [lia|]. by destruct (f_sendCases f).
Qed.

Lemma deliver_so_far f log a len nsent i ch w :
  sent_so_far (f_sendCases f) log a len nsent -> (i < len)%nat ->
  f_sendCases f !! i = Some (SendCase ch w) ->
  f_sendCases (deactivate_at i len f) ≡ₚ f_sendCases f /\
  sent_so_far (f_sendCases (deactivate_at i len f)) (log ++ [(ch, sn_value a)]) a (len - 1) (nsent + 1).
Proof.
  intros (Hs & Hn & ds & Hlog & Hle & Hns & Ht) Hi Hc.
  assert (Hi1 : (1 <= i)%nat) by (by eapply shape_send).
  destruct (deactivate_cases f len i ch w Hc Hi1) as (d & Hcases & Hdl & Hperm & Hhead); [lia|].
  assert (Hpall : f_sendCases (deactivate_at i len f) ≡ₚ f_sendCases f).
  { rewrite Hcases, cons_middle, app_assoc, Hperm. by rewrite take_drop. }
  split; [done|]. split_and!.
  - eapply shape_perm; [exact Hs|exact Hpall|]. rewrite Hcases, <-Hhead.
    destruct d; [simpl in Hdl; lia|done].
  - lia.
  - rewrite Hpall. lia.
  - exists (ds ++ [ch]). rewrite take_app_le by done. split_and!.
    + rewrite fmap_app. simpl. by rewrite app_assoc, <-Hlog.
    + rewrite length_app. lia.
    + rewrite length_app. simpl. lia.
    + rewrite Ht, Hcases, take_app_length' by done.
      assert (Hch : chans (take len (f_sendCases f)) ≡ₚ ch :: chans d).
      { rewrite <-(chans_Permutation _ _ Hperm), chans_app. simpl. by rewrite Permutation_app_comm. }
      rewrite Hch, <-app_assoc. apply Permutation_app_head. simpl. by rewrite Permutation_middle.
Qed.

Lemma sending_deliver f log a p i ch w :
  sending_ok f log a -> sn_phase a <> Locked -> p <> Locked -> phase_min p = 1 ->
  (i < sn_len a)%nat -> f_sendCases f !! i = Some (SendCase ch w) ->
  f_sendCases (deactivate_at i (sn_len a) f) ≡ₚ f_sendCases f /\
  sending_ok (deactivate_at i (sn_len a) f) (log ++ [(ch, sn_value a)]) (delivered a p).
Proof.
  intros Hok Hph Hp Hmin Hi Hc.
  destruct (deliver_so_far f log a _ _ i ch w (sending_so_far _ _ _ Hok Hph) Hi Hc) as [Hperm Hs].
  split; [done|]. unfold sending_ok. simpl. rewrite Hmin. by destruct p.
Qed.

Lemma sending_remove f log a i ch v :
  sending_ok f log a -> sn_phase a = Selecting -> f_sendCases f !! i = Some (SendCase ch v) ->
  sending_ok (set_cases (take i (f_sendCases f) ++ drop (S i) (f_sendCases f)) f) log
    (if (0 <=? Z.of_nat i)%Z && (Z.of_nat i <? Z.of_nat (sn_len a))%Z
     then dropped a ch else set_phase a (Fast firstSubSendCase)).
Proof.
  intros Hok Hph Hi. unfold sending_ok in Hok. rewrite Hph in Hok.
  destruct Hok as (Hs & Hn & ds & Hlog & Hle & Hns & Ht). simpl in Hn.
  assert (Hi1 : (1 <= i)%nat) by (by eapply shape_send).
  apply lookup_lt_Some in Hi as Hlt. replace (0 <=? Z.of_nat i)%Z with true by lia.
  assert (Hlen : length (take i (f_sendCases f) ++ drop (S i) (f_sendCases f))
                 = (length (f_sendCases f) - 1)%nat)
    by (rewrite length_app, length_take, length_drop; lia).
  destruct (Z.of_nat i <? Z.of_nat (sn_len a))%Z eqn:E; bool_prop; simpl; unfold sending_ok; simpl;
    (split; [by apply shape_delete|]).
  - split; [lia|]. exists ds. split_and!; [done..|]. rewrite Ht. apply Permutation_app_head.
    rewrite <-app_assoc. apply Permutation_app_head.
    assert (Hch : chans (take (sn_len a) (f_sendCases f)) ≡ₚ
      ch :: chans (take i (take (sn_len a) (f_sendCases f)) ++ drop (S i) (take (sn_len a) (f_sendCases f)))).
    { change (ch :: chans ?x) with (chans (SendCase ch v :: x)).
      apply chans_Permutation, take_drop_delete. rewrite lookup_take_lt by lia. done. }
    rewrite Hch. simpl. apply Permutation_skip.
    match goal with |- chans ?x ≡ₚ chans ?y => assert (x = y) as ->; [|done] end.
    rewrite take_app, length_take, take_take, !Nat.min_l by lia.
    rewrite take_take, Nat.min_r by lia. f_equal. rewrite skipn_firstn_comm. f_equal. lia.
  - split; [lia|]. exists ds. split_and!; [done..|]. rewrite Ht.
    do 2 apply Permutation_app_head.
    match goal with |- chans ?x ≡ₚ chans ?y => assert (x = y) as ->; [|done] end.
    rewrite take_app_le by (rewrite length_take; lia).
    rewrite take_take. by rewrite Nat.min_l by lia.
Qed.

Lemma init_ok f subs log :
  system_ok (mkSystem f subs None log) ->
  f_inited (init f) = true /\ f_token (init f) = true /\ shape is_send (f_sendCases (init f)) /\
  entries_ok (init f) subs /\ f_mu (init f) = f_mu f.
Proof.
  intros (He & Hi0 & Hi1 & Hs). simpl in *. unfold init. destruct (f_inited f) eqn:Ei.
  - split_and!; [done|by rewrite Hi1|by apply Hs|done|done].
  - destruct Hi0 as (Hc & Hb & _ & _); [done|]. split_and!; [done|done| | |done].
    + by exists [].
    + intros ch. destruct (He ch) as [H1 H2]. rewrite Hc in H1, H2. done.
Qed.

Lemma subscribe_ok f f' subs o log ch typ :
  system_ok (mkSystem f subs o log) -> Subscribe ch typ f = Ret f' ->
  system_ok (mkSystem f' (subs ++ [(ch, Live)]) o log).
Proof.
  intros (He & Hi0 & Hi1 & Hs) Hsub. simpl in *. unfold Subscribe in Hsub.
  destruct (typecheck typ _) as [etype []]; [|done]. injection Hsub as <-.
  assert (entries_ok (init f) subs /\
    (f_token (init f) = bool_decide (o = None)) /\ f_inited (init f) = true /\
    match o with None => shape is_send (f_sendCases (init f)) | Some a => sending_ok (init f) log a end)
    as (He' & Ht & Hin & Hs').
  { unfold init. destruct (f_inited f) eqn:Ei.
    - split_and!; [done|by apply Hi1|done|]. destruct o; [done|by apply Hs].
    - destruct Hi0 as (Hc & Hb & _ & ->); [done|]. split_and!; [|done|done|by exists []].
      intros ch'. destruct (He ch') as [H1 H2]. rewrite Hc in H1, H2. done. }
  split; [|split; [|split]]; simpl.
  - intros ch'. destruct (He' ch') as [H1 H2]. simpl.
    rewrite undone_app, pending_app, !cnt_app. simpl. rewrite cnt_cons. change (cnt ch' []) with 0. lia.
  - by rewrite Hin.
  - intros _. exact Ht.
  - destruct o; [exact Hs'|by intros _].
Qed.

Lemma begin_ok f subs a log etype :
  system_ok (mkSystem f subs (Some a) log) -> sn_phase a = Locked ->
  let f1 := take_inbox f in
  let cs := set_sends (Some (sn_value a)) (f_sendCases f1) in
  system_ok (mkSystem (mkFeed (f_inited f1) (f_token f1) cs (f_mu f1) (f_inbox f1) etype) subs
    (Some (mkSending (sn_value a) (Fast firstSubSendCase) (length cs) 0 (chans cs) [] (length log))) log).
Proof.
  intros (He & Hi0 & Hi1 & Hs) Hph f1 cs. simpl in *.
  pose proof (sending_shape _ _ _ Hs) as Hsh.
  split; [|split; [|split]]; simpl.
  - intros ch. destruct (He ch) as [H1 H2]. subst cs f1. simpl.
    rewrite chans_set_sends, chans_app, chans_inbox, cnt_app. change (cnt ch []) with 0. lia.
  - intros Hf. by apply Hi0 in Hf as (_ & _ & _ & ?).
  - done.
  - unfold sending_ok. simpl. split; [by apply shape_set_sends, shape_app_inbox|].
    assert (1 <= length cs)%nat by (subst cs f1; simpl; destruct Hsh as (l & -> & _); simpl; lia).
    split; [lia|]. exists []. rewrite firstn_all, app_nil_r, firstn_all. done.
Qed.

(** With a [Send] in progress the feed is initialised and the lock taken. *)
Lemma system_ok_sending f subs a log :
  system_ok (mkSystem f subs (Some a) log) <->
  entries_ok f subs /\ f_inited f = true /\ f_token f = false /\ sending_ok f log a.
Proof.
  unfold system_ok. cbn. split.
  - intros (He & Hi0 & Hi1 & Hs). destruct (f_inited f); [|by destruct Hi0 as (_ & _ & _ & ?)].
    by rewrite Hi1.
  - intros (He & Hi & Ht & Hs). rewrite Hi, Ht. done.
Qed.

Lemma remove_inbox_ok f subs o log k ch l :
  system_ok (mkSystem f subs o log) -> subs !! k = Some (ch, Live) ->
  find_inbox (Value:=Value) (f_inbox f) ch <> (-1)%Z ->
  delete_case (inbox_cases (Value:=Value) (f_inbox f)) (find_inbox (Value:=Value) (f_inbox f) ch) = Ret (inbox_cases l) ->
  system_ok (mkSystem (set_inbox l f) (<[k := (ch, Removed)]> subs) o log).
Proof.
  intros (He & Hi0 & Hi1 & Hsd) Hk Hne Hdel. simpl in *.
  destruct (find_inbox_spec (f_inbox f) ch) as [[Hf _]|(i & Hf & Hi)]; [done|].
  rewrite Hf in *. pose proof (inbox_delete _ _ _ _ Hi Hdel) as Hp.
  split; [|split; [|split]]; simpl; try done.
  - intros ch'. destruct (He ch') as [E1 E2]. rewrite (cnt_Permutation _ _ _ Hp), cnt_cons in E1.
    destruct (list_update_split subs k _ (ch, Removed) Hk) as (l1 & l2 & F1 & F2). rewrite F2. simpl.
    rewrite F1 in E1, E2. rewrite undone_app, pending_app, !cnt_app in *. simpl in *.
    rewrite cnt_cons in E1. case_decide; lia.
  - intros Hf0. apply Hi0 in Hf0 as (_ & Hf0 & _). by rewrite Hf0 in Hi.
Qed.

Lemma pending_undone ch subs : (cnt ch (pending subs) <= cnt ch (undone subs))%nat.
Proof. induction subs as [|[c []] l IHl]; simpl; rewrite ?cnt_cons; lia. Qed.

Lemma remove_wait_ok f subs o log k ch :
  system_ok (mkSystem f subs o log) -> subs !! k = Some (ch, Live) ->
  find_inbox (Value:=Value) (f_inbox f) ch = (-1)%Z ->
  system_ok (mkSystem f (<[k := (ch, Pending)]> subs) o log).
Proof.
  intros (He & Hi0 & Hi1 & Hsd) Hk Hnone. simpl in *.
  destruct (find_inbox_spec (f_inbox f) ch) as [[_ Hc]|(i & Hf & Hi)]; [|rewrite Hf in *; lia].
  split; [|split; [|split]]; simpl; try done.
  intros ch'. destruct (He ch') as [E1 E2].
  destruct (list_update_split subs k _ (ch, Pending) Hk) as (l1 & l2 & F1 & F2). rewrite F2.
  rewrite F1 in E1, E2. pose proof (pending_undone ch' l1). pose proof (pending_undone ch' l2).
  rewrite undone_app, pending_app, !cnt_app in *. simpl in *. rewrite !cnt_cons in *.
  case_decide; [subst ch'; lia|lia].
Qed.

Lemma remove_idle_ok f subs o log k ch cs :
  system_ok (mkSystem f subs o log) -> subs !! k = Some (ch, Pending) -> f_token f = true ->
  delete_case (f_sendCases f) (find (f_sendCases f) ch) = Ret cs ->
  system_ok (mkSystem (set_cases cs f) (<[k := (ch, Removed)]> subs) o log).
Proof.
  intros (He & Hi0 & Hi1 & Hsd) Hk Htok Hdel. simpl in *.
  destruct (entries_remove f subs k ch cs He Hk Hdel) as (i & v & Hf & Hi & -> & He').
  destruct (f_inited f) eqn:Ei; [|destruct Hi0 as (_ & _ & ? & _); [done|congruence]].
  rewrite Hi1 in Htok by done. apply bool_decide_eq_true in Htok as ->.
  split; [done|split; [|split]]; simpl; [by rewrite Ei|by intros _; rewrite Hi1|].
  intros _. specialize (Hsd eq_refl). apply shape_delete; [done|]. by eapply shape_send.
Qed.

Lemma type_panic_ok f subs a log etype :
  system_ok (mkSystem f subs (Some a) log) ->
  let f1 := take_inbox f in
  system_ok (mkSystem (mkFeed (f_inited f1) true (f_sendCases f1) true (f_inbox f1) etype) subs None log).
Proof.
  intros (He & Hi & Ht & Hsd)%system_ok_sending f1. pose proof (sending_shape _ _ _ Hsd) as Hsh.
  split; [|split; [|split]]; simpl.
  - intros ch. destruct (He ch) as [E1 E2]. simpl.
    rewrite chans_app, chans_inbox, cnt_app. change (cnt ch []) with 0. lia.
  - by rewrite Hi.
  - done.
  - intros _. by apply shape_app_inbox.
Qed.

(** The value reaches a channel, from either loop. *)
Lemma deliver_ok f subs log a p i ch v :
  system_ok (mkSystem f subs (Some a) log) -> sn_phase a <> Locked -> p <> Locked -> phase_min p = 1 ->
  (i < sn_len a)%nat -> f_sendCases f !! i = Some (SendCase ch v) ->
  system_ok (mkSystem (deactivate_at i (sn_len a) f) subs (Some (delivered a p)) (log ++ [(ch, sn_value a)])).
Proof.
  intros (He & Hi & Ht & Hsd)%system_ok_sending Hph Hp Hmin Hlen Hc.
  destruct (sending_deliver f log a p i ch v Hsd Hph Hp Hmin Hlen Hc) as [Hperm Hsd'].
  apply system_ok_sending. split_and!; [|done|done|done]. intros ch'. rewrite Hperm. apply He.
Qed.

(** The cases of a select hold the value of the [Send]. *)
Lemma select_value f log a i ch v :
  sending_ok f log a -> sn_phase a = Selecting -> f_sendCases f !! i = Some (SendCase ch (Some v)) ->
  v = sn_value a.
Proof.
  unfold sending_ok. intros Hsd Hph Hi. rewrite Hph in Hsd. destruct Hsd as ((l & Hl & Hsends) & _).
  rewrite Hl in Hi. destruct i as [|i]; [done|]. simpl in Hi.
  destruct (Forall_lookup_1 _ _ _ _ Hsends Hi) as [ch' Hch]. congruence.
Qed.

Lemma feed_step_ok s s' : system_ok s -> feed_step TypeOf s s' -> system_ok s'.
Proof.
  intros Hok Hs. revert Hok. destruct Hs; intros Hok.
  - by eapply subscribe_ok.
  - by eapply remove_inbox_ok.
  - by eapply remove_wait_ok.
  - by eapply remove_idle_ok.
  - destruct (init_ok _ _ _ Hok) as (Hin & _ & Hsh & He & _). by apply system_ok_sending.
  - by apply begin_ok.
  - by apply (type_panic_ok _ _ _ _ _ Hok).
  - eapply deliver_ok; try done. congruence.
  - apply system_ok_sending in Hok as (He & Hi & Ht & Hsd). apply system_ok_sending. split_and!; try done.
    unfold sending_ok in *. by rewrite H in Hsd.
  - apply system_ok_sending in Hok as (He & Hi & Ht & Hsd). apply system_ok_sending. split_and!; try done.
    unfold sending_ok in *. rewrite H in Hsd. simpl in *. unfold firstSubSendCase in *.
    destruct Hsd as (? & ? & ?). split_and!; [done|lia|lia|done].
  - apply system_ok_sending in Hok as (He & Hi & Ht & Hsd).
    destruct (entries_remove f subs k ch cs He H0 H1) as (i & v & Hf & Hc & -> & He').
    apply system_ok_sending. split_and!; try done. subst index. rewrite Hf. by eapply sending_remove.
  - pose proof (proj1 (system_ok_sending _ _ _ _) Hok) as (_ & _ & _ & Hsd).
    rewrite (select_value _ _ _ _ _ _ Hsd H H1) in *. eapply deliver_ok; try done. congruence.
  - apply system_ok_sending in Hok as (He & Hi & Ht & Hsd). pose proof (sending_shape _ _ _ Hsd) as Hsh.
    split; [|split; [|split]]; simpl.
    + intros ch. simpl. rewrite chans_set_sends. apply He.
    + by rewrite Hi.
    + done.
    + intros _. eapply shape_unset_sends; [exact Hsh|done].
Qed.

Lemma initial_system_ok : system_ok (initial_system (Value:=Value)).
Proof. split; [|split; [|split]]; simpl; try done. Qed.

Lemma feed_reachable s : rtc (feed_step TypeOf) initial_system s -> system_ok s.
Proof.
  intros Hr. eapply (rtc_preserves (feed_step TypeOf)); [|exact Hr|apply initial_system_ok].
  apply feed_step_ok.
Qed.

(** ** Progress of a [Send] *)

(** The steps a [Send] that has taken the inbox can still make. *)
Definition send_weight (s : system (Value:=Value)) : nat :=
  match s_send s with
  | None => 0
  | Some a =>
      let k := sn_len a + length (f_sendCases (s_feed s)) in
      k * (k + 3) + match sn_phase a with Fast i => S (sn_len a - i) | _ => 0 end
  end.

Lemma delete_case_length cs i cs' :
  delete_case (Value:=Value) cs i = Ret cs' -> length cs = S (length cs').
Proof.
  unfold delete_case. destruct (_ && _) eqn:E; [|done]. bool_prop. intros [= <-].
  rewrite length_app, length_take, length_drop. lia.
Qed.

(** A step while a [Send] runs is one of its own, which uses up weight, or
    leaves it and the log alone. *)
Lemma send_step_weight s s' a :
  system_ok s -> feed_step TypeOf s s' -> s_send s = Some a -> sn_phase a <> Locked ->
  s_send s' = None \/
  (s_send s' = Some a /\ send_weight s' = send_weight s /\ s_log s' = s_log s) \/
  (exists a', s_send s' = Some a' /\ sn_phase a' <> Locked /\ send_weight s' < send_weight s)%nat.
Proof.
  intros Hok Hs. pose proof (feed_step_ok _ _ Hok Hs) as Hok'. revert Hok Hok'.
  destruct Hs as [f f' subs o log ch typ Hmu Hsub|f subs o log k ch l Hk Hmu Hf Hd
    |f subs o log k ch Hk Hmu Hf|f subs o log k ch cs Hk Htok Hd|f subs log v Htok
    |f subs log b etype Hp Hmu Ht|f subs log b etype Hp Hmu Ht f1
    |f subs log b i ch v Hp Hi Hc|f subs log b i Hp Hi|f subs log b i Hp Hi Hne
    |f subs log b k ch cs Hp Hk Hd|f subs log b i ch v Hp Hi Hc|f subs log b i Hp Hi Hn];
    intros Hok Hok'; simpl; intros Ha Hph; simplify_eq/=; try (by left).
  - right. left. split_and!; [done| |done]. unfold send_weight. simpl.
    unfold Subscribe in Hsub. destruct (typecheck typ _) as [et []]; [|done]. injection Hsub as <-.
    simpl. destruct Hok as (_ & Hi0 & _). unfold init.
    destruct (f_inited f) eqn:Ei; [done|]. by destruct Hi0 as (_ & _ & _ & ?).
  - right. left. done.
  - right. left. done.
  - destruct Hok as (_ & Hi0 & Hi1 & _). simpl in *. destruct (f_inited f).
    + rewrite Hi1 in Htok by done. done.
    + by destruct Hi0 as (_ & _ & _ & ?).
  - right. right. eexists. split; [done|]. split; [done|].
    destruct Hok as (_ & _ & _ & Hsd). simpl in Hsd.
    destruct (sending_deliver f log a (Fast i) i ch v Hsd) as [Hperm _]; [done..|].
    unfold send_weight. cbn [s_send s_feed sn_phase delivered sn_len]. rewrite Hp.
    rewrite Hperm. nia.
  - right. right. eexists. split; [done|]. split; [done|]. unfold send_weight. simpl. rewrite Hp. lia.
  - right. right. eexists. split; [done|]. split; [done|]. unfold send_weight. simpl. rewrite Hp. lia.
  - right. right. apply delete_case_length in Hd. destruct (_ && _) eqn:E; bool_prop.
    + eexists. split; [done|]. split; [done|]. unfold send_weight. simpl. rewrite Hp, Hd. nia.
    + eexists. split; [done|]. split; [done|]. unfold send_weight. simpl. rewrite Hp, Hd. nia.
  - right. right. eexists. split; [done|]. split; [done|].
    destruct Hok as (_ & _ & _ & Hsd). simpl in Hsd.
    destruct (sending_deliver f log a (Fast firstSubSendCase) i ch (Some v) Hsd) as [Hperm _]; [congruence|done..|].
    unfold send_weight. cbn [s_send s_feed sn_phase delivered sn_len]. rewrite Hp, Hperm. nia.
Qed.

(** ** Properties *)

(** In every reachable state the channel of an unsubscription that waits
    has its case, behind the receive case: removing it never indexes the list
    with -1 and never removes the receive from [removeSub]. *)
Theorem removal_finds_case s k ch :
  rtc (feed_step TypeOf) initial_system s -> s_subs s !! k = Some (ch, Pending) ->
  exists i v, find (f_sendCases (s_feed s)) ch = Z.of_nat i /\ (1 <= i)%nat /\
    f_sendCases (s_feed s) !! i = Some (SendCase ch v) /\
    delete_case (f_sendCases (s_feed s)) (Z.of_nat i) =
      Ret (take i (f_sendCases (s_feed s)) ++ drop (S i) (f_sendCases (s_feed s))).
Proof.
  intros Hr Hk. apply feed_reachable in Hr as (He & Hi0 & Hi1 & Hsd).
  destruct (pending_has_case _ _ _ _ He Hk) as [cs Hcs].
  destruct (entries_remove _ _ _ _ _ He Hk Hcs) as (i & v & Hf & Hi & _ & _).
  exists i, v. split_and!; [done| |done|by eapply delete_case_at].
  assert (Hsh : shape is_send (f_sendCases (s_feed s))).
  { destruct (s_send s) as [a|]; [by eapply sending_shape|]. apply Hsd.
    destruct (f_inited (s_feed s)); [done|]. destruct Hi0 as (Hnil & _); [done|]. by rewrite Hnil in Hi. }
  by eapply shape_send.
Qed.

(** C11: when a [Send] finishes it has delivered its value exactly once to each
    channel that was subscribed when it began, apart from those unsubscribed
    before it reached them; its result is the number of deliveries. *)
Theorem send_delivers_once s a i :
  rtc (feed_step TypeOf) initial_system s -> s_send s = Some a ->
  sn_phase a = Fast i -> (sn_len a <= i)%nat -> sn_len a = firstSubSendCase ->
  exists ds, s_log s = take (sn_log a) (s_log s) ++ ((fun ch => (ch, sn_value a)) <$> ds) /\
    sn_nsent a = length ds /\ sn_targets a ≡ₚ ds ++ sn_dropped a.
Proof.
  intros Hr Ha Hph Hi Hn. apply feed_reachable in Hr as (_ & _ & _ & Hsd). rewrite Ha in Hsd.
  unfold sending_ok in Hsd. rewrite Hph in Hsd.
  destruct Hsd as ((l & Hl & _) & _ & ds & Hlog & _ & Hns & Ht).
  exists ds. split_and!; [done..|]. rewrite Ht, Hl, Hn. simpl. by rewrite app_nil_r.
Qed.

(** Once all subscriptions of a channel have been removed, nothing is
    delivered on it any more, until someone subscribes it again. *)
Theorem removed_channel_is_silent s s' ch :
  rtc (feed_step TypeOf) initial_system s -> cnt ch (undone (s_subs s)) = 0%nat ->
  feed_step TypeOf s s' ->
  s_log s' = s_log s \/ exists ch' v, ch' <> ch /\ s_log s' = s_log s ++ [(ch', v)].
Proof.
  intros Hr Hc Hs. apply feed_reachable in Hr as (He & _ & _ & _). destruct (He ch) as [H1 _].
  assert (Hnot : forall i ch' v, f_sendCases (s_feed s) !! i = Some (SendCase ch' v) -> ch' <> ch).
  { intros i ch' v Hi ->. rewrite (take_drop_delete _ _ _ Hi) in H1. simpl in H1.
    rewrite cnt_cons, decide_True in H1 by done. lia. }
  destruct Hs; simpl in *; eauto 6.
Qed.

(** ** Going on and waiting *)

(** The [Send] in progress can make a step of its own. *)
Definition send_can_move (s : system (Value:=Value)) : Prop :=
  exists s', feed_step TypeOf s s' /\ s_send s' <> s_send s.

(** Past the mutex it always can. *)
Lemma started_send_can_move s a :
  system_ok s -> s_send s = Some a -> sn_phase a <> Locked -> send_can_move s.
Proof.
  destruct s as [f subs o log]. unfold send_can_move. simpl. intros Hok -> Hph.
  destruct (sn_phase a) as [|i|] eqn:Ep; [done|..].
  - destruct (decide (i < sn_len a)%nat).
    + eexists. split; [by apply fs_try_fail|]. simpl. intros [= E].
      apply (f_equal sn_phase) in E. simpl in E. rewrite Ep in E. injection E. lia.
    + destruct (decide (sn_len a = firstSubSendCase)).
      * eexists. split; [eapply fs_finish; [exact Ep|lia|done]|done].
      * eexists. split; [eapply fs_select; [exact Ep|lia|done]|]. simpl. intros [= E].
        apply (f_equal sn_phase) in E. simpl in E. congruence.
  - destruct Hok as (_ & _ & _ & Hsd). simpl in Hsd. unfold sending_ok in Hsd. rewrite Ep in Hsd.
    destruct Hsd as ((l & Hl & Hsends) & Hn & _).
    destruct (f_sendCases f !! 1%nat) as [c|] eqn:Ec.
    2:{ apply lookup_ge_None in Ec. simpl in Hn. lia. }
    assert (sends (sn_value a) c) as [ch ->].
    { rewrite Hl in Ec. simpl in Ec. by eapply (Forall_lookup_1 _ _ 0). }
    eexists. split; [eapply fs_select_send; [exact Ep| |exact Ec]; simpl in Hn; lia|].
    simpl. intros [= E]. apply (f_equal sn_len) in E. simpl in *. lia.
Qed.

(** At the mutex it can if the mutex is free. *)
Lemma locked_send_can_move s a :
  s_send s = Some a -> sn_phase a = Locked -> f_mu (s_feed s) = false -> send_can_move s.
Proof.
  destruct s as [f subs o log]. unfold send_can_move. simpl. intros -> Hph Hmu.
  destruct (typecheck (TypeOf (sn_value a)) (f_etype f)) as [etype []] eqn:Ht.
  - eexists. split; [by eapply fs_begin|]. simpl. intros [= E].
    apply (f_equal sn_phase) in E. simpl in E. congruence.
  - eexists. split; [by eapply fs_type_panic|done].
Qed.

(** The steps of a system whose [Send] is at the free mutex. *)
Lemma locked_send_step s s' a :
  feed_step TypeOf s s' -> s_send s = Some a -> sn_phase a = Locked -> f_mu (s_feed s) = false ->
  (s_send s' = Some a /\ f_mu (s_feed s') = false /\ s_log s' = s_log s) \/
  exists etype ok, typecheck (TypeOf (sn_value a)) (f_etype (s_feed s)) = (etype, ok) /\
    s_log s' = s_log s /\
    if ok : bool then exists a', s_send s' = Some a' /\ sn_phase a' <> Locked else s_send s' = None.
Proof.
  intros Hs Ha Hp Hmu. destruct Hs; simplify_eq/=; try congruence; try (by left).
  - left. split_and!; [done| |done].
    match goal with H : Subscribe _ _ _ = Ret _ |- _ => unfold Subscribe in H end.
    destruct (typecheck typ _) as [et []]; simplify_eq/=. unfold init. by destruct (f_inited f).
  - right. do 2 eexists. split; [done|]. split; [done|]. by eexists.
  - right. do 2 eexists. split; [done|]. by split.
Qed.

(** Nobody gets past the mutex while it is held for good. *)
Definition waits_at_mutex (s : system (Value:=Value)) : Prop :=
  match s_send s with Some a => sn_phase a = Locked | None => True end.

Lemma mutex_held s s' :
  feed_step TypeOf s s' -> f_mu (s_feed s) = true -> waits_at_mutex s ->
  f_mu (s_feed s') = true /\ waits_at_mutex s' /\ s_log s' = s_log s /\
  length (s_subs s') = length (s_subs s) /\
  (forall a, s_send s = Some a -> s_send s' = Some a).
Proof.
  unfold waits_at_mutex. intros Hs Hmu Hw. destruct Hs; simpl in *; try congruence.
  - split_and!; [done..|by rewrite length_insert|done].
  - unfold init. by destruct (f_inited f).
Qed.

Lemma mutex_held_for_good s s' :
  rtc (feed_step TypeOf) s s' -> f_mu (s_feed s) = true -> waits_at_mutex s ->
  f_mu (s_feed s') = true /\ waits_at_mutex s' /\ s_log s' = s_log s /\
  length (s_subs s') = length (s_subs s) /\
  (forall a, s_send s = Some a -> s_send s' = Some a).
Proof.
  induction 1 as [s|s s1 s' Hs _ IH]; [by intros Hmu Hw; split_and!|]. intros Hmu Hw.
  destruct (mutex_held _ _ Hs Hmu Hw) as (Hmu1 & Hw1 & Hl1 & Hn1 & Ha1).
  destruct (IH Hmu1 Hw1) as (Hmu2 & Hw2 & Hl2 & Hn2 & Ha2).
  split_and!; [done|done|congruence|congruence|auto].
Qed.

(** Only a [Send] of a value of another type leaves the mutex locked. *)
Lemma mutex_left_locked s s' :
  feed_step TypeOf s s' -> f_mu (s_feed s) = false -> f_mu (s_feed s') = true ->
  exists a etype, s_send s = Some a /\ sn_phase a = Locked /\
    typecheck (TypeOf (sn_value a)) (f_etype (s_feed s)) = (etype, false) /\ s_send s' = None.
Proof.
  assert (Hinit : forall f : Feed (Value:=Value), f_mu (init f) = f_mu f)
    by (intros f; unfold init; by destruct (f_inited f)).
  intros Hs Hmu Hmu'. destruct Hs; simpl in *; try congruence; eauto 6.
  match goal with H : Subscribe _ _ _ = Ret _ |- _ => unfold Subscribe in H end.
  destruct (typecheck typ _) as [et []]; simplify_eq/=. congruence.
Qed.

(** C24: a [Send] that holds the send lock terminates, unless it finds the
    feed's mutex left locked.  Past the mutex, whatever other goroutines do, it
    can always go on as long as the channels accept values, each of its steps
    uses up its weight, and no step of another gives any back.  Before a free
    mutex it can go on as well, to panic where its value has another type than
    the feed and to get past the mutex otherwise, and no step of another
    changes that.  Before a mutex that a panic of an earlier [Send] has left
    locked it waits for ever. *)
Theorem send_terminates s a :
  rtc (feed_step TypeOf) initial_system s -> s_send s = Some a ->
  (sn_phase a <> Locked ->
     (exists s', feed_step TypeOf s s' /\
        (s_send s' = None \/ send_weight s' < send_weight s)%nat) /\
     (forall s', feed_step TypeOf s s' ->
        s_send s' = None \/
        (s_send s' = Some a /\ send_weight s' = send_weight s /\ s_log s' = s_log s) \/
        (exists a', s_send s' = Some a' /\ sn_phase a' <> Locked /\ send_weight s' < send_weight s)%nat)) /\
  (sn_phase a = Locked -> f_mu (s_feed s) = false ->
     (exists s', feed_step TypeOf s s' /\ s_send s' <> Some a) /\
     (forall s', feed_step TypeOf s s' ->
        (s_send s' = Some a /\ f_mu (s_feed s') = false /\ s_log s' = s_log s) \/
        exists etype ok, typecheck (TypeOf (sn_value a)) (f_etype (s_feed s)) = (etype, ok) /\
          s_log s' = s_log s /\
          if ok : bool then exists a', s_send s' = Some a' /\ sn_phase a' <> Locked
          else s_send s' = None)) /\
  (sn_phase a = Locked -> f_mu (s_feed s) = true ->
     forall s', rtc (feed_step TypeOf) s s' -> s_send s' = Some a /\ s_log s' = s_log s).
Proof.
  intros Hr Ha. pose proof (feed_reachable _ Hr) as Hok. split_and!.
  - intros Hph. split; [|intros s' Hs; by apply send_step_weight].
    destruct (started_send_can_move s a Hok Ha Hph) as (s' & Hs & Hne). exists s'. split; [done|].
    destruct (send_step_weight _ _ _ Hok Hs Ha Hph) as [?|[(? & _)|(a' & _ & _ & ?)]];
      [by left|congruence|by right].
  - intros Hph Hmu. split; [|intros s' Hs; by apply locked_send_step].
    rewrite <-Ha. by eapply locked_send_can_move.
  - intros Hph Hmu s' Hr'.
    destruct (mutex_held_for_good _ _ Hr' Hmu) as (_ & _ & Hl & _ & Hs); [|by auto].
    unfold waits_at_mutex. by rewrite Ha.
Qed.

(** C40: a [Send] of a value of another type panics with the mutex held: from
    then on nothing is ever delivered, no channel can be subscribed, and every
    later [Send] blocks after taking the send lock. *)
Theorem type_panic_blocks_feed s a etype :
  s_send s = Some a -> sn_phase a = Locked -> f_mu (s_feed s) = false ->
  typecheck (TypeOf (sn_value a)) (f_etype (s_feed s)) = (etype, false) ->
  exists s1, feed_step TypeOf s s1 /\ s_send s1 = None /\
    forall s2, rtc (feed_step TypeOf) s1 s2 ->
      s_log s2 = s_log s /\ length (s_subs s2) = length (s_subs s) /\ waits_at_mutex s2.
Proof.
  destruct s as [f subs o log]. simpl. intros -> Hph Hmu Ht. eexists. split; [by apply fs_type_panic|].
  split; [done|]. intros s2 Hr.
  by destruct (mutex_held_for_good _ _ Hr eq_refl I) as (_ & Hw & Hl & Hn & _).
Qed.

End Invariant.

(** ** A concrete run *)

(** Values below 100 have one type, the others another. *)
Definition demo_type (v : nat) : nat := if v <? 100 then 0 else 1.
Notation dstep := (feed_step demo_type).

Definition demo_subscribed : system (Value:=nat) :=
  mkSystem (mkFeed true true [RecvCase] false [7] (Some 0)) [(7, Live)] None [].

Definition demo_sending (p : phase) (n nsent : nat) (dropped : list nat) : sending (Value:=nat) :=
  mkSending 5 p n nsent [7] dropped 0.
Definition demo_feed (tok : bool) (v : option nat) : Feed (Value:=nat) :=
  mkFeed true tok [RecvCase; SendCase 7 v] false [] (Some 0).

Definition demo_begun : system (Value:=nat) :=
  mkSystem (demo_feed false (Some 5)) [(7, Live)] (Some (demo_sending (Fast 1) 2 0 [])) [].
Definition demo_sent : system (Value:=nat) :=
  mkSystem (demo_feed false (Some 5)) [(7, Live)] (Some (demo_sending (Fast 1) 1 1 [])) [(7, 5)].
Definition demo_waiting : system (Value:=nat) :=
  mkSystem (demo_feed true None) [(7, Pending)] None [(7, 5)].

Lemma demo_subscribed_reached : rtc dstep initial_system demo_subscribed.
Proof. apply rtc_once. by apply (fs_subscribe demo_type zero_feed _ [] None [] 7 0). Qed.

Lemma demo_begun_reached : rtc dstep initial_system demo_begun.
Proof.
  etransitivity; [apply demo_subscribed_reached|].
  eapply rtc_l; [by apply (fs_lock demo_type _ _ _ 5)|]. apply rtc_once.
  exact (fs_begin demo_type (mkFeed true false [RecvCase] false [7] (Some 0)) [(7, Live)] []
    (mkSending 5 Locked 0 0 [] [] 0) (Some 0) eq_refl eq_refl eq_refl).
Qed.

Lemma demo_sent_reached : rtc dstep initial_system demo_sent.
Proof.
  etransitivity; [apply demo_begun_reached|]. apply rtc_once.
  exact (fs_try_ok demo_type (demo_feed false (Some 5)) [(7, Live)] [] (demo_sending (Fast 1) 2 0 [])
    1 7 (Some 5) eq_refl (le_n 2) eq_refl).
Qed.

Lemma demo_waiting_reached : rtc dstep initial_system demo_waiting.
Proof.
  etransitivity; [apply demo_sent_reached|].
  eapply rtc_l; [exact (fs_finish demo_type (demo_feed false (Some 5)) [(7, Live)] [(7, 5)]
    (demo_sending (Fast 1) 1 1 []) 1 eq_refl (le_n 1) eq_refl)|].
  apply rtc_once.
  exact (fs_remove_wait demo_type (demo_feed true None) [(7, Live)] None [(7, 5)] 0 7 eq_refl eq_refl eq_refl).
Qed.

Lemma removal_finds_case_witness : find (f_sendCases (s_feed demo_waiting)) 7 = 1%Z.
Proof.
  destruct (removal_finds_case demo_type demo_waiting 0 7 demo_waiting_reached eq_refl)
    as (i & v & Hf & H1 & Hi & _).
  rewrite Hf. destruct i as [|[|i]]; [discriminate|reflexivity|discriminate].
Defined.

Lemma send_delivers_once_witness : exists ds, [7] ≡ₚ ds ++ [] /\ length ds = 1.
Proof.
  destruct (send_delivers_once demo_type demo_sent (demo_sending (Fast 1) 1 1 []) 1
    demo_sent_reached eq_refl eq_refl) as (ds & _ & Hn & Hp); [simpl; lia|reflexivity|].
  exists ds. split; [exact Hp|]. symmetry. exact Hn.
Defined.

Lemma removed_channel_is_silent_witness :
  let s' := mkSystem (demo_feed false None) [(7, Pending)]
              (Some (mkSending 6 Locked 0 0 [] [] 1)) [(7, 5)] in
  s_log s' = [(7, 5)] \/ exists ch' v, ch' <> 8 /\ s_log s' = [(7, 5); (ch', v)].
Proof.
  apply (removed_channel_is_silent demo_type demo_waiting _ 8 demo_waiting_reached eq_refl).
  exact (fs_lock demo_type (demo_feed true None) [(7, Pending)] [(7, 5)] 6 eq_refl).
Defined.

Lemma send_terminates_witness :
  exists s', dstep demo_begun s' /\ (s_send s' = None \/ send_weight s' < send_weight demo_begun).
Proof.
  destruct (send_terminates demo_type demo_begun (demo_sending (Fast 1) 2 0 []) demo_begun_reached
    eq_refl) as [H _]. destruct H as [H _]; [discriminate|exact H].
Defined.

Definition demo_mismatch : system (Value:=nat) :=
  mkSystem (mkFeed true false [RecvCase] false [7] (Some 0)) [(7, Live)]
    (Some (mkSending 200 Locked 0 0 [] [] 0)) [].

Lemma type_panic_blocks_feed_witness :
  exists s1, dstep demo_mismatch s1 /\ s_send s1 = None.
Proof.
  destruct (type_panic_blocks_feed demo_type demo_mismatch (mkSending 200 Locked 0 0 [] [] 0) (Some 0)
    eq_refl eq_refl eq_refl eq_refl) as (s1 & H1 & H2 & _).
  exists s1. split; [exact H1|exact H2].
Defined.
