(* ===== verification/FeedLive.v ===== *)
(** * pkg/event/feed.go: who returns, and who waits for ever

    The liveness of feeds.  An execution is an infinite sequence of states that
    makes steps of [feed_step] or stands still.  The fairness assumed is weak: a
    [Send] that can go on does go on at last, or comes to a state where it
    cannot.  Where it can is proved of the steps: everywhere but at a mutex that
    the panic of an earlier [Send] has left locked. *)

From S2P Require Import Prelude Feed.
From Stdlib Require Import Lia.
From stdpp Require Import list relations.

Section Liveness.
Context {Value : Type}.
Variable TypeOf : Value -> nat.
Variable trace : nat -> system (Value:=Value).
Implicit Types (s : system (Value:=Value)) (a : sending (Value:=Value)).

(** Steps from the new feed, or standing still. *)
Definition execution : Prop :=
  rtc (feed_step TypeOf) initial_system (trace 0) /\
  forall i, trace (S i) = trace i \/ feed_step TypeOf (trace i) (trace (S i)).

(** Weak fairness for the senders: a [Send] in progress that can make a step of
    its own from some state on makes one.  For one that runs this is the
    scheduler's promise; for one in its select it says that a receiver takes the
    value, or an unsubscription is taken, after all. *)
Definition weakly_fair : Prop :=
  forall i, s_send (trace i) <> None ->
  exists j, i <= j /\
    (s_send (trace (S j)) <> s_send (trace j) \/ ~ send_can_move TypeOf (trace j)).

(** A [Send] at the mutex while it is locked for good. *)
Definition blocked s : Prop :=
  f_mu (s_feed s) = true /\ exists a, s_send s = Some a /\ sn_phase a = Locked.

(** An unsubscription is done, or waits and can be taken by the free send lock
    or by a sender in its select. *)
Definition removal_offered (k : nat) s : Prop :=
  (exists ch, s_subs s !! k = Some (ch, Removed)) \/
  (exists ch, s_subs s !! k = Some (ch, Pending)) /\
  (f_token (s_feed s) = true \/ exists a, s_send s = Some a /\ sn_phase a = Selecting).

(** One that is offered again and again is taken at last. *)
Definition removal_chosen (k : nat) : Prop :=
  forall i, (forall i', i <= i' -> exists j, i' <= j /\ removal_offered k (trace j)) ->
  exists j ch, i <= j /\ s_subs (trace j) !! k = Some (ch, Removed).

Hypothesis Hexec : execution.

Lemma execution_reachable i : rtc (feed_step TypeOf) initial_system (trace i).
Proof.
  destruct Hexec as [H0 Hs]. induction i as [|i IH]; [done|].
  destruct (Hs i) as [->|H]; [done|]. by eapply rtc_r.
Qed.

Lemma execution_ok i : system_ok (trace i).
Proof. eapply feed_reachable, execution_reachable. Qed.

(** A [Send] in progress that can move does not stay as it is: a property [P] of
    it that each step keeps, unless the [Send] ends or [Q] is reached, gives
    way. *)
Lemma send_moves_on a (P Q : system -> Prop) i :
  weakly_fair -> (forall s, P s -> s_send s = Some a) ->
  (forall m, P (trace m) -> send_can_move TypeOf (trace m)) ->
  (forall m, P (trace m) -> feed_step TypeOf (trace m) (trace (S m)) ->
     P (trace (S m)) \/ s_send (trace (S m)) = None \/ Q (trace (S m))) ->
  P (trace i) -> exists m, i <= m /\ (s_send (trace m) = None \/ Q (trace m)).
Proof.
  intros Hfair Hsend Hcan Hstep HP.
  assert (Huntil : forall j, i <= j ->
    P (trace j) \/ exists m, i <= m /\ (s_send (trace m) = None \/ Q (trace m))).
  { intros j Hij. induction Hij as [|j Hij [IH|?]]; [by left| |by right].
    destruct Hexec as [_ Hs]. destruct (Hs j) as [E|Hj]; [left; by rewrite E|].
    destruct (Hstep j IH Hj) as [?|?]; [by left|]. right. exists (S j). split; [lia|done]. }
  destruct (Hfair i) as (j & Hij & Hne); [by rewrite (Hsend _ HP)|].
  destruct (Huntil j Hij) as [H1|?]; [|done]. destruct (Huntil (S j) ltac:(lia)) as [H2|?]; [|done].
  destruct Hne as [Hne|Hno]; [|by destruct Hno; apply Hcan].
  apply Hsend in H1, H2. congruence.
Qed.

Lemma started_send_returns n i a :
  weakly_fair -> s_send (trace i) = Some a -> sn_phase a <> Locked -> send_weight (trace i) <= n ->
  exists j, i <= j /\ s_send (trace j) = None.
Proof.
  intros Hfair. revert i a. induction n as [n IH] using lt_wf_ind. intros i a Ha Hp Hn.
  destruct (send_moves_on a
    (fun s => s_send s = Some a /\ send_weight s = send_weight (trace i))
    (fun s => exists a', s_send s = Some a' /\ sn_phase a' <> Locked /\ send_weight s < send_weight (trace i))
    i Hfair) as (m & Him & [?|(a' & Ha' & Hp' & Hw)]); [by intros s []| | |done|by exists m|].
  - intros m [Hm _]. eapply started_send_can_move; [apply execution_ok|done..].
  - intros m [Hm Hw] Hs.
    destruct (send_step_weight TypeOf _ _ _ (execution_ok m) Hs Hm Hp) as [?|[(? & ? & _)|(a' & ? & ? & ?)]].
    + by right; left.
    + left. split; [done|congruence].
    + right. right. exists a'. split_and!; [done..|lia].
  - destruct (IH (send_weight (trace m)) ltac:(lia) m a' Ha' Hp' ltac:(done)) as (j & ? & ?).
    exists j. split; [lia|done].
Qed.

Lemma locked_send_returns i a :
  weakly_fair -> s_send (trace i) = Some a -> sn_phase a = Locked -> f_mu (s_feed (trace i)) = false ->
  exists j, i <= j /\ s_send (trace j) = None.
Proof.
  intros Hfair Ha Hp Hmu.
  destruct (send_moves_on a (fun s => s_send s = Some a /\ f_mu (s_feed s) = false)
    (fun s => exists a', s_send s = Some a' /\ sn_phase a' <> Locked) i Hfair)
    as (m & Him & [?|(a' & Ha' & Hp')]); [by intros s []| | |done|by exists m|].
  - intros m [Hm Hmu']. by eapply locked_send_can_move.
  - intros m [Hm Hmu'] Hs.
    destruct (locked_send_step TypeOf _ _ _ Hs Hm Hp Hmu') as [(? & ? & _)|(etype & [] & _ & _ & ?)]; auto.
  - destruct (started_send_returns _ m a' Hfair Ha' Hp' (le_n _)) as (j & ? & ?).
    exists j. split; [lia|done].
Qed.

Lemma send_returns i : weakly_fair -> ~ blocked (trace i) -> exists j, i <= j /\ s_send (trace j) = None.
Proof.
  intros Hfair Hno. destruct (s_send (trace i)) as [a|] eqn:Ha; [|by exists i].
  destruct (sn_phase a) eqn:Hp.
  - eapply locked_send_returns; [done..|]. apply not_true_iff_false. intros Hmu. apply Hno.
    split; [done|]. by exists a.
  - eapply (started_send_returns _ i a); [done|done|congruence|done].
  - eapply (started_send_returns _ i a); [done|done|congruence|done].
Qed.

(** What is blocked stays as it is. *)
Lemma blocked_stays i j a :
  i <= j -> f_mu (s_feed (trace i)) = true -> s_send (trace i) = Some a -> sn_phase a = Locked ->
  f_mu (s_feed (trace j)) = true /\ s_send (trace j) = Some a.
Proof.
  intros Hij Hmu Ha Hp. induction Hij as [|j Hij [IH1 IH2]]; [done|].
  destruct Hexec as [_ Hs]. destruct (Hs j) as [->|Hj]; [done|].
  destruct (mutex_held TypeOf _ _ Hj IH1) as (H1 & _ & _ & _ & H2); [|by auto].
  unfold waits_at_mutex. by rewrite IH2.
Qed.

(** Once it waits, an unsubscription waits or is done. *)
Definition waits_or_done (k ch : nat) s : Prop :=
  s_subs s !! k = Some (ch, Pending) \/ s_subs s !! k = Some (ch, Removed).

Lemma waits_or_done_step s s' k ch :
  feed_step TypeOf s s' -> waits_or_done k ch s -> waits_or_done k ch s'.
Proof.
  intros Hs Hk. assert (Hlt : k < length (s_subs s)) by (destruct Hk; by eapply lookup_lt_Some).
  unfold waits_or_done in *. destruct Hs; simplify_eq/=; try done;
    try (by rewrite !lookup_app_l by done).
  all: match goal with H : ?subs !! ?k' = Some _ |- context [<[?k' := _]> ?subs] =>
         destruct (decide (k' = k)) as [->|]; [|by rewrite !list_lookup_insert_ne by done] end;
       rewrite !list_lookup_insert_eq by done; destruct Hk; simplify_eq; by right.
Qed.

Lemma waits_or_done_after i j k ch :
  i <= j -> waits_or_done k ch (trace i) -> waits_or_done k ch (trace j).
Proof.
  intros Hij Hk. induction Hij as [|j Hij IH]; [done|]. destruct Hexec as [_ Hs].
  destruct (Hs j) as [->|Hj]; [done|]. by eapply waits_or_done_step.
Qed.

(** Between two [Send]s an unsubscription that waits is offered. *)
Lemma idle_offers s k ch :
  system_ok s -> s_send s = None -> waits_or_done k ch s -> removal_offered k s.
Proof.
  intros (He & Hi0 & Hi1 & _) Hnone [Hk|Hk]; [|by left; exists ch].
  right. split; [by exists ch|]. left. destruct (f_inited (s_feed s)).
  - rewrite Hi1 by done. by apply bool_decide_eq_true.
  - destruct Hi0 as (Hnil & _); [done|]. destruct (pending_has_case _ _ _ _ He Hk) as [cs Hcs].
    unfold delete_case in Hcs. rewrite Hnil in Hcs. discriminate.
Qed.


End Liveness.

(** ** A concrete execution *)

Definition live_locked : system (Value:=nat) :=
  mkSystem (mkFeed true false [RecvCase] false [7] (Some 0)) [(7, Live)]
    (Some (mkSending 5 Locked 0 0 [] [] 0)) [].
Definition live_pending : system (Value:=nat) :=
  mkSystem (demo_feed false (Some 5)) [(7, Pending)] (Some (demo_sending (Fast 1) 2 0 [])) [].
Definition live_sent : system (Value:=nat) :=
  mkSystem (demo_feed false (Some 5)) [(7, Pending)] (Some (demo_sending (Fast 1) 1 1 [])) [(7, 5)].
Definition live_removed : system (Value:=nat) :=
  mkSystem (mkFeed true true [RecvCase] false [] (Some 0)) [(7, Removed)] None [(7, 5)].

(** A [Send] during which the only channel is unsubscribed. *)
Definition live_trace (i : nat) : system (Value:=nat) :=
  default live_removed ([initial_system; demo_subscribed; live_locked; demo_begun; live_pending;
    live_sent; demo_waiting] !! i).

Lemma live_trace_execution : execution demo_type live_trace.
Proof.
  split; [done|]. intros [|[|[|[|[|[|[|i]]]]]]]; [right..|by left].
  - by apply (fs_subscribe demo_type zero_feed _ [] None [] 7 0).
  - exact (fs_lock demo_type (mkFeed true true [RecvCase] false [7] (Some 0)) [(7, Live)] [] 5 eq_refl).
  - exact (fs_begin demo_type (mkFeed true false [RecvCase] false [7] (Some 0)) [(7, Live)] []
      (mkSending 5 Locked 0 0 [] [] 0) (Some 0) eq_refl eq_refl eq_refl).
  - exact (fs_remove_wait demo_type (demo_feed false (Some 5)) [(7, Live)]
      (Some (demo_sending (Fast 1) 2 0 [])) [] 0 7 eq_refl eq_refl eq_refl).
  - exact (fs_try_ok demo_type (demo_feed false (Some 5)) [(7, Pending)] [] (demo_sending (Fast 1) 2 0 [])
      1 7 (Some 5) eq_refl (le_n 2) eq_refl).
  - exact (fs_finish demo_type (demo_feed false (Some 5)) [(7, Pending)] [(7, 5)]
      (demo_sending (Fast 1) 1 1 []) 1 eq_refl (le_n 1) eq_refl).
  - exact (fs_remove_idle demo_type (demo_feed true None) [(7, Pending)] None [(7, 5)] 0 7 _
      eq_refl eq_refl eq_refl).
Qed.

