(* ===== verification/Scope.v ===== *)
(** * pkg/event/subscription.go: groups of subscriptions

    [SubscriptionScope] and its wrapper [scopeSub].  The scope's methods run
    under its mutex; the wrapper's [Unsubscribe] calls the subscription it
    wraps before it takes the mutex, so the step relation splits it there. *)

From S2P Require Import Prelude.
From Stdlib Require Import Lia.
From stdpp Require Import gmap list relations.

(** [sc_subs] is the map [subs], nil or with the addresses of the wrappers
    tracked; [sc_wrapped] the subscriptions of all wrappers made, by address;
    [sc_calls] the calls of [Unsubscribe] on wrapped subscriptions so far, by
    wrapper; [sc_pending] the wrappers whose [Unsubscribe] has made its call
    and waits for the mutex. *)
Record SubscriptionScope := mkScope {
  sc_subs : option (gset nat);
  sc_closed : bool;
  sc_wrapped : list nat;
  sc_calls : list nat;
  sc_pending : list nat
}.

Definition zero_scope : SubscriptionScope := mkScope None false [] [] [].

Definition tracked (sc : SubscriptionScope) : gset nat := default ∅ (sc_subs sc).

(** [sc.Track(s)]: nil, or the wrapper. *)
Definition Track (s : nat) (sc : SubscriptionScope) : option nat * SubscriptionScope :=
  if sc_closed sc then (None, sc)
  else
    let subs := match sc_subs sc with None => ∅ | Some m => m end in
    let ss := length (sc_wrapped sc) in
    (Some ss, mkScope (Some ({[ss]} ∪ subs)) (sc_closed sc) (sc_wrapped sc ++ [s])
                (sc_calls sc) (sc_pending sc)).

(** [sc.Close()], with the order in which the map is iterated. *)
Definition Close (order : list nat) (sc : SubscriptionScope) : SubscriptionScope :=
  if sc_closed sc then sc
  else mkScope None true (sc_wrapped sc) (sc_calls sc ++ order) (sc_pending sc).

(** [sc.Count()]. *)
Definition Count (sc : SubscriptionScope) : nat := size (tracked sc).

(** [s.Unsubscribe()] of a wrapper: the call, then the deletion under the
    mutex, which does nothing on a nil map. *)
Definition scopeSub_call (ss : nat) (sc : SubscriptionScope) : SubscriptionScope :=
  mkScope (sc_subs sc) (sc_closed sc) (sc_wrapped sc) (sc_calls sc ++ [ss]) (ss :: sc_pending sc).
Definition scopeSub_delete (ss : nat) (rest : list nat) (sc : SubscriptionScope) : SubscriptionScope :=
  mkScope ((fun m => m ∖ {[ss]}) <$> sc_subs sc) (sc_closed sc) (sc_wrapped sc) (sc_calls sc) rest.

Inductive scope_step : SubscriptionScope -> SubscriptionScope -> Prop :=
| sc_track s sc : scope_step sc (Track s sc).2
| sc_close order sc : order ≡ₚ elements (tracked sc) -> scope_step sc (Close order sc)
| sc_unsubscribe ss sc : (ss < length (sc_wrapped sc))%nat -> scope_step sc (scopeSub_call ss sc)
| sc_delete ss l1 l2 sc :
    sc_pending sc = l1 ++ ss :: l2 -> scope_step sc (scopeSub_delete ss (l1 ++ l2) sc).

(** Every wrapper is tracked or its subscription was cancelled; a wrapper that
    waits to delete itself has made its call; a closed scope tracks nothing. *)
Definition scope_ok (sc : SubscriptionScope) : Prop :=
  (forall ss, (ss < length (sc_wrapped sc))%nat -> ss ∈ tracked sc \/ ss ∈ sc_calls sc) /\
  (forall ss, ss ∈ sc_pending sc -> ss ∈ sc_calls sc) /\
  (forall ss, ss ∈ tracked sc -> (ss < length (sc_wrapped sc))%nat) /\
  (sc_closed sc = true -> sc_subs sc = None).

Lemma scope_step_ok sc sc' : scope_ok sc -> scope_step sc sc' -> scope_ok sc'.
Proof.
  intros Hok Hs. revert Hok. destruct Hs as [s sc|order sc Ho|ss sc Hss|ss l1 l2 sc Hp];
    intros Hok; pose proof Hok as (H1 & H2 & H3 & H4).
  - unfold Track. destruct (sc_closed sc) eqn:Ec; simpl; [exact Hok|]. clear Hok.
    unfold scope_ok, tracked in *. simpl.
    assert (Hd : match sc_subs sc with None => ∅ | Some m => m end = default ∅ (sc_subs sc))
      by (by destruct (sc_subs sc)). rewrite Hd.
    rewrite length_app. simpl. split_and!; [|done| |congruence].
    + intros ss Hss. destruct (decide (ss = length (sc_wrapped sc))) as [->|]; [set_solver|].
      destruct (H1 ss); [lia|set_solver|by right].
    + intros ss [->%elem_of_singleton|Hss]%elem_of_union; [lia|]. apply H3 in Hss. lia.
  - unfold Close. destruct (sc_closed sc) eqn:Ec; [exact Hok|]. clear Hok. unfold scope_ok, tracked in *. simpl.
    split_and!; [|set_solver|set_solver|done]. intros ss Hss. right. rewrite elem_of_app, Ho.
    destruct (H1 ss Hss); [|by left]. right. by apply elem_of_elements.
  - clear Hok. unfold scope_ok, tracked in *. simpl. split_and!; [|set_solver|done|done].
    intros ss' Hss'. destruct (H1 ss' Hss'); [by left|set_solver].
  - clear Hok. unfold scope_ok, tracked in *. simpl. rewrite Hp in H2. split_and!.
    + intros ss' Hss'. destruct (decide (ss' = ss)) as [->|]; [right; apply H2; set_solver|].
      destruct (H1 ss' Hss'); [left|by right]. destruct (sc_subs sc); simpl in *; set_solver.
    + intros ss' Hss'. apply H2. set_solver.
    + intros ss' Hss'. apply H3. destruct (sc_subs sc); simpl in *; set_solver.
    + intros Hc. by rewrite H4.
Qed.

Lemma scope_reachable sc : rtc scope_step zero_scope sc -> scope_ok sc.
Proof.
  intros Hr. eapply (rtc_preserves scope_step); [apply scope_step_ok|exact Hr|].
  unfold scope_ok, tracked. simpl. split_and!; [lia|set_solver|set_solver|done].
Qed.

(** C39: once a scope is closed it counts nothing, tracks nothing any more, and
    every subscription it ever tracked has been unsubscribed, however its
    methods and those of its wrappers were interleaved. *)
Theorem closed_scope_unsubscribed_all sc s :
  rtc scope_step zero_scope sc -> sc_closed sc = true ->
  Count sc = 0 /\ Track s sc = (None, sc) /\
  forall ss, (ss < length (sc_wrapped sc))%nat -> ss ∈ sc_calls sc.
Proof.
  intros Hr Hc. apply scope_reachable in Hr as (H1 & _ & _ & H4). specialize (H4 Hc).
  unfold Count, Track, tracked in *. rewrite H4, Hc in *. split_and!; [done|done|].
  intros ss Hss. destruct (H1 ss Hss); [set_solver|done].
Qed.

(** Two subscriptions tracked, one unsubscribed, then the scope closed. *)
Definition scope_demo : SubscriptionScope :=
  Close [1] (scopeSub_delete 0 [] (scopeSub_call 0 (Track 8 (Track 7 zero_scope).2).2)).

Lemma scope_demo_reached : rtc scope_step zero_scope scope_demo.
Proof.
  eapply rtc_l; [apply (sc_track 7)|]. eapply rtc_l; [apply (sc_track 8)|].
  eapply rtc_l; [apply (sc_unsubscribe 0); simpl; lia|].
  eapply rtc_l; [apply (sc_delete 0 [] []); reflexivity|].
  apply rtc_once, (sc_close [1]). reflexivity.
Qed.

Lemma closed_scope_unsubscribed_all_witness : 1 ∈ sc_calls scope_demo.
Proof.
  apply (closed_scope_unsubscribed_all scope_demo 0 scope_demo_reached); [reflexivity|].
  simpl. lia.
Defined.
