(* ===== verification/Entity.v ===== *)
(** * pkg/registry/entity.go: services, nodes and their tags

    A [*Service] is an option (a nil receiver is allowed by [GetTags]); the
    slice [Nodes] tells nil from empty and its elements may be nil, because
    [GetTags] and [GetId] index a slice that is only known not to be nil.
    Indexing out of range and following a nil pointer panic.

    The last part is the loop both registries share: nodes are collected in a
    map from a key to a service, and the map's services are returned in the
    order of Go's map iteration, which is left open ([MapRange]). *)

From S2P Require Import Prelude GoStd.
From Stdlib Require Import ZArith Lia.
From stdpp Require Import gmap strings list.
Open Scope Z_scope.

Definition DefaultPrefixService : string := "airman".
Definition DefaultTagService : string := "service".

Record Node := mkNode {
  n_Id : string;
  n_Host : string;
  n_Port : Z;
  n_Tags : list string;
}.

(** [TTL] is a [time.Duration]: an [int64] of nanoseconds. *)
Record Service := mkService {
  s_Name : string;
  s_Version : string;
  s_Check : string;
  s_TTL : Z;
  s_Tags : list string;
  s_Nodes : option (list (option Node));
}.

#[export] Instance Node_eq_dec : EqDecision Node.
Proof. solve_decision. Defined.
#[export] Instance Service_eq_dec : EqDecision Service.
Proof. solve_decision. Defined.

(** [fmt.Sprintf("/%s/%s%s/%s/%d", ...)]. *)
Definition service_id (name version host : string) (port : Z) : string :=
  "/" +:+ DefaultPrefixService +:+ "/" +:+ name +:+ version +:+ "/" +:+ host +:+ "/" +:+ Itoa port.

Definition NewService (name version address : string) (port : Z) : Service :=
  let hostIP := if bool_decide (address = "") then "127.0.0.1" else address in
  let hostPort := if port =? 0 then 8500 else port in
  let node := mkNode (service_id name version hostIP hostPort) hostIP hostPort [] in
  mkService name version "" 0 [] (Some [Some node]).

(** [s.Nodes[0]], dereferenced: a panic on an empty slice or a nil element. *)
Definition first_node (s : Service) : run Node :=
  match s_Nodes s with
  | Some (Some n :: _) => Ret n
  | _ => Panic
  end.

Definition GetTags (s : option Service) : run (list string) :=
  match s with
  | None => Ret []
  | Some s =>
      let tags := ["a-" +:+ DefaultTagService] in
      let tags := if bool_decide (s_Version s = "") then tags
                  else tags ++ ["v-" +:+ s_Version s] in
      if bool_decide (s_Nodes s = None) then Ret tags
      else
        let! n := first_node s in
        Ret (if bool_decide (n_Host n = "") then tags else tags ++ ["h-" +:+ n_Host n])
  end.

Arguments GetTags : simpl never.

Definition GetId (s : Service) : run string :=
  if bool_decide (s_Nodes s = None) then Ret ""
  else
    let! n := first_node s in
    Ret (if bool_decide (n_Id n = "") then "" else n_Id n).

(** [string([]byte(s)[2:])], a panic on fewer than two bytes. *)
Definition from2 (s : string) : run string :=
  if (length (go_bytes s) <? 2)%nat then Panic else Ret (go_string (drop 2 (go_bytes s))).

Fixpoint tagsVersion (tags : list string) : run string :=
  match tags with
  | [] => Ret ""
  | tag :: tags => if HasPrefix tag "v-" then from2 tag else tagsVersion tags
  end.

Fixpoint tagsHost (tags : list string) : run string :=
  match tags with
  | [] => Ret ""
  | tag :: tags => if HasPrefix tag "h-" then from2 tag else tagsHost tags
  end.

Fixpoint tagsCheck (tags : list string) (input : string) : run string :=
  match tags with
  | [] => Ret ""
  | tag :: tags => if bool_decide (tag = input) then from2 tag else tagsCheck tags input
  end.

(** [len(s.Nodes)]. *)
Definition len_nodes (s : Service) : nat := length (default [] (s_Nodes s)).

(** ** Collecting nodes by key

    [svc, ok := serviceMap[key]], the new service where there is none, and
    [svc.Nodes = append(svc.Nodes, node)].  The map holds the only pointer to
    each service, so the store is the map itself. *)
Definition with_nodes (svc : Service) (nodes : list (option Node)) : Service :=
  mkService (s_Name svc) (s_Version svc) (s_Check svc) (s_TTL svc) (s_Tags svc) (Some nodes).

Definition append_node (svc : Service) (node : Node) : Service :=
  with_nodes svc (default [] (s_Nodes svc) ++ [Some node]).

Definition add_node (key : string) (svc : Service) (node : Node)
    (serviceMap : gmap string Service) : gmap string Service :=
  <[key := append_node (default svc (serviceMap !! key)) node]> serviceMap.

(** The order in which [range] visits a map is not specified. *)
Class MapRange := range : gmap string Service -> list (string * Service).
Class MapRangeLaws `{MapRange} := range_perm m : range m ≡ₚ map_to_list m.

Definition services_of `{MapRange} (serviceMap : gmap string Service) : list Service :=
  snd <$> range serviceMap.

(** ** The tags a service announces *)

Lemma from2_app a b s : length (go_bytes a) = 2%nat -> s = a +:+ b -> from2 s = Ret b.
Proof.
  intros Ha ->. unfold from2. rewrite go_bytes_app, length_app, Ha.
  replace (2 + length (go_bytes b) <? 2)%nat with false by (symmetry; apply Nat.ltb_ge; lia).
  rewrite <-Ha, drop_app_length. by rewrite go_string_bytes.
Qed.

Lemma HasPrefix_spec s p : HasPrefix s p = true <-> exists r, s = p +:+ r.
Proof.
  unfold HasPrefix. rewrite bytes_HasPrefix_spec. split.
  - intros [r H]. exists (go_string r). apply go_bytes_inj.
    by rewrite go_bytes_app, go_bytes_string.
  - intros [r ->]. exists (go_bytes r). apply go_bytes_app.
Qed.

(** A tag with the prefix is long enough: these loops do not panic. *)
Lemma tagsVersion_total tags : exists v, tagsVersion tags = Ret v.
Proof.
  induction tags as [|t tags IH]; cbn [tagsVersion]; [by eexists|].
  destruct (HasPrefix t "v-") eqn:E; [|done].
  apply HasPrefix_spec in E as [r E]. exists r. by apply (from2_app "v-").
Qed.

Lemma tagsHost_total tags : exists h, tagsHost tags = Ret h.
Proof.
  induction tags as [|t tags IH]; cbn [tagsHost]; [by eexists|].
  destruct (HasPrefix t "h-") eqn:E; [|done].
  apply HasPrefix_spec in E as [r E]. exists r. by apply (from2_app "h-").
Qed.

(** [tagsCheck] panics exactly if the tag asked for is there and has fewer
    than two bytes. *)
Lemma tagsCheck_panics tags input :
  tagsCheck tags input = Panic <-> input ∈ tags /\ (length (go_bytes input) < 2)%nat.
Proof.
  induction tags as [|t tags IH]; cbn [tagsCheck].
  - rewrite elem_of_nil. naive_solver.
  - rewrite elem_of_cons. case_bool_decide as Ht; [|rewrite IH; naive_solver].
    subst t. unfold from2. case_match eqn:E; bool_prop; naive_solver lia.
Qed.

(** The tags of a service with a first node. *)
Definition announced (version host : string) : list string :=
  "a-service" :: (if bool_decide (version = "") then [] else ["v-" +:+ version])
  ++ (if bool_decide (host = "") then [] else ["h-" +:+ host]).

Lemma GetTags_node s n ns :
  s_Nodes s = Some (Some n :: ns) ->
  GetTags (Some s) = Ret (announced (s_Version s) (n_Host n)).
Proof.
  intros Hs. unfold GetTags, first_node. rewrite Hs.
  rewrite (bool_decide_eq_false_2 (Some (Some n :: ns) = None)) by done.
  unfold announced. case_bool_decide; case_bool_decide; cbn; by rewrite ?app_nil_r.
Qed.

(** ** Groups *)

(** What a loop has collected: one service per key, made by the first entry
    of the key, with the nodes of all its entries in order. *)
Definition group (key : string) (entries : list (string * Service * Node)) : option Service :=
  match filter (fun e => e.1.1 = key) entries with
  | [] => None
  | e :: es => Some (foldl append_node e.1.2 (e.2 :: (snd <$> es)))
  end.

Lemma group_snoc key entries k svc n :
  group key (entries ++ [(k, svc, n)]) =
  if bool_decide (k = key) then Some (append_node (default svc (group key entries)) n)
  else group key entries.
Proof.
  unfold group. rewrite filter_app, filter_cons, filter_nil. cbn [fst snd].
  case_decide as Hk; case_bool_decide; try done; [|by rewrite app_nil_r].
  destruct (filter _ entries) as [|e es]; [done|]. cbn [app].
  rewrite fmap_app. cbn [fmap list_fmap default snd foldl]. by rewrite foldl_app.
Qed.

Lemma add_node_groups entries m k svc n :
  (forall key, m !! key = group key entries) ->
  forall key, add_node k svc n m !! key = group key (entries ++ [(k, svc, n)]).
Proof.
  intros Hm key. rewrite group_snoc, <-Hm. unfold add_node.
  case_bool_decide; [subst; by rewrite lookup_insert_eq, Hm|by rewrite lookup_insert_ne].
Qed.

(** The nodes of a group are the nodes of its entries. *)
Lemma foldl_append_nodes svc ns :
  default [] (s_Nodes (foldl append_node svc ns)) = default [] (s_Nodes svc) ++ (Some <$> ns).
Proof.
  revert svc. induction ns as [|n ns IH]; intros svc; cbn [foldl fmap list_fmap].
  - symmetry. apply app_nil_r.
  - rewrite IH. simpl. by rewrite <-app_assoc.
Qed.

(** The services returned are exactly those of the map. *)
Lemma services_of_elem `{MapRangeLaws} m svc :
  svc ∈ services_of m <-> exists key, m !! key = Some svc.
Proof.
  unfold services_of. rewrite range_perm, list_elem_of_fmap. split.
  - intros ([k s] & -> & Hk%elem_of_map_to_list). by exists k.
  - intros [k Hk]. exists (k, svc). split; [done|by apply elem_of_map_to_list].
Qed.

Lemma services_of_length `{MapRangeLaws} m : length (services_of m) = size m.
Proof. unfold services_of. by rewrite length_fmap, range_perm, length_map_to_list. Qed.

(** ** The loop over all entries *)

Definition collect (entries : list (string * Service * Node)) : gmap string Service :=
  foldl (fun m e => add_node e.1.1 e.1.2 e.2 m) ∅ entries.

Lemma collect_snoc entries e :
  collect (entries ++ [e]) = add_node e.1.1 e.1.2 e.2 (collect entries).
Proof. unfold collect. by rewrite foldl_app. Qed.

Lemma lookup_collect entries key : collect entries !! key = group key entries.
Proof.
  revert key. induction entries as [|[[k svc] n] entries IH] using rev_ind; intros key; [done|].
  rewrite collect_snoc. by apply add_node_groups.
Qed.

(** The services returned, by key: one for each key that occurs, and no two
    for a key. *)
Lemma collect_services `{MapRangeLaws} entries :
  exists keys,
    NoDup keys /\
    (forall key, key ∈ keys <-> exists e, e ∈ entries /\ e.1.1 = key) /\
    Forall2 (fun key svc => group key entries = Some svc) keys (services_of (collect entries)).
Proof.
  set (m := collect entries). exists (fst <$> range m). split_and!.
  - rewrite range_perm. apply NoDup_fst_map_to_list.
  - intros key. rewrite range_perm. transitivity (is_Some (m !! key)).
    { rewrite list_elem_of_fmap. split.
      - intros ([k s] & -> & Hk%elem_of_map_to_list). by exists s.
      - intros [s Hs]. exists (key, s). by rewrite elem_of_map_to_list. }
    unfold m. rewrite lookup_collect. unfold group.
    destruct (filter _ entries) as [|e es] eqn:E.
    + split; [by intros [? ?]|]. intros (e & He & Hk).
      assert (Hin : e ∈ filter (fun e => e.1.1 = key) entries) by by apply list_elem_of_filter.
      rewrite E in Hin. by apply elem_of_nil in Hin.
    + split; [|eauto]. intros _. exists e. apply and_comm.
      apply (list_elem_of_filter (fun e => e.1.1 = key)). rewrite E. left.
  - unfold services_of. apply Forall2_fmap, Forall_Forall2_diag, Forall_forall.
    intros [k s]. rewrite range_perm, elem_of_map_to_list. unfold m. by rewrite lookup_collect.
Qed.

(** A group of fresh services: the first one of the key, with all its nodes. *)
Lemma foldl_append_node svc ns :
  ns <> [] ->
  foldl append_node svc ns = with_nodes svc (default [] (s_Nodes svc) ++ (Some <$> ns)).
Proof.
  induction ns as [|n ns IH] using rev_ind; [done|]. intros _. rewrite foldl_app. cbn [foldl].
  destruct (decide (ns = [])) as [->|Hns]; [done|]. rewrite IH by done.
  unfold append_node, with_nodes. simpl. by rewrite fmap_app, <-app_assoc.
Qed.

(** Entries computed from the elements of a list, with services that have no
    nodes yet. *)
Lemma group_fmap {A} (f : A -> string * Service * Node) key (l : list A) :
  (forall a, s_Nodes (f a).1.2 = None) ->
  group key (f <$> l) =
  match filter (fun a => (f a).1.1 = key) l with
  | [] => None
  | a :: l' => Some (with_nodes (f a).1.2 ((fun a => Some (f a).2) <$> a :: l'))
  end.
Proof.
  intros Hf. unfold group.
  assert (E : filter (fun e => e.1.1 = key) (f <$> l) = f <$> filter (fun a => (f a).1.1 = key) l).
  { induction l as [|a l IH]; [done|]. rewrite fmap_cons, !filter_cons, IH.
    by case_decide. }
  rewrite E. destruct (filter _ l) as [|a l']; [done|].
  cbn [fmap list_fmap]. f_equal. rewrite foldl_append_node, Hf by done. simpl.
  by rewrite <-!list_fmap_compose.
Qed.
