(* ===== verification/Etcd.v ===== *)
(** * pkg/registry/etcd.go: the registry over etcd

    The store is etcd's client library: the class [EtcdClient], whose
    operations act on the state [St] of the store; [EtcdLaws] states the
    documented effect of its operations on the keys.  The context of a request
    only bounds its time: its expiry is one of the client's errors.

    The registry keeps the nodes of a service under keys
    [/airman/<name><version>/<host>/<port>], with the tags as the value. *)

From S2P Require Import Prelude GoStd GoNet Entity.
From Stdlib Require Import ZArith Lia.
From stdpp Require Import gmap strings list.
Open Scope Z_scope.

Class EtcdClient (Client St Error : Type) := {
  etcd_Error_eq : EqDecision Error;
  ErrKeyNotFound : Error;
  clientv3_New : list string -> Z -> result Error Client;
  (* the lease, or a nil response with the error *)
  Grant : Client -> Z -> St -> option Z * option Error * St;
  Get : Client -> string -> St -> option Error;
  (* Get with clientv3.WithPrefix(): the keys and values, or nil *)
  Get_WithPrefix : Client -> string -> St -> option (list (string * string)) * option Error;
  (* Put, with or without clientv3.WithLease *)
  Put : Client -> string -> string -> option Z -> St -> option Error * St;
  Delete : Client -> string -> St -> option Error * St;
  client_Close : Client -> St -> St;
}.
#[export] Existing Instance etcd_Error_eq.

(** The keys of the store and their values at the time of a request (a key
    with a lease may go between requests). *)
Class EtcdLaws (Client St Error : Type) `{!EtcdClient Client St Error} := {
  stored : Client -> St -> gmap string string;
  Grant_stored c ttl w l e w' : Grant c ttl w = (l, e, w') -> stored c w' = stored c w;
  Put_stored c k v l w w' : Put c k v l w = (None, w') -> stored c w' = <[k := v]> (stored c w);
  Delete_stored c k w w' : Delete c k w = (None, w') -> stored c w' = delete k (stored c w);
  Get_WithPrefix_stored c p w r :
    Get_WithPrefix c p w = (r, None) ->
    exists kvs, r = Some kvs /\
      kvs ≡ₚ filter (fun kv => HasPrefix kv.1 p = true) (map_to_list (stored c w));
}.

Section Etcd.
Context {Client St Error : Type} `{EC : !EtcdClient Client St Error} `{MR : MapRange}.

Record EtcdRegistry := mkEtcdRegistry {
  er_dailTimeOut : Z;
  er_reqTimeout : Z;
  er_endPoints : list string;
  er_client : Client;
}.

(** [log.Fatal] ends the process: there is no registry. *)
Definition NewEtcdRegistry (tmDail tmReq : Z) (endPoints : list string) : option EtcdRegistry :=
  match clientv3_New endPoints tmDail with
  | Err _ => None
  | Ok cli => Some (mkEtcdRegistry tmDail tmReq endPoints cli)
  end.

(** The errors returned: the registry's own, or the client's. *)
Inductive etcd_error :=
| NoNode
| ErrNilKey
| ClientError (e : Error).

Definition client_error (e : option Error) : option etcd_error := ClientError <$> e.

(** ** Registration *)

Definition value (tags : list string) : string := Prelude.Join tags ",".

(** [c.client.Put(ctx, key, val, clientv3.WithLease(resp.ID))]: [resp] is nil
    where the lease was not granted, and the error was dropped. *)
Definition put_with_lease (c : EtcdRegistry) (key val : string) (resp : option Z) (w : St) :
    run (option etcd_error * St) :=
  match resp with
  | None => Panic
  | Some ID =>
      let '(err, w) := Put (er_client c) key val (Some ID) w in
      Ret (client_error err, w)
  end.

Definition RegisterWithTTL (c : EtcdRegistry) (s : Service) (timeTTL : Z) (w : St) :
    run (option etcd_error * St) :=
  if (len_nodes s =? 0)%nat then Ret (Some NoNode, w)
  else
    let! tags := GetTags (Some s) in
    let val := value tags in
    let '(resp, _, w) := Grant (er_client c) (Nanoseconds timeTTL) w in
    let! node := first_node s in
    match Get (er_client c) (n_Id node) w with
    | Some err =>
        if bool_decide (err = ErrKeyNotFound) then put_with_lease c (n_Id node) val resp w
        else Ret (Some (ClientError err), w)
    | None => put_with_lease c (n_Id node) val resp w
    end.

Definition Register (c : EtcdRegistry) (s : Service) (w : St) : run (option etcd_error * St) :=
  if (len_nodes s =? 0)%nat then Ret (Some NoNode, w)
  else
    let! tags := GetTags (Some s) in
    let! node := first_node s in
    let '(err, w) := Put (er_client c) (n_Id node) (value tags) None w in
    Ret (client_error err, w).

Definition Deregister (c : EtcdRegistry) (s : Service) (w : St) : run (option etcd_error * St) :=
  if (len_nodes s =? 0)%nat then Ret (Some NoNode, w)
  else
    let! node := first_node s in
    let '(err, w) := Delete (er_client c) (n_Id node) w in
    Ret (client_error err, w).

(** ** Discovery *)

(** The loop over the keys: [keys[2]] and [keys[3]] are there because of the
    test of the length, [keys[4]] may not be. *)
Fixpoint range_kvs (name tag : string) (kvs : list (string * string))
    (serviceMap : gmap string Service) : run (gmap string Service) :=
  match kvs with
  | [] => Ret serviceMap
  | (Key, Value) :: kvs =>
      let tags := Split Value "," in
      let keys := Split Key "/" in
      if (length keys <? 4)%nat || negb (bool_decide (keys !! 2%nat = Some name))
      then range_kvs name tag kvs serviceMap
      else
        let! version := tagsVersion tags in
        let address := default "" (keys !! 3%nat) in
        let! address := if bool_decide (address = "") then tagsHost tags else Ret address in
        let! key := tagsCheck tags tag in
        let key := if bool_decide (tag = "") then version else key in
        match keys !! 4%nat with
        | None => Panic
        | Some p =>
            let '(port, _) := Atoi (go_bytes p) in
            range_kvs name tag kvs
              (add_node key (mkService name version "" 0 tags None) (mkNode Key address port [])
                        serviceMap)
        end
  end.

(** The list of services and the error, either of which may be nil. *)
Definition GetService (c : EtcdRegistry) (name tag : string) (w : St) :
    run (list Service * option etcd_error) :=
  if bool_decide (name = "") then Ret ([], Some ErrNilKey)
  else
    let key := "/" +:+ DefaultPrefixService +:+ "/" +:+ name in
    match Get_WithPrefix (er_client c) key w with
    | (Some kvs, None) =>
        let! serviceMap := range_kvs name tag kvs ∅ in
        Ret (services_of serviceMap, None)
    | (_, err) => Ret ([], client_error err)
    end.

Definition list_entry (kv : string * string) : option Service :=
  let keys := Split kv.1 "/" in
  if (3 <? length keys)%nat then Some (mkService (default "" (keys !! 2%nat)) "" "" 0 [] None) else None.

Definition ListServices (c : EtcdRegistry) (w : St) : list Service * option etcd_error :=
  match Get_WithPrefix (er_client c) ("/" +:+ DefaultPrefixService) w with
  | (Some kvs, None) => (omap list_entry kvs, None)
  | (_, err) => ([], client_error err)
  end.

(** [Close] on a nil registry does nothing. *)
Definition Close (c : option EtcdRegistry) (w : St) : St :=
  match c with
  | None => w
  | Some c => client_Close (er_client c) w
  end.

(** ** What the loop does *)

(** A key of the service: four fields at least, the third one the name. *)
Definition of_service (name : string) (kv : string * string) : Prop :=
  (4 <= length (Split kv.1 "/"))%nat /\ Split kv.1 "/" !! 2%nat = Some name.

#[local] Instance of_service_dec name kv : Decision (of_service name kv).
Proof. unfold of_service. apply _. Defined.

(** The keys of the service that the loop cannot handle: no fifth field, or
    the tag asked for is there and too short to be cut. *)
Definition unreadable (tag : string) (kv : string * string) : Prop :=
  length (Split kv.1 "/") = 4%nat \/
  (tag ∈ Split kv.2 "," /\ (length (go_bytes tag) < 2)%nat).

#[local] Instance unreadable_dec tag kv : Decision (unreadable tag kv).
Proof. unfold unreadable. apply _. Defined.

Definition kv_tags (kv : string * string) : list string := Split kv.2 ",".

Definition kv_version (kv : string * string) : string :=
  match tagsVersion (kv_tags kv) with Ret v => v | Panic => "" end.

Definition kv_key (tag : string) (kv : string * string) : string :=
  if bool_decide (tag = "") then kv_version kv
  else match tagsCheck (kv_tags kv) tag with Ret k => k | Panic => "" end.

Definition kv_host (kv : string * string) : string :=
  let address := default "" (Split kv.1 "/" !! 3%nat) in
  if bool_decide (address = "") then
    match tagsHost (kv_tags kv) with Ret h => h | Panic => "" end
  else address.

Definition kv_port (kv : string * string) : Z :=
  (Atoi (go_bytes (default "" (Split kv.1 "/" !! 4%nat)))).1.

Definition kv_node (kv : string * string) : Node := mkNode kv.1 (kv_host kv) (kv_port kv) [].

Definition kv_entry (name tag : string) (kv : string * string) : string * Service * Node :=
  (kv_key tag kv, mkService name (kv_version kv) "" 0 (kv_tags kv) None, kv_node kv).

Lemma range_kvs_spec name tag kvs entries :
  range_kvs name tag kvs (collect entries) =
  if bool_decide (Exists (fun kv => of_service name kv /\ unreadable tag kv) kvs) then Panic
  else Ret (collect (entries ++ (kv_entry name tag <$> filter (of_service name) kvs))).
Proof.
  revert entries. induction kvs as [|[k v] kvs IH]; intros entries.
  { rewrite bool_decide_eq_false_2 by (by intros []%Exists_nil). simpl. by rewrite app_nil_r. }
  cbn [range_kvs]. rewrite filter_cons.
  assert (E : (length (Split k "/") <? 4)%nat || negb (bool_decide (Split k "/" !! 2%nat = Some name))
    = negb (bool_decide (of_service name (k, v)))).
  { apply eq_true_iff_eq. rewrite orb_true_iff, !negb_true_iff, !bool_decide_eq_false, Nat.ltb_lt.
    unfold of_service. cbn [fst]. split; [intros [?|?] [? ?]; [lia|tauto]|]. intros Hno.
    destruct (decide (length (Split k "/") < 4)%nat); [by left|].
    right. intros ?. apply Hno. split; [lia|done]. }
  rewrite E. clear E. destruct (decide (of_service name (k, v))) as [Hof|Hof].
  2:{ rewrite (bool_decide_eq_false_2 (of_service name (k, v))) by done. cbn [negb].
      rewrite IH.
      rewrite (bool_decide_ext (Exists _ ((k, v) :: kvs))
        (Exists (fun kv => of_service name kv /\ unreadable tag kv) kvs)); [done|].
      rewrite Exists_cons. tauto. }
  rewrite (bool_decide_eq_true_2 (of_service name (k, v))) by done. cbn [negb].
  cbn [fmap list_fmap].
  destruct (tagsVersion_total (Split v ",")) as [ver Hver].
  destruct (tagsHost_total (Split v ",")) as [host Hhost].
  rewrite Hver, Hhost.
  replace (if bool_decide (default "" (Split k "/" !! 3%nat) = "") then Ret host
           else Ret (default "" (Split k "/" !! 3%nat))) with (Ret (kv_host (k, v))).
  2:{ unfold kv_host, kv_tags. cbn [fst snd]. rewrite Hhost.
      by destruct (bool_decide (default "" (Split k "/" !! 3%nat) = "")). }
  destruct (tagsCheck (Split v ",") tag) as [key|] eqn:Ekey.
  2:{ apply tagsCheck_panics in Ekey. rewrite (bool_decide_eq_true_2 (Exists _ _)); [done|].
      left. split; [done|]. by right. }
  destruct (Split k "/" !! 4%nat) as [p|] eqn:Ep.
  2:{ rewrite (bool_decide_eq_true_2 (Exists _ _)).
      { by destruct (bool_decide (tag = "")). } left. split; [done|]. left.
      apply lookup_ge_None_1 in Ep. destruct Hof as [Hof _]. cbn [fst] in *. lia. }
  destruct (Atoi (go_bytes p)) as [port err] eqn:Eport.
  rewrite (bool_decide_ext (Exists _ ((k, v) :: kvs))
    (Exists (fun kv => of_service name kv /\ unreadable tag kv) kvs)).
  2:{ rewrite Exists_cons. split; [|by right]. intros [[_ [Hu|Hu]]|]; [..|done].
      - cbn [fst] in Hu. apply lookup_lt_Some in Ep. lia.
      - apply tagsCheck_panics in Hu. cbn [snd] in Hu. congruence. }
  rewrite cons_middle, app_assoc, <-IH, collect_snoc. f_equal.
  unfold kv_entry, kv_key, kv_version, kv_tags, kv_node, kv_port. cbn [fst snd].
  rewrite Hver, Ekey, Ep. cbn [default from_option id].
  by rewrite Eport.
Qed.

(** C31: discovery panics exactly if the store holds a key of the service that
    the loop cannot handle: one without a port field ([keys[4]] is read though
    only four fields are asked for), or one with the tag asked for among its
    tags where that tag is shorter than two bytes; the empty tag, which asks
    for any version, is such a tag. *)
Theorem GetService_panics c name tag w kvs :
  name <> "" ->
  Get_WithPrefix (er_client c) ("/" +:+ DefaultPrefixService +:+ "/" +:+ name) w = (Some kvs, None) ->
  GetService c name tag w = Panic <->
  exists kv, kv ∈ kvs /\ of_service name kv /\ unreadable tag kv.
Proof.
  intros Hname Hget. unfold GetService. rewrite bool_decide_eq_false_2, Hget by done.
  change (∅ : gmap string Service) with (collect []). rewrite range_kvs_spec.
  rewrite <-Exists_exists. by case_bool_decide.
Qed.

End Etcd.

(** ** The catalogue the store stands for

    A registration is known by the full name (name and version without a
    separator), the host and the port; the catalogue maps it to its version. *)

Definition entry_Id (full host : string) (port : Z) : string := service_id full "" host port.
Definition entry_value (version host : string) : string := value (announced version host).

(** Names and hosts that the key and the value can carry. *)
Record clean (full host : string) (port : Z) (version : string) : Prop := {
  clean_full : chr "/" ∉ go_bytes full;
  clean_host : chr "/" ∉ go_bytes host;
  clean_host_comma : chr "," ∉ go_bytes host;
  clean_version_comma : chr "," ∉ go_bytes version;
  clean_host_some : host <> "";
  clean_port : - 2 ^ 63 <= port < 2 ^ 63;
}.

(** The keys under [/airman/] are those of the catalogue; other applications
    may keep other keys. *)
Record represents (m : gmap string string) (C : gmap (string * string * Z) string) : Prop := {
  represents_lookup k v :
    HasPrefix k "/airman/" = true ->
    m !! k = Some v <->
    exists full host port version, C !! (full, host, port) = Some version /\
      k = entry_Id full host port /\ v = entry_value version host;
  represents_clean full host port version :
    C !! (full, host, port) = Some version -> clean full host port version;
}.

(** The services of a name: one per version, with the nodes of the catalogue. *)
Definition lists (C : gmap (string * string * Z) string) (full : string) (services : list Service) : Prop :=
  exists versions, NoDup versions /\
    (forall version, version ∈ versions <-> exists host port, C !! (full, host, port) = Some version) /\
    Forall2 (fun version svc =>
      s_Name svc = full /\ s_Version svc = version /\
      exists nodes, s_Nodes svc = Some (Some <$> nodes) /\ NoDup nodes /\
        forall n, n ∈ nodes <-> exists host port,
          C !! (full, host, port) = Some version /\ n = mkNode (entry_Id full host port) host port [])
      versions services.

Lemma service_id_full name version host port :
  service_id name version host port = entry_Id (name +:+ version) host port.
Proof.
  apply go_bytes_inj. unfold entry_Id, service_id. by rewrite !go_bytes_app, <-!app_assoc.
Qed.

Lemma Split_entry_Id full host port :
  chr "/" ∉ go_bytes full -> chr "/" ∉ go_bytes host ->
  Split (entry_Id full host port) "/" = [""; "airman"; full; host; Itoa port]%string.
Proof.
  intros Hf Hh.
  change (entry_Id full host port) with
    ("" +:+ String "/" ("airman" +:+ String "/" (full +:+ String "/" (host +:+ String "/" (Itoa port))))).
  do 2 (rewrite Split_cons by (by apply (bool_decide_eq_true_1 _))).
  do 2 (rewrite Split_cons by done). rewrite Split_single; [done|].
  intros [H|H]%Itoa_bytes; by vm_compute in H.
Qed.

Lemma entry_Id_inj full host port full' host' port' version version' :
  clean full host port version -> clean full' host' port' version' ->
  entry_Id full host port = entry_Id full' host' port' ->
  (full, host, port) = (full', host', port').
Proof.
  intros [] [] E. apply (f_equal (fun s => Split s "/")) in E.
  rewrite !Split_entry_Id in E by done. injection E as -> -> E.
  by rewrite (Itoa_inj port port').
Qed.

Lemma entry_Id_prefix full host port : HasPrefix (entry_Id full host port) ("/airman/" +:+ full) = true.
Proof.
  apply HasPrefix_spec. by exists ("/" +:+ host +:+ "/" +:+ Itoa port).
Qed.

(** The value of an entry splits into its tags. *)
Lemma Split_entry_value version host :
  chr "," ∉ go_bytes version -> chr "," ∉ go_bytes host ->
  Split (entry_value version host) "," = announced version host.
Proof.
  intros Hv Hh. unfold entry_value, value. apply (Split_Join _ ","); [done|].
  assert (Happ : forall a s, chr "," ∉ go_bytes a -> chr "," ∉ go_bytes s -> chr "," ∉ go_bytes (a +:+ s)).
  { intros a s. rewrite go_bytes_app, elem_of_app. tauto. }
  unfold announced. constructor; [by apply (bool_decide_eq_true_1 _)|].
  case_bool_decide; case_bool_decide; simpl; repeat constructor;
    apply Happ; done || by apply (bool_decide_eq_true_1 _).
Qed.

Lemma announced_version version host : tagsVersion (announced version host) = Ret version.
Proof.
  unfold announced. cbn [tagsVersion]. change (HasPrefix "a-service" "v-") with false. cbv iota.
  case_bool_decide as Hv; cbn [app tagsVersion].
  - subst. case_bool_decide; [done|]. cbn [tagsVersion].
    replace (HasPrefix ("h-" +:+ host) "v-") with false; [done|].
    symmetry. apply not_true_iff_false. intros [r Hr]%HasPrefix_spec. by injection Hr.
  - replace (HasPrefix ("v-" +:+ version) "v-") with true.
    + by apply (from2_app "v-").
    + symmetry. apply HasPrefix_spec. by exists version.
Qed.

Lemma announced_nonempty version host tag : tag ∈ announced version host -> tag <> "".
Proof.
  unfold announced. intros [->|H]%elem_of_cons; [done|]. intros ->. revert H.
  case_bool_decide; case_bool_decide; rewrite elem_of_app, ?elem_of_nil, ?list_elem_of_singleton;
    naive_solver.
Qed.

(** What the loop reads in an entry of the catalogue. *)
Lemma read_entry full host port version :
  clean full host port version ->
  let kv := (entry_Id full host port, entry_value version host) in
  (forall name, of_service name kv <-> full = name) /\ (unreadable "" kv -> False) /\
  kv_version kv = version /\ kv_node kv = mkNode (entry_Id full host port) host port [].
Proof.
  intros [] kv. unfold of_service, unreadable, kv_node, kv_host, kv_port, kv_version, kv_tags.
  cbn [fst snd kv]. rewrite Split_entry_Id, Split_entry_value, announced_version by done.
  cbn [lookup list_lookup default from_option id]. rewrite Atoi_Itoa, bool_decide_eq_false_2 by done.
  split_and!; [|intros [?|[H _]]; [done|by apply announced_nonempty in H]|done|done].
  intros name. cbn. split; [by intros [_ [= ->]]|intros ->; split; [lia|done]].
Qed.

(** ** The registry implements the catalogue *)

Lemma entry_Id_airman full host port : HasPrefix (entry_Id full host port) "/airman/" = true.
Proof.
  destruct (HasPrefix_spec (entry_Id full host port) ("/airman/" +:+ full)) as [H _].
  destruct (H (entry_Id_prefix full host port)) as [r Hr]. apply HasPrefix_spec.
  exists (full +:+ r). rewrite Hr. apply go_bytes_inj. by rewrite !go_bytes_app, app_assoc.
Qed.

Lemma represents_entry m C full host port version :
  represents m C -> clean full host port version ->
  m !! entry_Id full host port = Some (entry_value version host) <->
  C !! (full, host, port) = Some version.
Proof.
  intros HR Hc. rewrite (represents_lookup _ _ HR) by apply entry_Id_airman. split; [|eauto 10].
  intros (full' & host' & port' & version' & HC & HI & Hv).
  pose proof (represents_clean _ _ HR _ _ _ _ HC) as Hc'.
  pose proof (entry_Id_inj _ _ _ _ _ _ _ _ Hc Hc' HI) as [= <- <- <-].
  apply (f_equal (fun s => tagsVersion (Split s ","))) in Hv. destruct Hc, Hc'.
  rewrite !Split_entry_value, !announced_version in Hv by done. by injection Hv as <-.
Qed.

Lemma represents_insert m C full host port version :
  represents m C -> clean full host port version ->
  represents (<[entry_Id full host port := entry_value version host]> m)
             (<[(full, host, port) := version]> C).
Proof.
  intros HR Hc.
  assert (Hclean : forall f h p v, <[(full, host, port) := version]> C !! (f, h, p) = Some v ->
    clean f h p v).
  { intros f h p v [[[= <- <- <-] <-]|[_ H]]%lookup_insert_Some; [done|].
    by eapply represents_clean. }
  split; [|done]. intros k v Hk. rewrite lookup_insert_Some. split.
  - intros [[<- <-]|[Hne H]].
    + exists full, host, port, version. by rewrite lookup_insert_eq.
    + apply (represents_lookup _ _ HR) in H as (f & h & p & ver & HC & -> & ->); [|done].
      exists f, h, p, ver. split; [|done]. rewrite lookup_insert_ne; [done|]. congruence.
  - intros (f & h & p & ver & HC & -> & ->). pose proof (Hclean _ _ _ _ HC) as Hc'.
    apply lookup_insert_Some in HC as [[[= <- <- <-] <-]|[Hne HC]]; [by left|]. right. split.
    + intros E. apply Hne. by eapply entry_Id_inj.
    + by apply (represents_entry _ _ _ _ _ _ HR).
Qed.

Lemma represents_delete m C full host port version :
  represents m C -> clean full host port version ->
  represents (delete (entry_Id full host port) m) (delete (full, host, port) C).
Proof.
  intros HR Hc.
  assert (Hclean : forall f h p v, delete (full, host, port) C !! (f, h, p) = Some v -> clean f h p v).
  { intros f h p v [_ H]%lookup_delete_Some. by eapply represents_clean. }
  split; [|done]. intros k v Hk. rewrite lookup_delete_Some. split.
  - intros [Hne (f & h & p & ver & HC & -> & ->)%(represents_lookup _ _ HR)]; [|done].
    exists f, h, p, ver. split; [|done]. apply lookup_delete_Some. split; [|done]. congruence.
  - intros (f & h & p & ver & HC & -> & ->). pose proof (Hclean _ _ _ _ HC) as Hc'.
    apply lookup_delete_Some in HC as [Hne HC]. split.
    + intros E. apply Hne. by eapply entry_Id_inj.
    + by apply (represents_entry _ _ _ _ _ _ HR).
Qed.

(** The entries of a name in the answer to a prefix request. *)
Lemma answer_entries m C name kvs kv :
  represents m C ->
  kvs ≡ₚ filter (fun kv => HasPrefix kv.1 ("/airman/" +:+ name) = true) (map_to_list m) ->
  kv ∈ kvs /\ of_service name kv <->
  exists host port version, C !! (name, host, port) = Some version /\
    kv = (entry_Id name host port, entry_value version host).
Proof.
  intros HR Hkvs. rewrite Hkvs, list_elem_of_filter.
  destruct kv as [k v]. rewrite elem_of_map_to_list. cbn [fst]. split.
  - intros [[Hp Hm] Hof].
    assert (Hk : HasPrefix k "/airman/" = true).
    { apply HasPrefix_spec in Hp as [r ->]. apply HasPrefix_spec. exists (name +:+ r).
      apply go_bytes_inj. by rewrite !go_bytes_app, app_assoc. }
    apply (represents_lookup _ _ HR) in Hm as (f & h & p & ver & HC & -> & ->); [|done].
    destruct (read_entry _ _ _ _ (represents_clean _ _ HR _ _ _ _ HC)) as [Hf _].
    apply Hf in Hof as ->. eauto.
  - intros (h & p & ver & HC & [= -> ->]).
    pose proof (represents_clean _ _ HR _ _ _ _ HC) as Hc.
    split_and!; [apply entry_Id_prefix|by apply (represents_entry _ _ _ _ _ _ HR)|].
    by apply (read_entry _ _ _ _ Hc).
Qed.

Section Refinement.
Context {Client St Error : Type} `{EC : !EtcdClient Client St Error} `{EL : !EtcdLaws Client St Error}.
Context `{MR : MapRange} `{ML : !MapRangeLaws}.

Lemma list_groups m C name kvs :
  represents m C ->
  kvs ≡ₚ filter (fun kv => HasPrefix kv.1 ("/airman/" +:+ name) = true) (map_to_list m) ->
  lists C name (services_of (collect (kv_entry name "" <$> filter (of_service name) kvs))).
Proof.
  intros HR Hkvs. pose proof (fun kv => answer_entries m C name kvs kv HR Hkvs) as Hans.
  destruct (collect_services (kv_entry name "" <$> filter (of_service name) kvs))
    as (keys & Hnd & Hin & Hf).
  assert (Hread : forall kv, kv ∈ kvs -> of_service name kv -> exists host port,
    C !! (name, host, port) = Some (kv_version kv) /\
    kv = (entry_Id name host port, entry_value (kv_version kv) host) /\
    kv_node kv = mkNode (entry_Id name host port) host port []).
  { intros kv H1 H2. destruct (proj1 (Hans kv) (conj H1 H2)) as (h & p & ver & HC & ->).
    destruct (read_entry _ _ _ _ (represents_clean _ _ HR _ _ _ _ HC)) as (_ & _ & Hv & Hn).
    rewrite Hv, Hn. eauto. }
  exists keys. split_and!; [done|..].
  - intros version. rewrite Hin. setoid_rewrite list_elem_of_fmap. split.
    + intros (e & (kv & -> & [H1 H2]%list_elem_of_filter) & <-).
      destruct (Hread kv H2 H1) as (h & p & HC & _). eauto.
    + intros (h & p & HC). exists (kv_entry name "" (entry_Id name h p, entry_value version h)).
      destruct (read_entry _ _ _ _ (represents_clean _ _ HR _ _ _ _ HC)) as (_ & _ & Hv & _).
      split; [|exact Hv]. eexists. split; [done|].
      apply list_elem_of_filter, and_comm, Hans. eauto.
  - eapply Forall2_impl; [exact Hf|]. intros version svc. cbv beta.
    rewrite group_fmap, list_filter_filter by done.
    set (l := filter _ kvs). destruct l as [|kv l'] eqn:El; [done|]. intros [= <-].
    assert (Hl : forall kv, kv ∈ l <-> (kv_version kv = version /\ of_service name kv) /\ kv ∈ kvs)
      by (intros kv'; unfold l; by rewrite list_elem_of_filter).
    split_and!; [done|by apply Hl; rewrite El; left|].
    exists (kv_node <$> kv :: l'). split_and!.
    + unfold with_nodes. cbn. by rewrite <-list_fmap_compose.
    + rewrite <-El. apply NoDup_fmap_2_strong.
      * intros [k v] [k' v'] [_ H1]%Hl [_ H2]%Hl [= <- _].
        rewrite Hkvs in H1, H2. apply list_elem_of_filter in H1 as [_ H1], H2 as [_ H2].
        apply elem_of_map_to_list in H1, H2. congruence.
      * apply NoDup_filter. rewrite Hkvs. apply NoDup_filter, NoDup_map_to_list.
    + intros n. rewrite <-El, list_elem_of_fmap. split.
      * intros (kv' & -> & [[<- H1] H2]%Hl). destruct (Hread kv' H2 H1) as (h & p & HC & _ & ->). eauto.
      * intros (h & p & HC & ->). exists (entry_Id name h p, entry_value version h).
        destruct (read_entry _ _ _ _ (represents_clean _ _ HR _ _ _ _ HC)) as (_ & _ & Hv & Hn).
        split; [done|]. apply Hl. rewrite Hv.
        destruct (proj2 (Hans _) (ex_intro _ h (ex_intro _ p (ex_intro _ version (conj HC eq_refl))))).
        done.
Qed.

Lemma GetService_lists c w C name :
  represents (stored (er_client c) w) C -> name <> "" ->
  exists services e, GetService c name "" w = Ret (services, e) /\ (e = None -> lists C name services).
Proof.
  intros HR Hname. unfold GetService. rewrite bool_decide_eq_false_2 by done.
  destruct (Get_WithPrefix _ _ w) as [r [e|]] eqn:E.
  { destruct r; do 2 eexists; (split; [done|intros [=]]). }
  apply Get_WithPrefix_stored in E as (kvs & -> & Hkvs).
  change ("/" +:+ DefaultPrefixService +:+ "/" +:+ name) with ("/airman/" +:+ name) in Hkvs.
  change (∅ : gmap string Service) with (collect []). rewrite range_kvs_spec.
  rewrite bool_decide_eq_false_2.
  - do 2 eexists. split; [done|]. intros _. by eapply list_groups.
  - rewrite Exists_exists. intros (kv & Hin & Hof & Hu).
    destruct (proj1 (answer_entries _ _ _ _ kv HR Hkvs) (conj Hin Hof)) as (h & p & ver & HC & ->).
    by apply (read_entry _ _ _ _ (represents_clean _ _ HR _ _ _ _ HC)) in Hu.
Qed.

Lemma put_represents c C full host port version l w e w' :
  represents (stored (er_client c) w) C -> clean full host port version ->
  Put (er_client c) (entry_Id full host port) (entry_value version host) l w = (e, w') ->
  client_error e = None ->
  represents (stored (er_client c) w') (<[(full, host, port) := version]> C).
Proof.
  intros HR Hc HP He. destruct e; [done|]. apply Put_stored in HP as ->.
  by apply represents_insert.
Qed.

(** A lease that is not granted makes the registration panic: the error of
    [Grant] is dropped and its nil response is used.  Only an error of [Get]
    other than a missing key comes before that. *)
Lemma RegisterWithTTL_no_lease c s node ns timeTTL w err w1 :
  s_Nodes s = Some (Some node :: ns) ->
  Grant (er_client c) (Nanoseconds timeTTL) w = (None, err, w1) ->
  RegisterWithTTL c s timeTTL w =
    match Get (er_client c) (n_Id node) w1 with
    | Some e => if bool_decide (e = ErrKeyNotFound) then Panic else Ret (Some (ClientError e), w1)
    | None => Panic
    end.
Proof.
  intros Hs HG. unfold RegisterWithTTL, len_nodes, first_node.
  by rewrite (GetTags_node s node ns), HG, Hs by done.
Qed.

(** C20: the registry implements a catalogue of nodes: if the store represents
    a catalogue, then registering a service without a lease returns and on
    success the store represents the catalogue with the node added; with a TTL
    it does so if the lease is granted, and where no lease is granted it panics,
    unless the lookup of the key fails with another error than a missing key,
    which it returns; cancelling returns and on success the node is gone; and
    discovery by name returns without panic, and if the store answered exactly
    the nodes of the catalogue, grouped by version.  This is for names, hosts and versions that
    the key and the value can carry ([clean]: no slash in the name, the version
    or the host, no comma in the host or the version, a host that is not empty)
    and a port that is not 0.  The name under which a service is found is its
    name and version without a separator. *)
Theorem registry_refines_catalogue c w C name version address port :
  represents (stored (er_client c) w) C ->
  clean (name +:+ version) address port version -> port <> 0 ->
  let s := NewService name version address port in
  let key := (name +:+ version, address, port) in
  (exists e w', Register c s w = Ret (e, w') /\
     (e = None -> represents (stored (er_client c) w') (<[key := version]> C))) /\
  (forall timeTTL lease err w1,
     Grant (er_client c) (Nanoseconds timeTTL) w = (Some lease, err, w1) ->
     exists e w', RegisterWithTTL c s timeTTL w = Ret (e, w') /\
       (e = None -> represents (stored (er_client c) w') (<[key := version]> C))) /\
  (forall timeTTL err w1,
     Grant (er_client c) (Nanoseconds timeTTL) w = (None, err, w1) ->
     RegisterWithTTL c s timeTTL w =
       match Get (er_client c) (service_id name version address port) w1 with
       | Some e => if bool_decide (e = ErrKeyNotFound) then Panic else Ret (Some (ClientError e), w1)
       | None => Panic
       end) /\
  (exists e w', Deregister c s w = Ret (e, w') /\
     (e = None -> represents (stored (er_client c) w') (delete key C))) /\
  (forall full, full <> "" -> exists services e,
     GetService c full "" w = Ret (services, e) /\ (e = None -> lists C full services)).
Proof.
  intros HR Hc Hport s key.
  assert (Hs : s_Nodes s = Some [Some (mkNode (entry_Id (name +:+ version) address port) address port [])]).
  { unfold s, NewService. cbn [s_Nodes]. rewrite (bool_decide_eq_false_2 (address = ""))
      by apply (clean_host_some _ _ _ _ Hc).
    replace (port =? 0) with false by lia. by rewrite service_id_full. }
  assert (Ht : GetTags (Some s) = Ret (announced version address))
    by (by rewrite (GetTags_node _ _ _ Hs)).
  split_and!; [..|intros full Hfull; by apply GetService_lists].
  - unfold Register, len_nodes, first_node. rewrite Ht, Hs. simpl.
    destruct (Put _ _ _ _ w) as [e w'] eqn:E. do 2 eexists. split; [done|].
    by eapply put_represents.
  - intros timeTTL lease err w1 HG. unfold RegisterWithTTL, len_nodes, first_node.
    rewrite Ht, Hs, HG. simpl. apply Grant_stored in HG. rewrite <-HG in HR.
    destruct (Get _ _ w1) as [e|]; [case_bool_decide; [|do 2 eexists; split; done]|];
      (destruct (Put _ _ _ _ w1) as [e' w'] eqn:E; do 2 eexists; split; [done|];
       by eapply put_represents).
  - intros timeTTL err w1 HG. rewrite service_id_full.
    exact (RegisterWithTTL_no_lease c s _ [] timeTTL w err w1 Hs HG).
  - unfold Deregister, len_nodes, first_node. rewrite Hs. simpl.
    destruct (Delete _ _ w) as [[e|] w'] eqn:E; do 2 eexists; (split; [done|]); [done|]. intros _.
    apply Delete_stored in E as ->. by apply (represents_delete _ _ _ _ _ version).
Qed.

End Refinement.

(** ** A store for the witnesses *)

Module Store.

#[local] Instance sorted_range : MapRange := map_to_list.
#[local] Instance sorted_range_laws : MapRangeLaws.
Proof. by intros m. Defined.

#[local] Instance store : EtcdClient unit (gmap string string) string := {
  ErrKeyNotFound := "etcdserver: key not found";
  clientv3_New _ _ := Ok tt;
  Grant _ _ w := (Some 1, None, w);
  Get _ _ _ := None;
  Get_WithPrefix _ p w :=
    (Some (filter (fun kv => HasPrefix kv.1 p = true) (map_to_list w)), None);
  Put _ k v _ w := (None, <[k := v]> w);
  Delete _ k w := (None, delete k w);
  client_Close _ w := w;
}.

#[local] Instance store_laws : EtcdLaws unit (gmap string string) string.
Proof.
  refine {| stored := fun _ w => w |}.
  - by intros _ ttl w l e w' [= _ _ <-].
  - by intros _ k v l w w' [= <-].
  - by intros _ k w w' [= <-].
  - intros _ p w r [= <-]. by eexists.
Defined.

Definition registry : EtcdRegistry := mkEtcdRegistry 0 0 ["127.0.0.1:2379"%string] tt.

Lemma represents_empty : represents ∅ ∅.
Proof. split; [|done]. intros k v _. rewrite lookup_empty. naive_solver. Qed.

(** The store with one service, and what is found in it. *)
Definition api_stored : gmap string string :=
  match Register registry (NewService "api" "1.2" "10.0.0.1" 80) ∅ with Ret (_, w) => w | Panic => ∅ end.

Lemma api_registered : Register registry (NewService "api" "1.2" "10.0.0.1" 80) ∅ = Ret (None, api_stored).
Proof. vm_compute. reflexivity. Qed.

Lemma api_found :
  GetService registry "api1.2" "" api_stored =
    Ret ([mkService "api1.2" "1.2" "" 0 ["a-service"; "v-1.2"; "h-10.0.0.1"]
            (Some [Some (mkNode "/airman/api1.2/10.0.0.1/80" "10.0.0.1" 80 [])])], None).
Proof. vm_compute. reflexivity. Qed.

Lemma registry_refines_catalogue_witness :
  exists w', Register registry (NewService "api" "1.2" "10.0.0.1" 80) ∅ = Ret (None, w') /\
    represents w' {[("api1.2"%string, "10.0.0.1"%string, 80) := "1.2"%string]} /\
    GetService registry "api1.2" "" w' =
      Ret ([mkService "api1.2" "1.2" "" 0 ["a-service"; "v-1.2"; "h-10.0.0.1"]
              (Some [Some (mkNode "/airman/api1.2/10.0.0.1/80" "10.0.0.1" 80 [])])], None).
Proof.
  destruct (registry_refines_catalogue registry ∅ ∅ "api" "1.2" "10.0.0.1" 80) as [H _].
  - exact represents_empty.
  - split; apply (bool_decide_eq_true_1 _); vm_compute; reflexivity.
  - discriminate.
  - destruct H as (e & w' & Hr & H). rewrite api_registered in Hr. injection Hr as <- <-.
    exists api_stored. split; [exact api_registered|]. split; [exact (H eq_refl)|exact api_found].
Defined.

(** A key with four fields makes discovery panic. *)
Lemma GetService_panics_witness :
  GetService registry "api" "" {["/airman/api/10.0.0.1"%string := "a-service"%string]} = Panic.
Proof.
  apply (proj2 (GetService_panics registry "api" ""
    {["/airman/api/10.0.0.1"%string := "a-service"%string]}
    [("/airman/api/10.0.0.1", "a-service")]%string ltac:(discriminate) ltac:(vm_compute; reflexivity))).
  eexists. split; [left|]. split; [|left]; apply (bool_decide_eq_true_1 _); vm_compute; reflexivity.
Defined.

End Store.
