(* ===== verification/Consul.v ===== *)
(** * pkg/registry/consul.go: the registry over consul

    The agent and the catalogue are consul's client library: the class
    [ConsulClient], whose operations act on the state [St] of the agent the
    client talks to.  [ConsulLaws] states what the agent's documentation
    promises of its services. *)

From S2P Require Import Prelude GoStd GoNet Entity.
From Stdlib Require Import ZArith Lia.
From stdpp Require Import gmap strings list.
Open Scope Z_scope.

Definition DefaultInterval : Z := 10 * Second.

(** ** The types of the client library the registry fills in and reads *)

Record AgentServiceCheck := mkCheck {
  ck_Name : string;
  ck_Notes : string;
  ck_TTL : string;
  ck_Interval : string;
  ck_HTTP : string;
  ck_Timeout : string;
  ck_DeregisterCriticalServiceAfter : string;
}.

Record AgentServiceRegistration := mkRegistration {
  ar_ID : string;
  ar_Name : string;
  ar_Tags : list string;
  ar_Port : Z;
  ar_Address : string;
  ar_Check : AgentServiceCheck;
}.

(** An entry of the health endpoint: the address of the node, the service and
    the status of each check. *)
Record ServiceEntry := mkEntry {
  en_NodeAddress : string;
  en_ID : string;
  en_Service : string;
  en_Tags : list string;
  en_Port : Z;
  en_Address : string;
  en_Checks : list string;
}.

Class ConsulClient (Client St Error : Type) := {
  (* consul.DefaultConfig().Address and consul.NewClient *)
  DefaultAddress : string;
  NewClient : string -> result Error Client;
  PassTTL : Client -> string -> string -> St -> option Error * St;
  ServiceRegister : Client -> AgentServiceRegistration -> St -> option Error * St;
  ServiceDeregister : Client -> string -> St -> option Error * St;
  (* Health().Service(name, tag, passingOnly, q) with q.AllowStale *)
  Health_Service : Client -> string -> string -> bool -> St -> result Error (list ServiceEntry);
  (* the names of Catalog().Services(q), in the order range visits them *)
  Catalog_Services : Client -> St -> result Error (list string);
}.

(** The service as the agent files it: an identifier that is left empty
    defaults to the name. *)
Definition filed (asr : AgentServiceRegistration) : AgentServiceRegistration :=
  mkRegistration (if bool_decide (ar_ID asr = "") then ar_Name asr else ar_ID asr)
    (ar_Name asr) (ar_Tags asr) (ar_Port asr) (ar_Address asr) (ar_Check asr).

(** The services of the agent by their identifier; the check that a service is
    registered with has the identifier ["service:<id>"], and passing it
    succeeds only if the service is there. *)
Class ConsulLaws (Client St Error : Type) `{!ConsulClient Client St Error} := {
  registered : Client -> St -> gmap string AgentServiceRegistration;
  PassTTL_registered c i note w e w' :
    PassTTL c ("service:" +:+ i) note w = (e, w') ->
    registered c w' = registered c w /\ (e = None -> is_Some (registered c w !! i));
  ServiceRegister_registered c asr w w' :
    ServiceRegister c asr w = (None, w') ->
    registered c w' = <[ar_ID (filed asr) := filed asr]> (registered c w);
  ServiceDeregister_registered c i w w' :
    ServiceDeregister c i w = (None, w') -> registered c w' = delete i (registered c w);
}.

Section Consul.
Context {Client St Error : Type} `{CC : !ConsulClient Client St Error} `{MR : MapRange}.

Record ConsulRegistry := mkConsulRegistry {
  cr_addr : string;
  cr_client : Client;
  cr_timeout : Z;
}.

(** ** configure *)

(** The address of the configuration: [port = "8500"] where it is missing, the
    default where the address does not parse. *)
Definition config_address (address : string) : string :=
  if bool_decide (address = "") then DefaultAddress
  else
    match SplitHostPort address with
    | Ok (addr, port) => addr +:+ ":" +:+ port
    | Err e => if bool_decide (e = missingPort) then address +:+ ":" +:+ "8500" else DefaultAddress
    end.

Definition configure (address : string) (timeout : Z) : result Error ConsulRegistry :=
  let Address := config_address address in
  let? client := NewClient Address in
  Ok (mkConsulRegistry Address client timeout).

Definition NewConsulRegistry (address : string) (timeout : Z) : result Error ConsulRegistry :=
  configure address timeout.

(** ** Registration *)

(** [t + DefaultInterval] on an [int64], two minutes at least. *)
Definition getDeregisterTTL (t : Z) : Z :=
  let deregTTL := i64 (t + DefaultInterval) in
  if t <? 2 * Minute then 2 * Minute else deregTTL.

(** The errors returned: the registry's own, or the client's. *)
Inductive reg_error :=
| NoNode
| ClientError (e : Error).

Definition client_error (e : option Error) : option reg_error := ClientError <$> e.

Definition check_id (node : Node) : string := "service:" +:+ n_Id node.

Definition ttl_registration (s : Service) (node : Node) (tags : list string) (timeTTL : Z) :
    AgentServiceRegistration :=
  mkRegistration (n_Id node) (s_Name s) tags (n_Port node) (n_Host node)
    (mkCheck (s_Name s) (n_Id node) (Duration_String timeTTL) "" "" ""
             (Duration_String (getDeregisterTTL timeTTL))).

Definition RegisterWithTTL (c : ConsulRegistry) (s : Service) (timeTTL : Z) (w : St) :
    run (option reg_error * St) :=
  if (len_nodes s =? 0)%nat then Ret (Some NoNode, w)
  else
    let! node := first_node s in
    match PassTTL (cr_client c) (check_id node) "" w with
    | (None, w) => Ret (None, w)
    | (Some _, w) =>
        let! tags := GetTags (Some s) in
        match ServiceRegister (cr_client c) (ttl_registration s node tags timeTTL) w with
        | (Some e, w) => Ret (Some (ClientError e), w)
        | (None, w) =>
            if timeTTL =? 0 then Ret (None, w)
            else
              let '(e, w) := PassTTL (cr_client c) (check_id node) "" w in
              Ret (client_error e, w)
        end
    end.

Definition health_check (s : Service) (node : Node) : string :=
  let url := "http://" +:+ n_Host node +:+ ":" +:+ Itoa (n_Port node) in
  if bool_decide (s_Check s = "") then url else url +:+ "/" +:+ s_Check s.

Definition http_registration (s : Service) (node : Node) (tags : list string) :
    AgentServiceRegistration :=
  mkRegistration (n_Id node) (s_Name s) tags (n_Port node) (n_Host node)
    (mkCheck (s_Name s) (n_Id node) "" "10s" (health_check s node) "30s"
             (Duration_String (getDeregisterTTL 0))).

Definition Register (c : ConsulRegistry) (s : Service) (w : St) : run (option reg_error * St) :=
  if (len_nodes s =? 0)%nat then Ret (Some NoNode, w)
  else
    let! node := first_node s in
    match PassTTL (cr_client c) (check_id node) "" w with
    | (None, w) => Ret (None, w)
    | (Some _, w) =>
        let! tags := GetTags (Some s) in
        let '(e, w) := ServiceRegister (cr_client c) (http_registration s node tags) w in
        Ret (client_error e, w)
    end.

Definition Deregister (c : ConsulRegistry) (s : Service) (w : St) : run (option reg_error * St) :=
  if (len_nodes s =? 0)%nat then Ret (Some NoNode, w)
  else
    let! node := first_node s in
    let '(e, w) := ServiceDeregister (cr_client c) (n_Id node) w in
    Ret (client_error e, w).

(** ** Discovery *)

(** The loop over the entries of the health endpoint. *)
Fixpoint range_entries (name tag : string) (rsp : list ServiceEntry)
    (serviceMap : gmap string Service) : run (gmap string Service) :=
  match rsp with
  | [] => Ret serviceMap
  | s :: rsp =>
      if negb (bool_decide (en_Service s = name)) then range_entries name tag rsp serviceMap
      else
        let del := existsb (fun status => bool_decide (status = "critical")) (en_Checks s) in
        if del then range_entries name tag rsp serviceMap
        else
          let! version := tagsVersion (en_Tags s) in
          let address := if bool_decide (en_Address s = "") then en_NodeAddress s else en_Address s in
          let! key := tagsCheck (en_Tags s) tag in
          let key := if bool_decide (tag = "") then version else key in
          let svc := mkService (en_Service s) version "" 0 (en_Tags s) None in
          let node := mkNode (en_ID s) address (en_Port s) [] in
          range_entries name tag rsp (add_node key svc node serviceMap)
  end.

Definition GetService (c : ConsulRegistry) (name tag : string) (w : St) :
    run (result Error (list Service)) :=
  match Health_Service (cr_client c) name tag false w with
  | Err e => Ret (Err e)
  | Ok rsp =>
      let! serviceMap := range_entries name tag rsp ∅ in
      Ret (Ok (services_of serviceMap))
  end.

Definition ListServices (c : ConsulRegistry) (w : St) : result Error (list Service) :=
  let? names := Catalog_Services (cr_client c) w in
  Ok ((fun name => mkService name "" "" 0 [] None) <$> names).

(** ** Discovery returns the healthy nodes in their groups *)

Definition healthy (name : string) (s : ServiceEntry) : Prop :=
  en_Service s = name /\ "critical"%string ∉ en_Checks s.

#[local] Instance healthy_dec name s : Decision (healthy name s).
Proof. unfold healthy. apply _. Defined.

(** The version, the key of the group and the node an entry stands for. *)
Definition entry_version (s : ServiceEntry) : string :=
  match tagsVersion (en_Tags s) with Ret v => v | Panic => "" end.

Definition entry_key (tag : string) (s : ServiceEntry) : string :=
  if bool_decide (tag = "") then entry_version s
  else match tagsCheck (en_Tags s) tag with Ret k => k | Panic => "" end.

Definition entry_node (s : ServiceEntry) : Node :=
  mkNode (en_ID s) (if bool_decide (en_Address s = "") then en_NodeAddress s else en_Address s)
         (en_Port s) [].

Definition entry_service (s : ServiceEntry) : Service :=
  mkService (en_Service s) (entry_version s) "" 0 (en_Tags s) None.

(** The entries that the loop cannot handle: the tag asked for is there and
    too short to be cut. *)
Definition unreadable (tag : string) (s : ServiceEntry) : Prop :=
  tag ∈ en_Tags s /\ (length (go_bytes tag) < 2)%nat.

#[local] Instance unreadable_dec tag s : Decision (unreadable tag s).
Proof. unfold unreadable. apply _. Defined.

Lemma range_entries_spec name tag rsp entries :
  range_entries name tag rsp (collect entries) =
  if bool_decide (Exists (fun s => healthy name s /\ unreadable tag s) rsp) then Panic
  else Ret (collect (entries ++ ((fun s => (entry_key tag s, entry_service s, entry_node s)) <$>
                                 filter (healthy name) rsp))).
Proof.
  revert entries. induction rsp as [|s rsp IH]; intros entries.
  { rewrite bool_decide_eq_false_2 by (by intros []%Exists_nil). simpl. by rewrite app_nil_r. }
  cbn [range_entries]. rewrite filter_cons.
  assert (Hd : existsb (fun status => bool_decide (status = "critical")) (en_Checks s) = false <->
    "critical"%string ∉ en_Checks s).
  { rewrite <-not_true_iff_false, existsb_exists. setoid_rewrite bool_decide_eq_true.
    setoid_rewrite <-list_elem_of_In. naive_solver. }
  assert (Hskip : ~ (healthy name s /\ unreadable tag s) ->
    bool_decide (Exists (fun s => healthy name s /\ unreadable tag s) (s :: rsp)) =
    bool_decide (Exists (fun s => healthy name s /\ unreadable tag s) rsp)).
  { intros Hno. apply bool_decide_ext. rewrite Exists_cons. tauto. }
  destruct (decide (healthy name s)) as [Hh|Hh].
  - destruct Hh as [Hn Hc]. rewrite bool_decide_eq_true_2 by done. rewrite (proj2 Hd Hc). cbn [negb].
    destruct (tagsVersion_total (en_Tags s)) as [v Hv]. rewrite Hv.
    destruct (tagsCheck (en_Tags s) tag) as [k|] eqn:Ek.
    + rewrite Hskip; [|intros [_ Hu%tagsCheck_panics]; congruence].
      rewrite fmap_cons, cons_middle, app_assoc, <-IH, collect_snoc.
      unfold entry_key, entry_service, entry_version. by rewrite Hv, Ek.
    + apply tagsCheck_panics in Ek. rewrite (bool_decide_eq_true_2 (Exists _ (s :: rsp))); [done|].
      by left.
  - rewrite Hskip by tauto. clear Hskip.
    destruct (bool_decide (en_Service s = name)) eqn:Hn; [|apply IH].
    apply bool_decide_eq_true in Hn. cbn [negb].
    destruct (existsb _ (en_Checks s)) eqn:E; [apply IH|]. destruct Hh. split; [done|by apply Hd].
Qed.

(** The services for the groups of the healthy nodes. *)
Lemma services_of_groups `{!MapRangeLaws} name tag rsp :
  exists keys,
    NoDup keys /\
    (forall key, key ∈ keys <-> exists s, s ∈ rsp /\ healthy name s /\ entry_key tag s = key) /\
    Forall2 (fun key svc =>
      exists s ss, filter (fun s => healthy name s /\ entry_key tag s = key) rsp = s :: ss /\
        svc = mkService name (entry_version s) "" 0 (en_Tags s)
                (Some (Some ∘ entry_node <$> s :: ss))) keys
      (services_of (collect ((fun s => (entry_key tag s, entry_service s, entry_node s)) <$>
                             filter (healthy name) rsp))).
Proof.
  set (f := fun s => (entry_key tag s, entry_service s, entry_node s)).
  destruct (collect_services (f <$> filter (healthy name) rsp)) as (keys & Hnd & Hin & Hf).
  exists keys. split_and!; [done|..].
  - intros key. rewrite Hin. setoid_rewrite list_elem_of_fmap. split.
    + intros (e & (s & -> & [Hh Hs]%list_elem_of_filter) & <-). by exists s.
    + intros (s & Hs & Hh & <-). exists (f s). split; [|done]. exists s. split; [done|].
      by apply list_elem_of_filter.
  - eapply Forall2_impl; [exact Hf|]. intros key svc. cbv beta. rewrite group_fmap, list_filter_filter by done.
    rewrite (list_filter_iff (fun s => (f s).1.1 = key /\ healthy name s)
      (fun s => healthy name s /\ entry_key tag s = key)) by (intros s; apply and_comm).
    destruct (filter (fun s => healthy name s /\ entry_key tag s = key) rsp) as [|s ss] eqn:E;
      [done|]. intros [= <-]. exists s, ss. split; [done|].
    assert (Hs : s ∈ filter (fun s => healthy name s /\ entry_key tag s = key) rsp)
      by (rewrite E; left).
    apply list_elem_of_filter in Hs as [[[Hn _] _] _].
    unfold with_nodes, f, entry_service. cbn. by rewrite Hn.
Qed.

(** C21: the errors of the health endpoint are [GetService]'s; on its answer
    [GetService] panics exactly if a healthy node of the name carries the tag
    asked for and that tag has fewer than two bytes (the empty tag, which asks
    for any version, is such a tag).  In every other case it returns one
    service for each group of healthy nodes of the name (by version, or by the
    tag asked for), and each of them holds exactly the nodes of its group, in
    the order of the answer; entries of other services and entries with a
    critical check are left out.  The tag does not filter: the nodes without it
    are the group of the empty key. *)
Theorem GetService_groups_healthy `{!MapRangeLaws} c name tag w :
  match Health_Service (cr_client c) name tag false w with
  | Err e => GetService c name tag w = Ret (Err e)
  | Ok rsp =>
      ((exists s, s ∈ rsp /\ healthy name s /\ tag ∈ en_Tags s /\ (length (go_bytes tag) < 2)%nat) ->
       GetService c name tag w = Panic) /\
      (~ (exists s, s ∈ rsp /\ healthy name s /\ tag ∈ en_Tags s /\ (length (go_bytes tag) < 2)%nat) ->
       exists keys services,
         GetService c name tag w = Ret (Ok services) /\
         NoDup keys /\
         (forall key, key ∈ keys <-> exists s, s ∈ rsp /\ healthy name s /\ entry_key tag s = key) /\
         Forall2 (fun key svc =>
           exists s ss, filter (fun s => healthy name s /\ entry_key tag s = key) rsp = s :: ss /\
             svc = mkService name (entry_version s) "" 0 (en_Tags s)
                     (Some (Some ∘ entry_node <$> s :: ss))) keys services)
  end.
Proof.
  unfold GetService. destruct (Health_Service _ name tag false w) as [rsp|e]; [|done].
  change (∅ : gmap string Service) with (collect []). rewrite range_entries_spec.
  cbn [app]. rewrite <-Exists_exists. split; intros Hu.
  - by rewrite bool_decide_eq_true_2.
  - rewrite bool_decide_eq_false_2 by done.
    destruct (services_of_groups name tag rsp) as (keys & H1 & H2 & H3). eauto 10.
Qed.

(** ** The agent's services *)

(** What a registration says of the service and its first node. *)
Definition describes (s : Service) (node : Node) (asr : AgentServiceRegistration) : Prop :=
  ar_ID asr = n_Id node /\ ar_Name asr = s_Name s /\
  ar_Tags asr = announced (s_Version s) (n_Host node) /\
  ar_Port asr = n_Port node /\ ar_Address asr = n_Host node /\
  ck_Name (ar_Check asr) = s_Name s /\ ck_Notes (ar_Check asr) = n_Id node.

(** A check by TTL, and one by HTTP every ten seconds; a service whose check
    stays critical is removed after two minutes, or for a longer TTL after the
    TTL and ten seconds. *)
Definition checks_ttl (timeTTL : Z) (ck : AgentServiceCheck) : Prop :=
  ck_TTL ck = Duration_String timeTTL /\ ck_HTTP ck = "" /\ ck_Interval ck = "" /\
  (timeTTL < 2 * Minute -> ck_DeregisterCriticalServiceAfter ck = Duration_String (2 * Minute)) /\
  (2 * Minute <= timeTTL < 2 ^ 63 - 10 * Second ->
   ck_DeregisterCriticalServiceAfter ck = Duration_String (timeTTL + 10 * Second)).

Definition checks_http (s : Service) (node : Node) (ck : AgentServiceCheck) : Prop :=
  ck_TTL ck = "" /\ ck_Interval ck = "10s" /\ ck_Timeout ck = "30s" /\
  ck_HTTP ck = "http://" +:+ n_Host node +:+ ":" +:+ Itoa (n_Port node) +:+
    (if bool_decide (s_Check s = "") then "" else "/" +:+ s_Check s) /\
  ck_DeregisterCriticalServiceAfter ck = Duration_String (2 * Minute).

Lemma ttl_registration_describes s node timeTTL :
  let asr := ttl_registration s node (announced (s_Version s) (n_Host node)) timeTTL in
  describes s node asr /\ checks_ttl timeTTL (ar_Check asr).
Proof.
  split; [by split_and!|]. unfold checks_ttl. cbn. unfold getDeregisterTTL, DefaultInterval.
  split_and!; [done..| |]; intros Ht; case_match eqn:E; bool_prop; try lia; [done|].
  rewrite i64_small; [done|]. unfold Minute, Second in *. lia.
Qed.

Lemma http_registration_describes s node :
  let asr := http_registration s node (announced (s_Version s) (n_Host node)) in
  describes s node asr /\ checks_http s node (ar_Check asr).
Proof.
  split; [by split_and!|]. unfold checks_http. cbn. split_and!; [done..| |done].
  unfold health_check. case_bool_decide; apply go_bytes_inj; rewrite !go_bytes_app; simpl.
  - by rewrite app_nil_r.
  - by rewrite <-!app_assoc.
Qed.

(** The services after a registration that succeeds: those of before where the
    agent had a check to pass, and otherwise with [asr] filed. *)
Definition files (e1 : option Error) (id : string) (asr : AgentServiceRegistration)
    (m m' : gmap string AgentServiceRegistration) : Prop :=
  match e1 with
  | None => is_Some (m !! id) /\ m' = m
  | Some _ => m' = <[id := asr]> m
  end.

Lemma files_delete e1 id asr m m' : files e1 id asr m m' -> delete id m' = delete id m.
Proof. destruct e1; [intros ->; apply delete_insert_eq|by intros [_ ->]]. Qed.

Lemma ServiceRegister_files `{!ConsulLaws Client St Error} c e1 asr w0 w w' :
  ar_ID asr <> "" -> registered (cr_client c) w = registered (cr_client c) w0 ->
  ServiceRegister (cr_client c) asr w = (None, w') ->
  files (Some e1) (ar_ID asr) asr (registered (cr_client c) w0) (registered (cr_client c) w').
Proof.
  intros Hid H0 E%ServiceRegister_registered. unfold files. rewrite E, <-H0.
  unfold filed. rewrite bool_decide_eq_false_2 by done. by destruct asr.
Qed.

Lemma RegisterWithTTL_files `{!ConsulLaws Client St Error} c s node ns timeTTL w :
  s_Nodes s = Some (Some node :: ns) -> n_Id node <> "" ->
  exists e w', RegisterWithTTL c s timeTTL w = Ret (e, w') /\
    (e = None -> exists asr, describes s node asr /\ checks_ttl timeTTL (ar_Check asr) /\
       files (PassTTL (cr_client c) (check_id node) "" w).1 (n_Id node) asr
         (registered (cr_client c) w) (registered (cr_client c) w')).
Proof.
  intros Hn Hid. unfold RegisterWithTTL, len_nodes, first_node.
  rewrite (GetTags_node s node ns), Hn by done. simpl.
  destruct (ttl_registration_describes s node timeTTL) as [Hd Hc].
  set (asr := ttl_registration _ _ _ _) in *.
  destruct (PassTTL _ _ _ w) as [e1 w1] eqn:E1. apply PassTTL_registered in E1 as [H1 H1']. cbn [fst].
  destruct e1 as [e1|].
  2:{ do 2 eexists. split; [done|]. intros _. exists asr. split; [done|]. split; [done|]. split; auto. }
  destruct (ServiceRegister _ _ w1) as [[e|] w2] eqn:E2; [naive_solver|].
  apply (ServiceRegister_files c e1 _ w) in E2; [|done..].
  destruct (timeTTL =? 0); [by eauto 10|].
  destruct (PassTTL _ _ _ w2) as [e3 w3] eqn:E3. apply PassTTL_registered in E3 as [H3 _].
  do 2 eexists. split; [done|]. intros _. rewrite H3. by eauto.
Qed.

Lemma Register_files `{!ConsulLaws Client St Error} c s node ns w :
  s_Nodes s = Some (Some node :: ns) -> n_Id node <> "" ->
  exists e w', Register c s w = Ret (e, w') /\
    (e = None -> exists asr, describes s node asr /\ checks_http s node (ar_Check asr) /\
       files (PassTTL (cr_client c) (check_id node) "" w).1 (n_Id node) asr
         (registered (cr_client c) w) (registered (cr_client c) w')).
Proof.
  intros Hn Hid. unfold Register, len_nodes, first_node.
  rewrite (GetTags_node s node ns), Hn by done. simpl.
  destruct (http_registration_describes s node) as [Hd Hc].
  set (asr := http_registration _ _ _) in *.
  destruct (PassTTL _ _ _ w) as [e1 w1] eqn:E1. apply PassTTL_registered in E1 as [H1 H1']. cbn [fst].
  destruct e1 as [e1|].
  2:{ do 2 eexists. split; [done|]. intros _. exists asr. split; [done|]. split; [done|]. split; auto. }
  destruct (ServiceRegister _ _ w1) as [[e|] w2] eqn:E2; [naive_solver|].
  apply (ServiceRegister_files c e1 _ w) in E2; [|done..]. by eauto 10.
Qed.

(** C30: over an agent that keeps its documented promises, registering a
    service whose first node has an identifier returns, with a TTL or with an
    HTTP check.  If it reports success there are two cases: the agent had a
    check of that identifier to pass, and then its services are those of
    before, the old registration included (the new one is dropped); or it had
    none, and then exactly one service is added or replaced, the one filed
    under the identifier, with the name of the service, the tags announced, the
    host and port of the node and the check that was asked for.  Cancelling the
    service returns as well, and on success exactly the service under that
    identifier is gone. *)
Theorem registered_until_deregistered `{!ConsulLaws Client St Error} c s node ns w r checks :
  s_Nodes s = Some (Some node :: ns) -> n_Id node <> "" ->
  (exists timeTTL, r = RegisterWithTTL c s timeTTL w /\ checks = checks_ttl timeTTL) \/
  (r = Register c s w /\ checks = checks_http s node) ->
  exists e w', r = Ret (e, w') /\
    (e = None ->
       match (PassTTL (cr_client c) (check_id node) "" w).1 with
       | None => is_Some (registered (cr_client c) w !! n_Id node) /\
           registered (cr_client c) w' = registered (cr_client c) w
       | Some _ => exists asr, describes s node asr /\ checks (ar_Check asr) /\
           registered (cr_client c) w' = <[n_Id node := asr]> (registered (cr_client c) w)
       end) /\
    exists e2 w2, Deregister c s w' = Ret (e2, w2) /\
      (e = None -> e2 = None ->
       registered (cr_client c) w2 = delete (n_Id node) (registered (cr_client c) w)).
Proof.
  intros Hn Hid Hr.
  assert (H : exists e w', r = Ret (e, w') /\
    (e = None -> exists asr, describes s node asr /\ checks (ar_Check asr) /\
       files (PassTTL (cr_client c) (check_id node) "" w).1 (n_Id node) asr
         (registered (cr_client c) w) (registered (cr_client c) w'))).
  { destruct Hr as [(timeTTL & -> & ->)|[-> ->]];
      [by eapply RegisterWithTTL_files|by eapply Register_files]. }
  destruct H as (e & w' & -> & H). exists e, w'. split_and!; [done| |].
  { intros He. destruct (H He) as (asr & Hd & Hc & Hf). unfold files in Hf.
    destruct (PassTTL _ _ _ w).1; eauto. }
  unfold Deregister, len_nodes, first_node. rewrite Hn. simpl.
  destruct (ServiceDeregister _ _ w') as [e2 w2] eqn:E2. do 2 eexists. split; [done|].
  intros He He2. destruct (H He) as (asr & _ & _ & <-%files_delete). destruct e2; [done|].
  by apply ServiceDeregister_registered in E2.
Qed.

(** [DeregisterCriticalServiceAfter] is two minutes at least, and more than
    the TTL, unless the sum leaves the 64 bits. *)
Lemma getDeregisterTTL_bounds t :
  - 2 ^ 63 <= t < 2 ^ 63 - DefaultInterval ->
  2 * Minute <= getDeregisterTTL t /\ t < getDeregisterTTL t /\
  (2 * Minute <= t -> getDeregisterTTL t = t + DefaultInterval).
Proof.
  unfold getDeregisterTTL, Minute, DefaultInterval, Second. intros Ht.
  case_match eqn:E; bool_prop; [lia|]. rewrite i64_small by lia. lia.
Qed.

(** The address of the configuration: what was given, the port 8500 where it
    is missing; the brackets of an IPv6 address are lost. *)
Lemma config_address_plain host port :
  (forall c, c ∈ go_bytes host -> c <> chr ":" /\ c <> chr "[" /\ c <> chr "]") ->
  (forall c, c ∈ go_bytes port -> c <> chr ":" /\ c <> chr "[" /\ c <> chr "]") ->
  config_address (host +:+ ":" +:+ port) = host +:+ ":" +:+ port.
Proof.
  intros Hh Hp. unfold config_address. rewrite SplitHostPort_plain by done.
  rewrite bool_decide_eq_false_2; [done|]. by destruct host.
Qed.

Lemma config_address_no_port host :
  host <> "" -> chr ":" ∉ go_bytes host -> config_address host = host +:+ ":8500".
Proof.
  intros Hne Hh. unfold config_address.
  rewrite bool_decide_eq_false_2, SplitHostPort_no_port by done.
  by rewrite bool_decide_eq_true_2.
Qed.

Lemma config_address_IPv6 : config_address "[::1]:8500" = "::1:8500".
Proof. reflexivity. Qed.

End Consul.

(** ** A client for the witnesses: an agent with one data centre *)

Module Agent.

#[local] Instance sorted_range : MapRange := map_to_list.
#[local] Instance sorted_range_laws : MapRangeLaws.
Proof. by intros m. Defined.

(** A check passes if the service is there and was given a TTL. *)
Definition pass (check : string) (w : gmap string AgentServiceRegistration) : option string :=
  match w !! go_string (drop 8 (go_bytes check)) with
  | Some asr => if bool_decide (ck_TTL (ar_Check asr) = "") then Some "no TTL check"%string else None
  | None => Some "unknown check"%string
  end.

Definition entry_of (asr : AgentServiceRegistration) : ServiceEntry :=
  mkEntry "10.0.0.9" (ar_ID asr) (ar_Name asr) (ar_Tags asr) (ar_Port asr) (ar_Address asr) ["passing"].

#[local] Instance agent : ConsulClient unit (gmap string AgentServiceRegistration) string := {
  DefaultAddress := "127.0.0.1:8500";
  NewClient _ := Ok tt;
  PassTTL _ check _ w := (pass check w, w);
  ServiceRegister _ asr w := (None, <[ar_ID (filed asr) := filed asr]> w);
  ServiceDeregister _ i w := (None, delete i w);
  Health_Service _ name tag _ w := Ok (entry_of ∘ snd <$> map_to_list w);
  Catalog_Services _ w := Ok (remove_dups (ar_Name ∘ snd <$> map_to_list w));
}.

#[local] Instance agent_laws : ConsulLaws unit (gmap string AgentServiceRegistration) string.
Proof.
  refine {| registered := fun _ w => w |}.
  - intros _ i note w e w' [= <- <-]. split; [done|]. unfold pass.
    rewrite go_bytes_app. change 8%nat with (length (go_bytes "service:")).
    rewrite drop_app_length, go_string_bytes. destruct (w !! i); naive_solver.
  - by intros _ asr w w' [= <-].
  - by intros _ i w w' [= <-].
Defined.

Definition registry : ConsulRegistry := mkConsulRegistry "127.0.0.1:8500" tt 0.
Definition api : Service := NewService "api" "1.2" "10.0.0.1" 80.
Definition api_node : Node := mkNode "/airman/api1.2/10.0.0.1/80" "10.0.0.1" 80 [].

(** The agent with one service, and without it again. *)
Definition api_agent : gmap string AgentServiceRegistration :=
  match RegisterWithTTL registry api (30 * Second) ∅ with Ret (_, w) => w | Panic => ∅ end.

Lemma api_announced : RegisterWithTTL registry api (30 * Second) ∅ = Ret (None, api_agent).
Proof. vm_compute. reflexivity. Qed.

Lemma api_deregistered : Deregister registry api api_agent = Ret (None, ∅).
Proof. vm_compute. reflexivity. Qed.

Lemma registered_until_deregistered_witness :
  exists w', RegisterWithTTL registry api (30 * Second) ∅ = Ret (None, w') /\
    (exists asr, w' !! n_Id api_node = Some asr /\ describes api api_node asr) /\ Deregister registry api w' = Ret (None, ∅).
Proof.
  destruct (registered_until_deregistered registry api api_node [] ∅ _ _
    eq_refl ltac:(discriminate) (or_introl (ex_intro _ (30 * Second) (conj eq_refl eq_refl))))
    as (e & w' & Hr & H & _).
  rewrite api_announced in Hr. injection Hr as <- <-. exists api_agent.
  split; [exact api_announced|]. split; [|exact api_deregistered].
  destruct (H eq_refl) as (asr & Hd & Hc & Ha). exists asr. split; [|done].
  change (api_agent !! n_Id api_node = Some asr).
  etransitivity; [exact (f_equal (lookup (n_Id api_node)) Ha)|]. apply lookup_insert_eq.
Defined.

Definition catalogue : gmap string AgentServiceRegistration :=
  {["a" := http_registration api api_node ["a-service"; "v-1.2"];
    "b" := http_registration api (mkNode "b" "10.0.0.2" 80 []) ["a-service"; "v-1.3"]]}.

Lemma GetService_groups_healthy_witness :
  exists (keys : list string) services, GetService registry "api" "" catalogue = Ret (Ok services) /\
    NoDup keys /\ length keys = length services.
Proof.
  destruct (GetService_groups_healthy registry "api" "" catalogue) as [_ H].
  destruct H as (keys & services & H1 & H2 & _ & H4).
  - rewrite <-Exists_exists. apply (bool_decide_eq_true_1 (~ _)). vm_compute. reflexivity.
  - exists keys, services. split_and!; [done|done|by eapply Forall2_length].
Defined.

End Agent.
