(* ===== verification/LevelDB.v ===== *)
(** * pkg/leveldb/database.go: the key-value store

    The wrapper of goleveldb and its batches.  goleveldb itself is the class
    [GoLevelDB]: databases, batches and iterators of opaque types acting on the
    state [St] of the file system; [GoLevelDBLaws] states what its
    documentation promises of the contents of a database. *)

From S2P Require Import Prelude.
From Stdlib Require Import ZArith Lia.
From Stdlib Require Import Init.Byte.
From stdpp Require Import strings list.
Open Scope Z_scope.

Definition MiB : Z := 1024 * 1024.

(** The options the wrapper sets; the filter has ten bits per key. *)
Record Options := mkOptions {
  OpenFilesCacheCapacity : Z;
  BlockCacheCapacity : Z;
  WriteBuffer : Z;
  Filter_bits : Z;
}.

Class GoLevelDB (DB Batch Iterator St Error : Type) := {
  OpenFile : string -> Options -> St -> result Error DB * St;
  is_ErrCorrupted : Error -> bool;
  RecoverFile : string -> St -> result Error DB * St;
  db_Put : DB -> list byte -> list byte -> St -> option Error * St;
  db_Has : DB -> list byte -> St -> bool * option Error;
  db_Get : DB -> list byte -> St -> result Error (list byte);
  db_Delete : DB -> list byte -> St -> option Error * St;
  db_NewIterator : DB -> option (list byte * option (list byte)) -> St -> Iterator;
  db_Write : DB -> Batch -> St -> option Error * St;
  db_Close : DB -> St -> option Error * St;
  BytesPrefix : list byte -> list byte * option (list byte);
  new_Batch : Batch;
  batch_Put : list byte -> list byte -> Batch -> Batch;
  batch_Delete : list byte -> Batch -> Batch;
  batch_Reset : Batch -> Batch;
}.

(** An operation on the contents of a database, a function of the key. *)
Inductive op :=
| OpPut (key value : list byte)
| OpDelete (key : list byte).

Definition contents_of : Type := list byte -> option (list byte).

Definition apply_op (m : contents_of) (o : op) : contents_of :=
  fun k =>
    match o with
    | OpPut key value => if bool_decide (k = key) then Some value else m k
    | OpDelete key => if bool_decide (k = key) then None else m k
    end.

Class GoLevelDBLaws (DB Batch Iterator St Error : Type) `{!GoLevelDB DB Batch Iterator St Error} := {
  contents : DB -> St -> contents_of;
  batch_ops : Batch -> list op;
  Put_contents db k v w w' :
    db_Put db k v w = (None, w') -> forall x, contents db w' x = apply_op (contents db w) (OpPut k v) x;
  Delete_contents db k w w' :
    db_Delete db k w = (None, w') -> forall x, contents db w' x = apply_op (contents db w) (OpDelete k) x;
  Write_contents db b w w' :
    db_Write db b w = (None, w') -> forall x, contents db w' x = foldl apply_op (contents db w) (batch_ops b) x;
  Get_contents db k w v : db_Get db k w = Ok v -> contents db w k = Some v;
  new_Batch_ops : batch_ops new_Batch = [];
  batch_Put_ops k v b : batch_ops (batch_Put k v b) = batch_ops b ++ [OpPut k v];
  batch_Delete_ops k b : batch_ops (batch_Delete k b) = batch_ops b ++ [OpDelete k];
  batch_Reset_ops b : batch_ops (batch_Reset b) = [];
}.

Section LevelDB.
Context {DB Batch Iterator St Error : Type} {G : GoLevelDB DB Batch Iterator St Error}.

(** [quitChan]: the collector behind the channel is the error it answers with;
    nothing in the package sets the channel. *)
Record LevelDB := mkLevelDB {
  ldb_fn : string;
  ldb_db : DB;
  ldb_quitChan : option (option Error);
}.

(** Go's [/] on non-negative integers. *)
Definition NewLDBDatabase (file : string) (cache handles : Z) (w : St) : result Error LevelDB * St :=
  let cache := if cache <? 16 then 16 else cache in
  let handles := if handles <? 16 then 16 else handles in
  let options := mkOptions handles (cache / 2 * MiB) (cache / 4 * MiB) 10 in
  let '(db, w) := OpenFile file options w in
  let '(db, w) :=
    match db with
    | Err e => if is_ErrCorrupted e then RecoverFile file w else (Err e, w)
    | Ok db => (Ok db, w)
    end in
  match db with
  | Err e => (Err e, w)
  | Ok db => (Ok (mkLevelDB file db None), w)
  end.

Definition Path (db : LevelDB) : string := ldb_fn db.

Definition Put (db : LevelDB) (key value : list byte) (w : St) : option Error * St :=
  db_Put (ldb_db db) key value w.

Definition Has (db : LevelDB) (key : list byte) (w : St) : bool * option Error :=
  db_Has (ldb_db db) key w.

Definition Get (db : LevelDB) (key : list byte) (w : St) : result Error (list byte) :=
  match db_Get (ldb_db db) key w with
  | Err e => Err e
  | Ok dat => Ok dat
  end.

Definition Delete (db : LevelDB) (key : list byte) (w : St) : option Error * St :=
  db_Delete (ldb_db db) key w.

Definition NewIterator (db : LevelDB) (w : St) : Iterator := db_NewIterator (ldb_db db) None w.

Definition NewIteratorWithPrefix (db : LevelDB) (prefix : list byte) (w : St) : Iterator :=
  db_NewIterator (ldb_db db) (Some (BytesPrefix prefix)) w.

(** [Close]: the collector is asked to stop once; the errors are logged. *)
Definition Close (db : LevelDB) (w : St) : LevelDB * St :=
  let db := match ldb_quitChan db with
            | Some _ => mkLevelDB (ldb_fn db) (ldb_db db) None
            | None => db
            end in
  (db, (db_Close (ldb_db db) w).2).

Definition LDB (db : LevelDB) : DB := ldb_db db.

(** ** Batches *)

Record LevelDBBatch := mkBatch {
  bt_db : DB;
  bt_b : Batch;
  bt_size : Z;
}.

Definition NewBatch (db : LevelDB) : LevelDBBatch := mkBatch (ldb_db db) new_Batch 0.

Definition Batch_Put (b : LevelDBBatch) (key value : list byte) : LevelDBBatch :=
  mkBatch (bt_db b) (batch_Put key value (bt_b b)) (i64 (bt_size b + Z.of_nat (length value))).

Definition Batch_Delete (b : LevelDBBatch) (key : list byte) : LevelDBBatch :=
  mkBatch (bt_db b) (batch_Delete key (bt_b b)) (i64 (bt_size b + 1)).

Definition Batch_Write (b : LevelDBBatch) (w : St) : option Error * St :=
  db_Write (bt_db b) (bt_b b) w.

Definition ValueSize (b : LevelDBBatch) : Z := bt_size b.

Definition Batch_Reset (b : LevelDBBatch) : LevelDBBatch :=
  mkBatch (bt_db b) (batch_Reset (bt_b b)) 0.

(** ** What a batch collects *)

(** The calls a client makes on a batch. *)
Inductive call := CPut (key value : list byte) | CDelete (key : list byte) | CReset.

Definition run_call (b : LevelDBBatch) (c : call) : LevelDBBatch :=
  match c with
  | CPut k v => Batch_Put b k v
  | CDelete k => Batch_Delete b k
  | CReset => Batch_Reset b
  end.

(** The operations since the last reset, and their size. *)
Definition pending (ops : list op) (c : call) : list op :=
  match c with
  | CPut k v => ops ++ [OpPut k v]
  | CDelete k => ops ++ [OpDelete k]
  | CReset => []
  end.

Definition op_size (o : op) : Z :=
  match o with OpPut _ v => Z.of_nat (length v) | OpDelete _ => 1 end.

Definition ops_size (ops : list op) : Z := foldr Z.add 0 (op_size <$> ops).

(** The operations done one at a time on the database, if all succeed. *)
Definition do_op (db : LevelDB) (o : op) (w : St) : option Error * St :=
  match o with OpPut k v => Put db k v w | OpDelete k => Delete db k w end.

Fixpoint do_ops (db : LevelDB) (ops : list op) (w : St) : option St :=
  match ops with
  | [] => Some w
  | o :: ops =>
      match do_op db o w with
      | (None, w) => do_ops db ops w
      | (Some _, _) => None
      end
  end.

Lemma i64_add a b : i64 (i64 a + b) = i64 (a + b).
Proof.
  unfold i64. set (m := 2 ^ 64). set (h := 2 ^ 63).
  replace ((a + h) mod m - h + b + h) with ((a + h) mod m + b) by ring.
  rewrite Zplus_mod_idemp_l. do 2 f_equal. ring.
Qed.

Lemma ops_size_snoc ops o : ops_size (ops ++ [o]) = ops_size ops + op_size o.
Proof.
  unfold ops_size. induction ops as [|o' ops IH]; cbn; [lia|]. cbn in IH. rewrite IH. lia.
Qed.

Context {L : GoLevelDBLaws DB Batch Iterator St Error}.

Lemma run_calls cs b ops :
  batch_ops (bt_b b) = ops -> bt_size b = i64 (ops_size ops) ->
  let b' := foldl run_call b cs in
  let ops' := foldl pending ops cs in
  bt_db b' = bt_db b /\ batch_ops (bt_b b') = ops' /\ bt_size b' = i64 (ops_size ops').
Proof.
  revert b ops. induction cs as [|c cs IH]; intros b ops Hops Hsize; [done|].
  cbn [foldl]. destruct (IH (run_call b c) (pending ops c)) as (H1 & H2 & H3).
  - destruct c; cbn; [by rewrite batch_Put_ops, Hops|by rewrite batch_Delete_ops, Hops|apply batch_Reset_ops].
  - destruct c; cbn [run_call pending bt_size Batch_Put Batch_Delete Batch_Reset];
      [by rewrite Hsize, i64_add, ops_size_snoc..|done].
  - split_and!; [|done|done]. rewrite H1. by destruct c.
Qed.

Lemma apply_op_ext m m' o :
  (forall k, m k = m' k) -> forall k, apply_op m o k = apply_op m' o k.
Proof. intros H k. destruct o; cbn; by rewrite H. Qed.

Lemma foldl_apply_op_ext ops m m' :
  (forall k, m k = m' k) -> forall k, foldl apply_op m ops k = foldl apply_op m' ops k.
Proof.
  revert m m'. induction ops as [|o ops IH]; intros m m' H k; cbn [foldl]; [done|].
  apply IH. by apply apply_op_ext.
Qed.

Lemma do_ops_contents db ops w w' :
  do_ops db ops w = Some w' ->
  forall k, contents (ldb_db db) w' k = foldl apply_op (contents (ldb_db db) w) ops k.
Proof.
  revert w. induction ops as [|o ops IH]; intros w; cbn [do_ops foldl]; [by intros [= <-]|].
  destruct (do_op db o w) as [[e|] w1] eqn:E; [done|]. intros Hdo k. rewrite (IH _ Hdo).
  apply foldl_apply_op_ext. intros x.
  destruct o; [by eapply Put_contents|by eapply Delete_contents].
Qed.

(** C32: a batch that is written does at once what its puts and deletes since
    the last reset do one at a time, in their order, and leaves the database
    with the same contents; [ValueSize] counts the bytes of the values and one
    per delete, as a 64-bit integer. *)
Theorem batch_equals_operations db cs w w' :
  let b := foldl run_call (NewBatch db) cs in
  let ops := foldl pending [] cs in
  Batch_Write b w = (None, w') ->
  ValueSize b = i64 (ops_size ops) /\
  (forall k, contents (ldb_db db) w' k = foldl apply_op (contents (ldb_db db) w) ops k) /\
  (forall w'', do_ops db ops w = Some w'' ->
     forall k, contents (ldb_db db) w'' k = contents (ldb_db db) w' k).
Proof.
  intros b ops. destruct (run_calls cs (NewBatch db) [] new_Batch_ops eq_refl) as (Hdb & Hops & Hsize).
  fold b ops in Hdb, Hops, Hsize. unfold Batch_Write. rewrite Hdb. intros Hw.
  assert (Hc : forall k, contents (ldb_db db) w' k = foldl apply_op (contents (ldb_db db) w) ops k).
  { intros k. rewrite <-Hops. by apply (Write_contents _ _ _ _ Hw). }
  split_and!; [exact Hsize|exact Hc|].
  intros w'' Hdo k. by rewrite Hc, (do_ops_contents _ _ _ _ Hdo).
Qed.

(** The caches and the file handles never fall below their minima, and a
    corrupted database is recovered. *)
Lemma NewLDBDatabase_options file cache handles w :
  exists options, 16 <= OpenFilesCacheCapacity options /\ 8 * MiB <= BlockCacheCapacity options /\
    4 * MiB <= WriteBuffer options /\
    match OpenFile file options w with
    | (Ok db, w') => NewLDBDatabase file cache handles w = (Ok (mkLevelDB file db None), w')
    | (Err e, w') =>
        if is_ErrCorrupted e then
          match RecoverFile file w' with
          | (Ok db, w'') => NewLDBDatabase file cache handles w = (Ok (mkLevelDB file db None), w'')
          | (Err e, w'') => NewLDBDatabase file cache handles w = (Err e, w'')
          end
        else NewLDBDatabase file cache handles w = (Err e, w')
    end.
Proof.
  unfold NewLDBDatabase.
  set (c := if cache <? 16 then 16 else cache). set (h := if handles <? 16 then 16 else handles).
  assert (16 <= c) by (unfold c; case_match; bool_prop; lia).
  assert (16 <= h) by (unfold h; case_match; bool_prop; lia).
  exists (mkOptions h (c / 2 * MiB) (c / 4 * MiB) 10). cbn.
  assert (8 <= c / 2) by (apply Z.div_le_lower_bound; lia).
  assert (4 <= c / 4) by (apply Z.div_le_lower_bound; lia).
  split_and!; [done|unfold MiB; lia|unfold MiB; lia|].
  destruct (OpenFile _ _ w) as [[db|e] w']; [done|]. destruct (is_ErrCorrupted e); [|done].
  by destruct (RecoverFile file w') as [[db|e'] w''].
Qed.

End LevelDB.

(** ** A database in memory for the witness *)

Module Memory.

Definition Store : Type := list (list byte * list byte).

Fixpoint find (m : Store) (k : list byte) : option (list byte) :=
  match m with
  | [] => None
  | (k', v) :: m => if bool_decide (k = k') then Some v else find m k
  end.

Fixpoint remove (m : Store) (k : list byte) : Store :=
  match m with
  | [] => []
  | (k', v) :: m => if bool_decide (k = k') then remove m k else (k', v) :: remove m k
  end.

Definition do (m : Store) (o : op) : Store :=
  match o with OpPut k v => (k, v) :: m | OpDelete k => remove m k end.

#[local] Instance memory : GoLevelDB unit (list op) unit Store string := {
  OpenFile _ _ w := (Ok tt, w);
  is_ErrCorrupted _ := false;
  RecoverFile _ w := (Ok tt, w);
  db_Put _ k v w := (None, do w (OpPut k v));
  db_Has _ k w := (bool_decide (find w k <> None), None);
  db_Get _ k w := match find w k with Some v => Ok v | None => Err "leveldb: not found"%string end;
  db_Delete _ k w := (None, do w (OpDelete k));
  db_NewIterator _ _ _ := tt;
  db_Write _ b w := (None, foldl do w b);
  db_Close _ w := (None, w);
  BytesPrefix p := (p, None);
  new_Batch := [];
  batch_Put k v b := b ++ [OpPut k v];
  batch_Delete k b := b ++ [OpDelete k];
  batch_Reset _ := [];
}.

Lemma find_remove m k x :
  find (remove m k) x = if bool_decide (x = k) then None else find m x.
Proof.
  induction m as [|[k' v] m IH]; cbn; [by case_bool_decide|].
  destruct (bool_decide_reflect (k = k')) as [->|Hk]; cbn.
  - rewrite IH. by destruct (bool_decide_reflect (x = k')).
  - rewrite IH. destruct (bool_decide_reflect (x = k')) as [->|?]; [|done].
    by rewrite bool_decide_eq_false_2.
Qed.

Lemma find_do m o x : find (do m o) x = apply_op (find m) o x.
Proof. destruct o; cbn; [done|apply find_remove]. Qed.

#[local] Instance memory_laws : GoLevelDBLaws unit (list op) unit Store string.
Proof.
  refine {| contents := fun _ w => find w; batch_ops := fun b => b |}; try done.
  - intros [] k v w w' [= <-] x. apply (find_do w (OpPut k v)).
  - intros [] k w w' [= <-] x. apply (find_do w (OpDelete k)).
  - intros [] b w w' [= <-]. revert w. induction b as [|o b IH]; intros w x; [done|].
    cbn [foldl]. rewrite IH. apply foldl_apply_op_ext. intros y. apply find_do.
  - intros [] k w v. simpl. destruct (find w k); [by intros [= <-]|done].
Defined.

Definition db : LevelDB (DB := unit) (Error := string) := mkLevelDB "db" tt None.

Lemma batch_equals_operations_witness :
  exists w', Batch_Write (foldl run_call (NewBatch db)
      [CPut [x01] [x02; x03]; CReset; CPut [x01] [x04]; CDelete [x05]]) [([x05], [x06])] = (None, w') /\
    find w' [x01] = Some [x04] /\ find w' [x05] = None /\
    ValueSize (foldl run_call (NewBatch db)
      [CPut [x01] [x02; x03]; CReset; CPut [x01] [x04]; CDelete [x05]]) = 2.
Proof.
  exists [([x01], [x04])]. split; [vm_compute; reflexivity|].
  destruct (batch_equals_operations (G := memory) db [CPut [x01] [x02; x03]; CReset; CPut [x01] [x04]; CDelete [x05]]
    [([x05], [x06])] [([x01], [x04])] ltac:(vm_compute; reflexivity)) as (Hs & Hc & _).
  split_and!; [exact (Hc [x01])|exact (Hc [x05])|exact Hs].
Defined.

End Memory.
