(* ===== verification/GoPath.v ===== *)
(** * More of Go's standard library: path/filepath and strings

    [Clean], [Base], [Dir], [Join] and [IsAbs] on Unix, [strings.Contains] and
    [strings.Replace], by their documented algorithms, and the lemmas on
    cleaned paths.  Library code, nothing of the repository. *)

From S2P Require Import Prelude GoNet.
From Stdlib Require Import Lia.
From stdpp Require Import strings list.

Definition IsAbs (path : string) : bool := HasPrefix path "/".

(** The elements that remain, [acc] in reverse order. *)
Fixpoint clean_elems (rooted : bool) (acc elems : list string) : list string :=
  match elems with
  | [] => rev acc
  | e :: elems =>
      if bool_decide (e = "") || bool_decide (e = ".") then clean_elems rooted acc elems
      else if bool_decide (e = "..") then
        match acc with
        | x :: acc' =>
            if bool_decide (x = "..") then clean_elems rooted (e :: acc) elems
            else clean_elems rooted acc' elems
        | [] => if rooted then clean_elems rooted acc elems else clean_elems rooted [e] elems
        end
      else clean_elems rooted (e :: acc) elems
  end.

Definition Clean (path : string) : string :=
  let rooted := IsAbs path in
  let out := Prelude.Join (clean_elems rooted [] (Split path "/")) "/" in
  if rooted then "/" +:+ out
  else if bool_decide (out = "") then "." else out.

(** [filepath.Join] of two elements. *)
Definition path_Join (a b : string) : string :=
  if bool_decide (a = "") then if bool_decide (b = "") then "" else Clean b
  else Clean (a +:+ "/" +:+ b).

(** [filepath.Join] of any number of elements. *)
Fixpoint path_Joins (elems : list string) : string :=
  match elems with
  | [] => ""
  | e :: rest => if bool_decide (e = "") then path_Joins rest else Clean (Prelude.Join (e :: rest) "/")
  end.

(** The trailing slashes removed, on the reversed bytes. *)
Fixpoint drop_slashes (s : list string) : list string :=
  match s with
  | e :: s' => if bool_decide (e = "") then drop_slashes s' else s
  | [] => []
  end.

(** [Base]: the last element after the trailing slashes. *)
Definition Base (path : string) : string :=
  if bool_decide (path = "") then "."
  else match drop_slashes (rev (Split path "/")) with
       | e :: _ => e
       | [] => "/"
       end.

(** [Dir]: all but the last element, cleaned. *)
Definition Dir (path : string) : string :=
  match rev (Split path "/") with
  | _ :: ((_ :: _) as rest) => Clean (Prelude.Join (rev rest) "/" +:+ "/")
  | _ => Clean ""
  end.

Example filepath_examples :
  (Clean <$> ["a//b/../c/."; "/.."; ""; "../../x"; "/a/../../b"])%string = ["a/c"; "/"; "."; "../../x"; "/b"]%string /\
  (Base <$> ["/a/b.txt"; "a/"; "/"; ""; "x"])%string = ["b.txt"; "a"; "/"; "."; "x"]%string /\
  (Dir <$> ["/a/b.txt"; "x"; "/x"; "a/b/"; ""])%string = ["/a"; "."; "/"; "a/b"; "."]%string /\
  path_Join "data" "../f" = "f" /\ path_Join "" "" = "".
Proof. vm_compute. done. Qed.

(** ** strings *)

Fixpoint bytes_Index (s sub : list Byte.byte) : option nat :=
  if bytes_HasPrefix s sub then Some O
  else match s with
       | [] => None
       | _ :: s => S <$> bytes_Index s sub
       end.

(** [strings.Contains]. *)
Definition Contains (s sub : string) : bool :=
  bool_decide (is_Some (bytes_Index (go_bytes s) (go_bytes sub))).

(** [strings.Replace] of a text that is not empty, at most [n] times. *)
Fixpoint bytes_Replace (n : nat) (old new s : list Byte.byte) : list Byte.byte :=
  match n with
  | O => s
  | S n =>
      match bytes_Index s old with
      | None => s
      | Some i => take i s ++ new ++ bytes_Replace n old new (drop (i + length old) s)
      end
  end.

Definition Replace (s old new : string) (n : nat) : string :=
  go_string (bytes_Replace n (go_bytes old) (go_bytes new) (go_bytes s)).

(** The count -1: there are no more matches than bytes. *)
Definition ReplaceAll (s old new : string) : string := Replace s old new (String.length s).

Example strings_examples :
  Replace "@@@@@.go" "@@@@@" "shop" 1 = "shop.go" /\ Replace "api.go" "@@@@@" "shop" 1 = "api.go" /\
  ReplaceAll "a-b--c" "-" "_" = "a_b__c" /\ Contains "/x/main.go" ".go" = true /\
  Contains ".gitignore" ".go" = false.
Proof. vm_compute. done. Qed.

(** ** Cleaned paths *)

Lemma string_app_assoc (a b c : string) : (a +:+ b) +:+ c = a +:+ b +:+ c.
Proof. apply go_bytes_inj. rewrite !go_bytes_app. by rewrite app_assoc. Qed.

(** An element that [Clean] leaves alone. *)
Definition plain (e : string) : Prop :=
  e <> "" /\ e <> "." /\ e <> ".." /\ chr "/" ∉ go_bytes e.

#[export] Instance plain_dec e : Decision (plain e).
Proof. unfold plain. apply _. Defined.

(** A cleaned absolute path other than the root directory. *)
Definition rooted (p : string) : Prop := IsAbs p = true /\ Clean p = p /\ p <> "/".

Lemma clean_elems_plain r acc l : Forall plain l -> clean_elems r acc l = rev acc ++ l.
Proof.
  intros H. revert acc. induction H as [|e l (H1 & H2 & H3 & _) H IH]; intros acc; cbn [clean_elems].
  - by rewrite app_nil_r.
  - rewrite !bool_decide_eq_false_2 by done. cbn [orb]. rewrite IH. cbn [rev].
    by rewrite <- app_assoc.
Qed.

Lemma clean_elems_snoc r acc l e :
  plain e -> clean_elems r acc (l ++ [e]) = clean_elems r acc l ++ [e].
Proof.
  intros He. revert acc. induction l as [|x l IH]; intros acc; cbn [clean_elems app].
  - apply (clean_elems_plain r acc [e]). by constructor.
  - repeat case_match; rewrite ?IH; done.
Qed.

Lemma clean_elems_rooted acc l :
  Forall plain acc -> Forall (fun e => chr "/" ∉ go_bytes e) l ->
  Forall plain (clean_elems true acc l).
Proof.
  intros Hacc H. revert acc Hacc. induction H as [|e l He H IH]; intros acc Hacc; cbn [clean_elems].
  - by apply Forall_rev.
  - case_bool_decide as H1; [by apply IH|]. cbn [orb].
    case_bool_decide as H2; [by apply IH|].
    case_bool_decide as H3.
    + destruct Hacc as [|x acc (? & ? & Hx & ?) Hacc]; [by apply IH|].
      rewrite bool_decide_eq_false_2 by done. by apply IH.
    + apply IH. constructor; [done|exact Hacc].
Qed.

Lemma Split_no_sep s sep : Forall (fun e => chr sep ∉ go_bytes e) (Split s sep).
Proof.
  unfold Split. apply Forall_fmap, Forall_forall. intros f Hf. cbn.
  rewrite go_bytes_string. by eapply bytes_Split_fields.
Qed.

Lemma Split_app s t sep : Split (s +:+ String sep t) sep = Split s sep ++ Split t sep.
Proof.
  unfold Split. rewrite go_bytes_app.
  change (go_bytes (String sep t)) with (chr sep :: go_bytes t).
  rewrite <- fmap_app. f_equal. generalize (go_bytes s). intros l.
  induction l as [|c l IH]; cbn [app bytes_Split].
  - by rewrite bool_decide_eq_true_2.
  - rewrite IH. pose proof (bytes_Split_nonnil (chr sep) l).
    case_bool_decide; [done|]. by destruct (bytes_Split (chr sep) l).
Qed.

Lemma Join_snoc l e : l <> [] -> Prelude.Join (l ++ [e]) "/" = Prelude.Join l "/" +:+ "/" +:+ e.
Proof.
  intros Hl. induction l as [|x l IH]; [done|]. destruct l as [|y l]; [done|].
  change (Prelude.Join ((x :: y :: l) ++ [e]) "/") with (x +:+ "/" +:+ Prelude.Join ((y :: l) ++ [e]) "/").
  rewrite IH by done. cbn [Prelude.Join]. by rewrite !string_app_assoc.
Qed.

Lemma plain_no_sep l : Forall plain l -> Forall (fun e => chr "/" ∉ go_bytes e) l.
Proof. intros H. apply (Forall_impl _ _ _ H). unfold plain. naive_solver. Qed.

(** The elements a rooted path keeps. *)
Definition kept (p : string) : list string := clean_elems true [] (Split p "/").

Lemma kept_plain p : Forall plain (kept p).
Proof. apply clean_elems_rooted; [done|]. apply Split_no_sep. Qed.

Lemma Clean_rooted p : IsAbs p = true -> Clean p = "/" +:+ Prelude.Join (kept p) "/".
Proof. intros H. unfold Clean. by rewrite H. Qed.

Lemma IsAbs_slash s : IsAbs ("/" +:+ s) = true.
Proof. apply bytes_HasPrefix_spec. by exists (go_bytes s). Qed.

Lemma IsAbs_app p s : IsAbs p = true -> IsAbs (p +:+ s) = true.
Proof.
  unfold IsAbs. intros [t Ht]%bytes_HasPrefix_spec. apply bytes_HasPrefix_spec.
  rewrite go_bytes_app, Ht. eexists. by rewrite <- app_assoc.
Qed.

Lemma IsAbs_Clean p : IsAbs p = true -> IsAbs (Clean p) = true.
Proof. intros H. rewrite Clean_rooted by done. apply IsAbs_slash. Qed.

Lemma Clean_idempotent p : IsAbs p = true -> Clean (Clean p) = Clean p.
Proof.
  intros H. rewrite (Clean_rooted (Clean p)) by by apply IsAbs_Clean.
  rewrite (Clean_rooted p) by done. f_equal. f_equal.
  pose proof (kept_plain p) as Hp. unfold kept at 1. generalize dependent (kept p). intros l Hl.
  change ("/" +:+ Prelude.Join l "/") with ("" +:+ String "/" (Prelude.Join l "/")).
  rewrite Split_app. change (Split "" "/") with [""]. cbn [app clean_elems]. cbn.
  destruct l as [|e l]; [done|]. rewrite Split_Join by (done || by apply plain_no_sep).
  by rewrite clean_elems_plain.
Qed.

Lemma Split_plain e : plain e -> Split e "/" = [e].
Proof. intros (_ & _ & _ & H). by apply Split_single. Qed.

(** [Join] of a directory and a plain element adds the element. *)
Lemma Join_plain r e : rooted r -> plain e -> path_Join r e = r +:+ "/" +:+ e.
Proof.
  intros (Habs & Hc & Hr) He. unfold path_Join.
  rewrite bool_decide_eq_false_2 by (intros ->; done).
  assert (Ha : IsAbs (r +:+ "/" +:+ e) = true).
  { by apply IsAbs_app. }
  rewrite Clean_rooted by done. unfold kept.
  change (r +:+ "/" +:+ e) with (r +:+ String "/" e). rewrite Split_app. rewrite (Split_plain e) by done.
  rewrite clean_elems_snoc by done. fold (kept r).
  rewrite Clean_rooted in Hc by done.
  assert (Hk : kept r <> []) by (intros E; rewrite E in Hc; by apply Hr; rewrite <- Hc).
  rewrite Join_snoc by done. by rewrite <- string_app_assoc, Hc.
Qed.

Lemma rooted_Join r e : rooted r -> plain e -> rooted (path_Join r e).
Proof.
  intros Hr He. pose proof (Join_plain r e Hr He) as E. split_and!.
  - destruct Hr as (Habs & _). rewrite E. by apply IsAbs_app.
  - destruct Hr as (Habs & _ & _). unfold path_Join. case_bool_decide; [by subst r|].
    by apply Clean_idempotent, IsAbs_app.
  - rewrite E. destruct Hr as (_ & _ & Hne), He as (He & _). intros H. 
    destruct r as [|c r]; cbn in H; [by injection H|]. injection H as -> H. by destruct r.
Qed.

(** A cleaned absolute path that ends in a plain element is not the root. *)
Lemma rooted_Clean p e : IsAbs p = true -> plain e -> rooted (Clean (p +:+ "/" +:+ e)).
Proof.
  intros Habs He.
  assert (Ha : IsAbs (p +:+ "/" +:+ e) = true).
  { by apply IsAbs_app. }
  split_and!; [by apply IsAbs_Clean|by apply Clean_idempotent|].
  rewrite Clean_rooted by done. unfold kept.
  change (p +:+ "/" +:+ e) with (p +:+ String "/" e). rewrite Split_app. rewrite (Split_plain e) by done.
  rewrite clean_elems_snoc by done. destruct He as (He & _).
  destruct (clean_elems true [] (Split p "/")) as [|x l] eqn:E; cbn; [by destruct e|].
  destruct (l ++ [e]) eqn:E'; [by destruct l|]. destruct x; [cbn; by destruct s|done].
Qed.

Lemma string_length_app (a b : string) :
  String.length (a +:+ b) = (String.length a + String.length b)%nat.
Proof. induction a as [|c a IH]; [done|]. cbn. by rewrite <-IH. Qed.

Lemma plain_suffix e s :
  plain e -> chr "/" ∉ go_bytes s -> (2 < String.length s)%nat -> plain (e +:+ s).
Proof.
  intros (H1 & _ & _ & H4) Hs Hl. unfold plain. rewrite go_bytes_app, not_elem_of_app.
  assert (Hlen : (2 < String.length (e +:+ s))%nat) by (rewrite string_length_app; lia).
  split_and!; [..|done|done]; intros E; rewrite E in Hlen; cbn in Hlen; lia.
Qed.

(** Paths of plain elements below a directory determine the elements. *)
Lemma Join_inj l1 l2 :
  l1 <> [] -> l2 <> [] -> Forall plain l1 -> Forall plain l2 ->
  Prelude.Join l1 "/" = Prelude.Join l2 "/" -> l1 = l2.
Proof.
  intros Hl1 Hl2 H1%plain_no_sep H2%plain_no_sep E.
  rewrite <- (Split_Join l1 "/"), <- (Split_Join l2 "/") by done. by f_equal.
Qed.

Lemma string_app_inj (a b c : string) : a +:+ b = a +:+ c -> b = c.
Proof. intros E%(f_equal go_bytes). rewrite !go_bytes_app in E. by apply app_inv_head, go_bytes_inj in E. Qed.

Lemma string_app_inj_tail (a b c : string) : a +:+ c = b +:+ c -> a = b.
Proof. intros E%(f_equal go_bytes). rewrite !go_bytes_app in E. by apply app_inv_tail, go_bytes_inj in E. Qed.

Lemma HasPrefix_iff s p : HasPrefix s p = true <-> exists r, s = p +:+ r.
Proof.
  unfold HasPrefix. rewrite bytes_HasPrefix_spec. split; intros [r E].
  - exists (go_string r). apply go_bytes_inj. by rewrite go_bytes_app, go_bytes_string.
  - exists (go_bytes r). by rewrite E, go_bytes_app.
Qed.

Lemma bytes_HasPrefix_app s p t : bytes_HasPrefix s p = true -> bytes_HasPrefix (s ++ t) p = true.
Proof. rewrite !bytes_HasPrefix_spec. intros [r ->]. exists (r ++ t). by rewrite app_assoc. Qed.

Lemma Contains_app s sub t : Contains s sub = true -> Contains (s +:+ t) sub = true.
Proof.
  unfold Contains. rewrite !bool_decide_eq_true, go_bytes_app. generalize (go_bytes s) (go_bytes sub) (go_bytes t).
  clear. intros s sub t. induction s as [|c s IH]; cbn [bytes_Index app]; intros H.
  - case_match eqn:E; [|by destruct H]. apply (bytes_HasPrefix_app _ _ t) in E. cbn [app] in E.
    destruct t; cbn [bytes_Index]; rewrite E; eauto.
  - case_match eqn:E.
    + apply (bytes_HasPrefix_app _ _ t) in E. cbn [app] in E. rewrite E. eauto.
    + case_match; [eauto|]. apply fmap_is_Some in H. apply fmap_is_Some. by apply IH.
Qed.
