(* ===== verification/Files.v ===== *)
(** * pkg/common/files.go: files

    The functions of the file over the operating system, the class [OS] on a
    state [St].  [WriteFile] returns the states it passes through, so that
    what another process can see of it is part of the model. *)

From S2P Require Import Prelude GoNet GoPath.
From Stdlib Require Import ZArith Lia.
From Stdlib Require Import Init.Byte.
From stdpp Require Import strings list.

(** An open file is known by its name.  [Stat] is the error, if any. *)
Class OS (St Error : Type) := {
  IsNotExist : Error -> bool;
  Stat : string -> St -> option Error;
  MkdirAll : string -> Z -> St -> option Error * St;
  TempFile : string -> string -> St -> result Error string * St;
  file_Write : string -> list byte -> St -> option Error * St;
  file_Close : string -> St -> St;
  Remove : string -> St -> option Error * St;
  Rename : string -> string -> St -> option Error * St;
  ReadDir : string -> St -> result Error (list (string * bool));
  ioutil_ReadFile : string -> St -> result Error (list byte);
  TempDir : string -> string -> St -> result Error string * St;
}.

(** The pattern of [ioutil.TempFile]: the random text takes the place of the
    last ['*'], or stands at the end where there is none. *)
Fixpoint cut_last_star (s : list byte) : option (list byte * list byte) :=
  match s with
  | [] => None
  | c :: s' =>
      match cut_last_star s' with
      | Some (pre, suf) => Some (c :: pre, suf)
      | None => if bool_decide (c = chr "*") then Some ([], s') else None
      end
  end.

Definition prefixAndSuffix (pattern : string) : string * string :=
  match cut_last_star (go_bytes pattern) with
  | Some (pre, suf) => (go_string pre, go_string suf)
  | None => (pattern, "")
  end.

(** The names that the pattern stands for. *)
Definition matches_pattern (pattern name : string) : Prop :=
  exists s, s <> "" /\ name = (prefixAndSuffix pattern).1 +:+ s +:+ (prefixAndSuffix pattern).2.

(** What the operations do to the contents of files.  A name stands for the
    file of its cleaned path, and names with different last elements for
    different files (there are no links).  The name [TempFile] gives is
    documented for patterns without a slash. *)
Class OSLaws (St Error : Type) `{!OS St Error} := {
  file_of : St -> string -> option (list byte);
  MkdirAll_files d p w e w' : MkdirAll d p w = (e, w') -> forall x, file_of w' x = file_of w x;
  TempFile_fails d p w e w' : TempFile d p w = (Err e, w') -> forall x, file_of w' x = file_of w x;
  TempFile_files d p w f w' :
    chr "/" ∉ go_bytes p -> TempFile d p w = (Ok f, w') ->
    matches_pattern p (Base f) /\ file_of w' f = Some [] /\
    forall x, Base x <> Base f -> file_of w' x = file_of w x;
  Write_files f c w e w' :
    file_Write f c w = (e, w') ->
    (e = None -> file_of w f = Some [] -> file_of w' f = Some c) /\
    forall x, Base x <> Base f -> file_of w' x = file_of w x;
  Close_files f w x : file_of (file_Close f w) x = file_of w x;
  Remove_files f w e w' :
    Remove f w = (e, w') -> forall x, Base x <> Base f -> file_of w' x = file_of w x;
  Rename_fails a b w e w' : Rename a b w = (Some e, w') -> forall x, file_of w' x = file_of w x;
  Rename_files a b w w' :
    Rename a b w = (None, w') ->
    file_of w' b = file_of w a /\
    forall x, Base x <> Base a -> Base x <> Base b -> file_of w' x = file_of w x;
}.

Section Files.
Context {St Error : Type} {O : OS St Error}.

Definition FileExist (filePath : string) (w : St) : bool :=
  match Stat filePath w with
  | Some err => negb (IsNotExist err)
  | None => true
  end.

Definition AbsolutePath (datadir filename : string) : string :=
  if IsAbs filename then filename else path_Join datadir filename.

(** The rest of a function after a call that may fail; the states passed. *)
Definition and_then (r : option Error * St) (k : St -> option Error * list St) :
    option Error * list St :=
  match r with
  | (Some e, w) => (Some e, [w])
  | (None, w) => let '(e, ws) := k w in (e, w :: ws)
  end.

Definition dirPerm : Z := 448. (* 0700 *)

Definition temp_pattern (file : string) : string := "." +:+ Base file +:+ ".tmp".

(** The error, and the states after each call of the system. *)
(** The content goes to the temporary file [f], which is moved into place or,
    if it could not be written, removed. *)
Definition write_temp (file f : string) (content : list byte) (w1 : St) : option Error * list St :=
  match file_Write f content w1 with
  | (Some err, w2) =>
      let w3 := file_Close f w2 in
      let '(_, w4) := Remove f w3 in (Some err, [w1; w2; w3; w4])
  | (None, w2) =>
      let w3 := file_Close f w2 in
      let '(err, w4) := Rename f file w3 in (err, [w1; w2; w3; w4])
  end.

Definition WriteFile (file : string) (content : list byte) (w : St) : option Error * list St :=
  and_then
    (match Stat file w with
     | Some err => if IsNotExist err then MkdirAll (Dir file) dirPerm w else (None, w)
     | None => (None, w)
     end)
    (fun w =>
       match TempFile (Dir file) (temp_pattern file) w with
       | (Err err, w) => (Some err, [w])
       | (Ok f, w1) => write_temp file f content w1
       end).

(** [fileTemp[len(fileTemp)-1]]: the text after the last dot, or all of it. *)
Definition last_part (name : string) : string := List.last (Split name ".") "".

Definition list_file (expZipFile : string) (isExtName : bool) (file : string * bool) : option string :=
  let '(name, IsDir) := file in
  if IsDir : bool then None
  else if bool_decide (last_part name = expZipFile) then
    Some (if isExtName then name else hd "" (Split name "."))
  else None.

Definition GetFileList (root expZipFile : string) (isExtName : bool) (w : St) :
    result Error (list string) :=
  let? files := ReadDir root w in Ok (omap (list_file expZipFile isExtName) files).

Definition ReadFile (file : string) (w : St) : result Error (list byte) := ioutil_ReadFile file w.

Definition RemoveFile (file : string) (w : St) : option Error * St :=
  match Stat file w with
  | Some err => if IsNotExist err then (Some err, w) else Remove file w
  | None => Remove file w
  end.

Definition GetRandFilePath (w : St) : run (string * St) :=
  match TempDir "" "temp" w with
  | (Err _, _) => Panic
  | (Ok dir, w) => Ret (dir, w)
  end.

(** ** WriteFile is atomic *)

Context {OL : OSLaws St Error}.

Lemma cut_last_star_length s pre suf :
  cut_last_star s = Some (pre, suf) -> length s = S (length pre + length suf).
Proof.
  revert pre suf. induction s as [|c s IH]; intros pre suf; simpl; [done|].
  destruct (cut_last_star s) as [[pre' suf']|].
  - intros [= <- <-]. simpl. by rewrite (IH pre' suf').
  - case_bool_decide; [|done]. by intros [= <- <-].
Qed.

Lemma prefixAndSuffix_length p :
  (length (go_bytes p) <= S (length (go_bytes (prefixAndSuffix p).1) +
                             length (go_bytes (prefixAndSuffix p).2)))%nat.
Proof.
  unfold prefixAndSuffix. destruct (cut_last_star (go_bytes p)) as [[pre suf]|] eqn:E; simpl.
  - apply cut_last_star_length in E. rewrite !go_bytes_string. lia.
  - lia.
Qed.

(** A name that the pattern stands for is as long as the pattern, at least. *)
Lemma matches_pattern_length p name :
  matches_pattern p name -> (length (go_bytes p) <= length (go_bytes name))%nat.
Proof.
  intros (s & Hs & ->). pose proof (prefixAndSuffix_length p).
  destruct s as [|c s]; [done|]. rewrite !go_bytes_app, !length_app. simpl. lia.
Qed.

(** The temporary file is not the file itself. *)
Lemma temp_differs file f : matches_pattern (temp_pattern file) (Base f) -> Base file <> Base f.
Proof.
  intros H%matches_pattern_length E. rewrite <-E in H. unfold temp_pattern in H.
  rewrite !go_bytes_app, !length_app in H. simpl in H. lia.
Qed.

Lemma drop_slashes_subset l e : e ∈ drop_slashes l -> e ∈ l.
Proof.
  induction l as [|x l IH]; simpl; [done|]. case_bool_decide; [|done]. intros He. right. auto.
Qed.

Lemma Base_no_slash file : Base file <> "/" -> chr "/" ∉ go_bytes (Base file).
Proof.
  unfold Base. case_bool_decide.
  { intros _. apply (bool_decide_eq_true_1 _). vm_compute. reflexivity. }
  destruct (drop_slashes _) as [|e l] eqn:E; [done|]. intros _.
  pose proof (Split_no_sep file "/") as H'. rewrite Forall_forall in H'. apply H'.
  apply list_elem_of_In, in_rev, list_elem_of_In, drop_slashes_subset. rewrite E. left.
Qed.

Lemma temp_pattern_no_slash file :
  Base file <> "/" -> chr "/" ∉ go_bytes (temp_pattern file).
Proof.
  intros H%Base_no_slash. unfold temp_pattern. rewrite !go_bytes_app, !elem_of_app.
  intros [H'|[H'|H']]; [|done|]; revert H'; apply (bool_decide_eq_true_1 (~ _)); by vm_compute.
Qed.

(** A name that the temporary file may have. *)
Definition temporary (file x : string) : Prop := matches_pattern (temp_pattern file) (Base x).

(** What the states of a run keep: the file is as before or complete, and no
    other file changes but temporary ones. *)
Definition keeps (file : string) (content : list byte) (w s : St) : Prop :=
  (file_of s file = file_of w file \/ file_of s file = Some content) /\
  forall x, Base x <> Base file -> ~ temporary file x -> file_of s x = file_of w x.

(** The file and the files that are not temporary are as they were. *)
Definition untouched (file : string) (w s : St) : Prop :=
  forall x, ~ temporary file x \/ x = file -> file_of s x = file_of w x.

Lemma untouched_keeps file content w s : untouched file w s -> keeps file content w s.
Proof. intros H. split; [left; auto|auto]. Qed.

(** What a run promises: every state keeps, and the last one has the file as
    the error says. *)
Definition atomic (file : string) (content : list byte) (w : St) (r : option Error * list St) : Prop :=
  Forall (keeps file content w) r.2 /\
  exists s, last r.2 = Some s /\
    file_of s file = match r.1 with None => Some content | Some _ => file_of w file end.

Lemma atomic_cons file content w s err states :
  untouched file w s -> atomic file content w (err, states) -> atomic file content w (err, s :: states).
Proof.
  intros Hs [Hall (s' & Hlast & Hs')]. split.
  - apply Forall_cons. split; [by apply untouched_keeps|done].
  - exists s'. split; [|done]. cbn in *. by destruct states.
Qed.

Lemma atomic_failed file content w s e : untouched file w s -> atomic file content w (Some e, [s]).
Proof.
  intros Hs. split; [by apply Forall_singleton, untouched_keeps|].
  exists s. split; [done|]. apply Hs. by right.
Qed.

Lemma write_temp_atomic file f content w w1 :
  untouched file w w1 -> Base file <> Base f -> file_of w1 f = Some [] ->
  (forall x, ~ temporary file x -> Base x <> Base f) ->
  atomic file content w (write_temp file f content w1).
Proof.
  intros K1 Hne Hnew Hoff. unfold write_temp.
  assert (Hf : forall x, ~ temporary file x \/ x = file -> Base x <> Base f)
    by (intros x [Hx| ->]; auto).
  destruct (file_Write f content w1) as [e2 w2] eqn:E2. apply Write_files in E2 as [Hw2 H2].
  assert (K2 : untouched file w w2) by (intros x Hx; rewrite H2; auto).
  assert (K3 : untouched file w (file_Close f w2)) by (intros x Hx; rewrite Close_files; auto).
  destruct e2 as [e2|].
  - destruct (Remove f _) as [e4 w4] eqn:E4. pose proof (Remove_files _ _ _ _ E4) as H4.
    do 3 (apply atomic_cons; [done|]). apply atomic_failed. intros x Hx. rewrite H4; auto.
  - destruct (Rename f file _) as [[e4|] w4] eqn:E4; do 3 (apply atomic_cons; [done|]).
    + apply atomic_failed. intros x Hx. rewrite (Rename_fails _ _ _ _ _ E4). auto.
    + apply Rename_files in E4 as [H4 H4'].
      assert (Hc : file_of w4 file = Some content) by (rewrite H4, Close_files; auto).
      split; [|by exists w4]. apply Forall_singleton. split; [by right|].
      intros x Hx Hp. rewrite H4'; auto.
Qed.

(** C33: a reader of the file (any but the root directory) at any moment of
    [WriteFile] finds the old content or all of the new one, never a part; at
    the end it is the new one if there was no error and the old one otherwise;
    and no other file changes but one with a name that the pattern of the
    temporary file stands for: a dot, the file's last element and [.tmp], with
    a random text at the end or, where the element has an asterisk, in place of
    the last one. *)
Theorem WriteFile_atomic file content w :
  Base file <> "/" ->
  let '(err, states) := WriteFile file content w in
  Forall (keeps file content w) states /\
  exists s, last states = Some s /\
    file_of s file = match err with None => Some content | Some _ => file_of w file end.
Proof.
  intros Hroot. enough (atomic file content w (WriteFile file content w)) by (by destruct (WriteFile file content w)).
  unfold WriteFile, and_then. set (prepare := match Stat file w with Some _ => _ | None => _ end).
  destruct prepare as [e0 w0] eqn:Eprep.
  assert (H0 : forall x, file_of w0 x = file_of w x).
  { unfold prepare in Eprep. destruct (Stat file w) as [err|]; [|by injection Eprep as _ <-].
    destruct (IsNotExist err); [|by injection Eprep as _ <-]. by apply (MkdirAll_files _ _ _ _ _ Eprep). }
  clearbody prepare. clear Eprep. assert (K0 : untouched file w w0) by (intros x _; apply H0).
  destruct e0 as [e0|]; [by apply atomic_failed|].
  destruct (TempFile _ _ w0) as [[f|e] w1] eqn:E1.
  - apply TempFile_files in E1 as (Hf & Hnew & H1); [|by apply temp_pattern_no_slash].
    pose proof (temp_differs _ _ Hf) as Hne.
    assert (Hoff : forall x, ~ temporary file x -> Base x <> Base f).
    { intros x Hx E. apply Hx. unfold temporary. by rewrite E. }
    assert (K1 : untouched file w w1) by (intros x [Hx| ->]; rewrite H1, H0; auto).
    pose proof (write_temp_atomic file f content w w1 K1 Hne Hnew Hoff) as Ha.
    destruct (write_temp file f content w1). by apply atomic_cons.
  - apply atomic_cons; [done|]. apply atomic_failed. intros x _.
    by rewrite (TempFile_fails _ _ _ _ _ E1).
Qed.

End Files.

(** ** A file system for the witness: names and their contents *)

Module Disk.

Definition Store : Type := string -> option (list byte).

Definition set (f : string) (c : option (list byte)) (w : Store) : Store :=
  fun x => if bool_decide (x = f) then c else w x.

#[local] Instance disk : OS Store string := {
  IsNotExist e := bool_decide (e = "ENOENT");
  Stat f w := match w f with Some _ => None | None => Some "ENOENT"%string end;
  MkdirAll _ _ w := (None, w);
  TempFile _ p w :=
    let f := (prefixAndSuffix p).1 +:+ "1" +:+ (prefixAndSuffix p).2 in
    if bool_decide (Base f = f) then (Ok f, set f (Some []) w) else (Err "EINVAL"%string, w);
  file_Write f c w := (None, set f (Some c) w);
  file_Close _ w := w;
  Remove f w := (None, set f None w);
  Rename a b w :=
    match w a with
    | Some c => (None, set b (Some c) (set a None w))
    | None => (Some "ENOENT"%string, w)
    end;
  ReadDir _ _ := Ok [];
  ioutil_ReadFile f w := match w f with Some c => Ok c | None => Err "ENOENT"%string end;
  TempDir _ p w := (Ok p, w);
}.

Lemma set_same f c w : set f c w f = c.
Proof. unfold set. by rewrite bool_decide_eq_true_2. Qed.

Lemma set_other f c w x : Base x <> Base f -> set f c w x = w x.
Proof. intros H. unfold set. rewrite bool_decide_eq_false_2; [done|]. by intros ->. Qed.

#[local] Instance disk_laws : OSLaws Store string.
Proof.
  refine {| file_of := fun w => w |}.
  - by intros d p w e w' [= _ <-].
  - intros d p w e w'. simpl. case_bool_decide; [done|]. by intros [= _ <-].
  - intros d p w f w' _. cbn [TempFile disk]. cbv zeta. case_bool_decide as Hb; [|done]. intros [= <- <-].
    split; [rewrite Hb; by exists "1"%string|]. split; [apply set_same|]. intros x. apply set_other.
  - intros f c w e w' [= _ <-]. split; [intros _ _; apply set_same|]. intros x. apply set_other.
  - done.
  - intros f w e w' [= _ <-] x. apply set_other.
  - intros a b w e w'. simpl. destruct (w a); [done|]. by intros [= _ <-].
  - intros a b w w'. simpl. destruct (w a) as [c|] eqn:E; [|done]. intros [= <-].
    split; [by rewrite set_same|]. intros x Ha Hb. by rewrite !set_other.
Defined.

Definition start : Store := set "/etc/app.ini" (Some [x01]) (fun _ => None).

Lemma WriteFile_atomic_witness :
  (WriteFile "/etc/app.ini" [x02] start).1 = None /\
  Forall (keeps "/etc/app.ini" [x02] start) (WriteFile "/etc/app.ini" [x02] start).2.
Proof.
  split; [vm_compute; reflexivity|].
  pose proof (WriteFile_atomic "/etc/app.ini" [x02] start ltac:(by vm_compute)) as H.
  destruct (WriteFile "/etc/app.ini" [x02] start) as [err states].
  exact (proj1 H).
Defined.

(** The names of the temporary files of two files. *)
Example temporary_names :
  prefixAndSuffix (temp_pattern "/etc/app.ini") = (".app.ini.tmp", "") /\
  prefixAndSuffix (temp_pattern "/etc/a*b*c") = (".a*b", "c.tmp").
Proof. vm_compute. done. Qed.

(** A rename that fails leaves the temporary file behind. *)
Lemma temporary_file_stays :
  let broken : OS Store string :=
    {| IsNotExist := IsNotExist; Stat := Stat; MkdirAll := MkdirAll; TempFile := TempFile;
       file_Write := file_Write; file_Close := file_Close; Remove := Remove;
       Rename := fun _ _ w => (Some "EXDEV"%string, w);
       ReadDir := ReadDir; ioutil_ReadFile := ioutil_ReadFile; TempDir := TempDir |} in
  let '(err, states) := WriteFile (O := broken) "/etc/app.ini" [x02] start in
  err = Some "EXDEV"%string /\ (s ← last states; s ".app.ini.tmp1"%string) = Some [x02].
Proof. vm_compute. done. Qed.

End Disk.
