(* ===== verification/Zoo.v ===== *)
(** * pkg/zoo: project trees and their files

    [ZooFolder] is a tree under construction: a folder holds its files and
    pointers to its subfolders, so the folders live in a store and [AddFolder]
    changes the parent it is called on.  [render] writes the tree out through
    the operating system, the class [OS] of the file Files extended with
    [Host]; text/template, go/format, strcase and go-git are operations of
    [Host] too.  [builds] is the reference: the file system with the entries of
    the tree added in order. *)

From S2P Require Import Prelude GoNet GoPath Files.
From Stdlib Require Import ZArith Lia.
From Stdlib Require Import Init.Byte.
From stdpp Require Import strings gmap list fin_maps.

(** ** The data *)

Record ZooFile := mkZooFile { zf_Name : string; zf_AbsPath : string; zf_Template : string }.

#[export] Instance ZooFile_eq_dec : EqDecision ZooFile.
Proof. solve_decision. Defined.

Notation ptr := positive.

Record ZooFolder := mkZooFolder {
  zd_Name : string;
  zd_AbsPath : string;
  zd_files : list ZooFile;
  zd_folders : list ptr;
}.

(** The folders allocated so far. *)
Notation heap := (gmap ptr ZooFolder).

Record Project := mkProject {
  pj_Name : string;
  pj_Website : string;
  pj_ProjectDir : string;
  pj_RelDir : string;
  pj_LibDir : string;
  pj_IsRemove : bool;
  pj_Folder : ZooFolder;
}.

(** The rest of what the package calls.  A command is its name and arguments;
    [Command] is its output and error. *)
Class Host (St Error Tmpl : Type) := {
  Getwd : St -> result Error string;
  Getenv : string -> St -> string;
  Mkdir : string -> Z -> St -> option Error * St;
  RemoveAll : string -> St -> option Error * St;
  Create : string -> St -> result Error string * St;
  ParseFiles : string -> St -> result Error Tmpl;
  Execute : Tmpl -> Project -> list byte * option Error;
  Execute_to : Tmpl -> Project -> string -> St -> option Error * St;
  format_Source : list byte -> result Error (list byte);
  Command : string -> list string -> St -> (list byte * option Error) * St;
  PlainClone : string -> string -> St -> option Error * St;
  ToCamel : string -> string;
  ToSnake : string -> string;
}.

(** [os.ModePerm]. *)
Definition ModePerm : Z := 511.

(** ** pkg/zoo/file.go *)

Definition AddFolder (f : ptr) (name : string) (h : heap) : run (ptr * heap) :=
  match h !! f with
  | None => Panic
  | Some d =>
      let newF := fresh (dom h) in
      let h := <[newF := mkZooFolder name (path_Join (zd_AbsPath d) name) [] []]> h in
      Ret (newF, <[f := mkZooFolder (zd_Name d) (zd_AbsPath d) (zd_files d) (zd_folders d ++ [newF])]> h)
  end.

Definition AddFile (f : ptr) (name tmpl : string) (h : heap) : run heap :=
  match h !! f with
  | None => Panic
  | Some d =>
      let file := mkZooFile name (path_Join (zd_AbsPath d) name) tmpl in
      Ret (<[f := mkZooFolder (zd_Name d) (zd_AbsPath d) (zd_files d ++ [file]) (zd_folders d)]> h)
  end.

Section Zoo.
Context {St Error Tmpl : Type} {HO : OS St Error} {Hst : Host St Error Tmpl}.

(** One file: the error, the file if it was opened, and the state. *)
Definition render_file (templatePath : string) (p : Project) (v : ZooFile) (w : St) :
    option Error * list string * St :=
  match ParseFiles (path_Join templatePath (zf_Template v)) w with
  | Err err => (Some err, [], w)
  | Ok t =>
      match Create (zf_AbsPath v) w with
      | (Err err, w) => (Some err, [], w)
      | (Ok f, w) =>
          if Contains (zf_AbsPath v) ".go" then
            match Execute t p with
            | (_, Some err) => (Some err, [f], w)
            | (out, None) =>
                match format_Source out with
                | Err err => (Some err, [f], w)
                | Ok b => let '(err, w) := file_Write f b w in (err, [f], w)
                end
            end
          else let '(err, w) := Execute_to t p f w in (err, [f], w)
      end
  end.

(** The first loop; [defers] are the files to close, the last one first. *)
Fixpoint render_files (templatePath : string) (p : Project) (files : list ZooFile)
    (defers : list string) (w : St) : option Error * list string * St :=
  match files with
  | [] => (None, defers, w)
  | v :: files =>
      let '(err, opened, w) := render_file templatePath p v w in
      match err with
      | Some _ => (err, opened ++ defers, w)
      | None => render_files templatePath p files (opened ++ defers) w
      end
  end.

(** The second loop, with the recursive call. *)
Fixpoint render_folders (h : heap) (render : ZooFolder -> St -> option (option Error * St))
    (folders : list ptr) (w : St) : option (option Error * St) :=
  match folders with
  | [] => Some (None, w)
  | v :: folders =>
      d ← h !! v;
      match Mkdir (zd_AbsPath d) ModePerm w with
      | (Some err, w) => Some (Some err, w)
      | (None, w) =>
          '(err, w) ← render d w;
          match err with
          | Some _ => Some (err, w)
          | None => render_folders h render folders w
          end
      end
  end.

Definition close_all (defers : list string) (w : St) : St :=
  foldl (fun w f => file_Close f w) w defers.

(** [None] when the fuel is used up or a pointer is not allocated. *)
Fixpoint render (fuel : nat) (h : heap) (templatePath : string) (p : Project)
    (f : ZooFolder) (w : St) : option (option Error * St) :=
  match fuel with
  | O => None
  | S fuel =>
      let '(err, defers, w) := render_files templatePath p (zd_files f) [] w in
      '(err, w) ← match err with
                  | Some _ => Some (err, w)
                  | None => render_folders h (render fuel h templatePath p) (zd_folders f) w
                  end;
      Some (err, close_all defers w)
  end.

(** ** pkg/zoo/project.go *)

Definition srcPath (w : St) : string := path_Join (Getenv "GOPATH" w) "src".

Definition ProjectPath (website name : string) (w : St) : string :=
  if bool_decide (website = "") then
    match Getwd w with
    | Err _ => ""
    | Ok x => path_Join x name
    end
  else path_Joins [srcPath w; website; name].

Definition NewProject (website name lib : string) (isRemove : bool) (w : St) : Project :=
  mkProject name website (ProjectPath website name w) (website +:+ "/" +:+ name) lib isRemove
            (mkZooFolder "" "" [] []).

Definition fileExist (filePath : string) (w : St) : bool :=
  match Stat filePath w with
  | Some err => negb (IsNotExist err)
  | None => true
  end.

(** The method [AddFile] of a project. *)
Definition Project_AddFile (fuel : nat) (h : heap) (p : Project) (templatePath : string) (w : St) :
    option (option Error * St) :=
  match MkdirAll (pj_ProjectDir p) ModePerm w with
  | (Some err, w) => Some (Some err, w)
  | (None, w) => render fuel h templatePath p (pj_Folder p) w
  end.

Definition Write (fuel : nat) (h : heap) (p : Project) (templatePath : string) (w : St) :
    option (option Error * St) :=
  let w := if pj_IsRemove p then snd (RemoveAll (pj_ProjectDir p) w) else w in
  match MkdirAll (pj_ProjectDir p) ModePerm w with
  | (Some err, w) => Some (Some err, w)
  | (None, w) => render fuel h templatePath p (pj_Folder p) w
  end.

(** The loop over the addresses stops at the first command that fails. *)
Fixpoint Clone (gitList : list string) (w : St) : option Error * St :=
  match gitList with
  | [] => (None, w)
  | url :: gitList =>
      if bool_decide (url = "") then Clone gitList w
      else if fileExist (path_Join (srcPath w) url) w then Clone gitList w
      else match Command ("go get " +:+ url) [] w with
           | ((_, Some err), w) => (Some err, w)
           | ((_, None), w) => Clone gitList w
           end
  end.

Definition Project_Test (p : Project) (url : string) : option Error := None.

Definition Build (p : Project) (w : St) : option Error * St :=
  let '((_, err), w) := Command ("cd " +:+ pj_ProjectDir p +:+ " && make build") [] w in (err, w).

Definition CamelCaseName (p : Project) : string := ToCamel (pj_Name p).

Definition SnakeCaseName (p : Project) : string := ReplaceAll (ToSnake (pj_Name p)) "-" "_".

Definition DNSName (p : Project) : string := ReplaceAll (ToSnake (pj_Name p)) "_" "-".

Definition LibName (p : Project) : string := pj_LibDir p.

Definition gitClone (url store : string) (w : St) : option Error * St := PlainClone store url w.

End Zoo.

(** ** The reference: the entries of a tree and the file system they make *)

Inductive node := Dir | File (content : list byte).

Inductive entry := EDir (path : string) | EFile (v : ZooFile).

#[export] Instance entry_eq_dec : EqDecision entry.
Proof. solve_decision. Defined.

Definition entry_path (e : entry) : string :=
  match e with EDir path => path | EFile v => zf_AbsPath v end.

Definition paths (es : list entry) : list string := entry_path <$> es.

(** The entries below a folder, the files of a folder before its subfolders. *)
Fixpoint entries (fuel : nat) (h : heap) (f : ZooFolder) : option (list entry) :=
  match fuel with
  | O => None
  | S fuel =>
      subs ← mapM (fun v => d ← h !! v; es ← entries fuel h d; Some (EDir (zd_AbsPath d) :: es))
                  (zd_folders f);
      Some ((EFile <$> zd_files f) ++ concat subs)
  end.

Lemma entries_S n h f :
  entries (S n) h f =
  (subs ← mapM (fun v => d ← h !! v; es ← entries n h d; Some (EDir (zd_AbsPath d) :: es)) (zd_folders f);
   Some ((EFile <$> zd_files f) ++ concat subs)).
Proof. done. Qed.

(** [within p q]: [q] is [p] or below it. *)
Definition within (p q : string) : Prop := q = p \/ HasPrefix q (p +:+ "/") = true.

#[export] Instance within_dec p q : Decision (within p q).
Proof. unfold within. apply _. Defined.

(** What the operations do to the tree of files.  The paths are cleaned and
    name each file in one way (no links). *)
Class HostLaws (St Error Tmpl : Type) `{!OS St Error} `{!Host St Error Tmpl} := {
  nodes : St -> gmap string node;
  MkdirAll_nodes p m w e w' :
    MkdirAll p m w = (e, w') ->
    (e = None -> nodes w' !! p = Some Dir) /\
    forall q, nodes w' !! q = nodes w !! q \/
              (nodes w !! q = None /\ nodes w' !! q = Some Dir /\ within q p);
  Mkdir_ok p m w w' :
    Mkdir p m w = (None, w') -> nodes w !! p = None /\ nodes w' = <[p := Dir]> (nodes w);
  Mkdir_fails p m w e w' : Mkdir p m w = (Some e, w') -> nodes w' = nodes w;
  RemoveAll_nodes p w e w' :
    RemoveAll p w = (e, w') ->
    (e = None -> forall q, within p q -> nodes w' !! q = None) /\
    forall q, ~ within p q -> nodes w' !! q = nodes w !! q;
  Create_fails p w e w' : Create p w = (Err e, w') -> nodes w' = nodes w;
  Create_ok p w f w' :
    Create p w = (Ok f, w') -> f = p /\ nodes w' = <[p := File []]> (nodes w);
  Write_others f b w e w' :
    file_Write f b w = (e, w') -> forall q, q <> f -> nodes w' !! q = nodes w !! q;
  Create_Write p w f w1 b w2 :
    Create p w = (Ok f, w1) -> file_Write f b w1 = (None, w2) ->
    nodes w2 = <[p := File b]> (nodes w);
  Execute_to_others t p f w e w' :
    Execute_to t p f w = (e, w') -> forall q, q <> f -> nodes w' !! q = nodes w !! q;
  Create_Execute_to path w f w1 t p w2 :
    Create path w = (Ok f, w1) -> Execute_to t p f w1 = (None, w2) ->
    exists out, Execute t p = (out, None) /\ nodes w2 = <[path := File out]> (nodes w);
  Close_nodes f w : nodes (file_Close f w) = nodes w;
  ParseFiles_reads f w w' :
    nodes w !! f = nodes w' !! f -> ParseFiles f w = ParseFiles f w';
}.

Section Builds.
Context {St Error Tmpl : Type} `{HL : HostLaws St Error Tmpl}.
Variables (templatePath : string) (p : Project).

(** The text a file gets: its template executed on the project, formatted if
    it is taken for a Go file. *)
Definition content (w : St) (v : ZooFile) : option (list byte) :=
  match ParseFiles (path_Join templatePath (zf_Template v)) w with
  | Err _ => None
  | Ok t =>
      match Execute t p with
      | (_, Some _) => None
      | (out, None) =>
          if Contains (zf_AbsPath v) ".go" then
            match format_Source out with Err _ => None | Ok b => Some b end
          else Some out
      end
  end.

(** The entries added in order; a folder must be new. *)
Fixpoint builds (w0 : St) (m : gmap string node) (es : list entry) : option (gmap string node) :=
  match es with
  | [] => Some m
  | EDir path :: es =>
      match m !! path with
      | None => builds w0 (<[path := Dir]> m) es
      | Some _ => None
      end
  | EFile v :: es => c ← content w0 v; builds w0 (<[zf_AbsPath v := File c]> m) es
  end.

Lemma builds_app w0 m es1 es2 :
  builds w0 m (es1 ++ es2) = (m' ← builds w0 m es1; builds w0 m' es2).
Proof.
  revert m. induction es1 as [|[path|v] es1 IH]; intros m; [done|cbn..].
  - by destruct (m !! path).
  - by destruct (content w0 v); cbn.
Qed.

(** The folders among the entries. *)
Definition dirs (es : list entry) : list string :=
  omap (fun e => match e with EDir path => Some path | EFile _ => None end) es.

Lemma elem_of_dirs path es : path ∈ dirs es <-> EDir path ∈ es.
Proof.
  unfold dirs. rewrite list_elem_of_omap. split.
  - intros ([q|v] & Hq & E); by simplify_eq.
  - intros H. by exists (EDir path).
Qed.

(** A path that is taken cannot become a folder. *)
Lemma builds_taken w0 m es path :
  is_Some (m !! path) -> path ∈ dirs es -> builds w0 m es = None.
Proof.
  rewrite elem_of_dirs. revert m. induction es as [|[q|v] es IH]; intros m Hm Hin; cbn [builds].
  - by apply not_elem_of_nil in Hin.
  - apply elem_of_cons in Hin as [[= ->]|Hin]; [by destruct Hm as [? ->]|].
    destruct (m !! q) eqn:E; [done|]. apply IH; [|done].
    rewrite lookup_insert_ne; [done|]. intros ->. rewrite E in Hm. by destruct Hm.
  - apply elem_of_cons in Hin as [?|Hin]; [done|]. destruct (content w0 v); [|done]. cbn.
    apply IH; [|done]. apply lookup_insert_is_Some. destruct (decide (zf_AbsPath v = path)); [by left|by right].
Qed.

Lemma builds_dirs_NoDup w0 m es m' : builds w0 m es = Some m' -> NoDup (dirs es).
Proof.
  revert m. induction es as [|[q|v] es IH]; intros m H; cbn in *; [constructor| |].
  - destruct (m !! q) eqn:E; [done|]. constructor; [|by eapply IH]. intros Hq.
    rewrite (builds_taken _ _ _ q) in H; [done| |done]. rewrite lookup_insert_eq. eauto.
  - destruct (content w0 v); [|done]. by eapply IH.
Qed.

Lemma builds_content w0 m es m' v :
  builds w0 m es = Some m' -> EFile v ∈ es -> is_Some (content w0 v).
Proof.
  revert m. induction es as [|[q|v'] es IH]; intros m H Hin; cbn [builds] in H.
  - by apply not_elem_of_nil in Hin.
  - apply elem_of_cons in Hin as [?|Hin]; [done|]. destruct (m !! q); [done|]. by eapply IH.
  - destruct (content w0 v') eqn:E; [|done].
    apply elem_of_cons in Hin as [[= ->]|Hin]; [done|]. by eapply IH.
Qed.

(** With distinct paths, what is built is the entries and nothing else. *)
Lemma builds_lookup w0 m es m' :
  builds w0 m es = Some m' -> NoDup (paths es) ->
  (forall path, EDir path ∈ es -> m' !! path = Some Dir) /\
  (forall v, EFile v ∈ es -> exists c, content w0 v = Some c /\ m' !! zf_AbsPath v = Some (File c)) /\
  (forall q, q ∉ paths es -> m' !! q = m !! q).
Proof.
  revert m. induction es as [|e es IH]; intros m H Hnd; cbn [builds] in H.
  { simplify_eq. split_and!; [by intros ? ?%not_elem_of_nil..|done]. }
  unfold paths in Hnd. cbn [fmap list_fmap] in Hnd. apply NoDup_cons in Hnd as [Hq Hnd].
  assert (exists x, builds w0 (<[entry_path e := x]> m) es = Some m' /\
                    match e with EDir _ => x = Dir
                    | EFile v => exists c, content w0 v = Some c /\ x = File c end) as (x & Hb & Hx).
  { destruct e as [q|v]; cbn.
    - destruct (m !! q); [done|]. by eexists.
    - destruct (content w0 v) as [c|]; [|done]. eexists. split; [exact H|]. by exists c. }
  destruct (IH _ Hb Hnd) as (H1 & H2 & H3).
  assert (He : m' !! entry_path e = Some x) by by rewrite H3, lookup_insert_eq.
  split_and!.
  - intros path [<-|Hin]%elem_of_cons; [|by apply H1]. cbn in *. by subst x.
  - intros v [<-|Hin]%elem_of_cons; [|by apply H2]. cbn in *. naive_solver.
  - intros q. unfold paths. cbn [fmap list_fmap]. intros [Hne Hin]%not_elem_of_cons.
    rewrite H3 by done. by rewrite lookup_insert_ne.
Qed.

(** The templates are where they were at the start. *)
Variables (Template_path : string -> Prop) (w0 : St).

Definition same_templates (w : St) : Prop :=
  forall q, Template_path q -> nodes w !! q = nodes w0 !! q.

(** What a part of the rendering that adds [es] may do. *)
Definition adds (es : list entry) (w : St) (e : option Error) (w' : St) : Prop :=
  (forall q, q ∉ paths es -> nodes w' !! q = nodes w !! q) /\
  (e = None -> builds w0 (nodes w) es = Some (nodes w')).

(** The entries do not overwrite the templates, which are among those known. *)
Definition apart (es : list entry) : Prop :=
  (forall q, Template_path q -> q ∉ paths es) /\
  (forall v, EFile v ∈ es -> Template_path (path_Join templatePath (zf_Template v))).

Lemma apart_app es1 es2 : apart (es1 ++ es2) <-> apart es1 /\ apart es2.
Proof.
  unfold apart, paths. rewrite fmap_app. setoid_rewrite elem_of_app. naive_solver.
Qed.

Lemma adds_same_templates es w e w' :
  apart es -> adds es w e w' -> same_templates w -> same_templates w'.
Proof. intros (H1 & _) (H2 & _) H3 q Hq. rewrite H2; auto. Qed.

Lemma adds_app es1 es2 w w1 e w2 :
  adds es1 w None w1 -> adds es2 w1 e w2 -> adds (es1 ++ es2) w e w2.
Proof.
  intros (H1 & H2) (H3 & H4). split.
  - intros q. unfold paths. rewrite fmap_app, not_elem_of_app. intros [Hq1 Hq2].
    rewrite H3 by done. by apply H1.
  - intros ->. rewrite builds_app, H2 by done. cbn. by apply H4.
Qed.

Lemma adds_stops es1 es2 w e w1 : adds es1 w (Some e) w1 -> adds (es1 ++ es2) w (Some e) w1.
Proof.
  intros (H1 & H2). split; [|done].
  intros q. unfold paths. rewrite fmap_app, not_elem_of_app. intros [Hq1 _]. by apply H1.
Qed.

Lemma adds_nil w w' : nodes w' = nodes w -> adds [] w None w'.
Proof. intros E. split; [by rewrite E|]. intros _. cbn. by rewrite E. Qed.

Lemma adds_after es w w1 e w2 w3 :
  nodes w1 = nodes w -> nodes w3 = nodes w2 -> adds es w1 e w2 -> adds es w e w3.
Proof. unfold adds. intros -> ->. done. Qed.

Lemma render_file_adds v w e opened w' :
  apart [EFile v] -> same_templates w ->
  render_file templatePath p v w = (e, opened, w') -> adds [EFile v] w e w'.
Proof.
  intros [_ HT] Hsame. specialize (HT v ltac:(by left)).
  unfold render_file. rewrite (ParseFiles_reads _ w w0) by by apply Hsame.
  intros H. unfold adds. cbn [builds]. unfold content.
  assert (Hq : forall q, q ∉ paths [EFile v] <-> q <> zf_AbsPath v).
  { intros q. unfold paths. cbn. rewrite not_elem_of_cons. split; [tauto|].
    intros ?; split; [done|apply not_elem_of_nil]. }
  setoid_rewrite Hq. clear Hq.
  destruct (ParseFiles (path_Join templatePath (zf_Template v)) w0) as [t|?]; [|by simplify_eq].
  destruct (Create (zf_AbsPath v) w) as [[f|?] w1] eqn:EC.
  2:{ simplify_eq. by rewrite (Create_fails _ _ _ _ EC). }
  destruct (Create_ok _ _ _ _ EC) as [-> E1].
  assert (Hothers : forall q, q <> zf_AbsPath v -> nodes w1 !! q = nodes w !! q).
  { intros q Hq. by rewrite E1, lookup_insert_ne. }
  destruct (Contains (zf_AbsPath v) ".go").
  - destruct (Execute t p) as [out [?|]]; [by simplify_eq|].
    destruct (format_Source out) as [b|?]; [|by simplify_eq].
    destruct (file_Write (zf_AbsPath v) b w1) as [e' w2] eqn:EW. simplify_eq. split.
    + intros q Hq. by rewrite (Write_others _ _ _ _ _ EW), Hothers.
    + intros ->. cbn. by rewrite (Create_Write _ _ _ _ _ _ EC EW).
  - destruct (Execute_to t p (zf_AbsPath v) w1) as [e' w2] eqn:EX. simplify_eq. split.
    + intros q Hq. by rewrite (Execute_to_others _ _ _ _ _ _ EX), Hothers.
    + intros ->. destruct (Create_Execute_to _ _ _ _ _ _ _ EC EX) as (out & -> & ->). done.
Qed.

Lemma render_files_adds files : forall defers w e defers' w',
  apart (EFile <$> files) -> same_templates w ->
  render_files templatePath p files defers w = (e, defers', w') ->
  adds (EFile <$> files) w e w'.
Proof.
  induction files as [|v files IH]; intros defers w e defers' w' Ha Hs; cbn [render_files].
  { intros [= <- <- <-]. by apply adds_nil. }
  change (EFile <$> v :: files) with ([EFile v] ++ (EFile <$> files)) in *.
  apply apart_app in Ha as [Ha1 Ha2].
  destruct (render_file templatePath p v w) as [[e1 opened] w1] eqn:E1.
  pose proof (render_file_adds _ _ _ _ _ Ha1 Hs E1) as H1.
  destruct e1 as [e1|].
  - intros [= <- <- <-]. by apply adds_stops.
  - intros H2. eapply adds_app; [exact H1|]. eapply IH; [done| |exact H2].
    eauto using adds_same_templates.
Qed.

Lemma close_all_nodes defers : forall w, nodes (close_all defers w) = nodes w.
Proof.
  induction defers as [|f defers IH]; intros w; [done|]. cbn. fold (close_all defers (file_Close f w)).
  by rewrite IH, Close_nodes.
Qed.

Definition renders (d : ZooFolder) (es : list entry)
    (r : ZooFolder -> St -> option (option Error * St)) : Prop :=
  forall w, apart es -> same_templates w -> exists e w', r d w = Some (e, w') /\ adds es w e w'.

Lemma Mkdir_adds path w e w' :
  Mkdir path ModePerm w = (e, w') -> adds [EDir path] w e w'.
Proof.
  intros H. unfold adds, paths. cbn. destruct e as [e|].
  - by rewrite (Mkdir_fails _ _ _ _ _ H).
  - destruct (Mkdir_ok _ _ _ _ H) as [E1 ->]. rewrite E1. split; [|done].
    intros q [Hq _]%not_elem_of_cons. by rewrite lookup_insert_ne.
Qed.

Lemma render_folders_adds h r n folders : forall subs w,
  (forall d es, entries n h d = Some es -> renders d es r) ->
  mapM (fun v => d ← h !! v; es ← entries n h d; Some (EDir (zd_AbsPath d) :: es)) folders = Some subs ->
  apart (concat subs) -> same_templates w ->
  exists e w', render_folders h r folders w = Some (e, w') /\ adds (concat subs) w e w'.
Proof.
  induction folders as [|v folders IH]; intros subs w Hr Hm Ha Hs.
  { injection Hm as <-. eexists _, _. split; [done|]. by apply adds_nil. }
  cbn [mapM render_folders] in *.
  destruct (h !! v) as [d|]; [|done]. cbn in Hm |- *.
  destruct (entries n h d) as [es|] eqn:Ee; [|done]. cbn in Hm.
  destruct (mapM _ folders) as [subs'|] eqn:Em; [|done]. injection Hm as <-.
  cbn [concat] in *. change (EDir (zd_AbsPath d) :: es) with ([EDir (zd_AbsPath d)] ++ es) in *.
  rewrite <- app_assoc in *. apply apart_app in Ha as [Ha1 [Ha2 Ha3]%apart_app].
  destruct (Mkdir (zd_AbsPath d) ModePerm w) as [e1 w1] eqn:E1.
  pose proof (Mkdir_adds _ _ _ _ E1) as H1.
  destruct e1 as [e1|]; [eexists _, _; split; [done|by apply (adds_stops [EDir (zd_AbsPath d)])]|].
  assert (Hs1 : same_templates w1) by eauto using adds_same_templates.
  destruct (Hr d es Ee w1 Ha2 Hs1) as (e2 & w2 & E2 & H2). rewrite E2. cbn.
  destruct e2 as [e2|].
  - eexists _, _. split; [done|]. apply (adds_app [EDir (zd_AbsPath d)]) with w1; [exact H1|].
    by apply adds_stops.
  - destruct (IH subs' w2 Hr eq_refl Ha3) as (e3 & w3 & E3 & H3); [eauto using adds_same_templates|].
    exists e3, w3. split; [exact E3|]. apply (adds_app [EDir (zd_AbsPath d)]) with w1; [exact H1|].
    by eapply adds_app.
Qed.

Lemma render_adds n h : forall d es,
  entries n h d = Some es -> renders d es (render n h templatePath p).
Proof.
  induction n as [|n IH]; intros d es He w Ha Hs; [done|]. cbn [entries render] in *.
  destruct (mapM _ (zd_folders d)) as [subs|] eqn:Em; [|done]. cbn in He. simplify_eq.
  apply apart_app in Ha as [Ha1 Ha2].
  destruct (render_files templatePath p (zd_files d) [] w) as [[e1 defers] w1] eqn:E1.
  pose proof (render_files_adds _ _ _ _ _ _ Ha1 Hs E1) as H1.
  destruct e1 as [e1|]; cbn.
  - eexists _, _. split; [done|]. eapply adds_after; [done|apply close_all_nodes|]. by apply adds_stops.
  - destruct (render_folders_adds h _ n (zd_folders d) subs w1 IH Em Ha2) as (e2 & w2 & E2 & H2);
      [eauto using adds_same_templates|].
    rewrite E2. cbn. eexists _, _. split; [done|].
    eapply adds_after; [done|apply close_all_nodes|]. by eapply adds_app.
Qed.
End Builds.

(** ** Rendering implements the reference *)

(** Rendering a tree whose templates are not among the files it writes
    always ends.  It changes no path but those of the tree's entries, and when
    it reports no error the file system is the one before with every entry
    added in order: each folder was new, each file holds its template executed
    on the project, formatted when the path contains .go. *)
Theorem render_builds {St Error Tmpl} `{HostLaws St Error Tmpl} n h d es templatePath p (w : St) :
  entries n h d = Some es ->
  (forall v, EFile v ∈ es -> path_Join templatePath (zf_Template v) ∉ paths es) ->
  exists e w', render n h templatePath p d w = Some (e, w') /\
    (forall q, q ∉ paths es -> nodes w' !! q = nodes w !! q) /\
    (e = None -> builds templatePath p w (nodes w) es = Some (nodes w')).
Proof.
  intros He Ha.
  set (T := fun q => exists v, EFile v ∈ es /\ q = path_Join templatePath (zf_Template v)).
  apply (render_adds templatePath p T w n h d es He w); unfold T.
  - split; [|by eauto]. intros q (v & Hv & ->). by apply Ha.
  - by intros q _.
Qed.
