(* ===== verification/Version.v ===== *)
(** * pkg/types/version.go: the version text

    A [time.Time] is its calendar fields and its zone's name and offset in
    seconds; the time of day and the Go version are arguments. *)

From S2P Require Import Prelude GoStd GoNet.
From Stdlib Require Import ZArith Lia.
From Stdlib Require Import Init.Byte.
From stdpp Require Import strings list.
Open Scope Z_scope.

Record Time := mkTime {
  tm_Year : Z; tm_Month : Z; tm_Day : Z;
  tm_Hour : Z; tm_Minute : Z; tm_Second : Z; tm_Nanosecond : Z;
  tm_Zone : string * Z;
}.

(** [fmt]'s [%0<width>d]: zeros after the sign up to the width. *)
Definition fmt_0d (width : nat) (v : Z) : string :=
  let digits := num_digits 10 (Z.abs v) in
  let prec := if v <? 0 then (width - 1)%nat else width in
  go_string ((if v <? 0 then [chr "-"] else []) ++ replicate (prec - length digits) (chr "0") ++ digits).

Record Version := mkVersion { vn_ver : string; vn_runtime : string; vn_timestamp : Time }.

Definition NewVersion (ver runtime_Version : string) (Now : Time) : Version :=
  mkVersion ver runtime_Version Now.

(** [offset/3600] rounds towards zero. *)
Definition zone_text (z : string * Z) : string :=
  let '(name, offset) := z in
  if bool_decide (name = "UTC") then "Z" else fmt_0d 3 (Z.quot offset 3600) +:+ "00".

Definition TimeToISO8601 (t : Time) : string :=
  fmt_0d 4 (tm_Year t) +:+ "-" +:+ fmt_0d 2 (tm_Month t) +:+ "-" +:+ fmt_0d 2 (tm_Day t) +:+ "T"
  +:+ fmt_0d 2 (tm_Hour t) +:+ "-" +:+ fmt_0d 2 (tm_Minute t) +:+ "-" +:+ fmt_0d 2 (tm_Second t)
  +:+ "." +:+ fmt_0d 9 (tm_Nanosecond t) +:+ zone_text (tm_Zone t).

Definition Version_String (v : Version) : string :=
  vn_ver v +:+ " " +:+ vn_runtime v +:+ " " +:+ TimeToISO8601 (vn_timestamp v).

Definition WithCommit (v : Version) (gitCommit : string) : string :=
  let str := Version_String v in
  if (8 <=? String.length gitCommit)%nat then str +:+ " " +:+ String.substring 0 8 gitCommit else str.

(** The colons of ISO 8601 are dashes, an offset east of Greenwich has no plus
    sign but a third digit, and the minutes of an offset are dropped. *)
Example TimeToISO8601_examples :
  (fun z => TimeToISO8601 (mkTime 2019 1 2 3 4 5 60 z)) <$>
    [("UTC", 0); ("CST", 28800); ("EST", -18000); ("IST", 19800)] =
  ["2019-01-02T03-04-05.000000060Z"; "2019-01-02T03-04-05.00000006000800";
   "2019-01-02T03-04-05.000000060-0500"; "2019-01-02T03-04-05.00000006000500"]%string.
Proof. vm_compute. reflexivity. Qed.

(** A commit of fewer than eight characters is left out. *)
Lemma WithCommit_text v c :
  WithCommit v c = Version_String v +:+
    (if (8 <=? String.length c)%nat then " " +:+ String.substring 0 8 c else "").
Proof.
  unfold WithCommit. case_match; [done|].
  apply go_bytes_inj. rewrite go_bytes_app. cbn. by rewrite app_nil_r.
Qed.
