(* ===== verification/Tool.v ===== *)
(** * cmd/tool: the project generator

    [NewProject] builds the tree of a project from the two tables of files
    and [main] writes it out.  The tables are Go maps: the orders in which
    they are iterated over are arguments. *)

From S2P Require Import Prelude GoNet GoPath Files Zoo Version.
From Stdlib Require Import ZArith Lia.
From Stdlib Require Import Init.Byte.
From stdpp Require Import strings gmap list fin_maps.

Definition libNameDefault : string := "airman.com/airfk".
Definition version : string := "1.0.1".

Definition files_table : Type := list (string * list string).

Definition nodeFileList : files_table :=
  [("admin", ["api.go"; "backend.go"; "node.go"]);
   ("conf", ["conf.go"]);
   ("version", ["version.go"]);
   ("common", ["errors.go"; "result.go"]);
   ("subscribe", ["interface.go"; "subscribe.go"; "subscribe_test.go"]);
   ("@@@@@", ["@@@@@.go"; "manager.go"])]%string.

Definition distFileList : files_table :=
  [("etc", ["@@@@@.json"]); ("bin", [""])]%string.

Definition gitList : list string := ["airman.com/airfk"%string].

(** The loop over the files of a folder. *)
Fixpoint add_files (f : ptr) (name : string) (v : list string) (h : heap) : run heap :=
  match v with
  | [] => Ret h
  | ff :: v =>
      let fs := Replace ff "@@@@@" name 1 in
      if bool_decide (fs = "") then add_files f name v h
      else let! h := AddFile f fs (ff +:+ ".tpl") h in add_files f name v h
  end.

(** The loop over a table below the folder [parent]; [folder_name] is the name
    a key gives its folder. *)
Fixpoint add_folders (parent : ptr) (folder_name : string -> string) (name : string)
    (table : files_table) (h : heap) : run heap :=
  match table with
  | [] => Ret h
  | (k, v) :: table =>
      let! (f, h) := AddFolder parent (folder_name k) h in
      let! h := add_files f name v h in
      add_folders parent folder_name name table h
  end.

Definition node_folder (name k : string) : string := Replace k "@@@@@" name 1.

Section Tool.
Context {St Error Tmpl : Type} {HO : OS St Error} {Hst : Host St Error Tmpl}.

(** The project and the folders its tree points to. *)
Definition NewProject (node_order dist_order : files_table) (website name : string) (w : St) :
    run (Project * heap) :=
  let rPath := ProjectPath website name w in
  let f : ptr := 1%positive in
  let h : heap := {[ f := mkZooFolder name rPath [] [] ]} in
  let! h := AddFile f "main.go" "main.go.tpl" h in
  let! h := AddFile f "Makefile" "Makefile.tpl" h in
  let! h := AddFile f "Dockerfile" "Dockerfile.tpl" h in
  let! h := AddFile f ".gitignore" "gitignore.tpl" h in
  let! (node, h) := AddFolder f "node" h in
  let! h := add_folders node (node_folder name) name node_order h in
  let! (dist, h) := AddFolder f "dist" h in
  let! h := add_folders dist (fun k => k) name dist_order h in
  match h !! f with
  | None => Panic
  | Some folder =>
      Ret (mkProject name website rPath (website +:+ "/" +:+ name) libNameDefault true folder, h)
  end.

Definition templatePath (w : St) : string :=
  path_Join (ProjectPath "airman.com" "airfk" w) "template".

(** The flags and their defaults. *)
Record flags := mkFlags {
  webName : string; projectName : string; template : string; isVersion : bool;
}.

Definition init (w : St) : flags := mkFlags "airman.com" "website" (templatePath w) false.

(** What [main] prints, errors and the output of commands as values. *)
Inductive print :=
| PLine (s : string)
| PError (e : Error)
| POutput (out : list byte).

Definition print_error (e : option Error) : list print :=
  match e with Some e => [PError e] | None => [] end.

Definition modCmd (project : Project) : string :=
  "cd " +:+ pj_ProjectDir project +:+ "; go mod init ; go mod edit -require=airman.com/airfk@v0.0.0 ; go mod edit -replace=airman.com/airfk@v0.0.0=$GOPATH/src/airman.com/airfk ; go mod tidy && make".

(** After [flag.Parse]: what is printed, the exit status and the state. *)
Definition main (fuel : nat) (node_order dist_order : files_table) (fl : flags)
    (runtime_Version : string) (Now : Time) (w : St) : option (run (list print * Z * St)) :=
  if isVersion fl then
    Some (Ret ([PLine (Version_String (Version.NewVersion version runtime_Version Now))], 0%Z, w))
  else
    match NewProject node_order dist_order (webName fl) (projectName fl) w with
    | Panic => Some Panic
    | Ret (project, h) =>
        '(err1, w) ← Write fuel h project (template fl) w;
        let '(err2, w) := Clone gitList w in
        let '((result, err3), w) := Command "/bin/sh" ["-c"%string; modCmd project] w in
        let out :=
          [PLine ("project information: " +:+ webName fl +:+ " " +:+ projectName fl)]
          ++ print_error err1
          ++ [PLine (">>create " +:+ projectName fl +:+ " step1: file create ok")]
          ++ print_error err2
          ++ [PLine (">>create " +:+ projectName fl +:+ " step2: pkg [airman.com/airfk] is ok")] in
        match err3 with
        | Some err => Some (Ret (out ++ [PLine ("exec mod cmd error, " +:+ modCmd project); PError err], 1%Z, w))
        | None => Some (Ret (out ++ [POutput result; PLine "Now get your project! "], 0%Z, w))
        end
    end.

End Tool.

(** ** The tree [NewProject] builds *)

Definition files_of (abs name : string) (v : list string) : list ZooFile :=
  omap (fun ff => let fs := Replace ff "@@@@@" name 1 in
                  if bool_decide (fs = "") then None
                  else Some (mkZooFile fs (path_Join abs fs) (ff +:+ ".tpl"))) v.

Definition folder_of (abs name fname : string) (v : list string) : ZooFolder :=
  let abs := path_Join abs fname in mkZooFolder fname abs (files_of abs name v) [].

(** The folder of one key of a table and its files. *)
Definition folder_entries (folder_name : string -> string) (abs name : string)
    (kv : string * list string) : list entry :=
  let d := folder_of abs name (folder_name kv.1) kv.2 in
  EDir (zd_AbsPath d) :: (EFile <$> zd_files d).

Definition top_files (root : string) : list ZooFile :=
  (fun '(n, t) => mkZooFile n (path_Join root n) t) <$>
    [("main.go", "main.go.tpl"); ("Makefile", "Makefile.tpl");
     ("Dockerfile", "Dockerfile.tpl"); (".gitignore", "gitignore.tpl")]%string.

Definition layout (node_order dist_order : files_table) (root name : string) : list entry :=
  let node := path_Join root "node" in
  let dist := path_Join root "dist" in
  (EFile <$> top_files root)
  ++ (EDir node :: concat (folder_entries (node_folder name) node name <$> node_order))
  ++ (EDir dist :: concat (folder_entries (fun k => k) dist name <$> dist_order)).

Definition with_files (d : ZooFolder) (fs : list ZooFile) : ZooFolder :=
  mkZooFolder (zd_Name d) (zd_AbsPath d) (zd_files d ++ fs) (zd_folders d).

Definition with_folders (d : ZooFolder) (ls : list ptr) : ZooFolder :=
  mkZooFolder (zd_Name d) (zd_AbsPath d) (zd_files d) (zd_folders d ++ ls).

Lemma AddFile_ok f d h name tmpl :
  h !! f = Some d ->
  AddFile f name tmpl h = Ret (<[f := with_files d [mkZooFile name (path_Join (zd_AbsPath d) name) tmpl]]> h).
Proof. intros H. unfold AddFile. by rewrite H. Qed.

Lemma add_files_ok f name v : forall h d,
  h !! f = Some d ->
  add_files f name v h = Ret (<[f := with_files d (files_of (zd_AbsPath d) name v)]> h).
Proof.
  induction v as [|ff v IH]; intros h d Hd; cbn [add_files files_of omap list_omap].
  - rewrite insert_id; [done|]. rewrite Hd. unfold with_files. rewrite app_nil_r. by destruct d.
  - fold (files_of (zd_AbsPath d) name v). case_bool_decide; [by apply IH|].
    rewrite (AddFile_ok _ _ _ _ _ Hd).
    erewrite IH by apply lookup_insert_eq. rewrite insert_insert_eq.
    unfold with_files. cbn. by rewrite <- app_assoc.
Qed.

Lemma AddFolder_ok f d h name :
  h !! f = Some d ->
  exists l, h !! l = None /\ l <> f /\
    AddFolder f name h =
      Ret (l, <[f := with_folders d [l]]> (<[l := mkZooFolder name (path_Join (zd_AbsPath d) name) [] []]> h)).
Proof.
  intros H. unfold AddFolder. rewrite H.
  assert (Hl : h !! (fresh (dom h)) = None).
  { apply not_elem_of_dom. apply is_fresh. }
  eexists. split; [exact Hl|]. split; [congruence|done].
Qed.

(** What is allocated stays as it is, the parent apart. *)
Definition extends (parent : ptr) (h h' : heap) : Prop :=
  forall x d, x <> parent -> h !! x = Some d -> h' !! x = Some d.

Lemma add_folders_ok parent fname name table : forall h d,
  h !! parent = Some d ->
  exists ls h', add_folders parent fname name table h = Ret h' /\
    h' !! parent = Some (with_folders d ls) /\
    Forall2 (fun l kv => l <> parent /\ h' !! l = Some (folder_of (zd_AbsPath d) name (fname kv.1) kv.2)) ls table /\
    extends parent h h'.
Proof.
  induction table as [|[k v] table IH]; intros h d Hd.
  { exists [], h. split_and!; [done| |constructor|by intros x].
    unfold with_folders. rewrite app_nil_r. by destruct d. }
  cbn [add_folders].
  destruct (AddFolder_ok _ _ _ (fname k) Hd) as (l & Hl & Hne & ->).
  set (d0 := mkZooFolder (fname k) (path_Join (zd_AbsPath d) (fname k)) [] []).
  assert (Hl0 : <[parent := with_folders d [l]]> (<[l := d0]> h) !! l = Some d0).
  { by rewrite lookup_insert_ne, lookup_insert_eq. }
  rewrite (add_files_ok _ name v _ _ Hl0).
  set (h1 := <[l := _]> _).
  assert (Hp1 : h1 !! parent = Some (with_folders d [l])).
  { unfold h1. rewrite lookup_insert_ne by done. apply lookup_insert_eq. }
  destruct (IH h1 _ Hp1) as (ls & h' & E & Hp & Hls & Hext).
  exists (l :: ls), h'. split_and!; [exact E| | |].
  - rewrite Hp. unfold with_folders. cbn. by rewrite <- app_assoc.
  - constructor; [|exact Hls]. split; [done|]. apply Hext; [done|]. unfold h1.
    by rewrite lookup_insert_eq.
  - intros x dx Hx Hdx. apply Hext; [done|]. unfold h1.
    assert (x <> l) by congruence. by rewrite !lookup_insert_ne by done.
Qed.

(** The entries of the folders a table gives. *)
Lemma entries_folders n h abs name fname ls table :
  Forall2 (fun l kv => h !! l = Some (folder_of abs name (fname kv.1) kv.2)) ls table ->
  mapM (fun v => d ← h !! v; es ← entries (S n) h d; Some (EDir (zd_AbsPath d) :: es)) ls =
  Some (folder_entries fname abs name <$> table).
Proof.
  intros H. apply mapM_Some, Forall2_fmap_r. eapply Forall2_impl; [exact H|].
  intros l kv Hl. cbn beta. rewrite Hl. cbn. by rewrite app_nil_r.
Qed.

Lemma entries_of_folder n h d abs name fname ls table :
  zd_folders d = [] -> zd_files d = [] -> zd_AbsPath d = abs ->
  Forall2 (fun l kv => h !! l = Some (folder_of abs name (fname kv.1) kv.2)) ls table ->
  entries (S (S n)) h (with_folders d ls) = Some (concat (folder_entries fname abs name <$> table)).
Proof.
  intros E1 E2 E3 H. rewrite entries_S. unfold with_folders. rewrite E1, E2. cbn [app zd_folders zd_files].
  by rewrite (entries_folders n h abs name fname ls table H).
Qed.

(** The tree of [NewProject], once its folders are allocated. *)
Lemma tree_entries n h node dist ls1 ls2 root name node_order dist_order :
  let dn := mkZooFolder "node" (path_Join root "node") [] [] in
  let dd := mkZooFolder "dist" (path_Join root "dist") [] [] in
  h !! node = Some (with_folders dn ls1) -> h !! dist = Some (with_folders dd ls2) ->
  Forall2 (fun l kv => h !! l = Some (folder_of (zd_AbsPath dn) name (node_folder name kv.1) kv.2)) ls1 node_order ->
  Forall2 (fun l kv => h !! l = Some (folder_of (zd_AbsPath dd) name kv.1 kv.2)) ls2 dist_order ->
  entries (3 + n) h (with_folders (mkZooFolder name root (top_files root) []) [node; dist]) =
  Some (layout node_order dist_order root name).
Proof.
  intros dn dd Hn Hd H1 H2. change (3 + n)%nat with (S (S (S n))). rewrite entries_S.
  cbn [zd_folders with_folders app mapM]. rewrite Hn, Hd. cbn [mbind option_bind].
  rewrite (entries_of_folder n h dn _ name (node_folder name) ls1 node_order eq_refl eq_refl eq_refl H1).
  cbn [mbind option_bind].
  rewrite (entries_of_folder n h dd _ name (fun k => k) ls2 dist_order eq_refl eq_refl eq_refl H2).
  cbn [mbind option_bind mret option_ret concat]. by rewrite app_nil_r.
Qed.

Section Generated.
Context {St Error Tmpl : Type} {HO : OS St Error} {Hst : Host St Error Tmpl}.

(** [NewProject] does not fail and its tree is the layout, whatever the order
    of the tables; the fuel 3 is the height of the tree. *)
Lemma NewProject_layout node_order dist_order website name (w : St) :
  let root := ProjectPath website name w in
  exists folder h,
    NewProject node_order dist_order website name w =
      Ret (mkProject name website root (website +:+ "/" +:+ name) libNameDefault true folder, h) /\
    forall n, entries (3 + n) h folder = Some (layout node_order dist_order root name).
Proof.
  intros root. unfold NewProject. fold root.
  rewrite (AddFile_ok _ (mkZooFolder name root [] [])) by apply lookup_singleton_eq.
  erewrite AddFile_ok by apply lookup_insert_eq.
  erewrite AddFile_ok by apply lookup_insert_eq.
  erewrite AddFile_ok by apply lookup_insert_eq.
  rewrite !insert_insert_eq. set (h0 := <[1%positive := _]> _).
  set (d0 := mkZooFolder name root (top_files root) []).
  assert (H0 : h0 !! 1%positive = Some d0) by apply lookup_insert_eq.
  destruct (AddFolder_ok _ _ _ "node" H0) as (node & Hn & Hne & ->).
  set (dn := mkZooFolder "node" (path_Join root "node") [] []).
  set (h1 := <[1%positive := _]> _).
  assert (H1n : h1 !! node = Some dn).
  { unfold h1. rewrite lookup_insert_ne by done. apply lookup_insert_eq. }
  assert (H1 : h1 !! 1%positive = Some (with_folders d0 [node])) by apply lookup_insert_eq.
  destruct (add_folders_ok node (node_folder name) name node_order _ _ H1n)
    as (ls1 & h2 & -> & H2n & Hls1 & Hext1).
  pose proof (Hext1 _ _ (not_eq_sym Hne) H1) as H2.
  destruct (AddFolder_ok _ _ _ "dist" H2) as (dist & Hd & Hde & ->).
  set (dd := mkZooFolder "dist" (path_Join root "dist") [] []).
  set (h3 := <[1%positive := _]> _).
  assert (H3d : h3 !! dist = Some dd).
  { unfold h3. rewrite lookup_insert_ne by done. apply lookup_insert_eq. }
  assert (H3 : h3 !! 1%positive = Some (with_folders d0 [node; dist])) by apply lookup_insert_eq.
  destruct (add_folders_ok dist (fun k => k) name dist_order _ _ H3d)
    as (ls2 & h4 & -> & H4d & Hls2 & Hext2).
  rewrite (Hext2 _ _ (not_eq_sym Hde) H3). eexists _, h4. split; [done|]. intros n.
  assert (Hlater : forall x d, h2 !! x = Some d -> x <> 1%positive -> h4 !! x = Some d).
  { intros x d Hx Hx1. assert (x <> dist) by congruence. apply Hext2; [done|].
    unfold h3. by rewrite !lookup_insert_ne by done. }
  eapply (tree_entries n h4 node dist ls1 ls2); [by apply Hlater|exact H4d| |].
  - eapply Forall2_impl; [exact Hls1|]. intros l kv [_ Hl]. apply (Hlater _ _ Hl).
    intros ->. rewrite H2 in Hl. discriminate.
  - eapply Forall2_impl; [exact Hls2|]. by intros l kv [_ Hl].
Qed.
End Generated.

(** ** The paths of a generated project *)

(** A decidable fact about concrete data. *)
Ltac by_decision := refine (bool_decide_unpack _ _); vm_compute; exact I.

(** The names the files of a table get. *)
Definition names_of (name : string) (v : list string) : list string :=
  filter (fun fs => fs <> "") ((fun ff => Replace ff "@@@@@" name 1) <$> v).

Lemma files_of_names abs name v :
  zf_AbsPath <$> files_of abs name v = path_Join abs <$> names_of name v.
Proof.
  unfold files_of, names_of. induction v as [|ff v IH]; [done|].
  cbn [omap list_omap fmap list_fmap filter list_filter]. case_bool_decide as E.
  - rewrite decide_False by auto. exact IH.
  - rewrite decide_True by done. cbn [fmap list_fmap]. by f_equal.
Qed.

Lemma paths_app es1 es2 : paths (es1 ++ es2) = paths es1 ++ paths es2.
Proof. apply fmap_app. Qed.

Lemma paths_cons e es : paths (e :: es) = entry_path e :: paths es.
Proof. done. Qed.

Lemma paths_files vs : paths (EFile <$> vs) = zf_AbsPath <$> vs.
Proof. unfold paths. rewrite <- list_fmap_compose. by apply list_fmap_ext. Qed.

Lemma folder_paths fname parent name k v fk fs :
  rooted parent -> fname k = fk -> names_of name v = fs -> plain fk -> Forall plain fs ->
  paths (folder_entries fname parent name (k, v)) =
  (fun l => parent +:+ "/" +:+ Prelude.Join (fk :: l) "/") <$> ([] :: ((fun x => [x]) <$> fs)).
Proof.
  intros Hr <- E Hk Hfs. unfold folder_entries, paths. cbn [fst snd fmap list_fmap entry_path folder_of zd_AbsPath zd_files].
  fold (paths (EFile <$> files_of (path_Join parent (fname k)) name v)).
  rewrite paths_files, files_of_names, E, Join_plain by done. f_equal.
  rewrite <- Join_plain by done.
  rewrite <- list_fmap_compose. apply list_fmap_ext. intros i x Hx%list_elem_of_lookup_2.
  rewrite Join_plain; [|by apply rooted_Join|by eapply Forall_forall in Hx].
  rewrite Join_plain by done. cbn. by rewrite !string_app_assoc.
Qed.

Lemma Replace_name (name : string) :
  Replace "@@@@@" "@@@@@" name 1 = name /\
  Replace "@@@@@.go" "@@@@@" name 1 = name +:+ ".go" /\
  Replace "@@@@@.json" "@@@@@" name 1 = name +:+ ".json".
Proof.
  split_and!; apply go_bytes_inj; rewrite ?go_bytes_app; unfold Replace; rewrite go_bytes_string.
  - change (go_bytes name ++ [] = go_bytes name). apply app_nil_r.
  - reflexivity.
  - reflexivity.
Qed.

(** The elements of the paths below the project's directory. *)
Definition below (name : string) : list (list string) :=
  [["main.go"]; ["Makefile"]; ["Dockerfile"]; [".gitignore"];
   ["node"];
   ["node"; "admin"]; ["node"; "admin"; "api.go"]; ["node"; "admin"; "backend.go"]; ["node"; "admin"; "node.go"];
   ["node"; "conf"]; ["node"; "conf"; "conf.go"];
   ["node"; "version"]; ["node"; "version"; "version.go"];
   ["node"; "common"]; ["node"; "common"; "errors.go"]; ["node"; "common"; "result.go"];
   ["node"; "subscribe"]; ["node"; "subscribe"; "interface.go"]; ["node"; "subscribe"; "subscribe.go"];
   ["node"; "subscribe"; "subscribe_test.go"];
   ["node"; name]; ["node"; name; name +:+ ".go"]; ["node"; name; "manager.go"];
   ["dist"];
   ["dist"; "etc"]; ["dist"; "etc"; name +:+ ".json"];
   ["dist"; "bin"]]%string.

Definition path_of (root : string) (l : list string) : string := root +:+ "/" +:+ Prelude.Join l "/".

Lemma names_of_name name :
  name <> "" ->
  names_of name ["@@@@@.go"; "manager.go"]%string = [name +:+ ".go"; "manager.go"]%string /\
  names_of name ["@@@@@.json"]%string = [name +:+ ".json"]%string.
Proof.
  intros Hn. destruct (Replace_name name) as (_ & E1 & E2). unfold names_of. cbn [fmap list_fmap].
  change (Replace "manager.go" "@@@@@" name 1) with "manager.go"%string. rewrite E1, E2.
  by destruct name.
Qed.

Lemma layout_paths root name :
  rooted root -> plain name ->
  paths (layout nodeFileList distFileList root name) = path_of root <$> below name.
Proof.
  intros Hr Hn. destruct (names_of_name name ltac:(by destruct Hn)) as [N1 N2].
  assert (Hnode : rooted (path_Join root "node")) by (apply rooted_Join; [done|by_decision]).
  assert (Hdist : rooted (path_Join root "dist")) by (apply rooted_Join; [done|by_decision]).
  assert (Hgo : plain (name +:+ ".go")) by (apply plain_suffix; [done|by_decision|cbn; lia]).
  assert (Hjson : plain (name +:+ ".json")) by (apply plain_suffix; [done|by_decision|cbn; lia]).
  unfold layout, nodeFileList, distFileList. cbn [fmap list_fmap concat].
  rewrite !paths_app, !paths_cons, !paths_app, paths_files.
  rewrite (folder_paths _ _ _ _ _ "admin" ["api.go"; "backend.go"; "node.go"]) by (done || by_decision).
  rewrite (folder_paths _ _ _ _ _ "conf" ["conf.go"]) by (done || by_decision).
  rewrite (folder_paths _ _ _ _ _ "version" ["version.go"]) by (done || by_decision).
  rewrite (folder_paths _ _ _ _ _ "common" ["errors.go"; "result.go"]) by (done || by_decision).
  rewrite (folder_paths _ _ _ _ _ "subscribe" ["interface.go"; "subscribe.go"; "subscribe_test.go"])
    by (done || by_decision).
  rewrite (folder_paths _ _ _ _ _ name [name +:+ ".go"; "manager.go"])
    by (done || apply Replace_name || (constructor; [done|by_decision])).
  rewrite (folder_paths _ _ _ _ _ "etc" [name +:+ ".json"]) by (done || (constructor; done) || by_decision).
  rewrite (folder_paths _ _ _ _ _ "bin" []) by (done || by_decision).
  cbn [entry_path]. rewrite !(Join_plain root) by (done || by_decision).
  unfold top_files, path_of. cbn [fmap list_fmap zf_AbsPath].
  rewrite !(Join_plain root) by (done || by_decision).
  rewrite !string_app_assoc. reflexivity.
Qed.

(** The names that collide with a folder of the table, or with manager.go. *)
Definition taken_folders : list string := ["admin"; "conf"; "version"; "common"; "subscribe"]%string.

Lemma below_plain name : plain name -> Forall (fun l => l <> [] /\ Forall plain l) (below name).
Proof.
  intros Hn.
  assert (Hgo : plain (name +:+ ".go")) by (apply plain_suffix; [done|by_decision|cbn; lia]).
  assert (Hjson : plain (name +:+ ".json")) by (apply plain_suffix; [done|by_decision|cbn; lia]).
  unfold below. repeat (apply Forall_cons; split); [..|constructor];
    (split; [done|]; repeat (apply Forall_cons; split); [..|constructor]); (done || by_decision).
Qed.

(** Lists of elements that differ at a literal, or at the name. *)
Ltac different :=
  let E := fresh "E" in
  intros E;
  first
    [ discriminate E
    | injection E as E; first
        [ match goal with H : ?a <> ?b |- _ => by (exfalso; apply H) end
        | match goal with H : ?a <> ?b |- _ => by (exfalso; apply H; symmetry) end
        | match goal with
          | H : ?a <> "manager"%string |- _ =>
              exfalso; apply H; apply (string_app_inj_tail _ _ ".go"); exact E
          end ] ].

Lemma below_NoDup name : name ∉ "manager"%string :: taken_folders -> NoDup (below name).
Proof.
  unfold taken_folders. rewrite !not_elem_of_cons. intros (H1 & H2 & H3 & H4 & H5 & H6 & _). unfold below.
  repeat (apply NoDup_cons_2;
          [repeat (apply not_elem_of_cons; split; [different|]); apply not_elem_of_nil|]).
  apply NoDup_nil_2.
Qed.

Lemma path_of_inj root l1 l2 :
  l1 <> [] -> l2 <> [] -> Forall plain l1 -> Forall plain l2 ->
  path_of root l1 = path_of root l2 -> l1 = l2.
Proof.
  unfold path_of. intros H1 H2 H3 H4 E. apply Join_inj; try done.
  by apply string_app_inj, (string_app_inj "/") in E.
Qed.

Lemma layout_NoDup root name :
  rooted root -> plain name -> name ∉ "manager"%string :: taken_folders ->
  NoDup (paths (layout nodeFileList distFileList root name)).
Proof.
  intros Hr Hn Hname. rewrite layout_paths by done. apply NoDup_fmap_2_strong; [|by apply below_NoDup].
  pose proof (below_plain name Hn) as Hp. rewrite Forall_forall in Hp.
  intros l1 l2 [H1 H1']%Hp [H2 H2']%Hp. by apply path_of_inj.
Qed.

Lemma layout_within root name :
  rooted root -> plain name ->
  Forall (fun q => HasPrefix q (root +:+ "/") = true) (paths (layout nodeFileList distFileList root name)).
Proof.
  intros Hr Hn. rewrite layout_paths by done. apply Forall_fmap, Forall_forall. intros l _. cbn.
  apply HasPrefix_iff. exists (Prelude.Join l "/"). unfold path_of. by rewrite string_app_assoc.
Qed.

(** The layout does not depend on the orders of the tables, up to order. *)
Lemma layout_Permutation node_order dist_order root name :
  node_order ≡ₚ nodeFileList -> dist_order ≡ₚ distFileList ->
  layout node_order dist_order root name ≡ₚ layout nodeFileList distFileList root name.
Proof.
  intros E1 E2. unfold layout.
  assert (Hc : forall (f : string * list string -> list entry) l1 l2,
             l1 ≡ₚ l2 -> concat (f <$> l1) ≡ₚ concat (f <$> l2)).
  { intros f l1 l2. induction 1; cbn; [done|by f_equiv| |by etrans].
    rewrite !app_assoc. f_equiv. apply Permutation_app_comm. }
  by rewrite (Hc _ _ _ E1), (Hc _ _ _ E2).
Qed.

Section Theorems.
Context {St Error Tmpl : Type} `{HL : HostLaws St Error Tmpl}.

(** The base of the project's path is absolute: the working directory for a
    project without a website, $GOPATH otherwise. *)
Definition absolute_base (website : string) (w : St) : bool :=
  if bool_decide (website = "") then
    match Getwd w with Ok x => IsAbs x | Err _ => false end
  else IsAbs (Getenv "GOPATH" w).

Lemma ProjectPath_rooted website name (w : St) :
  absolute_base website w = true -> plain name -> rooted (ProjectPath website name w).
Proof.
  unfold absolute_base, ProjectPath, srcPath. intros H Hn.
  assert (Hj : forall x e, IsAbs x = true -> path_Join x e = Clean (x +:+ "/" +:+ e)).
  { intros x e Hx. unfold path_Join. rewrite bool_decide_eq_false_2; [done|]. by intros ->. }
  case_bool_decide.
  - destruct (Getwd w) as [x|]; [|done]. rewrite Hj by done. by apply rooted_Clean.
  - rewrite Hj by done.
    set (src := Clean _). assert (Hs : IsAbs src = true) by by apply IsAbs_Clean, IsAbs_app.
    cbn [path_Joins]. rewrite bool_decide_eq_false_2 by by intros E; rewrite E in Hs.
    change (Prelude.Join [src; website; name] "/") with (src +:+ ("/" +:+ (website +:+ "/" +:+ name))).
    rewrite <- !string_app_assoc, (string_app_assoc _ "/" name). apply rooted_Clean; [|done].
    by rewrite string_app_assoc; apply IsAbs_app.
Qed.

(** The templates of the layout are away from the project's directory. *)
Definition templates_apart (tp root name : string) : Prop :=
  Forall (fun e => match e with
                   | EDir _ => True
                   | EFile v => let t := path_Join tp (zf_Template v) in ~ within root t /\ ~ within t root
                   end) (layout nodeFileList distFileList root name).

Lemma templates_apart_elem tp root name v :
  templates_apart tp root name -> EFile v ∈ layout nodeFileList distFileList root name ->
  let t := path_Join tp (zf_Template v) in ~ within root t /\ ~ within t root.
Proof. intros H Hv. unfold templates_apart in H. rewrite Forall_forall in H. by apply (H (EFile v)). Qed.

(** [Write] up to the rendering: the project's directory is new. *)
Lemma Write_start n h project tp (w : St) :
  pj_IsRemove project = true ->
  let root := pj_ProjectDir project in
  exists w1,
    (forall q, ~ within root q -> ~ within q root -> nodes w1 !! q = nodes w !! q) /\
    (Write n h project tp w = render n h tp project (pj_Folder project) w1 /\
     ((RemoveAll root w).1 = None -> forall q, HasPrefix q (root +:+ "/") = true -> ~ within q root ->
        nodes w1 !! q = None) \/
     exists e, Write n h project tp w = Some (Some e, w1)).
Proof.
  intros Hr root. unfold Write. rewrite Hr. fold root.
  destruct (RemoveAll root w) as [e0 w0] eqn:E0. destruct (RemoveAll_nodes _ _ _ _ E0) as [Hrem Hout].
  cbn [snd fst]. destruct (MkdirAll root ModePerm w0) as [e1 w1] eqn:E1.
  destruct (MkdirAll_nodes _ _ _ _ _ E1) as [Hmk Hsame].
  exists w1. split.
  - intros q Hq1 Hq2. destruct (Hsame q) as [->|(_ & _ & ?)]; [by apply Hout|done].
  - destruct e1 as [e1|]; [right; by eexists|left]. split; [done|].
    intros -> q Hq Hn. destruct (Hsame q) as [->|(_ & _ & ?)]; [|done].
    apply Hrem; [done|by right].
Qed.

Lemma below_not_within root q : HasPrefix q (root +:+ "/") = true -> ~ within q root.
Proof.
  intros [r ->]%HasPrefix_iff [E|[r' E]%HasPrefix_iff];
    apply (f_equal String.length) in E; rewrite !string_length_app in E; cbn in E; lia.
Qed.

(** The rendering of the project, on the state [Write] prepares. *)
Lemma Write_builds n node_order dist_order website name tp (w : St) project h :
  node_order ≡ₚ nodeFileList -> dist_order ≡ₚ distFileList ->
  NewProject node_order dist_order website name w = Ret (project, h) ->
  let root := ProjectPath website name w in
  let es := layout node_order dist_order root name in
  rooted root -> plain name -> templates_apart tp root name ->
  exists w1 e w',
    (forall q, ~ within root q -> ~ within q root -> nodes w1 !! q = nodes w !! q) /\
    Write (3 + n) h project tp w = Some (e, w') /\
    (forall q, q ∉ paths es -> nodes w' !! q = nodes w1 !! q) /\
    (e = None -> builds tp project w1 (nodes w1) es = Some (nodes w')) /\
    (e = None -> (RemoveAll root w).1 = None ->
       forall q, HasPrefix q (root +:+ "/") = true -> nodes w1 !! q = None).
Proof.
  intros Hno Hdo HN root es Hr Hn Ht.
  destruct (NewProject_layout node_order dist_order website name w) as (folder & h' & E & Hes).
  rewrite E in HN. injection HN as <- <-. fold root in Hes |- *. fold es in Hes.
  match goal with |- context [Write _ _ ?p _ _] => set (project := p) end.
  destruct (Write_start (3 + n) h' project tp w eq_refl) as (w1 & Hout & [[-> Hnew]|[e ->]]).
  2:{ exists w1, (Some e), w1. split_and!; try done. }
  change (pj_Folder project) with folder.
  assert (Hperm : es ≡ₚ layout nodeFileList distFileList root name) by by apply layout_Permutation.
  destruct (render_builds (3 + n) h' folder es tp project w1 (Hes n)) as (e & w' & -> & H1 & H2).
  { intros v Hv Hin. rewrite Hperm in Hv.
    destruct (templates_apart_elem _ _ _ _ Ht Hv) as [Ha _]. apply Ha. right.
    assert (Hin' : path_Join tp (zf_Template v) ∈ paths (layout nodeFileList distFileList root name)).
    { unfold paths in *. by rewrite <- Hperm. }
    pose proof (layout_within root name Hr Hn) as Hw. rewrite Forall_forall in Hw. by apply Hw. }
  exists w1, e, w'. split_and!; try done.
  intros _ He q Hq. apply Hnew; [done..|]. by apply below_not_within.
Qed.

(** C26: a project generated from a plain name that is not one of the table's
    folders (nor "manager") is written in full, whatever the iteration order
    of the maps and whatever was in its place: if [Write] reports no error
    every folder of the layout exists, every file holds its template executed
    on the project, and, when the old directory could be removed, there is
    nothing else below the project's directory.  In every case [Write]
    returns, and paths outside the project and its parents are untouched. *)
Theorem project_generated n node_order dist_order website name tp (w : St) project h :
  node_order ≡ₚ nodeFileList -> dist_order ≡ₚ distFileList ->
  NewProject node_order dist_order website name w = Ret (project, h) ->
  absolute_base website w = true -> plain name -> name ∉ "manager"%string :: taken_folders ->
  let root := ProjectPath website name w in
  let es := layout nodeFileList distFileList root name in
  templates_apart tp root name ->
  exists e w', Write (3 + n) h project tp w = Some (e, w') /\
    (forall q, ~ within root q -> ~ within q root -> nodes w' !! q = nodes w !! q) /\
    (e = None ->
       (forall path, EDir path ∈ es -> nodes w' !! path = Some Dir) /\
       (forall v, EFile v ∈ es -> exists c, content tp project w v = Some c /\
                                            nodes w' !! zf_AbsPath v = Some (File c)) /\
       ((RemoveAll root w).1 = None ->
        forall q, HasPrefix q (root +:+ "/") = true -> q ∉ paths es -> nodes w' !! q = None)).
Proof.
  intros Hno Hdo HN Habs Hn Hname root es Ht.
  pose proof (ProjectPath_rooted website name w Habs Hn) as Hr. fold root in Hr.
  destruct (Write_builds n _ _ _ _ _ _ _ _ Hno Hdo HN Hr Hn Ht) as (w1 & e & w' & Hout & HW & Hq & Hb & Hnew).
  fold root in Hout, HW, Hq, Hb, Hnew.
  assert (Hperm : layout node_order dist_order root name ≡ₚ es) by by apply layout_Permutation.
  assert (Hpp : paths (layout node_order dist_order root name) ≡ₚ paths es) by (unfold paths; by rewrite Hperm).
  exists e, w'. split; [done|]. split.
  - intros q Hq1 Hq2. rewrite Hq; [by apply Hout|]. rewrite Hpp. intros Hin. apply Hq1. right.
    pose proof (layout_within root name Hr Hn) as Hw. rewrite Forall_forall in Hw. by apply Hw.
  - intros ->. destruct (builds_lookup _ _ _ _ _ _ (Hb eq_refl)) as (H1 & H2 & H3).
    { rewrite Hpp. by apply layout_NoDup. }
    setoid_rewrite Hperm in H1. setoid_rewrite Hperm in H2. split_and!; [done| |].
    + intros v Hv. destruct (H2 v Hv) as (c & Hc & Hv'). exists c. split; [|done]. rewrite <- Hc.
      destruct (templates_apart_elem _ _ _ _ Ht Hv) as [Ha1 Ha2]. unfold content.
      by rewrite (ParseFiles_reads _ w1 w) by by apply Hout.
    + intros Hrem q Hin Hnin. rewrite H3 by by rewrite Hpp. by apply (Hnew eq_refl).
Qed.

(** A project whose name is one of the table's folders is never written
    without an error: two folders of the layout have the same path, and
    the second one cannot be made. *)
Theorem taken_name_fails n node_order dist_order website name tp (w : St) project h :
  node_order ≡ₚ nodeFileList -> dist_order ≡ₚ distFileList ->
  NewProject node_order dist_order website name w = Ret (project, h) ->
  absolute_base website w = true -> name ∈ taken_folders ->
  templates_apart tp (ProjectPath website name w) name ->
  exists e w', Write (3 + n) h project tp w = Some (Some e, w').
Proof.
  intros Hno Hdo HN Habs Hname Ht. set (root := ProjectPath website name w) in *.
  assert (Hn : plain name).
  { unfold taken_folders in Hname. rewrite !elem_of_cons, elem_of_nil in Hname.
    destruct Hname as [->|[->|[->|[->|[->|[]]]]]]; by_decision. }
  pose proof (ProjectPath_rooted website name w Habs Hn) as Hr. fold root in Hr.
  destruct (Write_builds n _ _ _ _ _ _ _ _ Hno Hdo HN Hr Hn Ht) as (w1 & e & w' & _ & HW & _ & Hb & _).
  destruct e as [e|]; [by exists e, w'|]. exfalso.
  specialize (Hb eq_refl). apply builds_dirs_NoDup in Hb. fold root in Hb.
  assert (Hperm : dirs (layout node_order dist_order root name) ≡ₚ dirs (layout nodeFileList distFileList root name)).
  { unfold dirs. by rewrite (layout_Permutation _ _ _ _ Hno Hdo). }
  rewrite Hperm in Hb. clear -Hb Hname. revert Hb.
  unfold taken_folders in Hname. rewrite !elem_of_cons, elem_of_nil in Hname.
  intros Hd. destruct Hname as [->|[->|[->|[->|[->|[]]]]]];
    [pose proof (NoDup_lookup _ 1 6 _ Hd eq_refl eq_refl)
    |pose proof (NoDup_lookup _ 2 6 _ Hd eq_refl eq_refl)
    |pose proof (NoDup_lookup _ 3 6 _ Hd eq_refl eq_refl)
    |pose proof (NoDup_lookup _ 4 6 _ Hd eq_refl eq_refl)
    |pose proof (NoDup_lookup _ 5 6 _ Hd eq_refl eq_refl)]; done.
Qed.

(** A project whose directory has ".go" anywhere in its path is taken for
    Go source as a whole: if the formatter rejects the Makefile, [Write]
    always ends in an error. *)
Theorem go_in_path_fails n node_order dist_order website name tp (w : St) project h :
  node_order ≡ₚ nodeFileList -> dist_order ≡ₚ distFileList ->
  NewProject node_order dist_order website name w = Ret (project, h) ->
  absolute_base website w = true -> plain name ->
  templates_apart tp (ProjectPath website name w) name ->
  Contains (ProjectPath website name w) ".go" = true ->
  (forall t out, ParseFiles (path_Join tp "Makefile.tpl") w = Ok t -> Execute t project = (out, None) ->
     exists e, format_Source out = Err e) ->
  exists e w', Write (3 + n) h project tp w = Some (Some e, w').
Proof.
  intros Hno Hdo HN Habs Hn Ht Hgo Hf. set (root := ProjectPath website name w) in *.
  pose proof (ProjectPath_rooted website name w Habs Hn) as Hr. fold root in Hr.
  destruct (Write_builds n _ _ _ _ _ _ _ _ Hno Hdo HN Hr Hn Ht) as (w1 & e & w' & Hout & HW & _ & Hb & _).
  destruct e as [e|]; [by exists e, w'|]. exfalso. specialize (Hb eq_refl). fold root in Hout, Hb.
  set (v := mkZooFile "Makefile" (path_Join root "Makefile") "Makefile.tpl").
  assert (Hv : forall no d, EFile v ∈ layout no d root name) by (intros; right; left).
  apply (builds_content _ _ _ _ _ _ v) in Hb; [|apply Hv].
  destruct (templates_apart_elem _ _ _ v Ht (Hv _ _)) as [Ha1 Ha2].
  revert Hb. unfold content. rewrite (ParseFiles_reads _ w1 w) by by apply Hout.
  cbn [v zf_Template zf_AbsPath] in *.
  destruct (ParseFiles _ w) as [t|]; [|by intros []].
  destruct (Execute t project) as [out [|]] eqn:E; [by intros []|].
  rewrite Join_plain by (done || by_decision). rewrite Contains_app by done.
  destruct (Hf t out eq_refl E) as [e ->]. by intros [].
Qed.

End Theorems.

(** ** A concrete host

    The state is the tree of files; a template is its text, executed by
    appending the project's name; the formatter rejects comments with #. *)
Module Workstation.

Notation Tree := (gmap string node).

Definition rejects_hash (b : list byte) : bool := bytes_HasPrefix b (go_bytes "#").

#[export] Instance os : OS Tree string := {|
  IsNotExist e := bool_decide (e = "no such file"%string);
  Stat p w := match w !! p with Some _ => None | None => Some "no such file"%string end;
  MkdirAll p _ w := match w !! p with
                    | Some Dir => (None, w)
                    | Some (File _) => (Some "not a directory"%string, w)
                    | None => (None, <[p := Dir]> w)
                    end;
  TempFile _ _ w := (Err "no temporary files"%string, w);
  file_Write f c w := (None, <[f := File c]> w);
  file_Close _ w := w;
  Remove f w := (None, delete f w);
  Rename _ _ w := (Some "not supported"%string, w);
  ReadDir _ _ := Ok [];
  ioutil_ReadFile f w := match w !! f with Some (File c) => Ok c | _ => Err "no such file"%string end;
  TempDir _ _ w := (Err "no temporary files"%string, w);
|}.

#[export] Instance host : Host Tree string (list byte) := {|
  Getwd _ := Ok "/work"%string;
  Getenv _ _ := "/home/go"%string;
  Mkdir p _ w := match w !! p with None => (None, <[p := Dir]> w) | Some _ => (Some "file exists"%string, w) end;
  RemoveAll p w := (None, filter (fun x => ~ within p x.1) w);
  Create p w := match w !! p with
                | Some Dir => (Err "is a directory"%string, w)
                | _ => (Ok p, <[p := File []]> w)
                end;
  ParseFiles f w := match w !! f with Some (File c) => Ok c | _ => Err "no such file"%string end;
  Execute t p := (t ++ go_bytes (pj_Name p), None);
  Execute_to t p f w := (None, <[f := File (t ++ go_bytes (pj_Name p))]> w);
  format_Source b := if rejects_hash b then Err "illegal character"%string else Ok b;
  Command _ _ w := (([], Some "not found"%string), w);
  PlainClone _ _ w := (None, w);
  ToCamel s := s;
  ToSnake s := s;
|}.

#[export] Instance laws : HostLaws Tree string (list byte).
Proof.
  refine {| nodes w := w |}; cbn.
  - intros p _ w e w'. destruct (w !! p) as [[|c]|] eqn:E; intros H; injection H as <- <-; [by eauto| |].
    + split; [done|]. by left.
    + split; [by rewrite lookup_insert_eq|]. intros q. destruct (decide (q = p)) as [->|].
      * right. split_and!; [done|apply lookup_insert_eq|by left].
      * left. by apply lookup_insert_ne.
  - intros p _ w w'. destruct (w !! p); intros H; by simplify_eq.
  - intros p _ w e w'. destruct (w !! p); intros H; by simplify_eq.
  - intros p w e w' [= <- <-]. split.
    + intros _ q Hq. apply map_lookup_filter_None. right. intros x _ H. by apply H.
    + intros q Hq. destruct (w !! q) as [x|] eqn:E.
      * by apply map_lookup_filter_Some.
      * apply map_lookup_filter_None. by left.
  - intros p w e w'. destruct (w !! p) as [[|]|]; intros H; by simplify_eq.
  - intros p w f w'. destruct (w !! p) as [[|]|]; intros H; by simplify_eq.
  - intros f b w e w' [= <- <-] q Hq. by apply lookup_insert_ne.
  - intros p w f w1 b w2 H [= <-]. destruct (w !! p) as [[|]|]; simplify_eq; apply insert_insert_eq.
  - intros t p f w e w' [= <- <-] q Hq. by apply lookup_insert_ne.
  - intros path w f w1 t p w2 H [= <-]. eexists. split; [done|].
    destruct (w !! path) as [[|]|]; simplify_eq; apply insert_insert_eq.
  - done.
  - intros f w w' E. by rewrite E.
Qed.

(** The templates, those of the Makefile and of .gitignore starting with #. *)
Definition tp : string := "/templates".

Definition template_names : list string :=
  ["main.go.tpl"; "Dockerfile.tpl"; "api.go.tpl"; "backend.go.tpl"; "node.go.tpl"; "conf.go.tpl"; "version.go.tpl";
   "errors.go.tpl"; "result.go.tpl"; "interface.go.tpl"; "subscribe.go.tpl"; "subscribe_test.go.tpl";
   "@@@@@.go.tpl"; "manager.go.tpl"; "@@@@@.json.tpl"]%string.

Definition start : Tree :=
  <["/templates/Makefile.tpl" := File (go_bytes "# make ")]>
  (<["/templates/gitignore.tpl" := File (go_bytes "# ignore ")]>
   (list_to_map ((fun t => (path_Join tp t, File (go_bytes t))) <$> template_names))).

#[export] Instance templates_apart_dec tp root name : Decision (templates_apart tp root name).
Proof.
  unfold templates_apart. apply Forall_dec. intros [path|v]; apply _.
Defined.

Definition made (website name : string) : Project * heap :=
  match NewProject (rev nodeFileList) distFileList website name start with
  | Ret r => r
  | Panic => (mkProject "" "" "" "" "" false (mkZooFolder "" "" [] []), ∅)
  end.

Lemma made_ok website name :
  NewProject (rev nodeFileList) distFileList website name start = Ret ((made website name).1, (made website name).2).
Proof.
  unfold made. destruct (NewProject_layout (rev nodeFileList) distFileList website name start) as (f & h & E & _).
  by rewrite E.
Qed.

(** The project "shop" is written without an error. *)
Example shop_written :
  match Write 3 (made "airman.com" "shop").2 (made "airman.com" "shop").1 tp start with
  | Some (None, w) => w !! "/home/go/src/airman.com/shop/node/shop/shop.go"%string =
                      Some (File (go_bytes "@@@@@.go.tplshop"))
  | _ => False
  end.
Proof. vm_compute. done. Qed.

Lemma project_generated_witness :
  absolute_base "airman.com" start = true /\
  exists e w', Write 3 (made "airman.com" "shop").2 (made "airman.com" "shop").1 tp start = Some (e, w') /\
    (e = None -> nodes w' !! "/home/go/src/airman.com/shop/dist/bin"%string = Some Dir).
Proof.
  split; [by vm_compute|].
  destruct (project_generated 0 (rev nodeFileList) distFileList "airman.com" "shop" tp start
              (made "airman.com" "shop").1 (made "airman.com" "shop").2
              (symmetry (Permutation_rev _)) (reflexivity _) (made_ok _ _) ltac:(by vm_compute)
              ltac:(by_decision) ltac:(by_decision) ltac:(by_decision)) as (e & w' & H & _ & Hdirs).
  exists e, w'. split; [exact H|]. intros He. apply (proj1 (Hdirs He)). by_decision.
Defined.

Lemma taken_name_fails_witness :
  exists e w', Write 3 (made "airman.com" "conf").2 (made "airman.com" "conf").1 tp start = Some (Some e, w').
Proof.
  exact (taken_name_fails 0 (rev nodeFileList) distFileList "airman.com" "conf" tp start
           (made "airman.com" "conf").1 (made "airman.com" "conf").2
           (symmetry (Permutation_rev _)) (reflexivity _) (made_ok _ _) ltac:(by vm_compute)
           ltac:(by_decision) ltac:(by_decision)).
Defined.

Lemma go_in_path_fails_witness :
  exists e w', Write 3 (made "www.google.com" "shop").2 (made "www.google.com" "shop").1 tp start = Some (Some e, w').
Proof.
  refine (go_in_path_fails 0 (rev nodeFileList) distFileList "www.google.com" "shop" tp start
           (made "www.google.com" "shop").1 (made "www.google.com" "shop").2
           (symmetry (Permutation_rev _)) (reflexivity _) (made_ok _ _) ltac:(by vm_compute)
           ltac:(by_decision) ltac:(by_decision) ltac:(by vm_compute) _).
  intros t out E. vm_compute in E. injection E as <-. intros E. vm_compute in E. injection E as <-.
  by exists "illegal character"%string.
Defined.

End Workstation.
