(* ===== verification/Cmd.v ===== *)
(** * pkg/common/cmd: running commands

    The functions of exec.go run a command until it succeeds, at most [retry]
    times; [ExecWithWait] of reboot.go waits for a process in a goroutine and
    passes its error through a channel, which is modelled as a step relation.
    os/exec is the class [Exec]. *)

From S2P Require Import Prelude GoStd GoNet.
From Stdlib Require Import ZArith Lia.
From Stdlib Require Import Init.Byte.
From stdpp Require Import strings list relations.
Open Scope Z_scope.

(** A command: its name and arguments, and the time it has, if limited. *)
Record Command := mkCommand { cm_name : string; cm_args : list string; cm_timeout : option Z }.

(** [CombinedOutput] runs the command; [Start] starts it and [Wait] is the
    error of its end. *)
Class Exec (St Error : Type) := {
  CombinedOutput : Command -> St -> (list byte * option Error) * St;
  Start : Command -> St -> option Error * St;
  Wait : Command -> St -> option Error * St;
}.

Section Exec.
Context {St Error : Type} {E : Exec St Error}.

Definition output : Type := (list byte * option Error) * St.

Definition execCmdline (c : string) (w : St) : output :=
  match CombinedOutput (mkCommand "/bin/sh" ["-c"%string; c] None) w with
  | ((_, Some err), w) => (([], Some err), w)
  | r => r
  end.

(** [time.Duration(timeout)*time.Second] wraps around. *)
Definition seconds (timeout : Z) : Z := i64 (timeout * Second).

Definition execCmdlineWithTimeout (c : string) (timeout : Z) (w : St) : output :=
  CombinedOutput (mkCommand "/bin/sh" ["-c"%string; c] (Some (seconds timeout))) w.

Definition execCmdfile (cmdFile : string) (w : St) : output :=
  CombinedOutput (mkCommand "/bin/sh" [cmdFile] None) w.

Definition execCmdfileWithTimeout (cmdFile : string) (timeout : Z) (w : St) : output :=
  CombinedOutput (mkCommand "/bin/sh" [cmdFile] (Some (seconds timeout))) w.

(** The loop of the four functions, [n] iterations from the end. *)
Fixpoint retry_loop (attempt : St -> output) (n : nat) (result : list byte) (err : option Error)
    (w : St) : output :=
  match n with
  | O => ((result, err), w)
  | S n =>
      match attempt w with
      | ((result, None), w) => ((result, None), w)
      | ((result, err), w) => retry_loop attempt n result err w
      end
  end.

Definition ExecCmd (cmd : string) (retry : Z) (w : St) : output :=
  retry_loop (execCmdline cmd) (Z.to_nat retry) [] None w.

Definition ExecCmdWithTimeout (cmd : string) (retry timeout : Z) (w : St) : output :=
  retry_loop (execCmdlineWithTimeout cmd timeout) (Z.to_nat retry) [] None w.

Definition ExecCmdFile (cmd : string) (retry : Z) (w : St) : output :=
  retry_loop (execCmdfile cmd) (Z.to_nat retry) [] None w.

Definition ExecCmdFileWithTimeout (cmd : string) (retry timeout : Z) (w : St) : output :=
  retry_loop (execCmdfileWithTimeout cmd timeout) (Z.to_nat retry) [] None w.

(** ** The loop is the first success, or the last failure *)

(** The [k]-th attempt, from the state the earlier ones left. *)
Fixpoint attempt_at (attempt : St -> output) (k : nat) (w : St) : output :=
  match k with
  | O => attempt w
  | S k => attempt_at attempt k (attempt w).2
  end.

Lemma retry_loop_spec attempt n : forall result err w,
  exists k, (k < S n)%nat /\
    (forall j, (j < k)%nat -> (attempt_at attempt j w).1.2 <> None) /\
    retry_loop attempt (S n) result err w = attempt_at attempt k w /\
    ((attempt_at attempt k w).1.2 = None \/ k = n).
Proof.
  induction n as [|n IH]; intros result err w.
  - exists O. split_and!; [lia|lia| |by right]. cbn. by destruct (attempt w) as [[? [|]] ?].
  - destruct (attempt w) as [[r [e|]] w'] eqn:Ea.
    + destruct (IH r (Some e) w') as (k & Hk & Hj & Heq & Hend).
      exists (S k). split_and!; [lia| | |].
      * intros [|j] Hlt; cbn [attempt_at]; rewrite Ea; [done|]. apply Hj. lia.
      * change (retry_loop attempt (S (S n)) result err w) with
          (match attempt w with
           | ((result, None), w) => ((result, None), w)
           | ((result, err), w) => retry_loop attempt (S n) result err w
           end).
        cbn [attempt_at]. by rewrite Ea.
      * cbn [attempt_at]. rewrite Ea. destruct Hend; [by left|right; lia].
    + exists O. split_and!; [lia|lia| |].
      * cbn. by rewrite Ea.
      * left. cbn. by rewrite Ea.
Qed.

(** [ExecCmd] with a positive [retry] returns the output and the state of
    its first successful attempt, or of the attempt number [retry] when all
    fail; no attempt is made after a success. *)
Theorem ExecCmd_first_success cmd retry (w : St) :
  0 < retry ->
  exists k, Z.of_nat k < retry /\
    (forall j, (j < k)%nat -> (attempt_at (execCmdline cmd) j w).1.2 <> None) /\
    ExecCmd cmd retry w = attempt_at (execCmdline cmd) k w /\
    ((ExecCmd cmd retry w).1.2 = None \/ Z.of_nat k = retry - 1).
Proof.
  intros Hr. unfold ExecCmd. destruct (Z.to_nat retry) as [|n] eqn:En; [lia|].
  destruct (retry_loop_spec (execCmdline cmd) n [] None w) as (k & Hk & Hj & Heq & Hend).
  exists k. split_and!; [lia|done|done|]. rewrite Heq. destruct Hend; [by left|right; lia].
Qed.

(** With [retry] zero or negative the command is not run and there is no
    error. *)
Lemma ExecCmd_not_run cmd retry w : retry <= 0 -> ExecCmd cmd retry w = (([], None), w).
Proof. intros H. unfold ExecCmd. by replace (Z.to_nat retry) with O by lia. Qed.

(** ** ExecWithWait

    The goroutine waits and sends the error, if any, and then nil on a
    channel that holds one value; the caller receives once. *)

Definition wait_command (cmdfile conf : string) : Command :=
  if bool_decide (conf = "") then mkCommand "sh" ["-c"%string; cmdfile] None
  else mkCommand cmdfile ["-c"%string; conf] None.

Inductive waiter := GWait | GSendError (err : Error) | GSendNil | GDone.

Inductive caller := MReceive | MReturn (err : option Error).

Record wait_state := mkWait {
  ws_go : waiter;
  ws_chan : list (option Error);
  ws_main : caller;
  ws_world : St;
}.

Inductive wait_step (c : Command) : relation wait_state :=
| ws_wait_error ch m w err w' :
    Wait c w = (Some err, w') ->
    wait_step c (mkWait GWait ch m w) (mkWait (GSendError err) ch m w')
| ws_wait_nil ch m w w' :
    Wait c w = (None, w') ->
    wait_step c (mkWait GWait ch m w) (mkWait GSendNil ch m w')
| ws_send_error err m w :
    wait_step c (mkWait (GSendError err) [] m w) (mkWait GSendNil [Some err] m w)
| ws_send_nil m w :
    wait_step c (mkWait GSendNil [] m w) (mkWait GDone [None] m w)
| ws_receive g err ch w :
    wait_step c (mkWait g (err :: ch) MReceive w) (mkWait g ch (MReturn err) w).

(** The error of [Start], or the state the goroutine is started in. *)
Definition ExecWithWait (cmdfile conf : string) (w : St) : result Error (Command * wait_state) * St :=
  let bin := wait_command cmdfile conf in
  match Start bin w with
  | (Some err, w) => (Err err, w)
  | (None, w) => (Ok (bin, mkWait GWait [] MReceive w), w)
  end.

(** What holds on the way, [e] being the error of [Wait] and [w'] its state. *)
Definition waits (w : St) (e : option Error) (w' : St) (s : wait_state) : Prop :=
  match s with
  | mkWait GWait ch m v => ch = [] /\ m = MReceive /\ v = w
  | mkWait (GSendError err) ch m v => ch = [] /\ m = MReceive /\ v = w' /\ e = Some err
  | mkWait GSendNil ch m v =>
      v = w' /\ match e with
                | None => ch = [] /\ m = MReceive
                | Some err => (ch = [Some err] /\ m = MReceive) \/ (ch = [] /\ m = MReturn (Some err))
                end
  | mkWait GDone ch m v =>
      v = w' /\ match e with
                | None => (ch = [None] /\ m = MReceive) \/ (ch = [] /\ m = MReturn None)
                | Some err => ch = [None] /\ m = MReturn (Some err)
                end
  end.

(** The steps that are left. *)
Definition wait_measure (s : wait_state) : nat :=
  match ws_go s with GWait => 3 | GSendError _ => 2 | GSendNil => 1 | GDone => 0 end
  + match ws_main s with MReceive => 1 | MReturn _ => 0 end.

Lemma waits_step c w e w' s s' :
  Wait c w = (e, w') -> waits w e w' s -> wait_step c s s' ->
  waits w e w' s' /\ (wait_measure s' < wait_measure s)%nat.
Proof.
  intros Hw Hs Hstep. destruct Hstep as [ch m v err v' Hv|ch m v v' Hv|err m v|m v|g r ch v]; cbn in Hs.
  - destruct Hs as (-> & -> & ->). rewrite Hw in Hv. simplify_eq. split; [done|cbn; lia].
  - destruct Hs as (-> & -> & ->). rewrite Hw in Hv. simplify_eq. split; [done|cbn; lia].
  - destruct Hs as (_ & -> & -> & ->). split; [split; [done|by left]|cbn; lia].
  - destruct Hs as [-> Hs]. split; [|cbn; lia]. split; [done|].
    destruct e; [by destruct Hs as [[? ?]|[_ ->]]|]. left. by destruct Hs.
  - split; [|cbn; lia]. destruct g, e; cbn in *; naive_solver.
Qed.

Lemma waits_stuck c w e w' s :
  Wait c w = (e, w') -> waits w e w' s -> (forall s', ~ wait_step c s s') ->
  ws_go s = GDone /\ ws_main s = MReturn e /\ ws_world s = w'.
Proof.
  intros Hw Hs Hstuck. destruct s as [[|err| |] ch m v]; cbn in Hs; destruct_and?; subst.
  - destruct e; exfalso; eapply Hstuck; by constructor.
  - exfalso. eapply Hstuck. constructor.
  - destruct e; destruct_or?; destruct_and?; subst; exfalso; eapply Hstuck; constructor.
  - destruct e; destruct_or?; destruct_and?; subst; try done; exfalso; eapply Hstuck; constructor.
Qed.

(** C27: once the process is started, every schedule of the caller and the
    goroutine ends, after at most four steps, and where no step is left the
    caller has returned the error of [Wait] and the goroutine has ended: the
    channel's single place is enough for its two sends. *)
Theorem ExecWithWait_returns cmdfile conf (w w1 : St) c s0 e w' :
  ExecWithWait cmdfile conf w = (Ok (c, s0), w1) -> Wait c w1 = (e, w') ->
  (forall n s, nsteps (wait_step c) n s0 s -> (n <= 4)%nat) /\
  (forall s, rtc (wait_step c) s0 s -> (forall s', ~ wait_step c s s') ->
     ws_go s = GDone /\ ws_main s = MReturn e /\ ws_world s = w').
Proof.
  unfold ExecWithWait. destruct (Start _ w) as [[?|] w0]; intros [=] Hw; subst.
  set (c := wait_command cmdfile conf) in *. set (s0 := mkWait GWait [] MReceive w1).
  assert (H0 : waits w1 e w' s0) by done.
  assert (Hn : forall n s t, waits w1 e w' s -> nsteps (wait_step c) n s t ->
                 waits w1 e w' t /\ (n + wait_measure t <= wait_measure s)%nat).
  { intros n s t Hs Hst. revert Hs. induction Hst as [|n s u t Hsu Hut IH]; intros Hs; [split; [done|lia]|].
    destruct (waits_step _ _ _ _ _ _ Hw Hs Hsu) as [Hu Hm]. destruct (IH Hu) as [Ht Hle]. split; [done|lia]. }
  split.
  - intros n s Hns. destruct (Hn _ _ _ H0 Hns) as [_ Hle]. cbn in Hle. lia.
  - intros s [n Hns]%rtc_nsteps Hstuck. eapply waits_stuck; [exact Hw| |exact Hstuck].
    by apply (Hn _ _ _ H0 Hns).
Qed.
End Exec.

(** ** A host whose commands fail as listed *)
Module Shell.

#[export] Instance scripted : Exec (list (option string)) string := {|
  CombinedOutput _ w := (([x6f], hd None w), tl w);
  Start _ w := (None, w);
  Wait _ w := (hd None w, tl w);
|}.

Lemma ExecCmd_first_success_witness :
  0 < 3 /\
  exists k, Z.of_nat k < 3 /\
    ExecCmd "ls" 3 [Some "busy"; None; Some "busy"]%string =
    attempt_at (execCmdline "ls") k [Some "busy"; None; Some "busy"]%string.
Proof.
  split; [lia|].
  destruct (ExecCmd_first_success "ls" 3 [Some "busy"; None; Some "busy"]%string ltac:(lia))
    as (k & Hk & _ & E & _). by exists k.
Defined.

Definition make_c : Command := mkCommand "sh" ["-c"; "make"]%string None.

Definition failing : list (option string) := [Some "exit status 1"%string].

Lemma ExecWithWait_returns_witness :
  ExecWithWait "make" "" failing = (Ok (make_c, mkWait GWait [] MReceive failing), failing) /\
  forall s, rtc (wait_step make_c) (mkWait GWait [] MReceive failing) s ->
    (forall s', ~ wait_step make_c s s') -> ws_main s = MReturn (Some "exit status 1"%string).
Proof.
  split; [reflexivity|]. intros s Hs Hstuck.
  destruct (ExecWithWait_returns (E := scripted) "make" "" failing failing make_c (mkWait GWait [] MReceive failing)
              (Some "exit status 1"%string) [] eq_refl eq_refl) as [_ H].
  exact (proj1 (proj2 (H s Hs Hstuck))).
Defined.

Example ExecCmd_runs :
  ExecCmd "ls" 3 [Some "busy"; None; Some "busy"]%string = (([x6f], None), [Some "busy"%string]) /\
  ExecCmd "ls" 2 [Some "busy"; Some "down"; None]%string = (([], Some "down"%string), [None]) /\
  seconds (2 ^ 62) = 0.
Proof. vm_compute. done. Qed.

End Shell.
