(* ===== verification/NetRand.v ===== *)
(** * pkg/common/net.go, rand.go and pkg/service: small helpers

    Local addresses, the random source over crypto/rand, and the lookup of a
    running service.  The parts of Go's net and crypto/rand they use are
    modelled by their documented algorithms; sockets, the random reader and
    the interfaces of the host are operations of classes. *)

From S2P Require Import Prelude GoStd GoNet CommonBytes.
From Stdlib Require Import ZArith Lia.
From Stdlib Require Import Init.Byte.
From stdpp Require Import strings gmap list.
Open Scope Z_scope.

(** ** net.go *)

(** An address of an interface: a [*net.IPNet], or another type. *)
Inductive Addr := IPNet (IP : list byte) | OtherAddr.

Class Net (St Error TCPAddr Listener : Type) := {
  ResolveTCPAddr : string -> St -> result Error TCPAddr;
  ListenTCP : TCPAddr -> St -> result Error Listener * St;
  InterfaceAddrs : St -> result Error (list Addr);
}.

(** [ip.To4()]: four bytes, or sixteen with the prefix ::ffff:0:0/96. *)
Definition To4 (ip : list byte) : option (list byte) :=
  if (length ip =? 4)%nat then Some ip
  else if (length ip =? 16)%nat && bool_decide (take 12 ip = replicate 10 x00 ++ [xff; xff])
  then Some (drop 12 ip) else None.

Definition IsLoopback (ip : list byte) : bool :=
  match To4 ip with
  | Some ip4 => bool_decide (head ip4 = Some x7f)
  | None => bool_decide (ip = replicate 15 x00 ++ [x01])
  end.

(** [ip.String()] of an IPv4 address. *)
Definition dotted (ip4 : list byte) : string := Prelude.Join ((fun b => Itoa (byte_val b)) <$> ip4) ".".

Section Net.
Context {St Error TCPAddr Listener : Type} {N : Net St Error TCPAddr Listener}.

Definition GetListener (address : string) (w : St) : result Error Listener * St :=
  match ResolveTCPAddr address w with
  | Err err => (Err err, w)
  | Ok ld => ListenTCP ld w
  end.

(** The body of the loop. *)
Definition local_address (addr : Addr) : option string :=
  match addr with
  | IPNet ip =>
      if negb (IsLoopback ip) then
        match To4 ip with Some ip4 => Some (dotted ip4) | None => None end
      else None
  | OtherAddr => None
  end.

(** The list and the error. *)
Definition GetLocalAddress (w : St) : list string * option Error :=
  match InterfaceAddrs w with
  | Err err => (["localhost"%string], Some err)
  | Ok addrs => (omap local_address addrs, None)
  end.
End Net.

Lemma To4_length ip ip4 : To4 ip = Some ip4 -> length ip4 = 4%nat.
Proof.
  unfold To4. case_match eqn:E4; [intros [= <-]; by apply Nat.eqb_eq|].
  case_match eqn:E16; [|done]. intros [= <-].
  apply andb_true_iff in E16 as [E16%Nat.eqb_eq _]. rewrite length_drop. lia.
Qed.

Lemma Itoa_byte_no_dot b : chr "." ∉ go_bytes (Itoa (byte_val b)).
Proof.
  apply (bool_decide_eq_true_1 (chr "." ∉ go_bytes (Itoa (byte_val b)))). all_bytes b.
Qed.

(** A listed address has four decimal fields, the first not 127. *)
Lemma local_address_fields addr s :
  local_address addr = Some s ->
  exists b0 b1 b2 b3, b0 <> x7f /\
    s = dotted [b0; b1; b2; b3] /\
    Split s "." = (fun b => Itoa (byte_val b)) <$> [b0; b1; b2; b3].
Proof.
  destruct addr as [ip|]; [|done]. cbn. unfold IsLoopback.
  destruct (To4 ip) as [ip4|] eqn:E4.
  2:{ by case_bool_decide. }
  pose proof (To4_length _ _ E4) as Hl.
  destruct ip4 as [|b0 [|b1 [|b2 [|b3 [|]]]]]; try done. cbn [head].
  case_bool_decide as H; intros [= <-]. exists b0, b1, b2, b3. split_and!; [congruence|done|].
  apply Split_Join; [done|]. repeat (apply Forall_cons; split); try apply Itoa_byte_no_dot. by constructor.
Qed.

Example GetLocalAddress_example :
  omap local_address [IPNet [x7f; x00; x00; x01]; IPNet (replicate 15 x00 ++ [x01]); OtherAddr;
                      IPNet [xc0; xa8; x01; x02]; IPNet (replicate 10 x00 ++ [xff; xff; x0a; x00; x00; x01])] =
  ["192.168.1.2"; "10.0.0.1"]%string.
Proof. vm_compute. done. Qed.

(** ** rand.go *)

(** [io.ReadFull] on the reader of crypto/rand. *)
Class RandReader (St Error : Type) := ReadFull : nat -> St -> result Error (list byte) * St.

(** All the bytes, or an error. *)
Class RandReaderLaws (St Error : Type) `{!RandReader St Error} := {
  ReadFull_length k w b w' : ReadFull k w = (Ok b, w') -> length b = k;
}.

Section Rand.
Context {St Error : Type} {R : RandReader St Error}.

(** [bytes[0] &= 1<<b - 1]. *)
Definition mask_first (b : Z) (bytes : list byte) : list byte :=
  match bytes with
  | [] => []
  | c :: bytes => byte_of (Z.land (byte_val c) (2 ^ b - 1)) :: bytes
  end.

(** crypto/rand's [Int] for [0 < max]: candidates of the right length are read
    until one is small enough. *)
Fixpoint crand_Int_loop (fuel : nat) (k : nat) (b max : Z) (w : St) : option (result Error Z * St) :=
  match fuel with
  | O => None
  | S fuel =>
      match ReadFull k w with
      | (Err e, w) => Some (Err e, w)
      | (Ok bytes, w) =>
          let n := big_SetBytes (mask_first b bytes) in
          if n <? max then Some (Ok n, w) else crand_Int_loop fuel k b max w
      end
  end.

Definition crand_Int (fuel : nat) (max : Z) (w : St) : option (result Error Z * St) :=
  let bitLen := BitLen (max - 1) in
  if bitLen =? 0 then Some (Ok 0, w)
  else
    let b := bitLen mod 8 in
    crand_Int_loop fuel (Z.to_nat ((bitLen + 7) / 8)) (if b =? 0 then 8 else b) max w.

Definition maxInt63 : Z := 2 ^ 63.

Definition maxUint64 : Z := (2 ^ 64 - 1) + 1.

(** [i.Int64()] and [i.Uint64()] keep the low 64 bits. *)
Definition Int63 (fuel : nat) (w : St) : option (run (Z * St)) :=
  match crand_Int fuel maxInt63 w with
  | None => None
  | Some (Err _, _) => Some Panic
  | Some (Ok i, w) => Some (Ret (i64 i, w))
  end.

Definition Uint64 (fuel : nat) (w : St) : option (run (Z * St)) :=
  match crand_Int fuel maxUint64 w with
  | None => None
  | Some (Err _, _) => Some Panic
  | Some (Ok i, w) => Some (Ret (u64 i, w))
  end.

Definition Seed (seed : Z) : run unit := Panic.

Lemma big_SetBytes_cons c b :
  big_SetBytes (c :: b) = byte_val c * 256 ^ Z.of_nat (length b) + big_SetBytes b.
Proof.
  change (c :: b) with ([c] ++ b). rewrite big_SetBytes_app. f_equal.
Qed.

Lemma mask_first_value k bytes :
  0 <= k <= 8 -> bytes <> [] ->
  big_SetBytes (mask_first k bytes) = big_SetBytes bytes mod 2 ^ (8 * (Z.of_nat (length bytes) - 1) + k).
Proof.
  intros Hk Hb. destruct bytes as [|c b]; [done|]. cbn [mask_first length].
  rewrite !big_SetBytes_cons, byte_val_of.
  pose proof (byte_val_range c) as Hc. pose proof (big_SetBytes_bound b) as Hr.
  set (m := Z.of_nat (length b)) in *.
  replace (2 ^ k - 1) with (Z.ones k) by (rewrite Z.ones_equiv; lia).
  rewrite Z.land_ones by lia.
  assert (H2k : 0 < 2 ^ k <= 2 ^ 8) by (split; [lia|apply Z.pow_le_mono_r; lia]).
  pose proof (Z.mod_pos_bound (byte_val c) (2 ^ k) ltac:(lia)) as Hm.
  rewrite (Z.mod_small _ 256) by lia.
  replace (2 ^ (8 * (Z.of_nat (S (length b)) - 1) + k)) with (256 ^ m * 2 ^ k).
  2:{ rewrite Z.pow_add_r by lia. f_equal. replace 256 with (2 ^ 8) by done.
      rewrite <- Z.pow_mul_r by lia. f_equal. lia. }
  assert (0 < 256 ^ m) by lia.
  rewrite Z.rem_mul_r by lia.
  rewrite Z.div_add_l, (Z.div_small (big_SetBytes b)), Z.add_0_r by lia.
  rewrite (Z.add_comm (byte_val c * 256 ^ m)), Z_mod_plus_full, (Z.mod_small (big_SetBytes b)) by lia. lia.
Qed.

(** Both methods take one reading of eight bytes and never a second one:
    [Uint64] is its big-endian value, so every value comes from exactly one
    reading, and [Int63] is that value without its top bit, in the range of
    an int63. *)
Theorem source_values `{!RandReaderLaws St Error} n w b w' :
  ReadFull 8 w = (Ok b, w') ->
  Uint64 (S n) w = Some (Ret (big_SetBytes b, w')) /\
  Int63 (S n) w = Some (Ret (big_SetBytes b mod 2 ^ 63, w')) /\
  0 <= big_SetBytes b < 2 ^ 64.
Proof.
  intros E. pose proof (ReadFull_length _ _ _ _ E) as Hl.
  assert (Hb : b <> []) by by intros ->.
  pose proof (big_SetBytes_bound b) as Hr. rewrite Hl in Hr. change (256 ^ Z.of_nat 8) with (2 ^ 64) in Hr.
  pose proof (mask_first_value 8 b ltac:(lia) Hb) as H8. rewrite Hl in H8.
  change (8 * (Z.of_nat 8 - 1) + 8) with 64 in H8. rewrite Z.mod_small in H8 by lia.
  pose proof (mask_first_value 7 b ltac:(lia) Hb) as H7. rewrite Hl in H7.
  change (8 * (Z.of_nat 8 - 1) + 7) with 63 in H7.
  pose proof (Z.mod_pos_bound (big_SetBytes b) (2 ^ 63) ltac:(lia)) as Hm.
  split_and!; [| |lia|lia].
  - unfold Uint64, crand_Int. change (BitLen (maxUint64 - 1)) with 64. cbn [Z.eqb].
    change (Z.to_nat ((64 + 7) / 8)) with 8%nat. change (64 mod 8) with 0. cbn [Z.eqb crand_Int_loop].
    rewrite E, H8. unfold maxUint64. rewrite (proj2 (Z.ltb_lt _ _)) by lia.
    by rewrite u64_small.
  - unfold Int63, crand_Int. change (BitLen (maxInt63 - 1)) with 63. cbn [Z.eqb].
    change (Z.to_nat ((63 + 7) / 8)) with 8%nat. change (63 mod 8) with 7. cbn [Z.eqb crand_Int_loop].
    rewrite E, H7. unfold maxInt63. rewrite (proj2 (Z.ltb_lt _ _)) by lia.
    by rewrite i64_small by lia.
Qed.

(** A reader that fails makes both methods panic. *)
Lemma source_panics n w e w' :
  ReadFull 8 w = (Err e, w') -> Uint64 (S n) w = Some Panic /\ Int63 (S n) w = Some Panic.
Proof.
  intros E. unfold Uint64, Int63, crand_Int.
  change (BitLen (maxUint64 - 1)) with 64. change (BitLen (maxInt63 - 1)) with 63. cbn [Z.eqb].
  change (Z.to_nat ((64 + 7) / 8)) with 8%nat. change (Z.to_nat ((63 + 7) / 8)) with 8%nat.
  cbn [crand_Int_loop]. by rewrite E.
Qed.
End Rand.

(** ** pkg/service/service_context.go *)

Definition ErrServiceUnknown : string := "unknown service".

(** The running services by type.  [service] points to a variable of a type;
    the service found is stored in it, which panics unless it is assignable
    to that type. *)
Definition ServiceContext_Service {Ty Svc : Type} `{Countable Ty} (assignable : Svc -> Ty -> bool)
    (Services : gmap Ty Svc) (element : Ty) : run (result string Svc) :=
  match Services !! element with
  | Some running => if assignable running element then Ret (Ok running) else Panic
  | None => Ret (Err ErrServiceUnknown)
  end.

(** ** A reader of a given text *)
Module Reader.

#[export] Instance text_reader : RandReader (list byte) string :=
  fun k w => if (k <=? length w)%nat then (Ok (take k w), drop k w) else (Err "EOF"%string, w).

#[export] Instance text_reader_laws : RandReaderLaws (list byte) string.
Proof.
  constructor. unfold ReadFull, text_reader. intros k w b w'. destruct (k <=? length w)%nat eqn:E; [|done].
  intros [= <- _]. apply Nat.leb_le in E. rewrite length_take. lia.
Qed.

Lemma source_values_witness :
  Uint64 1 (replicate 9 xff) = Some (Ret (2 ^ 64 - 1, [xff])) /\
  Int63 1 (replicate 9 xff) = Some (Ret (2 ^ 63 - 1, [xff])).
Proof.
  destruct (source_values 0 (replicate 9 xff) (replicate 8 xff) [xff] eq_refl) as (H1 & H2 & _).
  split; [exact H1|exact H2].
Defined.

End Reader.
